(* ===== verification/_CoqProject ===== *)
-Q . S2P
Prelude.v
Util.v
PathJoin.v
Http2.v
UrlParser.v
TimeGm.v
Common.v
FileGenerator.v
Template.v
StringRefs.v
ServeMux.v
Nghttp2.v
Monad.v
Allocator.v
AllocStrings.v
IoServicePool.v
ServerHandler.v
ServerApi.v
ServerProps.v
ServerRequest.v
ServerConnection.v
Server.v
ClientSession.v
ClientApi.v
ClientProps.v
ClientRequest.v
Exchange.v
PoolRace.v
Facade.v
Tls.v
