(* ===== verification/Prelude.v ===== *)
(** * A verification of nghttp2-asio

    nghttp2-asio is a C++ library with which an application serves and requests
    HTTP/2 over Boost.Asio; the protocol itself is done by libnghttp2.  This
    development models the code of the repository that carries its own logic, as
    executable definitions, and proves what makes each part correct.

    ** The program and the files

    - Utilities: lib/util.{h,cc} (file Util: character classes, percent encoding,
      decimal numbers, ALPN selection, [check_path], numeric hosts), lib/template.h
      (Template: literals, comparison and hash of [StringRef] on lists of bytes;
      StringRefs: [StringRef] as an address and a length, with its constructors,
      iterators and operators on the memory behind it), lib/timegm.c with the date of
      util.cc (TimeGm), lib/http2.{h,cc} (Http2: status codes, header tokens, name
      and value pairs; PathJoin: [path_join] with its buffer and cursor),
      third-party/url-parser/url_parser.c (UrlParser: both state machines with
      their 16-bit offsets and lengths), lib/asio_common.{h,cc} (Common: header
      maps, [uri_ref], error codes, body generators, [split_path],
      [host_service_from_uri]; FileGenerator: who owns the descriptor of a file
      generator and when it is closed).
    - Routing: lib/asio_server_serve_mux.cc and asio_server_request_handler.cc
      (ServeMux: [handle], [match], [handler] and the handlers the server makes
      itself).
    - The interface to libnghttp2, which is not part of the repository (Nghttp2:
      frames, the calls the code makes, the class [Nghttp2] of their return values
      and the class [Nghttp2Laws] of the documented behaviour that is relied on,
      with an instance).  Monad has the state monad with failures in which the
      stateful parts are written, and its weakest preconditions.
    - The server: asio_server_http2_handler.{h,cc}, asio_server_response_impl.cc,
      asio_server_request_impl.cc and asio_server_stream.cc are ServerHandler, one
      record [http2_handler] with its streams, one definition per member function
      and per callback; asio_server_connection.h is ServerConnection, the socket
      loop around a handler with its timer.  ServerProps and ServerRequest hold the
      theorems about the handler.  asio_io_service_pool.cc is IoServicePool, and
      PoolRace its [get_io_service] access by access, called from several threads;
      asio_server.cc is Server, the acceptors and the connections they start, each
      in its phase: accepting, in the handshake, running; and the services whose
      thread an exception has ended.
    - The block allocator: lib/allocator.h is Allocator, with the memory behind the
      blocks as a map from addresses to bytes; [new] is the class [New] with its
      laws [NewLaws] and an instance.  AllocStrings has the functions of http2.cc, util.h and
      asio_server_request_handler.cc that work in its memory through pointers.
    - The client: asio_client_session_impl.{h,cc}, asio_client_request_impl.cc,
      asio_client_response_impl.cc, asio_client_stream.cc and the two transports
      asio_client_session_{tcp,tls}_impl.cc are ClientSession; ClientProps and
      ClientRequest hold the theorems.
    - What the application holds: asio_server_http2.cc, asio_server_http2_impl.cc and
      asio_client_session.cc are Facade; asio_server_request.cc and
      asio_server_response.cc are ServerApi, asio_client_request.cc,
      asio_client_response.cc and the other members of asio_client_session.cc are
      ClientApi.  Tls has the functions of asio_server_tls_context.cc and
      asio_client_tls_context.cc that configure a context, with their callbacks
      and protocol lists.
    - Exchange puts a client and a server together.

    An acceptor of the server makes a connection, gives it a service of the pool and
    starts it when it is accepted or its handshake has negotiated HTTP/2.  A
    connection of the server hands the bytes it reads to its handler, whose
    callbacks build requests and pass them to the router, whose handlers answer
    through the response operations; these submit to the library and signal a
    write, which is posted and run by the connection.  A session of the client
    does the same with requests and responses exchanged, and writes at once unless
    one of its callbacks is running.

    ** Conventions

    A byte is an [ascii], a string a list of them, an integer a [Z] with the
    wrap-around of its width written out where the code can reach it.  A routine
    that can read or write out of bounds, overflow a signed integer or fail an
    assertion returns [option], [presult] or an outcome of the monad, and a theorem
    shows that it does not.  [std::map] is a [gmap] in the stateful parts and an
    association list where the order matters.  The memory that a pointer of the
    library refers to is part of the state, so that output kept for the next write
    is read when the code reads it.

    The application is an argument of the stateful definitions: the calls it makes
    whenever one of its callbacks runs, as a function of the whole state (for the
    client as a program that sees the results of its calls).  ServerApi and ClientApi
    show that this is no less general than a program over the public members whose
    next step depends on what it has seen.  So is what the
    library does: the callbacks it invokes in each call, the bytes it produces,
    whether it wants to read or write.  An execution is a list of steps, each the
    completion of an asynchronous operation, a posted task, a timer or a call of
    the application; the theorems hold for every such list in which the library
    opens no stream twice, promises even ids and produces chunks of output that
    fit the 64 KiB buffers.

    Most loops are structural recursions over the bytes, fields or calls of the
    library that are left.  The loop of [path_join] has a counter that starts at
    the length of the relative path, of which every turn eats at least one byte;
    [None] stands for a counter that runs out, and [path_join] is shown never to
    return [None].  The loops of [utos] are bounded by the number of bits of [n],
    and [utos_spec] shows that all digits are written.

    ** What the theorems show

    - Server: no assertion fails, no buffer overflows, callbacks do not nest; one
      response and one close notification per stream, whatever the order of
      [write_head], [end], [push] and the sending of promises; the request that a
      header block builds and the calls that answering makes; 64 KiB of header
      fields at most; what is written to the socket is what the library produced,
      and the buffer of a pending write is not touched; an idle connection is closed
      by its timer, of which one wait is pending as long as it runs.
    - The whole server: from any configuration on, every open acceptor waits for
      exactly one connection and every connection keeps its invariant, over both
      transports; after [stop] and the completion of what is pending, [join]
      returns or throws the exception that has ended a service, and the server can
      be destroyed, which a server that was not stopped cannot; what becomes of a
      service whose acceptor fails to set an option, and of a [stop] whose close
      fails; round robin as long as calls of [get_io_service] do not overlap, and what
      two overlapping ones can do; the error code and the acceptors of [bind_and_listen];
      which handshakes lead to a connection; socket options that cannot be set.
    - Client and server together: a request, its body, a response with its body and a
      pushed request arrive as they were given, and a whole exchange runs from
      [submit] to the last piece of the response.  The theorems assume of
      libnghttp2 that header fields arrive in order, in lower case and with their
      never-index flag, and the bytes of a body in order, in any pieces.
    - Allocator: allocations are apart from each other and inside the blocks, and
      the string functions refine a store of strings; [path_join], [utos],
      [stringify_status] and [create_html] compute in that memory what their
      definitions on lists say, inside the allocation they made.
    - Client: the same safety and byte fidelity, also for calls of the application
      inside and outside callbacks and for every order of completions; the request
      that [submit] makes of a URI; the response that is delivered; one close
      notification per request; a session that is not stopped has a deadline that
      stops it.
    - Router: the longest matching pattern wins, host patterns before path
      patterns, unclean paths are redirected to clean ones in at most two steps,
      what a registration changes, the server's own answers.
    - Paths and URLs: [path_join] is memory safe and equals a reference on lists,
      its results contain no dot components, it resolves paths as a file system
      does; the URL parser is memory safe and inverts printing.
    - Resources and configuration: the descriptor of a file is open exactly while a
      generator for it exists; configured TLS contexts request what they should, and a
      client and a server that are configured by this library agree on HTTP/2.
    - Utilities: round trips of percent encoding, decimal numbers and dates, the
      header token tree is a table lookup, the hash is FNV-1a, header maps stay
      sorted, the generators deliver their data; the pointer operations of [StringRef]
      are those of strings.

    Some theorems state behaviour that differs from what the code or its comments
    intend: an explicit registration lost to an implicit redirect, the final
    response after an informational one, a stream closed while it is submitted, the
    stream reset for an oversized promise, 16-bit lengths of long URLs, paths that
    need two passes of cleaning, [hex_to_uint] on other bytes, the exceptions of socket
    options and of [close], the cursor of the pool that accept handlers share without a lock.

    ** What is not modelled

    Boost.Asio, OpenSSL, libnghttp2, [new] and the system calls are arguments.  Steps
    of different services are interleaved, each step being one handler; data races
    between threads are not modelled, except on the cursor of the pool, which PoolRace
    reads and writes access by access (in some order: what the hardware may do with
    unordered accesses is left out).  An exception of [set_option] ends the thread of a
    service of the server, and the handler of the client in which it occurs; nothing
    restarts the thread, so what was pending on that service stays pending.  In PathJoin, Http2 and
    Util the allocator appears as fresh buffers of the size asked for; AllocStrings
    closes that gap for the functions that use it.  A header block and the pieces of a
    body appear as the callbacks of the two ends, not as bytes on a connection: HPACK
    and framing are the library's.  Not modelled: the accessors of [io_service] objects,
    which only return references; [make_array] and [str_size], which the compiler
    evaluates; and declarations without code in the headers. *)

From Stdlib Require Export Ascii String ZArith Lia.
From stdpp Require Export base list strings gmap sorting.

#[global] Open Scope Z_scope.
#[global] Open Scope list_scope.

(** ** Bytes and strings

    A [char] or [uint8_t] is an [ascii]; a [std::string], a [StringRef] or a
    byte buffer is a list of them.  [code] is the value of a byte as
    [unsigned char], [scode] its value as a (signed) [char], which is what the
    comparisons and subtractions on [char] in util.cc see after promotion. *)

Abbreviation str := (list ascii).

Definition code (c : ascii) : Z := Z.of_N (N_of_ascii c).

Definition scode (c : ascii) : Z :=
  if code c <? 128 then code c else code c - 256.

(** Conversion back to a byte keeps the low 8 bits, as an assignment to
    [char] or [uint8_t] does. *)
Definition chr (z : Z) : ascii := ascii_of_N (Z.to_N (z mod 256)).

(** A string literal. *)
Definition lit (s : string) : str := list_ascii_of_string s.

Declare Scope asio_scope.
Delimit Scope asio_scope with asio.
Notation "c =c d" := (bool_decide (c = d)) (at level 70, no associativity) : asio_scope.
Notation "s =s t" := (bool_decide (s = t)) (at level 70, no associativity) : asio_scope.
#[global] Open Scope asio_scope.

(** ** Machine integers *)

Definition wrap_u (w z : Z) : Z := z mod 2 ^ w.
Definition wrap_s (w z : Z) : Z := (z + 2 ^ (w - 1)) mod 2 ^ w - 2 ^ (w - 1).

Definition INT32_MAX : Z := 2147483647.
Definition INT64_MAX : Z := 9223372036854775807.
Definition UINT32_MAX : Z := 4294967295.
Definition SIZE_MAX : Z := 18446744073709551615.

Lemma wrap_u_small w z : 0 <= w -> 0 <= z < 2 ^ w -> wrap_u w z = z.
Proof. intros _ H. by apply Z.mod_small. Qed.

Lemma wrap_u_range w z : 0 <= w -> 0 <= wrap_u w z < 2 ^ w.
Proof. intros H. apply Z.mod_pos_bound. lia. Qed.

Lemma wrap_s_small w z : 0 < w -> - 2 ^ (w - 1) <= z < 2 ^ (w - 1) -> wrap_s w z = z.
Proof.
  intros Hw Hz. unfold wrap_s.
  assert (2 ^ w = 2 * 2 ^ (w - 1)) as E
    by (rewrite <- Z.pow_succ_r by lia; f_equal; lia).
  rewrite Z.mod_small; lia.
Qed.

(** ** Facts about bytes *)

Lemma code_range c : 0 <= code c < 256.
Proof.
  unfold code. pose proof (N_ascii_bounded c). lia.
Qed.

Lemma code_inj c d : code c = code d -> c = d.
Proof.
  unfold code. intros H. apply N2Z.inj in H.
  rewrite <- (ascii_N_embedding c), <- (ascii_N_embedding d). by rewrite H.
Qed.

Lemma code_chr z : code (chr z) = z mod 256.
Proof.
  unfold code, chr. pose proof (Z.mod_pos_bound z 256 ltac:(lia)).
  rewrite N_ascii_embedding; lia.
Qed.

Lemma code_chr_small z : 0 <= z < 256 -> code (chr z) = z.
Proof. intros H. rewrite code_chr. by apply Z.mod_small. Qed.

Lemma chr_code c : chr (code c) = c.
Proof. apply code_inj. rewrite code_chr_small; [done|]. apply code_range. Qed.

(** Checking a decidable property of all 256 bytes by computation. *)
Definition all_ascii : list ascii := map (fun n => chr (Z.of_nat n)) (seq 0 256).

Lemma elem_of_all_ascii c : c ∈ all_ascii.
Proof.
  unfold all_ascii. apply list_elem_of_In, in_map_iff.
  pose proof (code_range c). exists (Z.to_nat (code c)). split.
  - rewrite Z2Nat.id by lia. apply chr_code.
  - apply in_seq. lia.
Qed.

Lemma ascii_forall (P : ascii -> bool) : forallb P all_ascii = true -> forall c, P c = true.
Proof.
  intros H c. rewrite forallb_forall in H. apply H, list_elem_of_In, elem_of_all_ascii.
Qed.

Lemma ascii_forall2 (P : ascii -> ascii -> bool) :
  forallb (fun c => forallb (P c) all_ascii) all_ascii = true -> forall c d, P c d = true.
Proof. intros H c d. by apply ascii_forall, (ascii_forall (fun c => forallb (P c) all_ascii)). Qed.

(** ** Tactics of the development *)

(** Turn boolean conditions of the code into propositions. *)
Ltac boolp :=
  repeat match goal with
  | H : andb _ _ = true |- _ => apply andb_true_iff in H as [? ?]
  | H : orb _ _ = false |- _ => apply orb_false_iff in H as [? ?]
  | H : negb _ = true |- _ => apply negb_true_iff in H
  | H : negb _ = false |- _ => apply negb_false_iff in H
  | H : bool_decide _ = true |- _ => apply bool_decide_eq_true in H
  | H : bool_decide _ = false |- _ => apply bool_decide_eq_false in H
  | H : Z.leb _ _ = true |- _ => apply Z.leb_le in H
  | H : Z.leb _ _ = false |- _ => apply Z.leb_gt in H
  | H : Z.ltb _ _ = true |- _ => apply Z.ltb_lt in H
  | H : Z.ltb _ _ = false |- _ => apply Z.ltb_ge in H
  | H : Z.eqb _ _ = true |- _ => apply Z.eqb_eq in H
  | H : Z.eqb _ _ = false |- _ => apply Z.eqb_neq in H
  end.

(** Split on the condition of an [if] of the goal. *)
Ltac case_if :=
  match goal with
  | |- context [if ?b then _ else _] => let E := fresh "E" in destruct b eqn:E; boolp
  end.

(** Split on the condition of an [if] in a hypothesis. *)
Ltac case_if_in H :=
  match type of H with
  | context [if ?b then _ else _] => let E := fresh "E" in destruct b eqn:E; boolp
  end.

(** A decidable fact about one byte, by checking all of them. *)
Ltac by_bytes c :=
  pattern c;
  match goal with
  | |- ?P c =>
    let H := fresh in
    assert (forall d, bool_decide (P d) = true) as H
      by (apply ascii_forall; vm_compute; reflexivity);
    specialize (H c); apply bool_decide_eq_true in H; exact H
  end.

Create HintDb asio.
#[export] Hint Resolve code_range elem_of_all_ascii : asio.

(** ** Splitting a path at its slashes

    [segments "/a//b"] is [""; "a"; ""; "b"]: the reference notion of path
    component that the statements about [check_path] and [path_join] use. *)

Fixpoint segments (s : str) : list str :=
  match s with
  | [] => [[]]
  | c :: s' =>
    if c =c "/"%char then [] :: segments s'
    else match segments s' with
         | h :: t => (c :: h) :: t
         | [] => [[c]]
         end
  end.

Definition slash_free (s : str) : Prop := "/"%char ∉ s.

Lemma segments_ne s : segments s <> [].
Proof.
  destruct s as [|c s]; simpl; [done|]. case_if; [done|]. by destruct (segments s).
Qed.

Lemma segments_slash s : segments ("/"%char :: s) = [] :: segments s.
Proof. reflexivity. Qed.

Lemma segments_cons c s h t :
  c <> "/"%char -> segments s = h :: t -> segments (c :: s) = (c :: h) :: t.
Proof. intros Hc E. simpl. rewrite bool_decide_eq_false_2 by done. by rewrite E. Qed.

(** Splitting commutes with appending after a slash. *)
Lemma segments_app_slash a b :
  segments (a ++ "/"%char :: b) = segments a ++ segments b.
Proof.
  induction a as [|c a IH]; [done|]. cbn [app segments]. rewrite IH.
  case_if; [done|]. pose proof (segments_ne a). by destruct (segments a).
Qed.

Lemma segments_slash_free s : slash_free s -> segments s = [s].
Proof.
  unfold slash_free. induction s as [|c s IH]; [done|]. intros H.
  rewrite not_elem_of_cons in H. destruct H as [Hc Hs].
  erewrite segments_cons; [reflexivity|done|auto].
Qed.

Lemma segments_are_slash_free s seg : seg ∈ segments s -> slash_free seg.
Proof.
  unfold slash_free. revert seg. induction s as [|c s IH]; intros seg.
  - simpl. rewrite list_elem_of_singleton. intros ->. apply not_elem_of_nil.
  - simpl. pose proof (segments_ne s). case_if.
    + rewrite elem_of_cons. intros [->|Hin]; [apply not_elem_of_nil|auto].
    + destruct (segments s) as [|h t]; [done|].
      rewrite elem_of_cons. intros [->|Hin].
      * rewrite not_elem_of_cons. split; [done|]. apply IH. by left.
      * apply IH. by right.
Qed.

(** A segment other than the first one is what stands between a slash and the
    next slash or the end. *)
Lemma segments_tail_inv s seg :
  seg ∈ tail (segments s) ->
  (exists pre, s = pre ++ "/"%char :: seg)
  \/ (exists pre post, s = pre ++ "/"%char :: seg ++ "/"%char :: post).
Proof.
  assert (forall s h t, segments s = h :: t ->
            s = h \/ exists post, s = h ++ "/"%char :: post /\ segments post = t) as Hhd.
  { clear. induction s as [|c s IH]; intros h t; simpl.
    - intros [= <- <-]. by left.
    - pose proof (segments_ne s). case_if.
      + intros [= <- <-]. right. exists s. subst c. auto.
      + destruct (segments s) as [|h' t'] eqn:Es; [done|]. intros [= <- <-].
        destruct (IH _ _ eq_refl) as [->|(post & -> & ?)]; [by left|].
        right. by exists post. }
  revert seg. induction s as [|c s IH]; intros seg; simpl; [by rewrite elem_of_nil|].
  pose proof (segments_ne s). case_if; cbn [tail].
  - subst c. destruct (segments s) as [|h t] eqn:Es; [done|].
    rewrite elem_of_cons. intros [->|Hin].
    + destruct (Hhd _ _ _ Es) as [->|(post & -> & _)].
      * left. by exists [].
      * right. by exists [], post.
    + destruct (IH _ Hin) as [(pre & ->)|(pre & post & ->)].
      * left. by exists ("/"%char :: pre).
      * right. by exists ("/"%char :: pre), post.
  - destruct (segments s) as [|h t] eqn:Es; [done|]. cbn [tail]. intros Hin.
    destruct (IH _ Hin) as [(pre & ->)|(pre & post & ->)].
    + left. by exists (c :: pre).
    + right. by exists (c :: pre), post.
Qed.

Lemma segments_tail_end pre seg :
  slash_free seg -> seg ∈ tail (segments (pre ++ "/"%char :: seg)).
Proof.
  intros H. rewrite segments_app_slash, (segments_slash_free seg) by done.
  pose proof (segments_ne pre). destruct (segments pre) as [|h t]; [done|].
  simpl. apply elem_of_app. right. by apply list_elem_of_singleton.
Qed.

Lemma segments_tail_mid pre seg post :
  slash_free seg -> seg ∈ tail (segments (pre ++ "/"%char :: seg ++ "/"%char :: post)).
Proof.
  intros H. rewrite !segments_app_slash, (segments_slash_free seg) by done.
  pose proof (segments_ne pre). destruct (segments pre) as [|h t]; [done|].
  simpl. apply elem_of_app. right. by left.
Qed.
