(* ===== verification/Util.v ===== *)
(** * Utilities: lib/util.h, lib/util.cc

    Character classes, percent encoding, number formatting and parsing, path
    validation and ALPN protocol selection.  Iterator loops over a string are
    recursions over the rest of the string; a returned pointer into an input
    buffer is its offset. *)

From S2P Require Import Prelude.

Module util.

(** ** Character classes *)

Definition is_alpha (c : ascii) : bool :=
  ((scode "A" <=? scode c) && (scode c <=? scode "Z"))
  || ((scode "a" <=? scode c) && (scode c <=? scode "z")).

Definition is_digit (c : ascii) : bool :=
  (scode "0" <=? scode c) && (scode c <=? scode "9").

Definition is_hex_digit (c : ascii) : bool :=
  is_digit c
  || ((scode "A" <=? scode c) && (scode c <=? scode "F"))
  || ((scode "a" <=? scode c) && (scode c <=? scode "f")).

(** [std::find(begin, end, c) != end] *)
Definition contains (c : ascii) (s : str) : bool := existsb (fun d => d =c c) s.

Definition unreserved : str := ["-"; "."; "_"; "~"]%char.

Definition in_rfc3986_unreserved_chars (c : ascii) : bool :=
  is_alpha c || is_digit c || contains c unreserved.

Definition sub_delims : str :=
  ["!"; "$"; "&"; "'"; "("; ")"; "*"; "+"; ","; ";"; "="]%char.

Definition in_rfc3986_sub_delims (c : ascii) : bool := contains c sub_delims.

(** ** Percent encoding *)

Definition UPPER_XDIGITS : str := lit "0123456789ABCDEF".

(** [UPPER_XDIGITS[i]]; the callers mask [i] to four bits. *)
Definition xdigit (i : Z) : ascii := nth (Z.to_nat i) UPPER_XDIGITS "000"%char.

Fixpoint percent_encode_path (s : str) : str :=
  match s with
  | [] => []
  | c :: s' =>
    if in_rfc3986_unreserved_chars c || in_rfc3986_sub_delims c || (c =c "/"%char)
    then c :: percent_encode_path s'
    else "%"%char
           :: xdigit (Z.land (Z.shiftr (scode c) 4) 15)
           :: xdigit (Z.land (scode c) 15)
           :: percent_encode_path s'
  end.

(** The result is [uint32_t]: the differences are taken in [int] and
    converted. *)
Definition hex_to_uint (c : ascii) : Z :=
  if scode c <=? scode "9" then wrap_u 32 (scode c - scode "0")
  else if scode c <=? scode "Z" then wrap_u 32 (scode c - scode "A" + 10)
  else if scode c <=? scode "z" then wrap_u 32 (scode c - scode "a" + 10)
  else 256.

(** The byte written for the two digits of an escape: [uint32_t] arithmetic,
    then the assignment to [char]. *)
Definition decode_escape (h l : ascii) : ascii :=
  chr (wrap_u 32 (wrap_u 32 (Z.shiftl (hex_to_uint h) 4) + hex_to_uint l)).

Fixpoint percent_decode (s : str) : str :=
  match s with
  | [] => []
  | c :: s' =>
    if negb (c =c "%"%char) then c :: percent_decode s'
    else
      match s' with
      | h :: l :: s'' =>
        if is_hex_digit h && is_hex_digit l
        then decode_escape h l :: percent_decode s''
        else c :: percent_decode s'
      | _ => c :: percent_decode s'
      end
  end.

(** ** Comparing strings *)

(** [std::equal(first, last, p)]: compares [key] with as many bytes of [p]
    ([p] is known to be long enough where the code calls it). *)
Definition equal_at (key p : str) : bool := take (length key) p =s key.

Definition starts_with (a b : str) : bool :=
  if (length a <? length b)%nat then false else equal_at b a.

Definition ends_with (a b : str) : bool :=
  if (length a <? length b)%nat then false
  else equal_at b (drop (length a - length b) a).

Definition streq (a b : str) : bool :=
  if negb (length a =? length b)%nat then false else equal_at a b.

(** [streq_l(lit, b, blen)] compares a literal with the first [blen] bytes
    at [b]. *)
Definition streq_l (a : string) (b : str) (blen : nat) : bool :=
  streq (lit a) (take blen b).

(** ** Numbers *)

(** [(n % 10) + '0'], stored in a [char] *)
Definition digit_char (n : Z) : ascii := chr (n mod 10 + code "0").

(** [for (auto t = n; t; t /= 10, ++nlen);] *)
Fixpoint utos_nlen (fuel : nat) (t : Z) (nlen : nat) : nat :=
  match fuel with
  | O => nlen
  | S fuel => if t =? 0 then nlen else utos_nlen fuel (t / 10) (S nlen)
  end.

(** [for (; n; n /= 10) res[--nlen] = (n % 10) + '0';] *)
Fixpoint utos_fill (fuel : nat) (n : Z) (nlen : nat) (res : str) : str :=
  match fuel with
  | O => res
  | S fuel =>
    if n =? 0 then res
    else utos_fill fuel (n / 10) (nlen - 1)%nat (<[(nlen - 1)%nat := digit_char n]> res)
  end.

(** A loop that divides by 10 until 0 runs at most as often as [n] has bits. *)
Definition utos_fuel (n : Z) : nat := S (Z.to_nat (Z.log2 n)).

Definition utos (n : Z) : str :=
  if n =? 0 then lit "0"
  else
    let nlen := utos_nlen (utos_fuel n) n 0 in
    utos_fill (utos_fuel n) n nlen (replicate nlen "000"%char).

(** The loop of [parse_uint_digits]: [None] is the early return [{-1, 0}]. *)
Fixpoint parse_uint_loop (s : str) (n : Z) (i : nat) : option (Z * nat) :=
  match s with
  | [] => Some (n, i)
  | c :: s' =>
    if (code "0" <=? code c) && (code c <=? code "9") then
      if INT64_MAX / 10 <? n then None
      else
        let n := n * 10 in
        if INT64_MAX - (code c - code "0") <? n then None
        else parse_uint_loop s' (n + (code c - code "0")) (S i)
    else Some (n, i)
  end.

Definition parse_uint_digits (s : str) : Z * nat :=
  if (length s =? 0)%nat then (-1, 0%nat)
  else
    match parse_uint_loop s 0 0 with
    | None => (-1, 0%nat)
    | Some (n, i) => if (i =? 0)%nat then (-1, 0%nat) else (n, i)
    end.

Definition parse_uint (s : str) : Z :=
  let '(n, i) := parse_uint_digits s in
  if (n =? -1) || negb (i =? length s)%nat then -1 else n.

(** ** Path validation *)

(** [s.find(pat) != npos] *)
Fixpoint has_substr (pat s : str) : bool :=
  starts_with s pat || match s with [] => false | _ :: s' => has_substr pat s' end.

Definition check_path (path : str) : bool :=
  match path with
  | [] => false
  | c :: _ =>
    (c =c "/"%char)
    && negb (contains "\"%char path)
    && negb (has_substr (lit "/../") path)
    && negb (has_substr (lit "/./") path)
    && negb (ends_with path (lit "/.."))
    && negb (ends_with path (lit "/."))
  end.

(** ** ALPN *)

Definition NGHTTP2_H2 : str := lit "h2".
Definition NGHTTP2_H2_16 : str := lit "h2-16".
Definition NGHTTP2_H2_14 : str := lit "h2-14".
Definition NGHTTP2_H2_ALPN : str := "002"%char :: lit "h2".
Definition NGHTTP2_H2_16_ALPN : str := "005"%char :: lit "h2-16".
Definition NGHTTP2_H2_14_ALPN : str := "005"%char :: lit "h2-14".

Definition check_h2_is_selected (proto : str) : bool :=
  streq NGHTTP2_H2 proto || streq NGHTTP2_H2_16 proto || streq NGHTTP2_H2_14 proto.

(** The loop of [select_proto]; [p] is the rest of the buffer from the
    pointer [p], [off] the pointer's offset.  The result is the offset and
    length stored through [out] and [outlen]. *)
Fixpoint select_proto_loop (fuel : nat) (off : nat) (p key : str) : option (nat * nat) :=
  match fuel with
  | O => None
  | S fuel =>
    if (length key <=? length p)%nat then
      if equal_at key p then Some (S off, Z.to_nat (code (nth 0 p "000"%char)))
      else
        let step := S (Z.to_nat (code (nth 0 p "000"%char))) in
        select_proto_loop fuel (off + step) (drop step p) key
    else None
  end.

(** Each step advances by at least one byte, so [length inb] steps reach the
    end. *)
Definition select_proto (inb key : str) : option (nat * nat) :=
  select_proto_loop (S (length inb)) 0 inb key.

Definition select_h2 (inb : str) : option (nat * nat) :=
  match select_proto inb NGHTTP2_H2_ALPN with
  | Some r => Some r
  | None =>
    match select_proto inb NGHTTP2_H2_16_ALPN with
    | Some r => Some r
    | None => select_proto inb NGHTTP2_H2_14_ALPN
    end
  end.

Definition get_default_alpn : str :=
  NGHTTP2_H2_ALPN ++ NGHTTP2_H2_16_ALPN ++ NGHTTP2_H2_14_ALPN.

(** ** Numeric hosts

    [inet_pton] is an argument: given the family and the text, its result. *)
Definition AF_INET : Z := 2.
Definition AF_INET6 : Z := 10.

Definition numeric_host_family (inet_pton : Z -> str -> Z) (hostname : str) (family : Z) : bool :=
  inet_pton family hostname =? 1.

Definition numeric_host (inet_pton : Z -> str -> Z) (hostname : str) : bool :=
  numeric_host_family inet_pton hostname AF_INET || numeric_host_family inet_pton hostname AF_INET6.

Definition ipv6_numeric_addr (inet_pton : Z -> str -> Z) (host : str) : bool := inet_pton AF_INET6 host =? 1.

(** [dtos] of a number that is not negative, given [m = llround(100. * n)]; [/] and
    [%] round towards zero. *)
Definition dtos (m : Z) : str :=
  let f := utos (Z.rem m 100) in
  utos (Z.quot m 100) ++ lit "." ++ (if (length f =? 1)%nat then lit "0" else []) ++ f.

(** ** Percent encoding: round trip and output alphabet *)

(** A byte is copied by [percent_encode_path] unless it is escaped. *)
Definition path_literal (c : ascii) : bool :=
  in_rfc3986_unreserved_chars c || in_rfc3986_sub_delims c || (c =c "/"%char).

Lemma path_literal_not_percent c : path_literal c = true -> c <> "%"%char.
Proof. intros H ->. by vm_compute in H. Qed.

Lemma escape_decodes c :
  let h := xdigit (Z.land (Z.shiftr (scode c) 4) 15) in
  let l := xdigit (Z.land (scode c) 15) in
  is_hex_digit h && is_hex_digit l = true /\ decode_escape h l = c.
Proof. by_bytes c. Qed.

Lemma decode_encode (s : str) : percent_decode (percent_encode_path s) = s.
Proof.
  induction s as [|c s IH]; [done|]. cbn [percent_encode_path].
  fold (path_literal c). destruct (path_literal c) eqn:E.
  - apply path_literal_not_percent in E. cbn [percent_decode].
    rewrite bool_decide_eq_false_2 by done. cbn. by rewrite IH.
  - destruct (escape_decodes c) as [Hhex Hdec]. cbn [percent_decode].
    rewrite bool_decide_eq_true_2 by done. cbn [negb]. by rewrite Hhex, Hdec, IH.
Qed.

(** Decoding undoes encoding: for every byte string, including bytes above
    0x7f (negative as [char]) and literal percent signs,
    [percent_decode(percent_encode_path(s))] is [s].  The redirects that
    [serve_mux] sends are therefore read back as the path they were made from. *)
Theorem percent_decode_encode (s : str) : percent_decode (percent_encode_path s) = s.
Proof. apply decode_encode. Qed.

(** Every byte of an encoded path is a URI path character or part of an
    escape. *)
Definition uri_path_char (c : ascii) : bool := path_literal c || (c =c "%"%char).

Lemma xdigit_uri_char c : uri_path_char (xdigit (Z.land c 15)) = true.
Proof.
  assert (forall n, (n < 16)%nat -> uri_path_char (nth n UPPER_XDIGITS "000"%char) = true) as H.
  { intros n Hn. do 16 (destruct n as [|n]; [reflexivity|]). lia. }
  apply H. change 15 with (Z.ones 4). rewrite Z.land_ones by lia.
  pose proof (Z.mod_pos_bound c (2 ^ 4) ltac:(lia)). lia.
Qed.

Lemma percent_encode_alphabet s : Forall (fun c => uri_path_char c = true) (percent_encode_path s).
Proof.
  induction s as [|c s IH]; [constructor|]. cbn [percent_encode_path].
  fold (path_literal c). destruct (path_literal c) eqn:E.
  - constructor; [|done]. unfold uri_path_char. by rewrite E.
  - repeat constructor; auto using xdigit_uri_char.
Qed.

Lemma percent_decode_length s : (length (percent_decode s) <= length s)%nat.
Proof.
  remember (length s) as n eqn:Hn. rewrite Hn.
  assert (length s <= n)%nat as Hle by lia. clear Hn. revert s Hle.
  induction n as [|n IH]; intros s Hle.
  - destruct s; simpl in *; lia.
  - destruct s as [|c s]; [simpl; lia|]. cbn [percent_decode length] in *.
    assert (length (percent_decode s) <= length s)%nat by (apply IH; lia).
    case_if; cbn [length]; [lia|].
    destruct s as [|h [|l s'']]; cbn [length] in *; try lia.
    case_if; cbn [length] in *; [|lia].
    assert (length (percent_decode s'') <= length s'')%nat by (apply IH; lia). lia.
Qed.

(** What [hex_to_uint] returns: the value of a hexadecimal digit, between
    0 and 15.  For other bytes it is not always the 256 that util.h announces:
    ['g'] gives 16, a byte below ['0'] a value above 2^31. *)
Theorem hex_to_uint_spec :
  (forall c, is_hex_digit c = true -> 0 <= hex_to_uint c <= 15)
  /\ hex_to_uint "g" = 16 /\ hex_to_uint "/" = UINT32_MAX
  /\ (forall c, is_hex_digit c = false -> hex_to_uint c = 256 -> scode "z" < scode c).
Proof.
  split; [|split; [reflexivity|split; [reflexivity|]]].
  - intros c. by_bytes c.
  - intros c. by_bytes c.
Qed.

(** ** Numbers: reference notions *)

Definition digit_val (c : ascii) : Z := code c - code "0".

(** The value of a string of decimal digits. *)
Definition decimal_from (n : Z) (s : str) : Z := fold_left (fun n c => n * 10 + digit_val c) s n.
Definition decimal_value (s : str) : Z := decimal_from 0 s.

(** The decimal digits of [n], most significant first, none for 0. *)
Fixpoint digits (fuel : nat) (n : Z) : str :=
  match fuel with
  | O => []
  | S fuel => if n =? 0 then [] else digits fuel (n / 10) ++ [digit_char n]
  end.

Lemma is_digit_code c :
  is_digit c = (code "0" <=? code c) && (code c <=? code "9").
Proof. by_bytes c. Qed.

Lemma is_digit_val c : is_digit c = true -> 0 <= digit_val c <= 9.
Proof.
  rewrite is_digit_code. unfold digit_val. change (code "0") with 48.
  change (code "9") with 57. intros H. boolp. lia.
Qed.

Lemma digit_char_val n : digit_val (digit_char n) = n mod 10.
Proof.
  unfold digit_val, digit_char. pose proof (Z.mod_pos_bound n 10 ltac:(lia)).
  change (code "0") with 48. rewrite code_chr_small; lia.
Qed.

Lemma digit_char_is_digit n : is_digit (digit_char n) = true.
Proof.
  rewrite is_digit_code. unfold digit_char. pose proof (Z.mod_pos_bound n 10 ltac:(lia)).
  change (code "0") with 48. change (code "9") with 57. rewrite code_chr_small by lia.
  apply andb_true_iff. split; apply Z.leb_le; lia.
Qed.

Lemma decimal_from_app n s t : decimal_from n (s ++ t) = decimal_from (decimal_from n s) t.
Proof. unfold decimal_from. apply fold_left_app. Qed.

(** Dividing by 10 exhausts [utos_fuel]: the remaining bits shrink. *)
Lemma div10_log2 n : 0 < n -> n / 10 = 0 \/ (0 < n / 10 /\ Z.log2 (n / 10) < Z.log2 n).
Proof.
  intros Hn. destruct (Z.eq_dec (n / 10) 0) as [|Hne]; [by left|right].
  assert (0 < n / 10) as Hpos by (pose proof (Z.div_pos n 10); lia). split; [done|].
  assert (n / 10 <= n / 2) as Hle by (apply Z.div_le_compat_l; lia).
  assert (Z.log2 (n / 2) = Z.log2 n - 1) as El.
  { rewrite <- Z.div2_div, Z.div2_spec, Z.log2_shiftr by lia.
    assert (1 <= n / 10) by lia. assert (10 <= n) by (pose proof (Z.mul_div_le n 10); lia).
    pose proof (Z.log2_le_mono 2 n ltac:(lia)). change (Z.log2 2) with 1 in *. lia. }
  pose proof (Z.log2_le_mono _ _ Hle). lia.
Qed.

Lemma digits_enough fuel n :
  0 <= n -> (Z.to_nat (Z.log2 n) < fuel)%nat -> decimal_value (digits fuel n) = n.
Proof.
  revert n. induction fuel as [|fuel IH]; intros n Hn Hf; [lia|]. cbn [digits].
  case_if; [by subst|]. unfold decimal_value. rewrite decimal_from_app.
  fold (decimal_value (digits fuel (n / 10))).
  assert (decimal_value (digits fuel (n / 10)) = n / 10) as ->.
  { destruct (div10_log2 n ltac:(lia)) as [E0|[? ?]].
    - rewrite E0. by destruct fuel.
    - apply IH; [lia|]. pose proof (Z.log2_nonneg (n / 10)). lia. }
  cbn [decimal_from fold_left]. rewrite digit_char_val.
  pose proof (Z.div_mod n 10). lia.
Qed.

Lemma digits_are_digits fuel n : Forall (fun c => is_digit c = true) (digits fuel n).
Proof.
  revert n. induction fuel as [|fuel IH]; intros n; cbn [digits]; [done|].
  case_if; [done|]. apply Forall_app. split; [apply IH|].
  constructor; [apply digit_char_is_digit|done].
Qed.

Lemma digits_no_leading_zero fuel n c t :
  0 <= n -> (Z.to_nat (Z.log2 n) < fuel)%nat -> digits fuel n = c :: t -> c <> "0"%char.
Proof.
  revert n t. induction fuel as [|fuel IH]; intros n t Hn Hf; [lia|]. cbn [digits].
  case_if; [done|]. destruct (div10_log2 n ltac:(lia)) as [E0|[? ?]].
  - rewrite E0. replace (digits fuel 0) with (@nil ascii) by (by destruct fuel).
    intros [= <- _] Hc. apply (f_equal digit_val) in Hc. rewrite digit_char_val in Hc.
    change (digit_val "0") with 0 in Hc. pose proof (Z.div_mod n 10). lia.
  - destruct (digits fuel (n / 10)) as [|c' t'] eqn:Ed.
    + exfalso. pose proof (Z.log2_nonneg (n / 10)).
      pose proof (digits_enough fuel (n / 10) ltac:(lia) ltac:(lia)) as E'.
      rewrite Ed in E'. change (decimal_value []) with 0 in E'. lia.
    + intros [= <- _]. eapply (IH (n / 10)); [lia|pose proof (Z.log2_nonneg (n / 10)); lia|done].
Qed.

Lemma utos_nlen_digits fuel t k : utos_nlen fuel t k = (k + length (digits fuel t))%nat.
Proof.
  revert t k. induction fuel as [|fuel IH]; intros t k; cbn [utos_nlen digits].
  - simpl. lia.
  - case_if; [simpl; lia|]. rewrite IH, length_app. simpl. lia.
Qed.

Lemma utos_fill_digits fuel n res :
  (length (digits fuel n) <= length res)%nat ->
  utos_fill fuel n (length (digits fuel n)) res
  = digits fuel n ++ drop (length (digits fuel n)) res.
Proof.
  revert n res. induction fuel as [|fuel IH]; intros n res Hlen; cbn [utos_fill digits]; [done|].
  cbn [digits] in Hlen. case_if; [done|].
  rewrite length_app in *. cbn [length] in *. rewrite Nat.add_sub.
  set (ds := digits fuel (n / 10)) in *.
  rewrite IH by (rewrite length_insert; fold ds; lia). fold ds.
  rewrite <- app_assoc. f_equal.
  rewrite insert_take_drop by lia.
  rewrite drop_app_ge by (rewrite length_take; lia).
  rewrite length_take, Nat.min_l, Nat.sub_diag by lia.
  rewrite Nat.add_1_r. reflexivity.
Qed.

(** [utos] is the decimal notation of its argument. *)
Lemma utos_digits n : 0 < n -> utos n = digits (utos_fuel n) n.
Proof.
  intros Hn. unfold utos. case_if; [lia|]. rewrite utos_nlen_digits. cbn [Nat.add].
  rewrite utos_fill_digits by (by rewrite length_replicate).
  rewrite drop_ge by (by rewrite length_replicate). apply app_nil_r.
Qed.

Lemma utos_is_digits n : 0 <= n -> utos n <> [] /\ Forall (fun c => is_digit c = true) (utos n).
Proof.
  intros Hn. destruct (Z.eq_dec n 0) as [->|Hne].
  - split; [done|]. vm_compute. by repeat constructor.
  - rewrite utos_digits by lia. split; [|apply digits_are_digits].
    intros E. pose proof (digits_enough (utos_fuel n) n Hn ltac:(unfold utos_fuel; lia)) as H.
    rewrite E in H. change (decimal_value []) with 0 in H. lia.
Qed.

Lemma utos_decimal n : 0 <= n -> decimal_value (utos n) = n.
Proof.
  intros Hn. destruct (Z.eq_dec n 0) as [->|Hne]; [reflexivity|].
  rewrite utos_digits by lia. apply digits_enough; [done|]. unfold utos_fuel. lia.
Qed.

(** [dtos] prints the hundredths with two digits. *)
Lemma dtos_spec m : 0 <= m -> exists f,
  dtos m = utos (m / 100) ++ "."%char :: f /\ length f = 2%nat /\ decimal_value f = m mod 100.
Proof.
  intros Hm. unfold dtos. rewrite Z.quot_div_nonneg, Z.rem_mod_nonneg by lia.
  pose proof (Z.mod_pos_bound m 100 ltac:(lia)) as Hr. set (r := m mod 100) in *.
  eexists. split; [reflexivity|].
  assert (forallb (fun n => let f := utos (Z.of_nat n) in let f := (if (length f =? 1)%nat then lit "0" else []) ++ f in
    (length f =? 2)%nat && (decimal_value f =? Z.of_nat n)) (seq 0 100) = true) as H by (vm_compute; reflexivity).
  rewrite forallb_forall in H. specialize (H (Z.to_nat r) ltac:(apply in_seq; lia)). cbv zeta in H. rewrite Z2Nat.id in H by lia.
  apply andb_true_iff in H as [H1 H2]. by apply Nat.eqb_eq in H1; apply Z.eqb_eq in H2.
Qed.

(** [utos(n)] is the canonical decimal notation of [n]: a non-empty string
    of digits whose value is [n], with no leading zero unless it is ["0"]. *)
Theorem utos_spec (n : Z) (Hn : 0 <= n) :
  utos n <> [] /\ Forall (fun c => is_digit c = true) (utos n)
  /\ decimal_value (utos n) = n
  /\ (head (utos n) = Some "0"%char -> utos n = lit "0").
Proof.
  pose proof (utos_is_digits n Hn) as [? ?]. repeat split; [done|done|by apply utos_decimal|].
  destruct (Z.eq_dec n 0) as [->|Hne]; [done|]. rewrite utos_digits by lia.
  destruct (digits (utos_fuel n) n) as [|c t] eqn:Ed; [done|]. intros [= ->].
  exfalso. eapply (digits_no_leading_zero (utos_fuel n) n); [done| |done|done].
  unfold utos_fuel. lia.
Qed.

Lemma utos_spec_witness :
  0 <= 404 /\ utos 404 = lit "404" /\ decimal_value (utos 404) = 404.
Proof. split; [lia|]. split; [vm_compute; reflexivity|]. apply (utos_spec 404). lia. Defined.

(** ** Parsing numbers *)

Fixpoint digit_prefix (s : str) : str :=
  match s with
  | [] => []
  | c :: s' => if is_digit c then c :: digit_prefix s' else []
  end.

Lemma digit_prefix_all s :
  (length (digit_prefix s) <= length s)%nat
  /\ (length (digit_prefix s) = length s -> forallb is_digit s = true)
  /\ (forallb is_digit s = true -> digit_prefix s = s).
Proof.
  induction s as [|c s (IH1 & IH2 & IH3)]; [done|]. cbn [digit_prefix forallb length].
  destruct (is_digit c); cbn [length andb]; repeat split; try lia; try done.
  - intros. apply IH2. lia.
  - intros. f_equal. auto.
Qed.

Lemma digit_prefix_digits s : Forall (fun c => is_digit c = true) (digit_prefix s).
Proof.
  induction s as [|c s IH]; [constructor|]. cbn [digit_prefix].
  destruct (is_digit c) eqn:E; by constructor.
Qed.

(** Appending digits never lowers the value: an overflow seen midway is an
    overflow of the whole number. *)
Lemma decimal_from_mono n s :
  0 <= n -> Forall (fun c => is_digit c = true) s -> n <= decimal_from n s.
Proof.
  intros Hn Hs. revert n Hn. induction Hs as [|c s Hc Hs IH]; intros n Hn; [done|].
  cbn [decimal_from fold_left]. apply is_digit_val in Hc.
  etransitivity; [|apply IH]; lia.
Qed.

Lemma parse_uint_loop_spec s n i :
  0 <= n <= INT64_MAX ->
  parse_uint_loop s n i
  = let v := decimal_from n (digit_prefix s) in
    if v <=? INT64_MAX then Some (v, (i + length (digit_prefix s))%nat) else None.
Proof.
  revert n i. induction s as [|c s IH]; intros n i Hn; cbn [parse_uint_loop digit_prefix].
  - cbn. rewrite (proj2 (Z.leb_le n INT64_MAX)) by lia. by rewrite Nat.add_0_r.
  - rewrite <- is_digit_code. destruct (is_digit c) eqn:Ec.
    2:{ cbn. rewrite (proj2 (Z.leb_le n INT64_MAX)) by lia. by rewrite Nat.add_0_r. }
    pose proof (is_digit_val _ Ec) as Hd. unfold digit_val in Hd.
    pose proof (digit_prefix_digits s) as Hds.
    assert (decimal_from n (c :: digit_prefix s)
            = decimal_from (n * 10 + (code c - code "0")) (digit_prefix s)) as E by done.
    cbv zeta. rewrite E.
    pose proof (decimal_from_mono (n * 10 + (code c - code "0")) (digit_prefix s)
                  ltac:(lia) Hds) as Hm.
    unfold INT64_MAX in *. case_if.
    { pose proof (Z.mod_pos_bound 9223372036854775807 10 ltac:(lia)).
      rewrite (proj2 (Z.leb_gt _ _)); [done|]. vm_compute (_ / _) in *. lia. }
    case_if.
    { rewrite (proj2 (Z.leb_gt _ _)); [done|]. lia. }
    rewrite IH by lia. cbv zeta. cbn [length]. by rewrite Nat.add_succ_r.
Qed.

(** C30. [parse_uint] accepts exactly the non-empty strings of decimal digits
    whose value fits an [int64_t], and returns that value; every other input,
    overflowing ones and trailing garbage included, gives -1.  The intermediate
    products never overflow, because the test against [max / 10] precedes the
    multiplication. *)
Theorem parse_uint_spec (s : str) :
  parse_uint s
  = if negb (s =s []) && forallb is_digit s && (decimal_value s <=? INT64_MAX)
    then decimal_value s else -1.
Proof.
  unfold parse_uint, parse_uint_digits.
  destruct s as [|c s]; [reflexivity|]. set (t := c :: s).
  rewrite (bool_decide_eq_false_2 (t = [])) by done. cbn [negb andb length Nat.eqb].
  rewrite parse_uint_loop_spec by (unfold INT64_MAX; lia).
  destruct (digit_prefix_all t) as (Hle & Hall & Heq).
  pose proof (decimal_from_mono 0 (digit_prefix t) ltac:(lia) (digit_prefix_digits t)) as Hpos.
  cbv zeta. destruct (forallb is_digit t) eqn:Ed.
  - rewrite (Heq eq_refl) in Hpos |- *. unfold decimal_value in *.
    generalize dependent (decimal_from 0 t). intros v Hpos. cbn [andb].
    destruct (v <=? INT64_MAX); cbn; [|done].
    rewrite Nat.eqb_refl. cbn. rewrite orb_false_r.
    rewrite (proj2 (Z.eqb_neq v (-1))) by lia. done.
  - assert (length (digit_prefix t) <> length t) by (intros E; specialize (Hall E); congruence).
    cbn [andb]. destruct (decimal_from 0 (digit_prefix t) <=? INT64_MAX); [|done].
    cbn [Nat.add].
    destruct (length (digit_prefix t)) as [|k] eqn:Ek; cbn [Nat.eqb]; [done|].
    change (length t =? 0)%nat with false. cbv beta iota.
    rewrite (proj2 (Nat.eqb_neq (S k) (length t))) by lia. cbn [negb]. by rewrite orb_true_r.
Qed.

Lemma forallb_Forall_digit s : Forall (fun c => is_digit c = true) s -> forallb is_digit s = true.
Proof. intros H. apply forallb_forall. intros x Hx. rewrite Forall_forall in H. apply H. by apply list_elem_of_In. Qed.

(** Formatting a number with [utos] and parsing it with [parse_uint] gives
    it back, for every value of [int64_t] that is not negative. *)
Theorem parse_uint_utos (n : Z) (Hn : 0 <= n <= INT64_MAX) : parse_uint (utos n) = n.
Proof.
  destruct (utos_is_digits n ltac:(lia)) as [Hne Hd]. rewrite parse_uint_spec.
  rewrite bool_decide_eq_false_2 by done. rewrite forallb_Forall_digit by done.
  rewrite utos_decimal by lia. cbn [negb andb].
  rewrite (proj2 (Z.leb_le _ _)) by lia. done.
Qed.

Lemma parse_uint_utos_witness :
  0 <= INT64_MAX <= INT64_MAX /\ parse_uint (utos INT64_MAX) = INT64_MAX.
Proof.
  split; [unfold INT64_MAX; lia|]. apply parse_uint_utos. unfold INT64_MAX; lia.
Defined.

(** ** String comparison *)

Lemma equal_at_spec key p : equal_at key p = true <-> exists post, p = key ++ post.
Proof.
  unfold equal_at. rewrite bool_decide_eq_true. split.
  - intros E. exists (drop (length key) p). rewrite <- E at 1. by rewrite take_drop.
  - intros [post ->]. by rewrite take_app_length.
Qed.

Lemma starts_with_spec a b : starts_with a b = true <-> exists post, a = b ++ post.
Proof.
  unfold starts_with. destruct (Nat.ltb_spec (length a) (length b)) as [Hlt|_].
  - split; [done|]. intros [post ->]. rewrite length_app in Hlt. lia.
  - apply equal_at_spec.
Qed.

Lemma ends_with_spec a b : ends_with a b = true <-> exists pre, a = pre ++ b.
Proof.
  unfold ends_with. destruct (Nat.ltb_spec (length a) (length b)) as [Hlt|Hge].
  - split; [done|]. intros [pre ->]. rewrite length_app in Hlt. lia.
  - rewrite equal_at_spec. split.
    + intros [post E]. pose proof (f_equal length E) as El.
      rewrite length_app, length_drop in El. destruct post; [|simpl in El; lia].
      rewrite app_nil_r in E. exists (take (length a - length b) a).
      rewrite <- (take_drop (length a - length b) a) at 1. by f_equal.
    + intros [pre ->]. exists []. rewrite length_app, Nat.add_sub, drop_app_length.
      by rewrite app_nil_r.
Qed.

Lemma streq_spec a b : streq a b = true <-> a = b.
Proof.
  unfold streq. destruct (Nat.eqb_spec (length a) (length b)) as [E|E]; cbn [negb].
  - rewrite equal_at_spec. split.
    + intros [post ->]. rewrite length_app in E. destruct post; [|simpl in E; lia].
      by rewrite app_nil_r.
    + intros ->. exists []. by rewrite app_nil_r.
  - split; [done|]. by intros ->.
Qed.

Lemma streq_eq a b : streq a b = (a =s b).
Proof. apply eq_true_iff_eq. by rewrite streq_spec, bool_decide_eq_true. Qed.

Lemma has_substr_spec pat s :
  has_substr pat s = true <-> exists pre post, s = pre ++ pat ++ post.
Proof.
  induction s as [|c s IH]; cbn [has_substr]; rewrite orb_true_iff, starts_with_spec.
  - split.
    + intros [[post E]|]; [by exists [], post|done].
    + intros (pre & post & E). left. exists post. by destruct pre.
  - rewrite IH. split.
    + intros [[post E]|(pre & post & ->)]; [by exists [], post|by exists (c :: pre), post].
    + intros (pre & post & E). destruct pre as [|d pre]; [left; by exists post|].
      right. injection E as -> ->. by exists pre, post.
Qed.

Lemma contains_spec c s : contains c s = true <-> c ∈ s.
Proof.
  unfold contains. rewrite existsb_exists. split.
  - intros (d & Hd & E). boolp. subst. by apply list_elem_of_In.
  - intros H. exists c. split; [by apply list_elem_of_In|]. by apply bool_decide_eq_true.
Qed.

(** ** Path validation *)

Lemma segment_substr s seg :
  slash_free seg ->
  (has_substr ("/"%char :: seg ++ lit "/") s = true \/ ends_with s ("/"%char :: seg) = true)
  <-> seg ∈ tail (segments s).
Proof.
  intros Hseg. rewrite has_substr_spec, ends_with_spec. split.
  - intros [(pre & post & ->)|(pre & ->)].
    + simpl. rewrite <- app_assoc. by apply segments_tail_mid.
    + by apply segments_tail_end.
  - intros Hin. destruct (segments_tail_inv _ _ Hin) as [(pre & ->)|(pre & post & ->)].
    + right. by exists pre.
    + left. exists pre, post. simpl. by rewrite <- app_assoc.
Qed.

Lemma slash_free_dot : slash_free (lit ".").
Proof. apply (bool_decide_unpack _). vm_compute. exact I. Qed.
Lemma slash_free_dotdot : slash_free (lit "..").
Proof. apply (bool_decide_unpack _). vm_compute. exact I. Qed.

(** The path has no component [seg]. *)
Definition no_segment (seg s : str) : Prop := seg ∉ segments s.

Lemma check_path_segment seg path :
  slash_free seg -> seg <> [] ->
  (has_substr ("/"%char :: seg ++ lit "/") ("/"%char :: path) = false
   /\ ends_with ("/"%char :: path) ("/"%char :: seg) = false)
  <-> no_segment seg ("/"%char :: path).
Proof.
  intros Hseg Hne. unfold no_segment.
  pose proof (segment_substr ("/"%char :: path) seg Hseg) as H.
  rewrite segments_slash in *. cbn [tail] in H. rewrite not_elem_of_cons.
  rewrite <- H, <- !not_true_iff_false. tauto.
Qed.

(** [check_path] is the directory-traversal test it is documented to be:
    it accepts a path exactly when the path starts with a slash, has no
    backslash, and has neither ["."] nor [".."] among its slash-separated
    components. *)
Theorem check_path_spec (path : str) :
  check_path path = true
  <-> head path = Some "/"%char /\ ("\"%char ∉ path)
      /\ no_segment (lit ".") path /\ no_segment (lit "..") path.
Proof.
  destruct path as [|c path]; cbn [check_path head]; [split; [done|by intros [? _]]|].
  destruct (bool_decide_reflect (c = "/"%char)) as [->|Hc]; cbn [andb].
  2:{ split; [done|]. intros [[= ?] _]. done. }
  rewrite !andb_true_iff, !negb_true_iff.
  rewrite <- (check_path_segment (lit ".")) by (done || apply slash_free_dot).
  rewrite <- (check_path_segment (lit "..")) by (done || apply slash_free_dotdot).
  rewrite <- not_true_iff_false, contains_spec.
  change ("/"%char :: lit "." ++ lit "/") with (lit "/./").
  change ("/"%char :: lit ".." ++ lit "/") with (lit "/../").
  change ("/"%char :: lit "..") with (lit "/..").
  change ("/"%char :: lit ".") with (lit "/.").
  tauto.
Qed.

(** ** ALPN selection *)

(** The wire format of a protocol list: each name prefixed by its length. *)
Definition alpn_entry (k : str) : str := chr (Z.of_nat (length k)) :: k.
Definition alpn_wire (protos : list str) : str := concat (map alpn_entry protos).
Definition alpn_name (k : str) : Prop := (length k <= 255)%nat.

(** What [out] and [outlen] designate in the buffer. *)
Definition slice (inb : str) (r : nat * nat) : str := take r.2 (drop r.1 inb).

Lemma alpn_entry_len k :
  alpn_name k -> Z.to_nat (code (chr (Z.of_nat (length k)))) = length k.
Proof. unfold alpn_name. intros H. rewrite code_chr_small; lia. Qed.

Lemma alpn_entry_inj k1 k2 post1 post2 :
  alpn_name k1 -> alpn_name k2 ->
  alpn_entry k1 ++ post1 = alpn_entry k2 ++ post2 -> k1 = k2 /\ post1 = post2.
Proof.
  intros H1 H2. unfold alpn_entry. cbn [app]. intros [= Ec E].
  apply (f_equal (fun c => Z.to_nat (code c))) in Ec.
  rewrite !alpn_entry_len in Ec by done. by apply app_inj_1.
Qed.

(** Where the loop stops, it stopped at an entry of the key. *)
Lemma select_proto_loop_sound fuel off p k r :
  alpn_name k ->
  select_proto_loop fuel off p (alpn_entry k) = Some r ->
  exists pre post, p = pre ++ alpn_entry k ++ post
                   /\ r = (S (off + length pre), length k).
Proof.
  intros Hk. revert off p. induction fuel as [|fuel IH]; intros off p; [done|].
  cbn [select_proto_loop]. case_if; [|done]. case_if.
  - intros [= <-]. apply equal_at_spec in E0 as [post ->]. exists [], post.
    split; [done|]. cbn [alpn_entry app nth length]. by rewrite alpn_entry_len, Nat.add_0_r.
  - intros H. set (n := Z.to_nat (code (nth 0 p "000"%char))) in *.
    apply IH in H as (pre & post & Ep & ->).
    assert (p <> []) as Hp by (intros ->; simpl in Ep; by destruct pre).
    assert (S n <= length p)%nat as Hn.
    { destruct (Nat.le_gt_cases (S n) (length p)); [done|].
      rewrite drop_ge in Ep by lia. by destruct pre. }
    exists (take (S n) p ++ pre), post. split.
    + rewrite <- app_assoc, <- Ep. by rewrite take_drop.
    + rewrite length_app, length_take, Nat.min_l by lia. do 2 f_equal. lia.
Qed.

Lemma slice_entry pre k post :
  slice (pre ++ alpn_entry k ++ post) (S (length pre), length k) = k
  /\ (S (length pre) + length k <= length (pre ++ alpn_entry k ++ post))%nat.
Proof.
  unfold slice, alpn_entry. cbn [fst snd]. split.
  - set (c := chr _). replace (pre ++ (c :: k) ++ post) with ((pre ++ [c]) ++ k ++ post)
      by (by rewrite <- app_assoc).
    replace (S (length pre)) with (length (pre ++ [c])) by (rewrite length_app; simpl; lia).
    rewrite drop_app_length. apply take_app_length.
  - rewrite !length_app. simpl. lia.
Qed.

Lemma select_proto_sound inb k r :
  alpn_name k -> select_proto inb (alpn_entry k) = Some r ->
  slice inb r = k /\ (r.1 + r.2 <= length inb)%nat.
Proof.
  intros Hk H. apply select_proto_loop_sound in H as (pre & post & -> & ->); [|done].
  apply slice_entry.
Qed.

(** On a well-formed list the loop visits exactly the entries. *)
Lemma select_proto_loop_complete protos fuel off k :
  Forall alpn_name protos -> alpn_name k ->
  (length (alpn_wire protos) < fuel)%nat ->
  is_Some (select_proto_loop fuel off (alpn_wire protos) (alpn_entry k)) <-> k ∈ protos.
Proof.
  intros Hp Hk. revert fuel off. induction Hp as [|q protos Hq Hp IH]; intros fuel off Hf.
  - destruct fuel as [|fuel]; cbn; [split; [by intros []|by rewrite elem_of_nil]|].
    split; [by intros []|by rewrite elem_of_nil].
  - destruct fuel as [|fuel]; [lia|]. cbn [select_proto_loop].
    assert (alpn_wire (q :: protos) = alpn_entry q ++ alpn_wire protos) as E by done.
    assert (drop (S (Z.to_nat (code (nth 0 (alpn_wire (q :: protos)) "000"%char))))
              (alpn_wire (q :: protos)) = alpn_wire protos) as Ed.
    { rewrite E. unfold alpn_entry. cbn [app nth]. rewrite alpn_entry_len by done.
      cbn [drop]. apply drop_app_length. }
    rewrite elem_of_cons.
    assert (equal_at (alpn_entry k) (alpn_wire (q :: protos)) = true <-> k = q) as Heq.
    { rewrite equal_at_spec, E. split.
      - intros [post Ew]. symmetry in Ew. by apply alpn_entry_inj in Ew as [-> _].
      - intros ->. by eexists. }
    destruct (Nat.leb_spec (length (alpn_entry k)) (length (alpn_wire (q :: protos)))) as [Hl|Hl].
    + destruct (equal_at (alpn_entry k) (alpn_wire (q :: protos))) eqn:Ee.
      * split; [|by eauto]. intros _. left. by apply Heq.
      * rewrite Ed, IH.
        2:{ rewrite E, length_app in Hf. simpl in Hf. lia. }
        split; [by right|]. intros [->|?]; [|done]. by specialize (proj2 Heq eq_refl).
    + split; [by intros []|]. intros Hin. exfalso.
      assert (k ∈ q :: protos) as [l1 [l2 El]]%list_elem_of_split by (by apply elem_of_cons).
      rewrite El in Hl. unfold alpn_wire in Hl.
      rewrite map_app, concat_app, length_app in Hl. cbn [map concat] in Hl.
      rewrite length_app in Hl. lia.
Qed.

Lemma select_proto_wire protos k :
  Forall alpn_name protos -> alpn_name k ->
  slice (alpn_wire protos) <$> select_proto (alpn_wire protos) (alpn_entry k)
  = if bool_decide (k ∈ protos) then Some k else None.
Proof.
  intros Hp Hk. pose proof (select_proto_loop_complete protos (S (length (alpn_wire protos))) 0 k
                              Hp Hk ltac:(lia)) as Hc. fold (select_proto (alpn_wire protos) (alpn_entry k)) in Hc.
  destruct (select_proto (alpn_wire protos) (alpn_entry k)) as [r|] eqn:E; cbn.
  - rewrite bool_decide_eq_true_2 by (apply Hc; by eexists).
    f_equal. by apply select_proto_sound.
  - rewrite bool_decide_eq_false_2; [done|]. rewrite <- Hc. by intros [].
Qed.

(** The supported identifiers, most preferred first. *)
Definition h2_protos : list str := [NGHTTP2_H2; NGHTTP2_H2_16; NGHTTP2_H2_14].

Lemma h2_alpn_entries :
  NGHTTP2_H2_ALPN = alpn_entry NGHTTP2_H2 /\ NGHTTP2_H2_16_ALPN = alpn_entry NGHTTP2_H2_16
  /\ NGHTTP2_H2_14_ALPN = alpn_entry NGHTTP2_H2_14 /\ Forall alpn_name h2_protos.
Proof.
  repeat split; try (vm_compute; reflexivity).
  repeat constructor; unfold alpn_name; vm_compute; lia.
Qed.

(** On a well-formed ALPN list, [select_h2] selects the most preferred
    supported identifier that the list offers ([h2], then [h2-16], then
    [h2-14]), whatever the order in the list, and selects nothing when the list
    offers none of them. *)
Theorem select_h2_spec (protos : list str) (Hp : Forall alpn_name protos) :
  slice (alpn_wire protos) <$> select_h2 (alpn_wire protos)
  = head (filter (fun k => k ∈ protos) h2_protos).
Proof.
  destruct h2_alpn_entries as (E1 & E2 & E3 & Hn).
  inversion_clear Hn as [|? ? Hn1 Hn']. inversion_clear Hn' as [|? ? Hn2 Hn''].
  inversion_clear Hn'' as [|? ? Hn3 _].
  pose proof (select_proto_wire protos _ Hp Hn1) as S1.
  pose proof (select_proto_wire protos _ Hp Hn2) as S2.
  pose proof (select_proto_wire protos _ Hp Hn3) as S3.
  unfold select_h2. rewrite E1, E2, E3. unfold h2_protos.
  generalize dependent NGHTTP2_H2. intros k1 _ _ S1.
  generalize dependent NGHTTP2_H2_16. intros k2 _ _ S2.
  generalize dependent NGHTTP2_H2_14. intros k3 _ _ S3.
  rewrite !filter_cons, filter_nil.
  generalize dependent (select_proto (alpn_wire protos) (alpn_entry k1)). intros r1 S1.
  generalize dependent (select_proto (alpn_wire protos) (alpn_entry k2)). intros r2 S2.
  generalize dependent (select_proto (alpn_wire protos) (alpn_entry k3)). intros r3 S3.
  destruct r1, (bool_decide_reflect (k1 ∈ protos)); cbn in S1 |- *;
    try done; destruct (decide (k1 ∈ protos)); try done.
  destruct r2, (bool_decide_reflect (k2 ∈ protos)); cbn in S2 |- *;
    try done; destruct (decide (k2 ∈ protos)); try done.
  etransitivity; [exact S3|]. case_bool_decide; by destruct (decide (k3 ∈ protos)).
Qed.

Lemma select_h2_spec_witness :
  Forall alpn_name [lit "http/1.1"; lit "h2-14"; lit "h2"]
  /\ slice (alpn_wire [lit "http/1.1"; lit "h2-14"; lit "h2"]) <$>
       select_h2 (alpn_wire [lit "http/1.1"; lit "h2-14"; lit "h2"])
     = Some (lit "h2").
Proof.
  assert (Forall alpn_name [lit "http/1.1"; lit "h2-14"; lit "h2"]) as H
    by (repeat constructor; unfold alpn_name; vm_compute; lia).
  split; [exact H|]. rewrite (select_h2_spec _ H). vm_compute. reflexivity.
Defined.

(** Whatever bytes the peer sends as its protocol list, well-formed or not,
    a selection stays inside the list and designates a name that
    [check_h2_is_selected] accepts. *)
Theorem select_h2_in_bounds (inb : str) (r : nat * nat) (Hr : select_h2 inb = Some r) :
  (r.1 + r.2 <= length inb)%nat /\ check_h2_is_selected (slice inb r) = true.
Proof.
  destruct h2_alpn_entries as (E1 & E2 & E3 & Hn).
  unfold select_h2 in Hr. rewrite E1, E2, E3 in Hr.
  assert (exists k, k ∈ h2_protos /\ select_proto inb (alpn_entry k) = Some r) as (k & Hk & Hs).
  { destruct (select_proto inb (alpn_entry NGHTTP2_H2)) eqn:R1.
    { exists NGHTTP2_H2. split; [set_solver|congruence]. }
    destruct (select_proto inb (alpn_entry NGHTTP2_H2_16)) eqn:R2.
    { exists NGHTTP2_H2_16. split; [set_solver|congruence]. }
    exists NGHTTP2_H2_14. split; [set_solver|done]. }
  rewrite Forall_forall in Hn. apply select_proto_sound in Hs as [-> Hb]; [|auto].
  split; [done|]. unfold check_h2_is_selected. rewrite !streq_eq.
  unfold h2_protos in Hk. rewrite !elem_of_cons, elem_of_nil in Hk.
  destruct Hk as [->|[->|[->|[]]]]; vm_compute; reflexivity.
Qed.

Lemma select_h2_in_bounds_witness :
  select_h2 get_default_alpn = Some (1, 2)%nat
  /\ (1 + 2 <= length get_default_alpn)%nat
  /\ check_h2_is_selected (slice get_default_alpn (1, 2)%nat) = true.
Proof.
  split; [vm_compute; reflexivity|].
  apply (select_h2_in_bounds get_default_alpn (1, 2)%nat). vm_compute. reflexivity.
Defined.

End util.
