(* ===== verification/PathJoin.v ===== *)
(** * Joining and cleaning paths: [path_join] of lib/http2.cc

    [path_join] writes into one buffer obtained from the block allocator and
    moves a cursor [p] back and forth over it.  The model keeps the buffer and
    the cursor: every store is checked against the size the code allocated,
    every load against the buffer, and the [assert] of [eat_dir] is a check, so
    that [None] stands for a memory error or a failed assertion.  A reference
    definition on plain lists ([path_join_ref]) says what is written, and the
    refinement theorem shows that the buffer version computes it and never
    fails. *)

From S2P Require Import Prelude Util.

Module http2_path.
Import util.

(** ** The buffer *)

(** [*(base + i) = c] *)
Definition store (buf : str) (i : nat) (c : ascii) : option str :=
  if (i <? length buf)%nat then Some (<[i := c]> buf) else None.

(** [*p++ = c] *)
Definition put (st : str * nat) (c : ascii) : option (str * nat) :=
  let '(buf, p) := st in
  buf ← store buf p c; Some (buf, S p).

(** [p = std::copy(begin(s), end(s), p)] *)
Fixpoint copy (s : str) (st : str * nat) : option (str * nat) :=
  match s with
  | [] => Some st
  | c :: s => st ← put st c; copy s st
  end.

(** [for (; p != first && *(p - 1) != '/'; --p);] *)
Fixpoint scan_back (buf : str) (p : nat) : option nat :=
  match p with
  | O => Some O
  | S q =>
    c ← buf !! q;
    if negb (c =c "/"%char) then scan_back buf q else Some p
  end.

(** [*first++ = '/'; return first;] with [first] the start of the buffer *)
Definition put_root (buf : str) : option (str * nat) := put (buf, O) "/"%char.

Definition eat_file (st : str * nat) : option (str * nat) :=
  let '(buf, last) := st in
  if (last =? 0)%nat then put_root buf
  else
    c ← buf !! (last - 1)%nat;
    if c =c "/"%char then Some (buf, last)
    else
      p ← scan_back buf last;
      if (p =? 0)%nat then put_root buf else Some (buf, p).

Definition eat_dir (st : str * nat) : option (str * nat) :=
  '(buf, p) ← eat_file st;
  match p with
  | O => None
  | S p =>
    c ← buf !! p;
    if c =c "/"%char then eat_file (buf, p) else None
  end.

(** ** The loop over the relative path *)

(** [for (; first != last && *first == '/'; ++first);] *)
Fixpoint skip_slashes (s : str) : str :=
  match s with
  | c :: s' => if c =c "/"%char then skip_slashes s' else s
  | [] => []
  end.

(** [slash = std::find(first, last, '/')]: what stands before the slash and,
    when there is one, what follows it *)
Fixpoint find_slash (s : str) : str * option str :=
  match s with
  | [] => ([], None)
  | c :: s' =>
    if c =c "/"%char then ([], Some s')
    else let '(pre, post) := find_slash s' in (c :: pre, post)
  end.

(** What the loop does at [first]: stop at a lone ["."], skip ["./"], go up
    and stop at [".."], go up at ["../"], otherwise copy the next component. *)
Inductive next_step :=
  | StepBreak
  | StepSkip (rest : str)
  | StepUpBreak
  | StepUp (rest : str)
  | StepCopy.

Definition classify (first : str) : next_step :=
  match first with
  | [] => StepBreak
  | c0 :: r0 =>
    if c0 =c "."%char then
      match r0 with
      | [] => StepBreak
      | c1 :: r1 =>
        if c1 =c "/"%char then StepSkip r1
        else if c1 =c "."%char then
          match r1 with
          | [] => StepUpBreak
          | c2 :: r2 => if c2 =c "/"%char then StepUp r2 else StepCopy
          end
        else StepCopy
      end
    else StepCopy
  end.

Fixpoint join_loop (fuel : nat) (first : str) (st : str * nat) : option (str * nat) :=
  match first with
  | [] => Some st
  | _ :: _ =>
    match fuel with
    | O => None
    | S fuel =>
      match classify first with
      | StepBreak => Some st
      | StepSkip rest => join_loop fuel rest st
      | StepUpBreak => eat_dir st
      | StepUp rest => st ← eat_dir st; join_loop fuel rest st
      | StepCopy =>
        match st.2 with
        | O => None
        | S q =>
          c ← st.1 !! q;
          st ← (if negb (c =c "/"%char) then eat_file st else Some st);
          match find_slash first with
          | (pre, None) => copy pre st
          | (pre, Some post) =>
            st ← copy (pre ++ ["/"%char]) st;
            join_loop fuel (skip_slashes post) st
          end
        end
      end
    end
  end.

(** ** [path_join] *)

(** [*p = '\0'; return StringRef{res.base, p};] *)
Definition finish (st : str * nat) : option str :=
  let '(buf, p) := st in
  buf ← store buf p "000"%char; Some (take p buf).

(** The bytes requested from the allocator. *)
Definition path_join_size (base_path base_query rel_path rel_query : str) : nat :=
  (Nat.max 1 (length base_path) + length rel_path + 1
   + Nat.max (length base_query) (length rel_query) + 1)%nat.

(** [mem] is the content of the fresh buffer, which the code does not
    initialise. *)
Definition path_join_in (mem base_path base_query rel_path rel_query : str) : option str :=
  let st := (mem, O) in
  match rel_path with
  | [] =>
    st ← (if base_path =s [] then put st "/"%char else copy base_path st);
    if rel_query =s [] then
      st ← (if negb (base_query =s [])
            then st ← put st "?"%char; copy base_query st
            else Some st);
      finish st
    else
      st ← put st "?"%char;
      st ← copy rel_query st;
      finish st
  | c :: rel' =>
    '(first, st) ←
      (if c =c "/"%char then st ← put st "/"%char; Some (skip_slashes rel', st)
       else if base_path =s [] then st ← put st "/"%char; Some (rel_path, st)
       else st ← copy base_path st; Some (rel_path, st));
    st ← join_loop (length first) first st;
    st ← (if negb (rel_query =s [])
          then st ← put st "?"%char; copy rel_query st
          else Some st);
    finish st
  end.

Definition path_join (base_path base_query rel_path rel_query : str) : option str :=
  path_join_in
    (replicate (path_join_size base_path base_query rel_path rel_query) "000"%char)
    base_path base_query rel_path rel_query.

(** ** Reference definitions on lists *)

(** The longest prefix that ends with a slash. *)
Fixpoint strip (s : str) : str :=
  match s with
  | [] => []
  | c :: s' =>
    match strip s' with
    | [] => if c =c "/"%char then [c] else []
    | t => c :: t
    end
  end.

Definition eat_file_ref (out : str) : str :=
  match strip out with [] => ["/"%char] | t => t end.

Definition eat_dir_ref (out : str) : str := eat_file_ref (removelast (eat_file_ref out)).

Fixpoint join_loop_ref (fuel : nat) (first out : str) : str :=
  match first with
  | [] => out
  | _ :: _ =>
    match fuel with
    | O => out
    | S fuel =>
      match classify first with
      | StepBreak => out
      | StepSkip rest => join_loop_ref fuel rest out
      | StepUpBreak => eat_dir_ref out
      | StepUp rest => join_loop_ref fuel rest (eat_dir_ref out)
      | StepCopy =>
        let out := if last out =s Some "/"%char then out else eat_file_ref out in
        match find_slash first with
        | (pre, None) => out ++ pre
        | (pre, Some post) => join_loop_ref fuel (skip_slashes post) (out ++ pre ++ ["/"%char])
        end
      end
    end
  end.

Definition query_ref (q : str) : str := if q =s [] then [] else "?"%char :: q.

Definition path_join_ref (base_path base_query rel_path rel_query : str) : str :=
  let base := if base_path =s [] then ["/"%char] else base_path in
  match rel_path with
  | [] => base ++ (if rel_query =s [] then query_ref base_query else query_ref rel_query)
  | c :: rel' =>
    (if c =c "/"%char
     then join_loop_ref (length (skip_slashes rel')) (skip_slashes rel') ["/"%char]
     else join_loop_ref (length rel_path) rel_path base)
    ++ query_ref rel_query
  end.

(** ** Refinement *)

(** The buffer [st] holds [out] before its cursor. *)
Definition holds (st : str * nat) (out : str) : Prop :=
  st.2 = length out /\ take st.2 st.1 = out.

Lemma holds_prefix buf out : holds (buf, length out) out -> exists rest, buf = out ++ rest.
Proof.
  intros [_ H]. cbn in H. exists (drop (length out) buf). rewrite <- H at 1. by rewrite take_drop.
Qed.

Lemma holds_app buf out p : holds (buf, p) out <-> p = length out /\ exists rest, buf = out ++ rest.
Proof.
  split.
  - intros H. pose proof H as [Ep _]. cbn in Ep. subst p. split; [done|]. by apply holds_prefix.
  - intros [-> [rest ->]]. split; [done|]. cbn. apply take_app_length.
Qed.

Lemma holds_nil buf : holds (buf, O) [].
Proof. by apply holds_app; split; [|by exists buf]. Qed.

Lemma put_holds buf p out c :
  holds (buf, p) out -> (length out < length buf)%nat ->
  exists buf', put (buf, p) c = Some (buf', S p) /\ holds (buf', S p) (out ++ [c])
               /\ length buf' = length buf.
Proof.
  intros [-> [rest ->]]%holds_app Hlen. unfold put, store.
  rewrite (proj2 (Nat.ltb_lt _ _)) by done. cbn.
  destruct rest as [|d rest]; [rewrite length_app in Hlen; simpl in Hlen; lia|].
  eexists. split; [reflexivity|]. rewrite length_insert. split; [|done].
  apply holds_app. rewrite length_app. cbn [length]. split; [lia|].
  exists rest. rewrite insert_app_r_alt, Nat.sub_diag by lia. cbn. by rewrite <- app_assoc.
Qed.

Lemma copy_holds s buf p out :
  holds (buf, p) out -> (length out + length s <= length buf)%nat ->
  exists buf', copy s (buf, p) = Some (buf', (p + length s)%nat)
               /\ holds (buf', (p + length s)%nat) (out ++ s) /\ length buf' = length buf.
Proof.
  revert buf p out. induction s as [|c s IH]; intros buf p out H Hlen; cbn [copy length].
  - exists buf. rewrite Nat.add_0_r, app_nil_r. by auto.
  - cbn [length] in Hlen. destruct (put_holds _ _ _ c H ltac:(lia)) as (b1 & -> & H1 & L1). cbn.
    destruct (IH _ _ _ H1) as (b2 & E2 & H2 & L2).
    { rewrite length_app. cbn [length]. lia. }
    exists b2. rewrite E2. rewrite <- app_assoc in H2. cbn in H2.
    rewrite Nat.add_succ_r. rewrite Nat.add_succ_l in *. repeat split; try done; try lia; apply H2.
Qed.

(** *** [eat_file] and [eat_dir] *)

Lemma strip_spec s :
  exists rest, s = strip s ++ rest /\ slash_free rest
               /\ (strip s = [] \/ last (strip s) = Some "/"%char).
Proof.
  induction s as [|c s (rest & E & Hf & Hl)].
  - exists []. repeat split; [apply not_elem_of_nil|by left].
  - cbn [strip]. destruct (strip s) as [|d t] eqn:Es.
    + case_if.
      * subst c. exists rest. cbn in E. subst s. repeat split; [done|by right].
      * exists (c :: rest). cbn in E. subst s. repeat split; [|by left].
        unfold slash_free. rewrite not_elem_of_cons. done.
    + exists rest. rewrite E. repeat split; [done|]. right.
      destruct Hl as [|Hl]; [done|]. rewrite last_cons_cons. done.
Qed.

Lemma strip_app_slash_free s t : slash_free t -> strip (s ++ t) = strip s.
Proof.
  intros Ht. induction s as [|c s IH].
  - cbn. unfold slash_free in Ht. induction t as [|c t IHt]; [done|].
    rewrite not_elem_of_cons in Ht. cbn [strip]. rewrite IHt by tauto.
    by rewrite bool_decide_eq_false_2 by (intros ->; tauto).
  - cbn. by rewrite IH.
Qed.

Lemma strip_ends_slash s : strip (s ++ ["/"%char]) = s ++ ["/"%char].
Proof.
  induction s as [|c s IH]; [done|]. cbn [app strip]. rewrite IH. by destruct s.
Qed.

Lemma last_slash_snoc (s : str) c : last s = Some c -> exists s', s = s' ++ [c].
Proof. intros H. by apply last_Some. Qed.

Lemma strip_last s : last s = Some "/"%char -> strip s = s.
Proof. intros [s' ->]%last_slash_snoc. apply strip_ends_slash. Qed.

Lemma strip_snoc_other s c : c <> "/"%char -> strip (s ++ [c]) = strip s.
Proof.
  intros Hc. apply strip_app_slash_free. unfold slash_free.
  rewrite list_elem_of_singleton. congruence.
Qed.

Lemma scan_back_spec out rest :
  scan_back (out ++ rest) (length out) = Some (length (strip out)).
Proof.
  revert rest. induction out as [|c out IH] using rev_ind; intros rest; [done|].
  rewrite length_app. cbn [length]. rewrite Nat.add_1_r. cbn [scan_back].
  rewrite <- app_assoc. rewrite lookup_app_r, Nat.sub_diag by lia. cbn.
  case_if.
  - rewrite IH. by rewrite strip_snoc_other.
  - subst c. rewrite strip_ends_slash, length_app. cbn [length]. by rewrite Nat.add_1_r.
Qed.

Lemma strip_prefix out rest : exists rest', out ++ rest = strip out ++ rest'.
Proof. destruct (strip_spec out) as (r & E & _). exists (r ++ rest). rewrite E at 1. by rewrite <- app_assoc. Qed.

(** The cursor never moves forward, except from an empty path to ["/"]. *)
Lemma eat_file_holds buf p out :
  holds (buf, p) out -> (0 < length buf)%nat ->
  exists buf' p', eat_file (buf, p) = Some (buf', p') /\ holds (buf', p') (eat_file_ref out)
                  /\ length buf' = length buf.
Proof.
  intros H Hlen. pose proof H as [-> [rest Hb]]%holds_app. unfold eat_file, eat_file_ref, put_root.
  destruct (put_holds _ _ _ "/"%char (holds_nil buf) Hlen) as (b0 & Eput & Hput & Lput).
  destruct out as [|c out _] using rev_ind; cbn [length].
  { cbn [Nat.eqb strip]. rewrite Eput. by eauto. }
  rewrite length_app, Nat.add_1_r. cbn [length Nat.eqb Nat.sub]. rewrite Nat.sub_0_r.
  assert (buf !! length out = Some c) as ->.
  { rewrite Hb, <- app_assoc, lookup_app_r, Nat.sub_diag by lia. done. }
  cbn [mbind option_bind]. case_if.
  - subst c. rewrite strip_ends_slash. exists buf, (S (length out)).
    split; [done|]. split; [|done]. rewrite length_app, Nat.add_1_r in H.
    by destruct (out ++ ["/"%char]) eqn:?; [by destruct out|].
  - replace (S (length out)) with (length (out ++ [c])) by (rewrite length_app; simpl; lia).
    assert (scan_back buf (length (out ++ [c])) = Some (length (strip (out ++ [c])))) as ->
      by (rewrite Hb; apply scan_back_spec).
    cbn [mbind option_bind].
    destruct (strip_prefix (out ++ [c]) rest) as [rest' E']. rewrite <- Hb in E'.
    destruct (strip (out ++ [c])) as [|d t] eqn:Es; cbn [length Nat.eqb].
    + rewrite Eput. by eauto.
    + exists buf, (S (length t)). split; [done|]. split; [|done].
      apply holds_app. by eauto.
Qed.

Lemma eat_file_ref_last out : last (eat_file_ref out) = Some "/"%char.
Proof.
  unfold eat_file_ref. destruct (strip_spec out) as (r & _ & _ & Hl).
  destruct (strip out) as [|c t]; [done|]. by destruct Hl.
Qed.

Lemma holds_removelast buf out c :
  holds (buf, S (length out)) (out ++ [c]) -> buf !! length out = Some c /\ holds (buf, length out) out.
Proof.
  intros [_ [rest ->]]%holds_app. rewrite <- app_assoc. split.
  - rewrite lookup_app_r, Nat.sub_diag by lia. done.
  - apply holds_app. by eauto.
Qed.

Lemma eat_dir_holds buf p out :
  holds (buf, p) out -> (0 < length buf)%nat ->
  exists buf' p', eat_dir (buf, p) = Some (buf', p') /\ holds (buf', p') (eat_dir_ref out)
                  /\ length buf' = length buf.
Proof.
  intros H Hlen. unfold eat_dir, eat_dir_ref.
  destruct (eat_file_holds _ _ _ H Hlen) as (b1 & p1 & -> & H1 & L1). cbn [mbind option_bind].
  destruct (last_slash_snoc _ _ (eat_file_ref_last out)) as [o Eo]. rewrite Eo in *.
  pose proof H1 as [Ep _]. cbn in Ep. rewrite length_app, Nat.add_1_r in Ep. subst p1.
  apply holds_removelast in H1 as [-> H1]. cbn [mbind option_bind].
  rewrite bool_decide_eq_true_2 by done. rewrite removelast_last.
  destruct (eat_file_holds _ _ _ H1 ltac:(lia)) as (b2 & p2 & -> & H2 & L2).
  exists b2, p2. split; [done|]. split; [done|]. lia.
Qed.

(** *** The loop *)

(** What the classification of [first] says about [first]. *)
Lemma classify_spec first :
  match classify first with
  | StepBreak => first = [] \/ first = lit "."
  | StepSkip rest => first = lit "./" ++ rest
  | StepUpBreak => first = lit ".."
  | StepUp rest => first = lit "../" ++ rest
  | StepCopy => first <> []
  end.
Proof.
  destruct first as [|c0 r0]; cbn [classify]; [by left|].
  case_if; [|done]. subst c0. destruct r0 as [|c1 r1]; [by right|].
  case_if; [by subst|]. case_if; [|done]. subst c1.
  destruct r1 as [|c2 r2]; [done|]. case_if; [by subst|done].
Qed.

Lemma find_slash_spec s :
  match find_slash s with
  | (pre, None) => s = pre /\ slash_free pre
  | (pre, Some post) => s = pre ++ "/"%char :: post /\ slash_free pre
  end.
Proof.
  induction s as [|c s IH]; cbn [find_slash]; [split; [done|apply not_elem_of_nil]|].
  case_if; [subst; split; [done|apply not_elem_of_nil]|].
  destruct (find_slash s) as [pre [post|]]; destruct IH as [-> Hf];
    (split; [done|]); unfold slash_free; rewrite not_elem_of_cons; done.
Qed.

Lemma skip_slashes_length s : (length (skip_slashes s) <= length s)%nat.
Proof. induction s as [|c s IH]; cbn [skip_slashes]; [done|]. case_if; simpl; lia. Qed.

Lemma skip_slashes_head s : head (skip_slashes s) <> Some "/"%char.
Proof. induction s as [|c s IH]; cbn [skip_slashes]; [done|]. case_if; [done|]. cbn. congruence. Qed.

Lemma eat_file_ref_length out :
  (1 <= length (eat_file_ref out) <= Nat.max 1 (length out))%nat.
Proof.
  unfold eat_file_ref. destruct (strip_spec out) as (r & E & _).
  destruct (strip out) as [|c t] eqn:Es; [simpl; lia|].
  apply (f_equal length) in E. rewrite length_app in E. simpl in *. lia.
Qed.

Lemma eat_dir_ref_length out :
  (1 <= length (eat_dir_ref out) <= Nat.max 1 (length out))%nat.
Proof.
  unfold eat_dir_ref. pose proof (eat_file_ref_length out).
  pose proof (eat_file_ref_length (removelast (eat_file_ref out))).
  rewrite removelast_firstn_len, length_firstn in *. lia.
Qed.

Lemma last_lookup_holds buf q out :
  holds (buf, S q) out -> buf !! q = last out /\ is_Some (last out).
Proof.
  intros [Hq [rest ->]]%holds_app. destruct out as [|c out _] using rev_ind; [done|].
  rewrite last_snoc. rewrite length_app in Hq. simpl in Hq.
  replace q with (length out) by lia.
  rewrite <- app_assoc, lookup_app_r, Nat.sub_diag by lia. cbn. by eauto.
Qed.

(** The component is written after a slash. *)
Lemma eat_last_holds buf q out d :
  holds (buf, S q) out -> (1 <= length out)%nat -> (length out <= length buf)%nat ->
  exists b1 p1,
    (if negb (d =c "/"%char) then eat_file (buf, S q) else Some (buf, S q)) = Some (b1, p1)
    /\ holds (b1, p1) (if Some d =s Some "/"%char then out else eat_file_ref out)
    /\ length b1 = length buf
    /\ (1 <= length (if Some d =s Some "/"%char then out else eat_file_ref out) <= length out)%nat.
Proof.
  intros H H1 Hb. destruct (bool_decide_reflect (d = "/"%char)) as [->|Hd]; cbn [negb].
  - exists buf, (S q). rewrite bool_decide_eq_true_2 by done. split; [done|]. split; [done|]. split; [done|lia].
  - rewrite bool_decide_eq_false_2 by congruence. destruct (eat_file_holds buf (S q) out H) as (b1 & p1 & E & Hh & L); [lia|].
    exists b1, p1. pose proof (eat_file_ref_length out). split; [done|]. split; [done|]. split; [done|lia].
Qed.

Lemma join_loop_holds fuel first buf p out :
  holds (buf, p) out -> (1 <= length out)%nat ->
  (length out + length first <= length buf)%nat -> (length first <= fuel)%nat ->
  exists buf' p',
    join_loop fuel first (buf, p) = Some (buf', p')
    /\ holds (buf', p') (join_loop_ref fuel first out)
    /\ length buf' = length buf
    /\ (1 <= length (join_loop_ref fuel first out) <= length out + length first)%nat.
Proof.
  revert first buf p out. induction fuel as [|fuel IH]; intros first buf p out H H1 Hb Hf.
  { destruct first; cbn in *; [|lia]. exists buf, p. repeat split; try apply H; lia. }
  pose proof (classify_spec first) as Hc.
  destruct first as [|c0 r0]; [exists buf, p; cbn; repeat split; try apply H; lia|].
  set (first := c0 :: r0) in *. cbn [join_loop join_loop_ref]. subst first.
  destruct (classify (c0 :: r0)) as [|rest| |rest|] eqn:Ec.
  - exists buf, p. repeat split; try apply H; lia.
  - apply (f_equal length) in Hc. rewrite length_app in Hc. cbn in Hc, Hf, Hb.
    destruct (IH rest buf p out H H1) as (b & q & E & Hh & L & Hl); [lia|lia|].
    exists b, q. repeat split; try apply Hh; try done; cbn; lia.
  - destruct (eat_dir_holds buf p out H ltac:(lia)) as (b & q & E & Hh & L).
    pose proof (eat_dir_ref_length out). exists b, q. repeat split; try apply Hh; try done; cbn; lia.
  - apply (f_equal length) in Hc. rewrite length_app in Hc. cbn in Hc, Hf, Hb.
    destruct (eat_dir_holds buf p out H ltac:(lia)) as (b & q & -> & Hh & L).
    pose proof (eat_dir_ref_length out). cbn [mbind option_bind].
    destruct (IH rest b q _ Hh) as (b' & q' & E & Hh' & L' & Hl'); [lia|lia|lia|].
    exists b', q'. repeat split; try apply Hh'; try done; cbn; lia.
  - cbn [fst snd]. pose proof H as [Ep _]. cbn in Ep. destruct p as [|q]; [lia|].
    destruct (last_lookup_holds _ _ _ H) as [-> [d El]]. rewrite El. cbn [mbind option_bind].
    destruct (eat_last_holds buf q out d H H1 ltac:(lia)) as (b1 & p1 & -> & Hh1 & L1 & Ho1).
    set (out1 := if Some d =s Some "/"%char then out else eat_file_ref out) in *.
    cbn [mbind option_bind]. pose proof (find_slash_spec (c0 :: r0)) as Hs.
    destruct (find_slash (c0 :: r0)) as [pre [post|]]; destruct Hs as [Es _];
      apply (f_equal length) in Es; rewrite ?length_app in Es; cbn [length] in Es, Hb, Hf |- *.
    + destruct (copy_holds (pre ++ ["/"%char]) b1 p1 out1 Hh1) as (b2 & -> & Hh2 & L2).
      { rewrite length_app. simpl. lia. }
      cbn [mbind option_bind]. pose proof (skip_slashes_length post).
      destruct (IH (skip_slashes post) b2 _ _ Hh2) as (b3 & p3 & E3 & Hh3 & L3 & Hl3);
        [rewrite !length_app; simpl; lia|rewrite !length_app; simpl; lia|lia|].
      exists b3, p3. rewrite !length_app in Hl3. cbn [length] in Hl3.
      repeat split; try apply Hh3; try done; lia.
    + destruct (copy_holds pre b1 p1 out1 Hh1) as (b2 & -> & Hh2 & L2); [lia|].
      eexists b2, _. rewrite length_app. repeat split; try apply Hh2; try done; lia.
Qed.

(** *** The whole function *)

Lemma finish_holds buf p out :
  holds (buf, p) out -> (length out < length buf)%nat -> finish (buf, p) = Some out.
Proof.
  intros [-> [rest ->]]%holds_app H. unfold finish, store.
  rewrite (proj2 (Nat.ltb_lt _ _)) by done. cbn [mbind option_bind].
  f_equal. rewrite take_insert_ge by lia. apply take_app_length.
Qed.

(** Writing the query part and the terminator. *)
Lemma query_finish q buf p out :
  holds (buf, p) out -> (length out + 1 + length q < length buf)%nat ->
  (st ← (if negb (q =s []) then st ← put (buf, p) "?"%char; copy q st else Some (buf, p)); finish st)
  = Some (out ++ query_ref q).
Proof.
  intros H Hl. unfold query_ref. destruct (bool_decide_reflect (q = [])) as [->|Hq]; cbn [negb mbind option_bind].
  - rewrite app_nil_r. apply finish_holds; [done|lia].
  - destruct (put_holds _ _ _ "?"%char H ltac:(lia)) as (b1 & -> & H1 & L1). cbn [mbind option_bind].
    destruct (copy_holds q b1 _ _ H1) as (b2 & -> & H2 & L2); [rewrite length_app; simpl; lia|].
    cbn [mbind option_bind]. erewrite finish_holds; [|exact H2|rewrite !length_app; simpl; lia].
    by rewrite <- app_assoc.
Qed.

(** The first bytes: the base path, or ["/"] when it is empty. *)
Lemma base_holds base_path buf :
  (Nat.max 1 (length base_path) < length buf)%nat ->
  exists buf' p',
    (if base_path =s [] then put (buf, O) "/"%char else copy base_path (buf, O)) = Some (buf', p')
    /\ holds (buf', p') (if base_path =s [] then ["/"%char] else base_path)
    /\ length buf' = length buf.
Proof.
  intros Hl. destruct (bool_decide_reflect (base_path = [])).
  - destruct (put_holds _ _ _ "/"%char (holds_nil buf) ltac:(simpl; lia)) as (b & E & H & L). by eauto.
  - destruct (copy_holds base_path _ _ _ (holds_nil buf) ltac:(simpl; lia)) as (b & E & H & L). by eauto.
Qed.

Lemma base_length base_path :
  let base := if base_path =s [] then ["/"%char] else base_path in
  (1 <= length base)%nat /\ length base = Nat.max 1 (length base_path).
Proof. cbv zeta. case_if; [subst; simpl; lia|]. destruct base_path; simpl; [done|lia]. Qed.

Lemma path_join_in_ref mem base_path base_query rel_path rel_query :
  length mem = path_join_size base_path base_query rel_path rel_query ->
  path_join_in mem base_path base_query rel_path rel_query
  = Some (path_join_ref base_path base_query rel_path rel_query).
Proof.
  intros Hm. unfold path_join_size in Hm. unfold path_join_in, path_join_ref.
  destruct (base_length base_path) as [Hb1 Hb2].
  set (base := if base_path =s [] then ["/"%char] else base_path) in *.
  destruct (base_holds base_path mem ltac:(lia)) as (b0 & p0 & E0 & H0 & L0). fold base in H0.
  destruct rel_path as [|c rel'].
  - rewrite E0. cbn [mbind option_bind]. cbn [length] in Hm. case_if.
    + rewrite (query_finish base_query b0 p0 base) by (done || lia). done.
    + pose proof (query_finish rel_query b0 p0 base H0 ltac:(lia)) as Hq.
      rewrite (bool_decide_eq_false_2 (rel_query = [])) in Hq by done. cbn [negb] in Hq.
      rewrite <- Hq. by destruct (put (b0, p0) "?"%char).
  - assert (exists first b1 p1 out,
        (if c =c "/"%char then st ← put (mem, O) "/"%char; Some (skip_slashes rel', st)
         else if base_path =s [] then st ← put (mem, O) "/"%char; Some (c :: rel', st)
         else st ← copy base_path (mem, O); Some (c :: rel', st)) = Some (first, (b1, p1))
        /\ holds (b1, p1) out /\ length b1 = length mem
        /\ (1 <= length out)%nat
        /\ (length out + length first <= Nat.max 1 (length base_path) + length (c :: rel'))%nat
        /\ join_loop_ref (length first) first out
           = (if c =c "/"%char
              then join_loop_ref (length (skip_slashes rel')) (skip_slashes rel') ["/"%char]
              else join_loop_ref (length (c :: rel')) (c :: rel') base))
      as (first & b1 & p1 & out & -> & H1 & L1 & Ho & Hl & Er).
    { destruct (bool_decide_reflect (c = "/"%char)) as [->|Hc].
      - destruct (put_holds _ _ _ "/"%char (holds_nil mem) ltac:(simpl; lia)) as (b & -> & H & L).
        cbn [mbind option_bind]. pose proof (skip_slashes_length rel').
        eexists _, _, _, _. split; [reflexivity|]. split; [exact H|]. simpl. repeat split; lia || done.
      - destruct (bool_decide_reflect (base_path = [])); rewrite E0; cbn [mbind option_bind];
          eexists _, _, _, _; (split; [reflexivity|]); (split; [exact H0|]);
          simpl; repeat split; lia || done. }
    cbn [mbind option_bind]. cbn [length] in Hl, Hm.
    destruct (join_loop_holds (length first) first b1 p1 out H1 Ho) as (b2 & p2 & -> & H2 & L2 & Hl2);
      [lia|lia|]. cbn [mbind option_bind]. rewrite <- Er.
    rewrite (query_finish rel_query b2 p2 _ H2) by lia. done.
Qed.

(** [path_join] is memory safe and total: whatever the four arguments, it
    never writes or reads outside the buffer it allocates, the assertion in
    [eat_dir] holds, the loop terminates, and the string it returns is the one
    the list-level reference computes. *)
Theorem path_join_refines (base_path base_query rel_path rel_query : str) :
  path_join base_path base_query rel_path rel_query
  = Some (path_join_ref base_path base_query rel_path rel_query).
Proof. apply path_join_in_ref. apply length_replicate. Qed.

(** ** The result has no dot components *)

Definition dot_free (s : str) : Prop := no_segment (lit ".") s /\ no_segment (lit "..") s.
Definition rooted (s : str) : Prop := head s = Some "/"%char.

(** A path as the program may continue it: rooted and without dot components. *)
Definition safe_path (s : str) : Prop := rooted s /\ dot_free s.

Lemma dot_free_app_slash a b : dot_free (a ++ "/"%char :: b) <-> dot_free a /\ dot_free b.
Proof.
  unfold dot_free, no_segment. rewrite segments_app_slash, !not_elem_of_app. tauto.
Qed.

Lemma dot_free_nil : dot_free [].
Proof. split; apply (bool_decide_unpack _); vm_compute; exact I. Qed.

Lemma dot_free_piece pre :
  slash_free pre -> pre <> lit "." -> pre <> lit ".." -> dot_free pre.
Proof.
  intros Hf H1 H2. unfold dot_free, no_segment. rewrite segments_slash_free by done.
  rewrite !list_elem_of_singleton. split; congruence.
Qed.

Lemma safe_root : safe_path ["/"%char].
Proof. split; [done|]. apply (dot_free_app_slash [] []). by split; apply dot_free_nil. Qed.

Lemma rooted_app a b : rooted a -> rooted (a ++ b).
Proof. by destruct a. Qed.

Lemma strip_safe out : safe_path out -> strip out <> [] -> safe_path (strip out).
Proof.
  intros [Hr Hd] Hne. destruct (strip_spec out) as (rest & E & _ & Hl).
  destruct Hl as [|Hl]; [done|]. split.
  - unfold rooted in *. rewrite E in Hr. by destruct (strip out).
  - apply last_slash_snoc in Hl as [o Eo]. rewrite Eo in E |- *.
    rewrite <- app_assoc in E. cbn in E. rewrite E in Hd.
    apply dot_free_app_slash in Hd as [Hd _]. apply dot_free_app_slash. split; [done|apply dot_free_nil].
Qed.

Lemma eat_file_safe out : out = [] \/ safe_path out -> safe_path (eat_file_ref out).
Proof.
  intros [->|H]; [apply safe_root|]. unfold eat_file_ref.
  destruct (strip out) as [|c t] eqn:E; [apply safe_root|]. rewrite <- E.
  apply strip_safe; [done|]. congruence.
Qed.

Lemma eat_dir_safe out : safe_path out -> safe_path (eat_dir_ref out).
Proof.
  intros H. unfold eat_dir_ref. apply eat_file_safe.
  destruct (last_slash_snoc _ _ (eat_file_ref_last out)) as [o Eo].
  pose proof (eat_file_safe out (or_intror H)) as [Hr Hd]. rewrite Eo in *.
  rewrite removelast_last. destruct o as [|c o]; [by left|]. right. split; [done|].
  by apply dot_free_app_slash in Hd as [? _].
Qed.

(** A component that the loop copies is neither ["."] nor [".."]. *)
Lemma classify_copy_piece first :
  first <> [] -> classify first = StepCopy -> (find_slash first).1 <> lit "." /\ (find_slash first).1 <> lit "..".
Proof.
  intros _ Hc. pose proof (find_slash_spec first) as Hs.
  destruct (find_slash first) as [pre [post|]] eqn:Ef; cbn [fst]; destruct Hs as [-> _];
    split; intros ->; by vm_compute in Hc.
Qed.

Lemma join_loop_ref_safe fuel first out : safe_path out -> safe_path (join_loop_ref fuel first out).
Proof.
  revert first out. induction fuel as [|fuel IH]; intros first out H; [by destruct first|].
  destruct first as [|c0 r0]; [done|]. cbn [join_loop_ref].
  pose proof (classify_copy_piece (c0 :: r0) ltac:(done)) as Hp.
  destruct (classify (c0 :: r0)); auto using eat_dir_safe.
  specialize (Hp eq_refl). pose proof (find_slash_spec (c0 :: r0)) as Hs.
  assert (exists o, (if last out =s Some "/"%char then out else eat_file_ref out) = o ++ ["/"%char]
                    /\ safe_path (o ++ ["/"%char])) as (o & -> & Hr & Hd).
  { case_if.
    - destruct (last_slash_snoc _ _ E) as [o ->]. by eauto.
    - destruct (last_slash_snoc _ _ (eat_file_ref_last out)) as [o Eo].
      exists o. split; [done|]. rewrite <- Eo. apply eat_file_safe. by right. }
  apply dot_free_app_slash in Hd as [Hd _]. unfold rooted in Hr.
  destruct (find_slash (c0 :: r0)) as [pre [post|]]; destruct Hs as [_ Hf]; cbn [fst] in Hp;
    destruct Hp; pose proof (dot_free_piece pre Hf ltac:(done) ltac:(done)) as Hpre.
  - apply IH. rewrite <- app_assoc. cbn [app]. split.
    + rewrite cons_middle, app_assoc. by apply rooted_app.
    + apply dot_free_app_slash. split; [done|]. apply dot_free_app_slash.
      split; [done|apply dot_free_nil].
  - split; [by apply rooted_app|]. rewrite <- app_assoc. by apply dot_free_app_slash.
Qed.

(** The path part and the query part of the result. *)
Definition join_path (base_path rel_path : str) : str :=
  path_join_ref base_path [] rel_path [].

Definition join_query (base_query rel_path rel_query : str) : str :=
  if (rel_path =s []) && (rel_query =s []) then query_ref base_query else query_ref rel_query.

Lemma path_join_ref_split base_path base_query rel_path rel_query :
  path_join_ref base_path base_query rel_path rel_query
  = join_path base_path rel_path ++ join_query base_query rel_path rel_query.
Proof.
  unfold join_path, join_query, path_join_ref. change (query_ref []) with (@nil ascii).
  change (if @nil ascii =s [] then [] else []) with (@nil ascii).
  destruct rel_path as [|c rel]; rewrite app_nil_r.
  - rewrite (bool_decide_eq_true_2 (@nil ascii = [])) by done. cbn [andb]. by case_if.
  - by rewrite (bool_decide_eq_false_2 (c :: rel = [])) by done.
Qed.

Lemma join_path_safe base_path rel_path :
  base_path = [] \/ safe_path base_path -> safe_path (join_path base_path rel_path).
Proof.
  intros Hb. unfold join_path, path_join_ref.
  assert (safe_path (if base_path =s [] then ["/"%char] else base_path)) as Hbase.
  { case_if; [apply safe_root|]. by destruct Hb. }
  destruct rel_path as [|c rel].
  - rewrite (bool_decide_eq_true_2 (@nil ascii = [])) by done. by rewrite app_nil_r.
  - change (query_ref []) with (@nil ascii). rewrite app_nil_r.
    case_if; apply join_loop_ref_safe; [apply safe_root|done].
Qed.

(** C25. Joining a relative path, however hostile, to an empty or normalized
    base path gives a path that starts with a slash and has neither ["."] nor
    [".."] as a component, followed by the query: the one of the relative
    reference, or the base's when the reference is empty. *)
Theorem path_join_safe (base_path base_query rel_path rel_query : str)
    (Hbase : base_path = [] \/ safe_path base_path) :
  exists path,
    path_join base_path base_query rel_path rel_query
    = Some (path ++ join_query base_query rel_path rel_query)
    /\ safe_path path.
Proof.
  exists (join_path base_path rel_path). split; [|by apply join_path_safe].
  unfold path_join. rewrite path_join_in_ref by apply length_replicate.
  by rewrite path_join_ref_split.
Qed.

Lemma path_join_safe_witness :
  exists path,
    path_join (lit "/foo/bar") (lit "q") (lit "../../../etc/./passwd") (lit "x=1")
    = Some (path ++ join_query (lit "q") (lit "../../../etc/./passwd") (lit "x=1"))
    /\ safe_path path.
Proof.
  apply (path_join_safe (lit "/foo/bar") (lit "q") (lit "../../../etc/./passwd") (lit "x=1")).
  right. split; [reflexivity|]. split; apply (bool_decide_unpack _); vm_compute; exact I.
Defined.

(** ** Cleaning a request path

    [serve_mux::handler] calls [path_join] with an empty base and empty queries
    to clean the path of a request. *)

Definition clean (path : str) : str := join_path [] path.

Lemma path_join_clean path : path_join [] [] path [] = Some (clean path).
Proof. unfold path_join. by rewrite path_join_in_ref by apply length_replicate. Qed.

(** The meaning of the components: ["."] and the empty one stand for the
    current directory, [".."] for its parent, any other is entered. *)
Definition enter (dirs : list str) (seg : str) : list str :=
  if (seg =s []) || (seg =s lit ".") then dirs
  else if seg =s lit ".." then removelast dirs
  else dirs ++ [seg].

(** The path of a directory. *)
Definition dir_path (dirs : list str) : str := "/"%char :: concat (map (fun d => d ++ ["/"%char]) dirs).

(** The last component names a file, unless it stands for a directory. *)
Definition leaf (seg : str) : str :=
  if (seg =s []) || (seg =s lit ".") || (seg =s lit "..") then [] else seg.

Fixpoint resolve (dirs : list str) (segs : list str) : str :=
  match segs with
  | [] => dir_path dirs
  | [seg] => if leaf seg =s [] then dir_path (enter dirs seg) else dir_path dirs ++ seg
  | seg :: segs => resolve (enter dirs seg) segs
  end.

(** No two slashes in a row. *)
Fixpoint no_double_slash (s : str) : bool :=
  match s with
  | c :: ((d :: _) as s') => negb ((c =c "/"%char) && (d =c "/"%char)) && no_double_slash s'
  | _ => true
  end.

Lemma dir_path_snoc dirs d : dir_path (dirs ++ [d]) = dir_path dirs ++ d ++ ["/"%char].
Proof. unfold dir_path. rewrite map_app, concat_app. cbn. by rewrite app_nil_r. Qed.

Lemma dir_path_last dirs : last (dir_path dirs) = Some "/"%char.
Proof.
  destruct dirs as [|d dirs _] using rev_ind; [done|].
  by rewrite dir_path_snoc, app_assoc, last_snoc.
Qed.

Lemma eat_file_ref_slash out : last out = Some "/"%char -> eat_file_ref out = out.
Proof.
  intros H. unfold eat_file_ref. rewrite strip_last by done. by destruct out.
Qed.

Lemma eat_dir_dir_path dirs :
  Forall slash_free dirs -> eat_dir_ref (dir_path dirs) = dir_path (removelast dirs).
Proof.
  intros H. unfold eat_dir_ref. rewrite (eat_file_ref_slash (dir_path dirs)) by apply dir_path_last.
  destruct dirs as [|d dirs _] using rev_ind; [done|].
  apply Forall_app in H as [_ H]. inversion_clear H as [|? ? Hd _].
  rewrite dir_path_snoc, app_assoc, !removelast_last. unfold eat_file_ref.
  rewrite strip_app_slash_free, strip_last by (done || apply dir_path_last). done.
Qed.

Lemma no_double_slash_tail c s : no_double_slash (c :: s) = true -> no_double_slash s = true.
Proof. destruct s as [|d s]; [done|]. cbn [no_double_slash]. by intros [_ H]%andb_true_iff. Qed.

Lemma no_double_slash_app a b : no_double_slash (a ++ b) = true -> no_double_slash b = true.
Proof. induction a as [|c a IH]; [done|]. intros H. apply IH. by apply no_double_slash_tail in H. Qed.

Lemma no_double_slash_after s :
  no_double_slash ("/"%char :: s) = true -> head s <> Some "/"%char /\ no_double_slash s = true.
Proof.
  destruct s as [|d s]; [done|]. cbn [no_double_slash head].
  intros [H ?]%andb_true_iff. split; [|done]. intros [= ->]. by vm_compute in H.
Qed.

Lemma skip_slashes_id s : head s <> Some "/"%char -> skip_slashes s = s.
Proof. destruct s as [|c s]; [done|]. cbn. intros H. by rewrite bool_decide_eq_false_2 by congruence. Qed.

Lemma enter_slash_free dirs seg : Forall slash_free dirs -> slash_free seg -> Forall slash_free (enter dirs seg).
Proof.
  intros H Hs. unfold enter. case_if; [done|]. case_if.
  - rewrite removelast_firstn_len. by apply Forall_take.
  - apply Forall_app. by repeat constructor.
Qed.

(** A component other than the last one is followed by its slash. *)
Lemma resolve_cons dirs seg segs : segs <> [] -> resolve dirs (seg :: segs) = resolve (enter dirs seg) segs.
Proof. by destruct segs. Qed.

Lemma enter_piece dirs pre :
  pre <> [] -> pre <> lit "." -> pre <> lit ".." -> enter dirs pre = dirs ++ [pre] /\ leaf pre = pre.
Proof.
  intros H0 H1 H2. unfold enter, leaf.
  rewrite (bool_decide_eq_false_2 (pre = [])), (bool_decide_eq_false_2 (pre = lit ".")),
    (bool_decide_eq_false_2 (pre = lit "..")) by done. done.
Qed.

Lemma join_loop_ref_resolve fuel first dirs :
  no_double_slash first = true -> head first <> Some "/"%char -> Forall slash_free dirs ->
  (length first <= fuel)%nat ->
  join_loop_ref fuel first (dir_path dirs) = resolve dirs (segments first).
Proof.
  revert first dirs. induction fuel as [|fuel IH]; intros first dirs Hn Hh Hd Hf.
  { by destruct first; [|simpl in Hf; lia]. }
  destruct first as [|c0 r0]; [done|]. cbn [join_loop_ref].
  pose proof (classify_spec (c0 :: r0)) as Hc.
  pose proof (classify_copy_piece (c0 :: r0) ltac:(done)) as Hp.
  destruct (classify (c0 :: r0)) as [|rest| |rest|].
  - destruct Hc as [ | -> ]; [done|]. done.
  - rewrite Hc in Hn, Hf |- *. rewrite length_app in Hf. cbn in Hf.
    apply (no_double_slash_app (lit ".") ("/"%char :: rest)), no_double_slash_after in Hn as [? ?].
    rewrite IH by (done || lia). change (lit "./" ++ rest) with (lit "." ++ "/"%char :: rest).
    rewrite segments_app_slash. symmetry. apply resolve_cons, segments_ne.
  - rewrite Hc. by rewrite eat_dir_dir_path.
  - rewrite Hc in Hn, Hf |- *. rewrite length_app in Hf. cbn in Hf.
    apply (no_double_slash_app (lit "..") ("/"%char :: rest)), no_double_slash_after in Hn as [? ?].
    rewrite eat_dir_dir_path by done.
    rewrite IH by (done || lia || (rewrite removelast_firstn_len; by apply Forall_take)).
    change (lit "../" ++ rest) with (lit ".." ++ "/"%char :: rest).
    rewrite segments_app_slash. symmetry. apply resolve_cons, segments_ne.
  - rewrite (bool_decide_eq_true_2 (last (dir_path dirs) = _)) by apply dir_path_last.
    destruct (Hp eq_refl) as [Hp1 Hp2]. pose proof (find_slash_spec (c0 :: r0)) as Hs.
    destruct (find_slash (c0 :: r0)) as [pre [post|]]; destruct Hs as [Es Hsf]; cbn [fst] in *;
      rewrite Es in Hn, Hh, Hf |- *; (assert (pre <> []) as Hne by (intros ->; cbn in *; congruence)).
    + destruct (enter_piece dirs pre Hne Hp1 Hp2) as [Hen _].
      rewrite length_app in Hf. cbn in Hf.
      apply no_double_slash_app, no_double_slash_after in Hn as [? ?].
      rewrite skip_slashes_id, <- dir_path_snoc, IH
        by (done || lia || (apply Forall_app; by repeat constructor)).
      rewrite segments_app_slash, (segments_slash_free pre) by done. cbn [app].
      rewrite resolve_cons by apply segments_ne. by rewrite Hen.
    + rewrite segments_slash_free by done. cbn [resolve].
      destruct (enter_piece dirs pre Hne Hp1 Hp2) as [_ ->].
      by rewrite bool_decide_eq_false_2.
Qed.

Lemma clean_loop c rel :
  clean (c :: rel)
  = (if c =c "/"%char
     then join_loop_ref (length (skip_slashes rel)) (skip_slashes rel) (dir_path [])
     else join_loop_ref (length (c :: rel)) (c :: rel) (dir_path [])).
Proof. unfold clean, join_path, path_join_ref. change (query_ref []) with (@nil ascii). by rewrite app_nil_r. Qed.

(** On a path without doubled slashes, cleaning resolves the components as
    a file system would: ["."] stays, [".."] goes to the parent (and stays at the
    root), names are entered, and the result ends with a slash exactly when the
    last component stands for a directory. *)
Theorem path_join_resolves (path : str) (Hn : no_double_slash path = true) :
  path_join [] [] path [] = Some (resolve [] (segments path)).
Proof.
  rewrite path_join_clean. f_equal. destruct path as [|c rel]; [done|]. rewrite clean_loop.
  destruct (bool_decide_reflect (c = "/"%char)) as [->|Hc].
  - apply no_double_slash_after in Hn as [? ?]. rewrite skip_slashes_id by done.
    rewrite join_loop_ref_resolve by (done || constructor).
    rewrite segments_slash, resolve_cons by apply segments_ne. done.
  - apply join_loop_ref_resolve; [done|cbn; congruence|constructor|done].
Qed.

Lemma path_join_resolves_witness :
  no_double_slash (lit "/a/b/../c/./d") = true
  /\ path_join [] [] (lit "/a/b/../c/./d") [] = Some (lit "/a/c/d").
Proof.
  split; [vm_compute; reflexivity|]. rewrite (path_join_resolves (lit "/a/b/../c/./d")).
  - vm_compute. reflexivity.
  - vm_compute. reflexivity.
Defined.

(** ** Cleaning twice *)

Lemma no_double_slash_join a b :
  no_double_slash a = true -> no_double_slash b = true ->
  (last a = Some "/"%char -> head b <> Some "/"%char) -> no_double_slash (a ++ b) = true.
Proof.
  intros Ha Hb Hab. induction a as [|c a IH]; [done|].
  destruct a as [|d a].
  - cbn [app]. destruct b as [|e b]; [done|]. cbn [no_double_slash].
    apply andb_true_iff. split; [|done]. apply negb_true_iff, andb_false_iff.
    destruct (bool_decide_reflect (c = "/"%char)) as [->|]; [right|by left].
    apply bool_decide_eq_false. intros ->. by apply Hab.
  - cbn [app no_double_slash] in *. apply andb_true_iff in Ha as [H1 H2]. rewrite H1. cbn [andb].
    apply IH; [done|]. by rewrite last_cons_cons in Hab.
Qed.

Lemma no_double_slash_slash_free s : slash_free s -> no_double_slash s = true.
Proof.
  unfold slash_free. induction s as [|c s IH]; [done|]. rewrite not_elem_of_cons. intros [Hc Hs].
  destruct s as [|d s]; [done|]. cbn [no_double_slash]. rewrite bool_decide_eq_false_2 by done.
  cbn. by apply IH.
Qed.

Lemma dot_free_classify first :
  dot_free first -> first <> [] -> classify first = StepCopy.
Proof.
  intros [H1 H2] Hne. pose proof (classify_spec first) as Hc.
  unfold no_segment in *. destruct (classify first) as [|rest| |rest|]; [| | | |done]; exfalso.
  - destruct Hc as [ | -> ]; [done|]. apply H1. by left.
  - subst. apply H1. change (lit "./" ++ rest) with (lit "." ++ "/"%char :: rest).
    rewrite segments_app_slash. by left.
  - subst. apply H2. by left.
  - subst. apply H2. change (lit "../" ++ rest) with (lit ".." ++ "/"%char :: rest).
    rewrite segments_app_slash. by left.
Qed.

Lemma dot_free_skip s : dot_free s -> dot_free (skip_slashes s).
Proof.
  induction s as [|c s IH]; [done|]. cbn [skip_slashes]. intros H. case_if; [|done].
  apply IH. subst c. by apply (dot_free_app_slash [] s) in H as [_ ?].
Qed.

(** Without dot components the loop only drops repeated slashes. *)
Lemma join_loop_ref_dot_free fuel first out :
  dot_free first -> head first <> Some "/"%char -> last out = Some "/"%char ->
  no_double_slash out = true -> (length first <= fuel)%nat ->
  no_double_slash (join_loop_ref fuel first out) = true
  /\ (no_double_slash first = true -> join_loop_ref fuel first out = out ++ first).
Proof.
  revert first out. induction fuel as [|fuel IH]; intros first out Hd Hh Hl Hn Hf.
  { destruct first; [|simpl in Hf; lia]. cbn. rewrite app_nil_r. done. }
  destruct first as [|c0 r0]; [cbn; by rewrite app_nil_r|]. cbn [join_loop_ref].
  rewrite dot_free_classify by done. rewrite (bool_decide_eq_true_2 (last out = _)) by done.
  pose proof (find_slash_spec (c0 :: r0)) as Hs.
  destruct (find_slash (c0 :: r0)) as [pre [post|]]; destruct Hs as [Es Hsf]; rewrite Es in *.
  - rewrite length_app in Hf. cbn in Hf. pose proof (skip_slashes_length post).
    apply dot_free_app_slash in Hd as [_ Hd].
    assert (no_double_slash (out ++ pre ++ ["/"%char]) = true) as Hn'.
    { apply no_double_slash_join; [done| |intros _; by destruct pre].
      apply no_double_slash_join; [by apply no_double_slash_slash_free|done|].
      intros Hlp. exfalso. apply Hsf. apply last_slash_snoc in Hlp as [p' ->].
      apply elem_of_app. right. by left. }
    destruct (IH (skip_slashes post) (out ++ pre ++ ["/"%char])) as [IH1 IH2];
      [by apply dot_free_skip|apply skip_slashes_head|by rewrite app_assoc, last_snoc|done|lia|].
    split; [done|]. intros Hnd. apply no_double_slash_app, no_double_slash_after in Hnd as [? ?].
    rewrite skip_slashes_id in * by done. rewrite IH2 by done. by rewrite <- !app_assoc.
  - split; [|done]. apply no_double_slash_join; [done|by apply no_double_slash_slash_free|done].
Qed.

Lemma clean_dot_free path :
  safe_path path ->
  no_double_slash (clean path) = true /\ (no_double_slash path = true -> clean path = path).
Proof.
  intros [Hr Hd]. destruct path as [|c rel]; [done|]. injection Hr as ->. rewrite clean_loop.
  rewrite bool_decide_eq_true_2 by done. apply (dot_free_app_slash [] rel) in Hd as [_ Hd].
  destruct (join_loop_ref_dot_free (length (skip_slashes rel)) (skip_slashes rel) (dir_path []))
    as [H1 H2]; [by apply dot_free_skip|apply skip_slashes_head|done..|].
  split; [done|]. intros [? ?]%no_double_slash_after. rewrite skip_slashes_id in * by done.
  by apply H2.
Qed.

Lemma clean_safe path : safe_path (clean path).
Proof. apply join_path_safe. by left. Qed.

Lemma clean_twice path : clean (clean (clean path)) = clean (clean path).
Proof.
  apply clean_dot_free; [apply clean_safe|]. apply clean_dot_free, clean_safe.
Qed.

(** Cleaning reaches a fixed point after two passes, for every path. *)
Theorem path_join_stabilises (path : str) :
  exists once twice,
    path_join [] [] path [] = Some once /\ path_join [] [] once [] = Some twice
    /\ path_join [] [] twice [] = Some twice.
Proof.
  exists (clean path), (clean (clean path)). rewrite !path_join_clean. by rewrite clean_twice.
Qed.

(** One pass is not enough: after ["./"] and ["../"] the loop does not skip
    repeated slashes, as it does everywhere else, so ["/.//a"] becomes ["//a"],
    which a second pass turns into ["/a"], and ["/a/b/.//../c"] becomes
    ["/a/b/c"] where ["/a/b/../c"] becomes ["/a/c"]. *)
Theorem path_join_not_idempotent :
  path_join [] [] (lit "/.//a") [] = Some (lit "//a")
  /\ path_join [] [] (lit "//a") [] = Some (lit "/a")
  /\ path_join [] [] (lit "/a/b/.//../c") [] = Some (lit "/a/b/c")
  /\ path_join [] [] (lit "/a/b/../c") [] = Some (lit "/a/c").
Proof. vm_compute. repeat split. Qed.

End http2_path.
