(* ===== verification/Http2.v ===== *)
(** * HTTP/2 helpers: lib/http2.h, lib/http2.cc

    Status codes, header tokens, name/value pairs and whether a response has a
    body.  [path_join] is in PathJoin. *)

From S2P Require Import Prelude Util.

Module http2.
Import util.

(** A [switch] whose cases return constants: the first case with the value. *)
Fixpoint switch {A} (cases : list (Z * A)) (v : Z) : option A :=
  match cases with
  | [] => None
  | (k, a) :: cases => if v =? k then Some a else switch cases v
  end.

(** ** Status codes *)

Definition reason_phrases : list (Z * string) :=
  [ (100, "Continue"%string)
  ; (101, "Switching Protocols"%string)
  ; (103, "Early Hints"%string)
  ; (200, "OK"%string)
  ; (201, "Created"%string)
  ; (202, "Accepted"%string)
  ; (203, "Non-Authoritative Information"%string)
  ; (204, "No Content"%string)
  ; (205, "Reset Content"%string)
  ; (206, "Partial Content"%string)
  ; (300, "Multiple Choices"%string)
  ; (301, "Moved Permanently"%string)
  ; (302, "Found"%string)
  ; (303, "See Other"%string)
  ; (304, "Not Modified"%string)
  ; (305, "Use Proxy"%string)
  ; (307, "Temporary Redirect"%string)
  ; (308, "Permanent Redirect"%string)
  ; (400, "Bad Request"%string)
  ; (401, "Unauthorized"%string)
  ; (402, "Payment Required"%string)
  ; (403, "Forbidden"%string)
  ; (404, "Not Found"%string)
  ; (405, "Method Not Allowed"%string)
  ; (406, "Not Acceptable"%string)
  ; (407, "Proxy Authentication Required"%string)
  ; (408, "Request Timeout"%string)
  ; (409, "Conflict"%string)
  ; (410, "Gone"%string)
  ; (411, "Length Required"%string)
  ; (412, "Precondition Failed"%string)
  ; (413, "Payload Too Large"%string)
  ; (414, "URI Too Long"%string)
  ; (415, "Unsupported Media Type"%string)
  ; (416, "Requested Range Not Satisfiable"%string)
  ; (417, "Expectation Failed"%string)
  ; (421, "Misdirected Request"%string)
  ; (425, "Too Early"%string)
  ; (426, "Upgrade Required"%string)
  ; (428, "Precondition Required"%string)
  ; (429, "Too Many Requests"%string)
  ; (431, "Request Header Fields Too Large"%string)
  ; (451, "Unavailable For Legal Reasons"%string)
  ; (500, "Internal Server Error"%string)
  ; (501, "Not Implemented"%string)
  ; (502, "Bad Gateway"%string)
  ; (503, "Service Unavailable"%string)
  ; (504, "Gateway Timeout"%string)
  ; (505, "HTTP Version Not Supported"%string)
  ; (511, "Network Authentication Required"%string) ].

Definition get_reason_phrase (status_code : Z) : str :=
  match switch reason_phrases status_code with
  | Some s => lit s
  | None => []
  end.

(** [make_string_ref_uint] writes the digits and a terminator into a buffer of
    [NGHTTP2_MAX_UINT64_DIGITS + 1] bytes; [None] would be a write past it. *)
Definition NGHTTP2_MAX_UINT64_DIGITS : nat := String.length "18446744073709551615".

Definition make_string_ref_uint (n : Z) : option str :=
  let s := utos n in
  if (length s + 1 <=? NGHTTP2_MAX_UINT64_DIGITS + 1)%nat then Some s else None.

Definition status_strings : list (Z * string) :=
  [ (100, "100"%string)
  ; (101, "101"%string)
  ; (103, "103"%string)
  ; (200, "200"%string)
  ; (201, "201"%string)
  ; (202, "202"%string)
  ; (203, "203"%string)
  ; (204, "204"%string)
  ; (205, "205"%string)
  ; (206, "206"%string)
  ; (300, "300"%string)
  ; (301, "301"%string)
  ; (302, "302"%string)
  ; (303, "303"%string)
  ; (304, "304"%string)
  ; (305, "305"%string)
  ; (307, "307"%string)
  ; (308, "308"%string)
  ; (400, "400"%string)
  ; (401, "401"%string)
  ; (402, "402"%string)
  ; (403, "403"%string)
  ; (404, "404"%string)
  ; (405, "405"%string)
  ; (406, "406"%string)
  ; (407, "407"%string)
  ; (408, "408"%string)
  ; (409, "409"%string)
  ; (410, "410"%string)
  ; (411, "411"%string)
  ; (412, "412"%string)
  ; (413, "413"%string)
  ; (414, "414"%string)
  ; (415, "415"%string)
  ; (416, "416"%string)
  ; (417, "417"%string)
  ; (421, "421"%string)
  ; (426, "426"%string)
  ; (428, "428"%string)
  ; (429, "429"%string)
  ; (431, "431"%string)
  ; (451, "451"%string)
  ; (500, "500"%string)
  ; (501, "501"%string)
  ; (502, "502"%string)
  ; (503, "503"%string)
  ; (504, "504"%string)
  ; (505, "505"%string)
  ; (511, "511"%string) ].

Definition stringify_status (status_code : Z) : option str :=
  match switch status_strings status_code with
  | Some s => Some (lit s)
  | None => make_string_ref_uint status_code
  end.

(** ** Response bodies *)

(** [int] division truncates. *)
Definition expect_response_body (status_code : Z) : bool :=
  (status_code =? 101)
  || (negb (Z.quot status_code 100 =? 1) && negb (status_code =? 304) && negb (status_code =? 204)).

Definition expect_response_body_for (method : str) (status_code : Z) : bool :=
  negb (method =s lit "HEAD") && expect_response_body status_code.

(** ** Header tokens *)

Inductive hd_token :=
  | HD__AUTHORITY
  | HD__HOST
  | HD__METHOD
  | HD__PATH
  | HD__PROTOCOL
  | HD__SCHEME
  | HD__STATUS
  | HD_ACCEPT_ENCODING
  | HD_ACCEPT_LANGUAGE
  | HD_ALT_SVC
  | HD_CACHE_CONTROL
  | HD_CONNECTION
  | HD_CONTENT_LENGTH
  | HD_CONTENT_TYPE
  | HD_COOKIE
  | HD_DATE
  | HD_EARLY_DATA
  | HD_EXPECT
  | HD_FORWARDED
  | HD_HOST
  | HD_HTTP2_SETTINGS
  | HD_IF_MODIFIED_SINCE
  | HD_KEEP_ALIVE
  | HD_LINK
  | HD_LOCATION
  | HD_PROXY_CONNECTION
  | HD_SEC_WEBSOCKET_ACCEPT
  | HD_SEC_WEBSOCKET_KEY
  | HD_SERVER
  | HD_TE
  | HD_TRAILER
  | HD_TRANSFER_ENCODING
  | HD_UPGRADE
  | HD_USER_AGENT
  | HD_VIA
  | HD_X_FORWARDED_FOR
  | HD_X_FORWARDED_PROTO.

#[export] Instance hd_token_eq_dec : EqDecision hd_token.
Proof. solve_decision. Defined.

(** [lookup_token] switches on the length, then on the last byte, then compares
    the bytes before it; [None] is the result -1.  The cases for names of up to
    nine bytes and for longer ones are two definitions. *)
Definition lookup_token_short (name : str) : option hd_token :=
  match length name with
  | 2%nat =>
    let c := nth 1 name "000"%char in
    if c =c "e"%char then
      if streq_l "t" name 1 then Some HD_TE
      else None
    else None
  | 3%nat =>
    let c := nth 2 name "000"%char in
    if c =c "a"%char then
      if streq_l "vi" name 2 then Some HD_VIA
      else None
    else None
  | 4%nat =>
    let c := nth 3 name "000"%char in
    if c =c "e"%char then
      if streq_l "dat" name 3 then Some HD_DATE
      else None
    else if c =c "k"%char then
      if streq_l "lin" name 3 then Some HD_LINK
      else None
    else if c =c "t"%char then
      if streq_l "hos" name 3 then Some HD_HOST
      else None
    else None
  | 5%nat =>
    let c := nth 4 name "000"%char in
    if c =c "h"%char then
      if streq_l ":pat" name 4 then Some HD__PATH
      else None
    else if c =c "t"%char then
      if streq_l ":hos" name 4 then Some HD__HOST
      else None
    else None
  | 6%nat =>
    let c := nth 5 name "000"%char in
    if c =c "e"%char then
      if streq_l "cooki" name 5 then Some HD_COOKIE
      else None
    else if c =c "r"%char then
      if streq_l "serve" name 5 then Some HD_SERVER
      else None
    else if c =c "t"%char then
      if streq_l "expec" name 5 then Some HD_EXPECT
      else None
    else None
  | 7%nat =>
    let c := nth 6 name "000"%char in
    if c =c "c"%char then
      if streq_l "alt-sv" name 6 then Some HD_ALT_SVC
      else None
    else if c =c "d"%char then
      if streq_l ":metho" name 6 then Some HD__METHOD
      else None
    else if c =c "e"%char then
      if streq_l ":schem" name 6 then Some HD__SCHEME
      else if streq_l "upgrad" name 6 then Some HD_UPGRADE
      else None
    else if c =c "r"%char then
      if streq_l "traile" name 6 then Some HD_TRAILER
      else None
    else if c =c "s"%char then
      if streq_l ":statu" name 6 then Some HD__STATUS
      else None
    else None
  | 8%nat =>
    let c := nth 7 name "000"%char in
    if c =c "n"%char then
      if streq_l "locatio" name 7 then Some HD_LOCATION
      else None
    else None
  | 9%nat =>
    let c := nth 8 name "000"%char in
    if c =c "d"%char then
      if streq_l "forwarde" name 8 then Some HD_FORWARDED
      else None
    else if c =c "l"%char then
      if streq_l ":protoco" name 8 then Some HD__PROTOCOL
      else None
    else None
  | _ => None
  end.

Definition lookup_token_long (name : str) : option hd_token :=
  match length name with
  | 10%nat =>
    let c := nth 9 name "000"%char in
    if c =c "a"%char then
      if streq_l "early-dat" name 9 then Some HD_EARLY_DATA
      else None
    else if c =c "e"%char then
      if streq_l "keep-aliv" name 9 then Some HD_KEEP_ALIVE
      else None
    else if c =c "n"%char then
      if streq_l "connectio" name 9 then Some HD_CONNECTION
      else None
    else if c =c "t"%char then
      if streq_l "user-agen" name 9 then Some HD_USER_AGENT
      else None
    else if c =c "y"%char then
      if streq_l ":authorit" name 9 then Some HD__AUTHORITY
      else None
    else None
  | 12%nat =>
    let c := nth 11 name "000"%char in
    if c =c "e"%char then
      if streq_l "content-typ" name 11 then Some HD_CONTENT_TYPE
      else None
    else None
  | 13%nat =>
    let c := nth 12 name "000"%char in
    if c =c "l"%char then
      if streq_l "cache-contro" name 12 then Some HD_CACHE_CONTROL
      else None
    else None
  | 14%nat =>
    let c := nth 13 name "000"%char in
    if c =c "h"%char then
      if streq_l "content-lengt" name 13 then Some HD_CONTENT_LENGTH
      else None
    else if c =c "s"%char then
      if streq_l "http2-setting" name 13 then Some HD_HTTP2_SETTINGS
      else None
    else None
  | 15%nat =>
    let c := nth 14 name "000"%char in
    if c =c "e"%char then
      if streq_l "accept-languag" name 14 then Some HD_ACCEPT_LANGUAGE
      else None
    else if c =c "g"%char then
      if streq_l "accept-encodin" name 14 then Some HD_ACCEPT_ENCODING
      else None
    else if c =c "r"%char then
      if streq_l "x-forwarded-fo" name 14 then Some HD_X_FORWARDED_FOR
      else None
    else None
  | 16%nat =>
    let c := nth 15 name "000"%char in
    if c =c "n"%char then
      if streq_l "proxy-connectio" name 15 then Some HD_PROXY_CONNECTION
      else None
    else None
  | 17%nat =>
    let c := nth 16 name "000"%char in
    if c =c "e"%char then
      if streq_l "if-modified-sinc" name 16 then Some HD_IF_MODIFIED_SINCE
      else None
    else if c =c "g"%char then
      if streq_l "transfer-encodin" name 16 then Some HD_TRANSFER_ENCODING
      else None
    else if c =c "o"%char then
      if streq_l "x-forwarded-prot" name 16 then Some HD_X_FORWARDED_PROTO
      else None
    else if c =c "y"%char then
      if streq_l "sec-websocket-ke" name 16 then Some HD_SEC_WEBSOCKET_KEY
      else None
    else None
  | 20%nat =>
    let c := nth 19 name "000"%char in
    if c =c "t"%char then
      if streq_l "sec-websocket-accep" name 19 then Some HD_SEC_WEBSOCKET_ACCEPT
      else None
    else None
  | _ => None
  end.

Definition lookup_token (name : str) : option hd_token :=
  if (length name <=? 9)%nat then lookup_token_short name else lookup_token_long name.

(** ** Name/value pairs *)

(** [nghttp2_nv] as the code fills it in; [nv_no_index] and [nv_no_copy_name]
    are the flags NGHTTP2_NV_FLAG_NO_INDEX and NGHTTP2_NV_FLAG_NO_COPY_NAME. *)
Record nghttp2_nv := mk_nv {
  nv_name : str;
  nv_value : str;
  nv_no_index : bool;
  nv_no_copy_name : bool;
}.

Definition make_nv (name value : str) (no_index : bool) : nghttp2_nv :=
  {| nv_name := name; nv_value := value; nv_no_index := no_index; nv_no_copy_name := false |}.

Definition make_nv_ls (name : string) (value : str) : nghttp2_nv :=
  {| nv_name := lit name; nv_value := value; nv_no_index := false; nv_no_copy_name := true |}.

(** ** Properties *)

(** The field name each token stands for. *)
Definition token_name (t : hd_token) : str :=
  lit match t with
      | HD__AUTHORITY => ":authority"
      | HD__HOST => ":host"
      | HD__METHOD => ":method"
      | HD__PATH => ":path"
      | HD__PROTOCOL => ":protocol"
      | HD__SCHEME => ":scheme"
      | HD__STATUS => ":status"
      | HD_ACCEPT_ENCODING => "accept-encoding"
      | HD_ACCEPT_LANGUAGE => "accept-language"
      | HD_ALT_SVC => "alt-svc"
      | HD_CACHE_CONTROL => "cache-control"
      | HD_CONNECTION => "connection"
      | HD_CONTENT_LENGTH => "content-length"
      | HD_CONTENT_TYPE => "content-type"
      | HD_COOKIE => "cookie"
      | HD_DATE => "date"
      | HD_EARLY_DATA => "early-data"
      | HD_EXPECT => "expect"
      | HD_FORWARDED => "forwarded"
      | HD_HOST => "host"
      | HD_HTTP2_SETTINGS => "http2-settings"
      | HD_IF_MODIFIED_SINCE => "if-modified-since"
      | HD_KEEP_ALIVE => "keep-alive"
      | HD_LINK => "link"
      | HD_LOCATION => "location"
      | HD_PROXY_CONNECTION => "proxy-connection"
      | HD_SEC_WEBSOCKET_ACCEPT => "sec-websocket-accept"
      | HD_SEC_WEBSOCKET_KEY => "sec-websocket-key"
      | HD_SERVER => "server"
      | HD_TE => "te"
      | HD_TRAILER => "trailer"
      | HD_TRANSFER_ENCODING => "transfer-encoding"
      | HD_UPGRADE => "upgrade"
      | HD_USER_AGENT => "user-agent"
      | HD_VIA => "via"
      | HD_X_FORWARDED_FOR => "x-forwarded-for"
      | HD_X_FORWARDED_PROTO => "x-forwarded-proto"
      end.

Lemma name_from_parts (name : str) n c (l : string) :
  length name = S n -> nth n name "000"%char = c -> streq_l l name n = true ->
  name = lit l ++ [c].
Proof.
  unfold streq_l. rewrite streq_spec. intros Hlen Hc Hl.
  rewrite <- (take_drop n name), <- Hl. f_equal.
  destruct (drop n name) as [|d t] eqn:Ed.
  - apply (f_equal length) in Ed. rewrite length_drop in Ed. simpl in Ed. lia.
  - pose proof (f_equal length Ed) as El. rewrite length_drop in El. simpl in El.
    destruct t; [|simpl in El; lia]. f_equal.
    assert (nth n name "000"%char = d) as <-; [|done].
    rewrite <- (take_drop n name), Ed, app_nth2; rewrite length_take; [|lia].
    replace (n - n `min` length name)%nat with 0%nat by lia. done.
Qed.

(** Follow the tests of one length down to the literal that was matched. *)
Ltac token_leaf H :=
  cbn [Nat.leb] in H; cbv zeta in H;
  repeat case_if_in H; try discriminate;
  injection H as <-;
  match goal with
  | El : length ?name = _, Ec : nth _ ?name _ = _, Es : streq_l _ ?name _ = true |- _ =>
    exact (name_from_parts _ _ _ _ El Ec Es)
  end.

Lemma lookup_token_sound name t : lookup_token name = Some t -> name = token_name t.
Proof.
  unfold lookup_token, lookup_token_short, lookup_token_long. intros H.
  destruct (length name) as [|n] eqn:El; [by vm_compute in H|].
  do 20 (destruct n as [|n]; [token_leaf H|]).
  by destruct n.
Qed.

Lemma lookup_token_complete t : lookup_token (token_name t) = Some t.
Proof. destruct t; vm_compute; reflexivity. Qed.

(** C34. The generated decision tree of [lookup_token] is an exact table lookup:
    a header name gets a token exactly when it is one of the 37 known names, and
    then its own. *)
Theorem lookup_token_spec (name : str) (t : hd_token) :
  lookup_token name = Some t <-> name = token_name t.
Proof. split; [apply lookup_token_sound|]. intros ->. apply lookup_token_complete. Qed.

(** *** Status codes *)

Lemma switch_elem {A} (cases : list (Z * A)) v a :
  switch cases v = Some a -> (v, a) ∈ cases.
Proof.
  induction cases as [|[k b] cases IH]; cbn [switch]; [done|]. case_if.
  - intros [= ->]. subst. by left.
  - intros H. right. by apply IH.
Qed.

Lemma digits_length fuel n k :
  0 <= n < 10 ^ Z.of_nat k -> (length (digits fuel n) <= k)%nat.
Proof.
  revert n k. induction fuel as [|fuel IH]; intros n k Hn; cbn [digits]; [simpl; lia|].
  case_if; [simpl; lia|]. rewrite length_app. cbn [length]. destruct k as [|k].
  - change (10 ^ Z.of_nat 0) with 1 in Hn. lia.
  - rewrite Nat2Z.inj_succ, Z.pow_succ_r in Hn by lia.
    assert (length (digits fuel (n / 10)) <= k)%nat; [|lia]. apply IH. split.
    + apply Z.div_pos; lia.
    + apply Z.div_lt_upper_bound; lia.
Qed.

Lemma utos_length n k :
  0 <= n < 10 ^ Z.of_nat k -> (1 <= k)%nat -> (length (utos n) <= k)%nat.
Proof.
  intros Hn Hk. destruct (Z.eq_dec n 0) as [->|]; [done|].
  rewrite utos_digits by lia. by apply digits_length.
Qed.

Lemma make_string_ref_uint_fits n : 0 <= n <= SIZE_MAX -> make_string_ref_uint n = Some (utos n).
Proof.
  intros Hn. unfold make_string_ref_uint, SIZE_MAX in *.
  assert (length (utos n) <= 20)%nat by (apply utos_length; [|lia]; change (10 ^ Z.of_nat 20) with 100000000000000000000; lia).
  change NGHTTP2_MAX_UINT64_DIGITS with 20%nat.
  by rewrite (proj2 (Nat.leb_le _ _)) by lia.
Qed.

Lemma stringify_status_utos status_code :
  0 <= status_code <= UINT32_MAX -> stringify_status status_code = Some (utos status_code).
Proof.
  intros Hsc.
  unfold stringify_status. destruct (switch status_strings status_code) as [s|] eqn:E.
  - apply switch_elem in E. f_equal.
    assert (Forall (fun '(k, s) => lit s = utos k) status_strings) as Hall.
    { apply (bool_decide_unpack _). vm_compute. exact I. }
    rewrite Forall_forall in Hall. exact (Hall _ E).
  - apply make_string_ref_uint_fits. unfold UINT32_MAX, SIZE_MAX in *. lia.
Qed.

(** [stringify_status] is the decimal notation of the status code for every
    [unsigned int]: the table of literals and the generic fallback agree (425,
    which only the reason-phrase table knows, included), and the fallback fits
    its 21-byte buffer. *)
Theorem stringify_status_spec (status_code : Z) (Hsc : 0 <= status_code <= UINT32_MAX) :
  stringify_status status_code = Some (utos status_code).
Proof. by apply stringify_status_utos. Qed.

Lemma stringify_status_spec_witness :
  0 <= 425 <= UINT32_MAX /\ stringify_status 425 = Some (lit "425").
Proof.
  split; [unfold UINT32_MAX; lia|].
  rewrite (stringify_status_spec 425) by (unfold UINT32_MAX; lia). vm_compute. reflexivity.
Defined.

(** A response has no body exactly for HEAD requests and for the statuses
    1xx (101 apart), 204 and 304. *)
Theorem expect_response_body_spec (method : str) (status_code : Z) :
  expect_response_body_for method status_code = false
  <-> method = lit "HEAD" \/ (100 <= status_code <= 199 /\ status_code <> 101)
      \/ status_code = 204 \/ status_code = 304.
Proof.
  unfold expect_response_body_for, expect_response_body.
  assert (Z.quot status_code 100 = 1 <-> 100 <= status_code <= 199) as Hq.
  { destruct (Z.le_gt_cases 0 status_code).
    - rewrite Z.quot_div_nonneg by lia. pose proof (Z.div_mod status_code 100 ltac:(lia)).
      pose proof (Z.mod_pos_bound status_code 100 ltac:(lia)). lia.
    - pose proof (Z.quot_pos (- status_code) 100 ltac:(lia) ltac:(lia)) as Hp.
      rewrite Z.quot_opp_l in Hp by lia. lia. }
  rewrite andb_false_iff, negb_false_iff, bool_decide_eq_true, orb_false_iff, !andb_false_iff,
    !negb_false_iff, Z.eqb_neq, !Z.eqb_eq, Hq. intuition lia.
Qed.

End http2.
