(* ===== verification/UrlParser.v ===== *)
(** * The URL parser: third-party/url-parser/url_parser.c

    The state machines of [http_parser_parse_url], with [HTTP_PARSER_STRICT]
    at its default 1.  The struct filled in by the parser keeps its 16-bit
    offsets and lengths, so an increment wraps around as it does in C.  Each
    function that the C code can leave early returns a [presult]: [PErr] is
    [return 1], [PBad] a failed [assert] or a read outside the buffer. *)

From S2P Require Import Prelude Util.

Module url_parser.

(** ** Character classes *)

Definition normal_url_char : list Z :=
  [0; 0; 0; 0; 246; 255; 255; 127; 255; 255; 255; 255; 255; 255; 255; 127]
  ++ replicate 16 0.

(** [BIT_AT(a, i)] *)
Definition bit_at (a : list Z) (i : Z) : bool :=
  Z.testbit (nth (Z.to_nat (Z.shiftr i 3)) a 0) (Z.land i 7).

Definition lower (c : ascii) : Z := Z.lor (code c) 32.
Definition is_alpha (c : ascii) : bool := (code "a" <=? lower c) && (lower c <=? code "z").
Definition is_num (c : ascii) : bool := (scode "0" <=? scode c) && (scode c <=? scode "9").
Definition is_alphanum (c : ascii) : bool := is_alpha c || is_num c.
Definition is_hex (c : ascii) : bool :=
  is_num c || ((code "a" <=? lower c) && (lower c <=? code "f")).

(** Membership in a list of characters written [(c) == 'x' || ...]. *)
Definition one_of (cs : string) (c : ascii) : bool := existsb (fun d => c =c d) (lit cs).

Definition is_mark (c : ascii) : bool := one_of "-_.!~*'()" c.
Definition is_userinfo_char (c : ascii) : bool :=
  is_alphanum c || is_mark c || one_of "%;:&=+$," c.
Definition is_url_char (c : ascii) : bool := bit_at normal_url_char (code c).
Definition is_host_char (c : ascii) : bool := is_alphanum c || one_of ".-" c.

(** ** The two state machines *)

Inductive state :=
  | s_dead
  | s_start_req_or_res
  | s_res_or_resp_H
  | s_start_res
  | s_res_H
  | s_res_HT
  | s_res_HTT
  | s_res_HTTP
  | s_res_http_major
  | s_res_http_dot
  | s_res_http_minor
  | s_res_http_end
  | s_res_first_status_code
  | s_res_status_code
  | s_res_status_start
  | s_res_status
  | s_res_line_almost_done
  | s_start_req
  | s_req_method
  | s_req_spaces_before_url
  | s_req_schema
  | s_req_schema_slash
  | s_req_schema_slash_slash
  | s_req_server_start
  | s_req_server
  | s_req_server_with_at
  | s_req_path
  | s_req_query_string_start
  | s_req_query_string
  | s_req_fragment_start
  | s_req_fragment
  | s_req_http_start
  | s_req_http_H
  | s_req_http_HT
  | s_req_http_HTT
  | s_req_http_HTTP
  | s_req_http_I
  | s_req_http_IC
  | s_req_http_major
  | s_req_http_dot
  | s_req_http_minor
  | s_req_http_end
  | s_req_line_almost_done
  | s_header_field_start
  | s_header_field
  | s_header_value_discard_ws
  | s_header_value_discard_ws_almost_done
  | s_header_value_discard_lws
  | s_header_value_start
  | s_header_value
  | s_header_value_lws
  | s_header_almost_done
  | s_chunk_size_start
  | s_chunk_size
  | s_chunk_parameters
  | s_chunk_size_almost_done
  | s_headers_almost_done
  | s_headers_done
  | s_chunk_data
  | s_chunk_data_almost_done
  | s_chunk_data_done
  | s_body_identity
  | s_body_identity_eof
  | s_message_done.

Inductive http_host_state :=
  | s_http_host_dead
  | s_http_userinfo_start
  | s_http_userinfo
  | s_http_host_start
  | s_http_host_v6_start
  | s_http_host
  | s_http_host_v6
  | s_http_host_v6_end
  | s_http_host_v6_zone_start
  | s_http_host_v6_zone
  | s_http_host_port_start
  | s_http_host_port.

#[export] Instance state_eq_dec : EqDecision state.
Proof. solve_decision. Defined.
#[export] Instance http_host_state_eq_dec : EqDecision http_host_state.
Proof. solve_decision. Defined.

(** The cases that [s_req_server_with_at] falls through to. *)
Definition server_char (ch : ascii) : state :=
  if ch =c "/"%char then s_req_path
  else if ch =c "?"%char then s_req_query_string_start
  else if ch =c "@"%char then s_req_server_with_at
  else if is_userinfo_char ch || (ch =c "["%char) || (ch =c "]"%char) then s_req_server
  else s_dead.

Definition parse_url_char (s : state) (ch : ascii) : state :=
  if one_of " " ch || (ch =c "013"%char) || (ch =c "010"%char) then s_dead
  else if (ch =c "009"%char) || (ch =c "012"%char) then s_dead
  else
    match s with
    | s_req_spaces_before_url =>
      if (ch =c "/"%char) || (ch =c "*"%char) then s_req_path
      else if is_alpha ch then s_req_schema
      else s_dead
    | s_req_schema =>
      if is_alpha ch then s
      else if ch =c ":"%char then s_req_schema_slash
      else s_dead
    | s_req_schema_slash => if ch =c "/"%char then s_req_schema_slash_slash else s_dead
    | s_req_schema_slash_slash => if ch =c "/"%char then s_req_server_start else s_dead
    | s_req_server_with_at => if ch =c "@"%char then s_dead else server_char ch
    | s_req_server_start | s_req_server => server_char ch
    | s_req_path =>
      if is_url_char ch then s
      else if ch =c "?"%char then s_req_query_string_start
      else if ch =c "#"%char then s_req_fragment_start
      else s_dead
    | s_req_query_string_start | s_req_query_string =>
      if is_url_char ch then s_req_query_string
      else if ch =c "?"%char then s_req_query_string
      else if ch =c "#"%char then s_req_fragment_start
      else s_dead
    | s_req_fragment_start =>
      if is_url_char ch then s_req_fragment
      else if ch =c "?"%char then s_req_fragment
      else if ch =c "#"%char then s
      else s_dead
    | s_req_fragment =>
      if is_url_char ch then s
      else if (ch =c "?"%char) || (ch =c "#"%char) then s
      else s_dead
    | _ => s_dead
    end.

(** [s_http_host] falls through to [s_http_host_v6_end], [s_http_host_v6] to
    [s_http_host_v6_start] and [s_http_host_v6_zone] to
    [s_http_host_v6_zone_start]. *)
Definition http_parse_host_char (s : http_host_state) (ch : ascii) : http_host_state :=
  match s with
  | s_http_userinfo | s_http_userinfo_start =>
    if ch =c "@"%char then s_http_host_start
    else if is_userinfo_char ch then s_http_userinfo
    else s_http_host_dead
  | s_http_host_start =>
    if ch =c "["%char then s_http_host_v6_start
    else if is_host_char ch then s_http_host
    else s_http_host_dead
  | s_http_host =>
    if is_host_char ch then s_http_host
    else if ch =c ":"%char then s_http_host_port_start
    else s_http_host_dead
  | s_http_host_v6_end => if ch =c ":"%char then s_http_host_port_start else s_http_host_dead
  | s_http_host_v6 =>
    if ch =c "]"%char then s_http_host_v6_end
    else if is_hex ch || (ch =c ":"%char) || (ch =c "."%char) then s_http_host_v6
    else if ch =c "%"%char then s_http_host_v6_zone_start
    else s_http_host_dead
  | s_http_host_v6_start =>
    if is_hex ch || (ch =c ":"%char) || (ch =c "."%char) then s_http_host_v6
    else s_http_host_dead
  | s_http_host_v6_zone =>
    if ch =c "]"%char then s_http_host_v6_end
    else if is_alphanum ch || one_of "%.-_~" ch then s_http_host_v6_zone
    else s_http_host_dead
  | s_http_host_v6_zone_start =>
    if is_alphanum ch || one_of "%.-_~" ch then s_http_host_v6_zone
    else s_http_host_dead
  | s_http_host_port | s_http_host_port_start =>
    if is_num ch then s_http_host_port else s_http_host_dead
  | s_http_host_dead => s_http_host_dead
  end.

(** ** The result structure *)

Inductive url_field :=
  | UF_SCHEMA | UF_HOST | UF_PORT | UF_PATH | UF_QUERY | UF_FRAGMENT | UF_USERINFO.

#[export] Instance url_field_eq_dec : EqDecision url_field.
Proof. solve_decision. Defined.

Definition uf_index (f : url_field) : Z :=
  match f with
  | UF_SCHEMA => 0 | UF_HOST => 1 | UF_PORT => 2 | UF_PATH => 3
  | UF_QUERY => 4 | UF_FRAGMENT => 5 | UF_USERINFO => 6
  end.

Record field_loc := mk_loc { off : Z; len : Z }.

Record http_parser_url := mk_url {
  field_set : Z;
  port : Z;
  field_data : url_field -> field_loc;
}.

(** [http_parser_url u{}] and [http_parser_url_init] *)
Definition http_parser_url_init : http_parser_url :=
  {| field_set := 0; port := 0; field_data := fun _ => {| off := 0; len := 0 |} |}.

(** [u->field_set & (1 << f)] *)
Definition has_field (u : http_parser_url) (f : url_field) : bool :=
  negb (Z.land (field_set u) (Z.shiftl 1 (uf_index f)) =? 0).

(** [u->field_set |= (1 << f)] *)
Definition set_bit (f : url_field) (u : http_parser_url) : http_parser_url :=
  {| field_set := Z.lor (field_set u) (Z.shiftl 1 (uf_index f));
     port := port u; field_data := field_data u |}.

Definition set_loc (f : url_field) (l : field_loc) (u : http_parser_url) : http_parser_url :=
  {| field_set := field_set u; port := port u;
     field_data := fun g => if decide (g = f) then l else field_data u g |}.

Definition set_port (v : Z) (u : http_parser_url) : http_parser_url :=
  {| field_set := field_set u; port := v; field_data := field_data u |}.

(** [u->field_data[f].off = (uint16_t)(p - buf)] *)
Definition set_off (f : url_field) (p : nat) (u : http_parser_url) : http_parser_url :=
  set_loc f {| off := wrap_u 16 (Z.of_nat p); len := len (field_data u f) |} u.

(** [u->field_data[f].len = n] *)
Definition set_len (f : url_field) (n : Z) (u : http_parser_url) : http_parser_url :=
  set_loc f {| off := off (field_data u f); len := n |} u.

(** [u->field_data[f].len++] *)
Definition inc_len (f : url_field) (u : http_parser_url) : http_parser_url :=
  set_len f (wrap_u 16 (len (field_data u f) + 1)) u.

(** ** Results of a step *)

Inductive presult (A : Type) :=
  | POk (a : A)
  | PErr
  | PBad.
Arguments POk {A} a.
Arguments PErr {A}.
Arguments PBad {A}.

Definition pbind {A B} (m : presult A) (k : A -> presult B) : presult B :=
  match m with POk a => k a | PErr => PErr | PBad => PBad end.

(** The bytes [buf + o .. buf + o + n), when they are inside the buffer. *)
Definition bytes_at (buf : str) (o n : Z) : presult str :=
  if o + n <=? Z.of_nat (length buf)
  then POk (take (Z.to_nat n) (drop (Z.to_nat o) buf)) else PBad.

(** ** The host *)

(** The update of [u] on entering [new_s] from [s] at position [p]. *)
Definition host_update (s new_s : http_host_state) (p : nat) (u : http_parser_url) : http_parser_url :=
  match new_s with
  | s_http_host =>
    inc_len UF_HOST (if decide (s = s_http_host) then u else set_off UF_HOST p u)
  | s_http_host_v6 =>
    inc_len UF_HOST (if decide (s = s_http_host_v6) then u else set_off UF_HOST p u)
  | s_http_host_v6_zone_start | s_http_host_v6_zone => inc_len UF_HOST u
  | s_http_host_port =>
    inc_len UF_PORT
      (if decide (s = s_http_host_port) then u
       else set_bit UF_PORT (set_len UF_PORT 0 (set_off UF_PORT p u)))
  | s_http_userinfo =>
    inc_len UF_USERINFO
      (if decide (s = s_http_userinfo) then u
       else set_bit UF_USERINFO (set_len UF_USERINFO 0 (set_off UF_USERINFO p u)))
  | _ => u
  end.

Fixpoint host_loop (chars : str) (p : nat) (s : http_host_state) (u : http_parser_url)
    : presult (http_host_state * http_parser_url) :=
  match chars with
  | [] => POk (s, u)
  | ch :: chars =>
    let new_s := http_parse_host_char s ch in
    match new_s with
    | s_http_host_dead => PErr
    | _ => host_loop chars (S p) new_s (host_update s new_s p u)
    end
  end.

Definition host_end_ok (s : http_host_state) : bool :=
  match s with
  | s_http_host_start | s_http_host_v6_start | s_http_host_v6 | s_http_host_v6_zone_start
  | s_http_host_v6_zone | s_http_host_port_start | s_http_userinfo | s_http_userinfo_start => false
  | _ => true
  end.

Definition http_parse_host (buf : str) (u : http_parser_url) (found_at : bool) : presult http_parser_url :=
  if negb (has_field u UF_HOST) then PBad
  else
    let l := field_data u UF_HOST in
    let s := if found_at then s_http_userinfo_start else s_http_host_start in
    pbind (bytes_at buf (off l) (len l)) (fun chars =>
    pbind (host_loop chars (Z.to_nat (off l)) s (set_len UF_HOST 0 u)) (fun '(s, u) =>
    if host_end_ok s then POk u else PErr)).

(** ** The URL *)

(** The field the state machine is in: [None] for a delimiter that is
    skipped, [PErr] when it died, [PBad] for the asserted-unreachable case. *)
Definition state_field (s : state) : presult (option url_field) :=
  match s with
  | s_dead => PErr
  | s_req_schema_slash | s_req_schema_slash_slash | s_req_server_start
  | s_req_query_string_start | s_req_fragment_start => POk None
  | s_req_schema => POk (Some UF_SCHEMA)
  | s_req_server_with_at | s_req_server => POk (Some UF_HOST)
  | s_req_path => POk (Some UF_PATH)
  | s_req_query_string => POk (Some UF_QUERY)
  | s_req_fragment => POk (Some UF_FRAGMENT)
  | _ => PBad
  end.

(** [old_uf] is [None] for [UF_MAX]. *)
Fixpoint url_loop (chars : str) (p : nat) (s : state) (old_uf : option url_field)
    (found_at : bool) (u : http_parser_url) : presult (bool * http_parser_url) :=
  match chars with
  | [] => POk (found_at, u)
  | ch :: chars =>
    let s := parse_url_char s ch in
    pbind (state_field s) (fun o =>
    match o with
    | None => url_loop chars (S p) s old_uf found_at u
    | Some uf =>
      let found_at := if decide (s = s_req_server_with_at) then true else found_at in
      if decide (Some uf = old_uf) then url_loop chars (S p) s old_uf found_at (inc_len uf u)
      else
        url_loop chars (S p) s (Some uf) found_at
          (set_bit uf (set_len uf 1 (set_off uf p u)))
    end)
  end.

(** [v] is an [unsigned long]; [*p - '0'] is an [int] converted to it. *)
Fixpoint port_loop (chars : str) (v : Z) : presult Z :=
  match chars with
  | [] => POk v
  | ch :: chars =>
    let v := wrap_u 64 (wrap_u 64 (v * 10) + (scode ch - scode "0")) in
    if 65535 <? v then PErr else port_loop chars v
  end.

Definition parse_port (buf : str) (u : http_parser_url) : presult http_parser_url :=
  if has_field u UF_PORT then
    let l := field_data u UF_PORT in
    pbind (bytes_at buf (off l) (len l)) (fun chars =>
    pbind (port_loop chars 0) (fun v => POk (set_port (wrap_u 16 v) u)))
  else POk u.

Definition http_parser_parse_url (buf : str) (is_connect : bool) (u : http_parser_url)
    : presult http_parser_url :=
  if (length buf =? 0)%nat then PErr
  else
    let u := {| field_set := 0; port := 0; field_data := field_data u |} in
    let s := if is_connect then s_req_server_start else s_req_spaces_before_url in
    pbind (url_loop buf 0 s None false u) (fun '(found_at, u) =>
    if has_field u UF_SCHEMA && negb (has_field u UF_HOST) then PErr
    else
      pbind (if has_field u UF_HOST then http_parse_host buf u found_at else POk u) (fun u =>
      if is_connect && negb (field_set u =? Z.lor (Z.shiftl 1 (uf_index UF_HOST))
                                                 (Z.shiftl 1 (uf_index UF_PORT)))
      then PErr
      else parse_port buf u)).

(** [copy_url_component] of lib/http2.cc: [dest] keeps its value when the field
    is not set. *)
Definition copy_url_component (dest : str) (u : http_parser_url) (f : url_field) (url : str) : presult str :=
  if has_field u f then bytes_at url (off (field_data u f)) (len (field_data u f)) else POk dest.

(** ** The bit set and the field table *)

Lemma has_field_testbit u f : has_field u f = Z.testbit (field_set u) (uf_index f).
Proof.
  unfold has_field. assert (0 <= uf_index f) as Hf by (destruct f; cbn; lia).
  destruct (Z.testbit (field_set u) (uf_index f)) eqn:E.
  - apply negb_true_iff, Z.eqb_neq. intros H0.
    apply (f_equal (fun z => Z.testbit z (uf_index f))) in H0.
    rewrite Z.land_spec, E, Z.bits_0, Z.shiftl_spec, Z.sub_diag in H0 by done. done.
  - apply negb_false_iff, Z.eqb_eq. apply Z.bits_inj'. intros n Hn.
    rewrite Z.bits_0, Z.land_spec, Z.shiftl_spec by done.
    destruct (Z.eq_dec n (uf_index f)) as [->|Hne]; [by rewrite E|].
    destruct (Z.testbit (field_set u) n); [|done]. cbn [andb].
    destruct (Z.le_gt_cases 0 (n - uf_index f)).
    + change 1 with (2 ^ 0). apply Z.pow2_bits_false. lia.
    + by apply Z.testbit_neg_r.
Qed.

Lemma uf_index_inj f g : uf_index f = uf_index g -> f = g.
Proof. by destruct f, g. Qed.

Lemma has_field_set_bit u f g :
  has_field (set_bit f u) g = bool_decide (g = f) || has_field u g.
Proof.
  rewrite !has_field_testbit. cbn [set_bit field_set].
  assert (0 <= uf_index g) by (destruct g; cbn; lia).
  rewrite Z.lor_spec, Z.shiftl_spec by done. case_bool_decide as E.
  - subst. by rewrite Z.sub_diag, orb_true_r.
  - assert (Z.testbit 1 (uf_index g - uf_index f) = false) as ->; [|by rewrite orb_false_r].
    assert (uf_index g <> uf_index f) by (intros ?; by apply E, uf_index_inj).
    destruct (Z.le_gt_cases 0 (uf_index g - uf_index f)).
    + change 1 with (2 ^ 0). apply Z.pow2_bits_false. lia.
    + by apply Z.testbit_neg_r.
Qed.

Lemma has_field_set_loc u f l g : has_field (set_loc f l u) g = has_field u g.
Proof. reflexivity. Qed.
Lemma has_field_set_len u f l g : has_field (set_len f l u) g = has_field u g.
Proof. reflexivity. Qed.
Lemma has_field_set_off u f l g : has_field (set_off f l u) g = has_field u g.
Proof. reflexivity. Qed.
Lemma has_field_inc_len u f g : has_field (inc_len f u) g = has_field u g.
Proof. reflexivity. Qed.

Lemma field_data_set_bit u f g : field_data (set_bit f u) g = field_data u g.
Proof. reflexivity. Qed.

Lemma field_data_set_loc u f l g :
  field_data (set_loc f l u) g = if decide (g = f) then l else field_data u g.
Proof. reflexivity. Qed.

Lemma field_data_set_len u f n g :
  field_data (set_len f n u) g
  = if decide (g = f) then {| off := off (field_data u f); len := n |} else field_data u g.
Proof. reflexivity. Qed.

Lemma field_data_set_off u f p g :
  field_data (set_off f p u) g
  = if decide (g = f) then {| off := wrap_u 16 (Z.of_nat p); len := len (field_data u f) |}
    else field_data u g.
Proof. reflexivity. Qed.

Lemma field_data_inc_len u f g :
  field_data (inc_len f u) g
  = if decide (g = f)
    then {| off := off (field_data u f); len := wrap_u 16 (len (field_data u f) + 1) |}
    else field_data u g.
Proof. reflexivity. Qed.

Create Rewrite HintDb url.
#[export] Hint Rewrite has_field_set_bit has_field_set_loc has_field_set_len has_field_set_off
  has_field_inc_len field_data_set_bit field_data_inc_len field_data_set_len
  field_data_set_off : url.

(** Reads of the field table after a sequence of updates. *)
Ltac url_simp :=
  autorewrite with url in *;
  repeat (case_decide; simplify_eq; try done); cbn [off len] in *.

(** ** Safety of the offsets *)

(** A location inside the first [n] bytes. *)
Definition loc_ok (n : Z) (l : field_loc) : Prop := 0 <= off l /\ 0 <= len l /\ off l + len l <= n.

Definition fields_ok (n : Z) (u : http_parser_url) : Prop :=
  forall f, has_field u f = true -> loc_ok n (field_data u f).

Lemma wrap16_le z : 0 <= z -> 0 <= wrap_u 16 z <= z.
Proof.
  intros H. pose proof (wrap_u_range 16 z ltac:(lia)). split; [lia|].
  unfold wrap_u. apply Z.mod_le; lia.
Qed.

Lemma loc_ok_mono n m l : n <= m -> loc_ok n l -> loc_ok m l.
Proof. unfold loc_ok. lia. Qed.

Lemma fields_ok_mono n m u : n <= m -> fields_ok n u -> fields_ok m u.
Proof. intros H Hu f Hf. eapply loc_ok_mono; eauto. Qed.

Lemma state_field_total s ch : state_field (parse_url_char s ch) <> PBad.
Proof.
  unfold parse_url_char, server_char.
  destruct s; repeat case_if; done.
Qed.

(** The fields that [http_parse_host] sets are not set before it. *)
Definition host_fields_unset (u : http_parser_url) : Prop :=
  has_field u UF_PORT = false /\ has_field u UF_USERINFO = false.

Lemma state_field_range s f : state_field s = POk (Some f) -> f <> UF_PORT /\ f <> UF_USERINFO.
Proof. by destruct s; intros [= <-]. Qed.

Lemma inc_len_ok u f n : fields_ok n u -> fields_ok (n + 1) (inc_len f u).
Proof.
  intros H g Hg. autorewrite with url in *. specialize (H g Hg). case_decide; subst.
  - destruct H as (? & ? & ?). pose proof (wrap16_le (len (field_data u f) + 1) ltac:(lia)).
    unfold loc_ok. cbn. lia.
  - eapply loc_ok_mono; [|done]. lia.
Qed.

Lemma start_field_ok u f p :
  fields_ok (Z.of_nat p) u -> fields_ok (Z.of_nat p + 1) (set_bit f (set_len f 1 (set_off f p u))).
Proof.
  intros H g Hg. url_simp.
  - pose proof (wrap16_le (Z.of_nat p) ltac:(lia)). unfold loc_ok. cbn. lia.
  - rewrite bool_decide_eq_false_2 in Hg by done. eapply loc_ok_mono; [|by apply H]. lia.
Qed.

Lemma url_loop_ok chars p s old_uf found_at u :
  fields_ok (Z.of_nat p) u -> host_fields_unset u ->
  match url_loop chars p s old_uf found_at u with
  | POk (_, u') => fields_ok (Z.of_nat (p + length chars)) u' /\ host_fields_unset u'
  | PErr => True
  | PBad => False
  end.
Proof.
  revert p s old_uf found_at u. induction chars as [|ch chars IH]; intros p s old_uf found_at u Hu Hh.
  { cbn. by rewrite Nat.add_0_r. }
  cbn [url_loop length]. rewrite Nat.add_succ_r, <- Nat.add_succ_l.
  pose proof (state_field_total s ch) as Ht.
  destruct (state_field (parse_url_char s ch)) as [[f|]| |] eqn:Ef; cbn [pbind]; [| |done|done].
  - apply state_field_range in Ef as [Hf1 Hf2]. case_decide.
    + apply IH; [|done]. rewrite Nat2Z.inj_succ. by apply inc_len_ok.
    + apply IH; [rewrite Nat2Z.inj_succ; by apply start_field_ok|].
      destruct Hh as [Hh1 Hh2]. split; autorewrite with url; rewrite bool_decide_eq_false_2 by done; done.
  - apply IH; [|done]. eapply fields_ok_mono; [|done]. lia.
Qed.

(** States in which no byte of the host has been seen. *)
Definition before_host (s : http_host_state) : bool :=
  match s with
  | s_http_userinfo_start | s_http_userinfo | s_http_host_start | s_http_host_v6_start => true
  | _ => false
  end.

(** The fields while the host is parsed, at position [p] of a host that ends
    within [n] bytes. *)
Definition host_inv (n : Z) (p : nat) (s : http_host_state) (u : http_parser_url) : Prop :=
  (forall f, f <> UF_HOST -> f <> UF_PORT -> f <> UF_USERINFO ->
             has_field u f = true -> loc_ok n (field_data u f))
  /\ loc_ok (Z.of_nat p) (field_data u UF_HOST)
  /\ (before_host s = true -> len (field_data u UF_HOST) = 0)
  /\ (forall f, f = UF_PORT \/ f = UF_USERINFO ->
                has_field u f = true -> loc_ok (Z.of_nat p) (field_data u f)).

Lemma host_char_pred s ch new_s :
  http_parse_host_char s ch = new_s ->
  match new_s with
  | s_http_host => s = s_http_host \/ before_host s = true
  | s_http_host_v6 => s = s_http_host_v6 \/ before_host s = true
  | s_http_host_start | s_http_host_v6_start | s_http_userinfo => before_host s = true
  | s_http_userinfo_start => False
  | _ => True
  end.
Proof.
  intros <-. destruct s; cbn; repeat case_if; auto.
Qed.

Lemma loc_inc n l : loc_ok n l -> loc_ok (n + 1) {| off := off l; len := wrap_u 16 (len l + 1) |}.
Proof.
  intros (? & ? & ?). pose proof (wrap16_le (len l + 1) ltac:(lia)). unfold loc_ok. cbn. lia.
Qed.

Lemma loc_fresh p : loc_ok (Z.of_nat p + 1) {| off := wrap_u 16 (Z.of_nat p); len := wrap_u 16 (0 + 1) |}.
Proof.
  pose proof (wrap16_le (Z.of_nat p) ltac:(lia)). change (wrap_u 16 (0 + 1)) with 1.
  unfold loc_ok. cbn. lia.
Qed.

Lemma host_update_inv n p s ch u :
  host_inv n p s u -> host_inv n (S p) (http_parse_host_char s ch)
                        (host_update s (http_parse_host_char s ch) p u).
Proof.
  intros (H1 & H2 & H3 & H4). pose proof (host_char_pred s ch _ eq_refl) as Hp.
  unfold host_inv. rewrite Nat2Z.inj_succ. unfold Z.succ.
  assert (loc_ok (Z.of_nat p + 1) (field_data u UF_HOST)) as H2' by (eapply loc_ok_mono; [|done]; lia).
  assert (forall f, f = UF_PORT \/ f = UF_USERINFO ->
            has_field u f = true -> loc_ok (Z.of_nat p + 1) (field_data u f)) as H4'.
  { intros f Hf Hs. eapply loc_ok_mono; [|by apply H4]. lia. }
  destruct (http_parse_host_char s ch); cbn [host_update before_host];
    try (repeat split; auto; intros; by auto).
  (* the states that update a field *)
  all: split; [intros f ? ? ? Hf; repeat case_decide; url_simp;
               rewrite ?bool_decide_eq_false_2 in Hf by done; by apply H1|].
  all: split; [|split; [auto; try done|intros f Hf Hs]].
  all: repeat case_decide; url_simp; auto using loc_inc, loc_fresh.
  all: try (destruct Hp as [|Hp]; [done|]; rewrite (H3 Hp); apply loc_fresh).
  all: try (destruct Hf; simplify_eq; done).
  all: try (rewrite bool_decide_eq_false_2 in Hs by done; by auto).
  all: try (by apply loc_fresh).
Qed.

Lemma host_loop_ok n chars p s u :
  host_inv n p s u ->
  match host_loop chars p s u with
  | POk (s', u') => host_inv n (p + length chars) s' u'
  | PErr => True
  | PBad => False
  end.
Proof.
  revert p s u. induction chars as [|ch chars IH]; intros p s u H; cbn [host_loop length].
  { by rewrite Nat.add_0_r. }
  rewrite Nat.add_succ_r, <- Nat.add_succ_l. pose proof (host_update_inv n p s ch u H) as H'.
  destruct (http_parse_host_char s ch); try apply IH; done.
Qed.

Lemma http_parse_host_ok buf u found_at :
  fields_ok (Z.of_nat (length buf)) u -> host_fields_unset u -> has_field u UF_HOST = true ->
  match http_parse_host buf u found_at with
  | POk u' => fields_ok (Z.of_nat (length buf)) u'
  | PErr => True
  | PBad => False
  end.
Proof.
  intros Hu [Hp Hi] Hh. unfold http_parse_host, bytes_at. rewrite Hh. cbn [negb].
  destruct (Hu _ Hh) as (Ho & Hl & Hs). rewrite (proj2 (Z.leb_le _ _)) by done. cbn [pbind].
  set (chars := take _ _). set (s := if found_at then _ else _).
  pose proof (host_loop_ok (Z.of_nat (length buf)) chars (Z.to_nat (off (field_data u UF_HOST))) s
                (set_len UF_HOST 0 u)) as H.
  destruct (host_loop chars _ s (set_len UF_HOST 0 u)) as [[s' u']| |]; cbn [pbind].
  - case_if; [|done].
    destruct H as (H1 & H2 & _ & H4).
    { split; [intros f ? ? ? Hf; url_simp; by apply Hu|].
      split; [url_simp; unfold loc_ok; cbn; lia|].
      split; [intros _; by url_simp|].
      intros f [->| ->] Hf; url_simp; congruence. }
    assert (Z.of_nat (Z.to_nat (off (field_data u UF_HOST)) + length chars) <= Z.of_nat (length buf)) as Hb.
    { subst chars. rewrite length_take, length_drop. lia. }
    intros f Hf. destruct (decide (f = UF_HOST)) as [->|]; [eapply loc_ok_mono; done|].
    destruct (decide (f = UF_PORT)) as [->|]; [eapply loc_ok_mono; [done|by apply H4; [left|]]|].
    destruct (decide (f = UF_USERINFO)) as [->|]; [eapply loc_ok_mono; [done|by apply H4; [right|]]|].
    by apply H1.
  - done.
  - apply H. split; [intros f ? ? ? Hf; url_simp; by apply Hu|].
    split; [url_simp; unfold loc_ok; cbn; lia|].
    split; [intros _; by url_simp|].
    intros f [->| ->] Hf; url_simp; congruence.
Qed.

(** The loops do not touch the port number. *)
Lemma host_update_port s new_s p u : port (host_update s new_s p u) = port u.
Proof. destruct new_s; cbn; repeat case_decide; reflexivity. Qed.

Lemma host_loop_port chars p s u s' u' : host_loop chars p s u = POk (s', u') -> port u' = port u.
Proof.
  revert p s u. induction chars as [|ch chars IH]; intros p s u; cbn [host_loop]; [by intros [= _ <-]|].
  pose proof (host_update_port s (http_parse_host_char s ch) p u) as Hp.
  destruct (http_parse_host_char s ch); [done|..]; intros H; apply IH in H; congruence.
Qed.

Lemma http_parse_host_port buf u found_at u' : http_parse_host buf u found_at = POk u' -> port u' = port u.
Proof.
  unfold http_parse_host. case_if; [done|].
  destruct (bytes_at buf _ _) as [chars| |]; cbn [pbind]; [|done..].
  destruct (host_loop chars _ _ _) as [[s u1]| |] eqn:E'; cbn [pbind]; [|done..].
  case_if; [|done]. intros [= <-]. by apply host_loop_port in E'.
Qed.

Lemma url_loop_port chars p s old_uf found_at u b u' :
  url_loop chars p s old_uf found_at u = POk (b, u') -> port u' = port u.
Proof.
  revert p s old_uf found_at u. induction chars as [|ch chars IH]; intros p s old_uf found_at u.
  { by intros [= _ <-]. }
  cbn [url_loop]. destruct (state_field (parse_url_char s ch)) as [[f|]| |]; cbn [pbind]; try done.
  - case_decide; intros Hl; by apply IH in Hl.
  - apply IH.
Qed.

Lemma port_loop_ok chars v :
  0 <= v <= 65535 ->
  match port_loop chars v with
  | POk v' => 0 <= v' <= 65535
  | PErr => True
  | PBad => False
  end.
Proof.
  revert v. induction chars as [|ch chars IH]; intros v Hv; cbn [port_loop]; [done|].
  case_if; [done|]. apply IH. split; [|done]. apply wrap_u_range. lia.
Qed.

Lemma http_parser_parse_url_ok buf is_connect u :
  match http_parser_parse_url buf is_connect u with
  | POk u' => fields_ok (Z.of_nat (length buf)) u' /\ 0 <= port u' <= 65535
  | PErr => True
  | PBad => False
  end.
Proof.
  unfold http_parser_parse_url. case_if; [done|].
  set (u0 := {| field_set := 0; port := 0; field_data := field_data u |}).
  set (s0 := if is_connect then _ else _).
  assert (forall f, has_field u0 f = false) as Hu0 by (intros f; by destruct f).
  pose proof (url_loop_ok buf 0 s0 None false u0) as H.
  pose proof (fun b u' => url_loop_port buf 0 s0 None false u0 b u') as Hport.
  destruct (url_loop buf 0 s0 None false u0) as [[found_at u1]| |]; cbn [pbind].
  2:done.
  2:{ apply H; [intros f Hf; by rewrite Hu0 in Hf|by split]. }
  destruct H as [Hf Hh]; [intros f Hf; by rewrite Hu0 in Hf|by split|].
  specialize (Hport _ _ eq_refl). cbn in Hport.
  case_if; [done|].
  assert (match (if has_field u1 UF_HOST then http_parse_host buf u1 found_at else POk u1) with
          | POk u' => fields_ok (Z.of_nat (length buf)) u' /\ port u' = 0
          | PErr => True
          | PBad => False
          end) as H2.
  { case_if; [|done]. pose proof (http_parse_host_ok buf u1 found_at Hf Hh E1) as Hk.
    pose proof (http_parse_host_port buf u1 found_at) as Hq.
    destruct (http_parse_host buf u1 found_at); [|done..].
    split; [done|]. by rewrite (Hq _ eq_refl). }
  destruct (if has_field u1 UF_HOST then _ else _) as [u2| |]; cbn [pbind]; [|done..].
  destruct H2 as [H2 H2p].
  case_if; [done|]. unfold parse_port, bytes_at. case_if; [|split; [done|lia]].
  destruct (H2 _ E2) as (? & ? & Hle). rewrite (proj2 (Z.leb_le _ _)) by done. cbn [pbind].
  set (chars := take _ _). pose proof (port_loop_ok chars 0 ltac:(lia)) as Hv.
  destruct (port_loop chars 0) as [v| |]; cbn [pbind]; [|done..].
  split; [exact H2|]. cbn. pose proof (wrap16_le v ltac:(lia)). lia.
Qed.

Lemma copy_in_bounds (buf dest : str) (u : http_parser_url) (f : url_field) :
  fields_ok (Z.of_nat (length buf)) u -> exists t, copy_url_component dest u f buf = POk t.
Proof.
  intros Hf. unfold copy_url_component, bytes_at. case_if; [|by eexists].
  destruct (Hf _ E) as (_ & _ & Hle). rewrite (proj2 (Z.leb_le _ _)) by done. by eexists.
Qed.

(** C26. The parser is memory safe for every input of every length: it never
    reads outside the buffer and none of its assertions fails; when it accepts,
    each component it reports lies inside the input, although offsets and
    lengths wrap around at 16 bits, and the port number fits 16 bits. *)
Theorem parse_url_safe (buf : str) (is_connect : bool) (u : http_parser_url) :
  http_parser_parse_url buf is_connect u <> PBad
  /\ forall u', http_parser_parse_url buf is_connect u = POk u' ->
       fields_ok (Z.of_nat (length buf)) u' /\ 0 <= port u' <= 65535
       /\ forall dest f, copy_url_component dest u' f buf <> PBad.
Proof.
  pose proof (http_parser_parse_url_ok buf is_connect u) as H. split.
  - by destruct (http_parser_parse_url buf is_connect u).
  - intros u' E. rewrite E in H. destruct H as [Hf Hp]. split; [done|]. split; [done|].
    intros dest f. by destruct (copy_in_bounds buf dest u' f Hf) as [t ->].
Qed.

(** ** Parsing the URL of given components *)

(** [u'] is [u] with field [f] at [l], or [u] itself for [None]. *)
Definition upd (f : url_field) (l : option field_loc) (u u' : http_parser_url) : Prop :=
  (forall g, has_field u' g = (bool_decide (g = f) && bool_decide (is_Some l)) || has_field u g)
  /\ (forall g, field_data u' g = if decide (g = f) then default (field_data u f) l else field_data u g)
  /\ port u' = port u.

Lemma upd_none f u : upd f None u u.
Proof.
  split; [|split; [|done]]; intros g; [by rewrite andb_false_r|].
  cbn. case_decide; by subst.
Qed.

Lemma upd_trans f l l' u u1 u2 : upd f (Some l) u u1 -> upd f (Some l') u1 u2 -> upd f (Some l') u u2.
Proof.
  intros (H1 & H2 & H3) (H1' & H2' & H3'). split; [|split; [|congruence]]; intros g.
  - rewrite H1', H1. by destruct (bool_decide (g = f)), (has_field u g).
  - rewrite H2'. case_decide; [done|]. rewrite H2. by case_decide.
Qed.

Lemma upd_inc f o n u :
  has_field u f = true -> field_data u f = {| off := o; len := n |} -> 0 <= n < 65535 ->
  upd f (Some {| off := o; len := n + 1 |}) u (inc_len f u).
Proof.
  intros Hf Hd Hn. split; [|split; [|done]]; intros g.
  - autorewrite with url. destruct (bool_decide_reflect (g = f)); [by subst; rewrite Hf|done].
  - url_simp. rewrite Hd. cbn. rewrite wrap_u_small by lia. done.
Qed.

Lemma upd_start f p u :
  Z.of_nat p < 65536 ->
  upd f (Some {| off := Z.of_nat p; len := 1 |}) u (set_bit f (set_len f 1 (set_off f p u))).
Proof.
  intros Hp. split; [|split; [|done]]; intros g.
  - autorewrite with url. by rewrite andb_true_r.
  - url_simp. rewrite wrap_u_small by lia. done.
Qed.

Lemma upd_has f l u u' : upd f (Some l) u u' -> has_field u' f = true /\ field_data u' f = l.
Proof.
  intros (H1 & H2 & _). rewrite H1, H2. rewrite bool_decide_eq_true_2 by done.
  by rewrite decide_True by done.
Qed.

(** The loop over bytes that keep the state. *)
Lemma url_loop_inc run rest p s uf fa u o n :
  Forall (fun c => parse_url_char s c = s) run ->
  state_field s = POk (Some uf) -> s <> s_req_server_with_at ->
  has_field u uf = true -> field_data u uf = {| off := o; len := n |} ->
  0 <= n -> n + Z.of_nat (length run) < 65536 ->
  exists u', url_loop (run ++ rest) p s (Some uf) fa u
             = url_loop rest (p + length run) s (Some uf) fa u'
             /\ upd uf (Some {| off := o; len := n + Z.of_nat (length run) |}) u u'.
Proof.
  intros Hrun Hs Hat. revert p u n. induction Hrun as [|c run Hc Hrun IH]; intros p u n Hf Hd Hn Hl.
  - exists u. cbn. rewrite Nat.add_0_r, Z.add_0_r. split; [done|].
    split; [|split; [|done]]; intros g; cbn.
    + destruct (bool_decide_reflect (g = uf)); [by subst; rewrite Hf|done].
    + case_decide; [by subst|done].
  - cbn [app url_loop length] in *. rewrite Hc, Hs. cbn [pbind].
    rewrite (decide_False (P := s = s_req_server_with_at)) by done.
    rewrite (decide_True (P := Some uf = Some uf)) by done.
    pose proof (upd_inc uf o n u Hf Hd ltac:(lia)) as Hu.
    destruct (upd_has _ _ _ _ Hu) as [Hf' Hd'].
    destruct (IH (S p) (inc_len uf u) (n + 1) Hf' Hd') as (u' & E & Hu'); [lia|lia|].
    exists u'. rewrite E. split; [f_equal; lia|]. eapply upd_trans; [done|].
    replace (n + Z.of_nat (S (length run))) with (n + 1 + Z.of_nat (length run)) by lia. done.
Qed.

(** A whole field, from its first byte. *)
Lemma url_loop_field c run rest p s0 s old uf fa u :
  parse_url_char s0 c = s -> Forall (fun c => parse_url_char s c = s) run ->
  state_field s = POk (Some uf) -> s <> s_req_server_with_at -> old <> Some uf ->
  Z.of_nat (p + S (length run)) < 65536 ->
  exists u', url_loop ((c :: run) ++ rest) p s0 old fa u
             = url_loop rest (p + S (length run)) s (Some uf) fa u'
             /\ upd uf (Some {| off := Z.of_nat p; len := Z.of_nat (S (length run)) |}) u u'.
Proof.
  intros Hc Hrun Hs Hat Hold Hp. cbn [app url_loop]. rewrite Hc, Hs. cbn [pbind].
  rewrite (decide_False (P := s = s_req_server_with_at)) by done.
  rewrite (decide_False (P := Some uf = old)) by congruence.
  pose proof (upd_start uf p u ltac:(lia)) as Hu. destruct (upd_has _ _ _ _ Hu) as [Hf' Hd'].
  destruct (url_loop_inc run rest (S p) s uf fa _ (Z.of_nat p) 1 Hrun Hs Hat Hf' Hd')
    as (u' & E & Hu'); [lia|lia|].
  exists u'. rewrite E. split; [f_equal; lia|]. eapply upd_trans; [done|].
  replace (Z.of_nat (S (length run))) with (1 + Z.of_nat (length run)) by lia. done.
Qed.

(** *** The bytes of each component *)

Definition authority_char (c : ascii) : bool := is_host_char c || is_num c || (c =c ":"%char).

Lemma alpha_step c : is_alpha c = true ->
  parse_url_char s_req_spaces_before_url c = s_req_schema /\ parse_url_char s_req_schema c = s_req_schema.
Proof. by_bytes c. Qed.

Lemma authority_step c : authority_char c = true ->
  parse_url_char s_req_server_start c = s_req_server /\ parse_url_char s_req_server c = s_req_server.
Proof. by_bytes c. Qed.

Lemma url_char_step c : is_url_char c = true ->
  parse_url_char s_req_path c = s_req_path
  /\ parse_url_char s_req_query_string_start c = s_req_query_string
  /\ parse_url_char s_req_query_string c = s_req_query_string.
Proof. by_bytes c. Qed.

Lemma host_char_step c : is_host_char c = true ->
  http_parse_host_char s_http_host_start c = s_http_host /\ http_parse_host_char s_http_host c = s_http_host
  /\ authority_char c = true.
Proof. by_bytes c. Qed.

Lemma num_step c : is_num c = true ->
  http_parse_host_char s_http_host_port_start c = s_http_host_port
  /\ http_parse_host_char s_http_host_port c = s_http_host_port
  /\ authority_char c = true /\ util.is_digit c = true /\ scode c = code c.
Proof. by_bytes c. Qed.

(** *** The host and the port *)

Lemma host_loop_cons ch chars p s u s' :
  http_parse_host_char s ch = s' -> s' <> s_http_host_dead ->
  host_loop (ch :: chars) p s u = host_loop chars (S p) s' (host_update s s' p u).
Proof. intros <-. cbn [host_loop]. by destruct (http_parse_host_char s ch). Qed.

Lemma host_loop_inc run rest p s f u o n :
  Forall (fun c => http_parse_host_char s c = s) run -> s <> s_http_host_dead ->
  (forall p u, host_update s s p u = inc_len f u) ->
  has_field u f = true -> field_data u f = {| off := o; len := n |} ->
  0 <= n -> n + Z.of_nat (length run) < 65536 ->
  exists u', host_loop (run ++ rest) p s u = host_loop rest (p + length run) s u'
             /\ upd f (Some {| off := o; len := n + Z.of_nat (length run) |}) u u'.
Proof.
  intros Hrun Hs Hup. revert p u n. induction Hrun as [|c run Hc Hrun IH]; intros p u n Hf Hd Hn Hl.
  - exists u. cbn. rewrite Nat.add_0_r, Z.add_0_r. split; [done|].
    split; [|split; [|done]]; intros g; cbn.
    + destruct (bool_decide_reflect (g = f)); [by subst; rewrite Hf|done].
    + case_decide; [by subst|done].
  - cbn [app length] in *. rewrite (host_loop_cons _ _ _ _ _ _ Hc Hs), Hup.
    pose proof (upd_inc f o n u Hf Hd ltac:(lia)) as Hu. destruct (upd_has _ _ _ _ Hu) as [Hf' Hd'].
    destruct (IH (S p) (inc_len f u) (n + 1) Hf' Hd') as (u' & E & Hu'); [lia|lia|].
    exists u'. rewrite E. split; [f_equal; lia|]. eapply upd_trans; [done|].
    replace (n + Z.of_nat (S (length run))) with (n + 1 + Z.of_nat (length run)) by lia. done.
Qed.

(** The host name, from its first byte. *)
Lemma host_loop_host host rest p u :
  host <> [] -> Forall (fun c => is_host_char c = true) host ->
  has_field u UF_HOST = true -> len (field_data u UF_HOST) = 0 ->
  Z.of_nat (p + length host) < 65536 ->
  exists u', host_loop (host ++ rest) p s_http_host_start u
             = host_loop rest (p + length host) s_http_host u'
             /\ upd UF_HOST (Some {| off := Z.of_nat p; len := Z.of_nat (length host) |}) u u'.
Proof.
  intros Hne Hh Hf Hd Hp. destruct Hh as [|c host Hc Hh]; [done|]. cbn [app length] in *.
  apply host_char_step in Hc as (Hc & _ & _). rewrite (host_loop_cons _ _ _ _ _ _ Hc) by done.
  assert (upd UF_HOST (Some {| off := Z.of_nat p; len := 1 |}) u
            (host_update s_http_host_start s_http_host p u)) as Hu.
  { cbn [host_update]. rewrite decide_False by done. split; [|split; [|done]]; intros g.
    - autorewrite with url. destruct (bool_decide_reflect (g = UF_HOST)); [by subst; rewrite Hf|done].
    - url_simp. rewrite Hd. cbn. by rewrite wrap_u_small by lia. }
  destruct (upd_has _ _ _ _ Hu) as [Hf' Hd'].
  destruct (host_loop_inc host rest (S p) s_http_host UF_HOST
              (host_update s_http_host_start s_http_host p u) (Z.of_nat p) 1)
    as (u' & E & Hu'); [|done|done|done|done|lia|lia|].
  { eapply Forall_impl; [done|]. intros d Hd2. by apply host_char_step in Hd2 as (_ & ? & _). }
  exists u'. rewrite E. split; [f_equal; lia|]. eapply upd_trans; [done|].
  replace (Z.of_nat (S (length host))) with (1 + Z.of_nat (length host)) by lia. done.
Qed.

(** A colon and a port number. *)
Lemma host_loop_port_digits ds p u :
  ds <> [] -> Forall (fun c => is_num c = true) ds ->
  Z.of_nat (S p + length ds) < 65536 ->
  exists u', host_loop (":"%char :: ds) p s_http_host u = POk (s_http_host_port, u')
             /\ upd UF_PORT (Some {| off := Z.of_nat (S p); len := Z.of_nat (length ds) |}) u u'.
Proof.
  intros Hne Hds Hp. rewrite (host_loop_cons _ _ _ _ _ s_http_host_port_start) by done.
  destruct Hds as [|c ds Hc Hds]; [done|]. cbn [length] in *.
  apply num_step in Hc as (Hc & _). rewrite (host_loop_cons _ _ _ _ _ _ Hc) by done.
  cbn [host_update]. rewrite decide_False by done. set (u1 := inc_len _ _).
  assert (upd UF_PORT (Some {| off := Z.of_nat (S p); len := 1 |}) u u1) as Hu.
  { subst u1. split; [|split; [|done]]; intros g.
    - autorewrite with url. by rewrite andb_true_r.
    - url_simp. cbn. by rewrite wrap_u_small by lia. }
  destruct (upd_has _ _ _ _ Hu) as [Hf' Hd'].
  destruct (host_loop_inc ds [] (S (S p)) s_http_host_port UF_PORT u1 (Z.of_nat (S p)) 1)
    as (u' & E & Hu'); [|done|done|done|done|lia|lia|].
  { eapply Forall_impl; [done|]. intros d Hd2. by apply num_step in Hd2 as (_ & ? & _). }
  rewrite app_nil_r in E. exists u'. rewrite E. split; [done|]. eapply upd_trans; [done|].
  replace (Z.of_nat (S (length ds))) with (1 + Z.of_nat (length ds)) by lia. done.
Qed.

(** The port number is the value of its digits. *)
Lemma port_loop_spec ds v :
  Forall (fun c => is_num c = true) ds -> 0 <= v <= 65535 ->
  port_loop ds v = if util.decimal_from v ds <=? 65535 then POk (util.decimal_from v ds) else PErr.
Proof.
  intros Hds. revert v. induction Hds as [|c ds Hc Hds IH]; intros v Hv.
  { cbn. by rewrite (proj2 (Z.leb_le _ _)) by lia. }
  apply num_step in Hc as (_ & _ & _ & Hdig & Hsc). pose proof (util.is_digit_val _ Hdig) as Hd.
  cbn [port_loop]. cbv zeta. rewrite Hsc. change (scode "0") with (code "0").
  change (code c - code "0") with (util.digit_val c).
  rewrite (wrap_u_small 64 (v * 10)) by lia.
  rewrite (wrap_u_small 64 (v * 10 + util.digit_val c)) by lia.
  change (util.decimal_from v (c :: ds)) with (util.decimal_from (v * 10 + util.digit_val c) ds).
  case_if.
  - rewrite (proj2 (Z.leb_gt _ _)); [done|]. eapply Z.lt_le_trans; [done|].
    apply util.decimal_from_mono; [lia|]. eapply Forall_impl; [done|].
    intros d Hd2. by apply num_step in Hd2 as (_ & _ & _ & ? & _).
  - apply IH. lia.
Qed.

(** *** URLs made of their components *)

Record url_parts := mk_parts {
  u_scheme : str;
  u_host : str;
  u_port : option str;
  u_path : str;
  u_query : option str;
}.

Definition prefixed (c : ascii) (o : option str) : str :=
  match o with Some x => c :: x | None => [] end.

Definition authority (x : url_parts) : str := u_host x ++ prefixed ":" (u_port x).

Definition url_of (x : url_parts) : str :=
  u_scheme x ++ lit "://" ++ authority x ++ u_path x ++ prefixed "?" (u_query x).

Definition nonempty (s : str) : bool := negb (length s =? 0)%nat.

(** Every byte of each component is one the grammar allows there. *)
Definition parts_ok (x : url_parts) : bool :=
  nonempty (u_scheme x) && forallb is_alpha (u_scheme x)
  && nonempty (u_host x) && forallb is_host_char (u_host x)
  && match u_port x with
     | Some ds => nonempty ds && forallb is_num ds && (util.decimal_value ds <=? 65535)
     | None => true
     end
  && match u_path x with
     | [] => true
     | c :: rest => (c =c "/"%char) && forallb is_url_char rest
     end
  && match u_query x with
     | Some q => nonempty q && forallb is_url_char q
     | None => true
     end.

Lemma nonempty_cons s : nonempty s = true -> exists c r, s = c :: r.
Proof. destruct s as [|c r]; [done|]. by exists c, r. Qed.

Lemma forallb_F {A} (f : A -> bool) l : forallb f l = true -> Forall (fun c => f c = true) l.
Proof. induction l; cbn; [done|]. rewrite andb_true_iff. intros []. by constructor; auto. Qed.

(** The location of a component, [None] when it is empty. *)
Definition loc_of (p : nat) (s : str) : option field_loc :=
  if nonempty s then Some {| off := Z.of_nat p; len := Z.of_nat (length s) |} else None.

(** A skipped delimiter. *)
Lemma url_loop_skip ch chars p s s' old fa u :
  parse_url_char s ch = s' -> state_field s' = POk None ->
  url_loop (ch :: chars) p s old fa u = url_loop chars (S p) s' old fa u.
Proof. intros <- H. cbn [url_loop]. by rewrite H. Qed.

(** The query, after the server or the path. *)
Lemma query_loop q p s old u :
  s = s_req_server \/ s = s_req_path -> old <> Some UF_QUERY ->
  match q with Some q => nonempty q && forallb is_url_char q | None => true end = true ->
  Z.of_nat (p + length (prefixed "?" q)) < 65536 ->
  exists u', url_loop (prefixed "?" q) p s old false u = POk (false, u')
             /\ upd UF_QUERY (loc_of (S p) (default [] q)) u u'.
Proof.
  intros Hs Hold Hq Hp. destruct q as [q|]; cbn [prefixed default] in *.
  2:{ exists u. split; [done|]. apply upd_none. }
  apply andb_true_iff in Hq as [(c & r & ->)%nonempty_cons Hq]. apply forallb_F in Hq.
  inversion_clear Hq as [|?? Hc Hr]. cbn [length] in Hp.
  rewrite (url_loop_skip _ _ _ _ s_req_query_string_start) by (by destruct Hs as [-> | ->]).
  destruct (url_loop_field c r [] (S p) s_req_query_string_start s_req_query_string old UF_QUERY false u)
    as (u' & E & Hu); [by apply url_char_step in Hc as (_ & ? & _)| |done|done|done|lia|].
  { eapply Forall_impl; [exact Hr|]. intros d Hd. by apply url_char_step in Hd as (_ & _ & ?). }
  rewrite app_nil_r in E. exists u'. rewrite E. split; [done|exact Hu].
Qed.

(** The path and the query, after the server. *)
Lemma path_query_loop path q p u :
  match path with [] => true | c :: rest => (c =c "/"%char) && forallb is_url_char rest end = true ->
  match q with Some q => nonempty q && forallb is_url_char q | None => true end = true ->
  Z.of_nat (p + length path + length (prefixed "?" q)) < 65536 ->
  exists u1 u', url_loop (path ++ prefixed "?" q) p s_req_server (Some UF_HOST) false u = POk (false, u')
             /\ upd UF_PATH (loc_of p path) u u1
             /\ upd UF_QUERY (loc_of (S (p + length path)) (default [] q)) u1 u'.
Proof.
  intros Hpath Hq Hp. destruct path as [|c r].
  - destruct (query_loop q p s_req_server (Some UF_HOST) u) as (u' & E & Hu); [by left|done|done|cbn in Hp; lia|].
    exists u, u'. cbn [app length]. rewrite Nat.add_0_r. split; [done|]. split; [apply upd_none|done].
  - apply andb_true_iff in Hpath as [->%bool_decide_eq_true Hr]. apply forallb_F in Hr. cbn [length] in Hp.
    destruct (url_loop_field "/" r (prefixed "?" q) p s_req_server s_req_path (Some UF_HOST) UF_PATH false u)
      as (u1 & E & Hu); [done| |done|done|done|lia|].
    { eapply Forall_impl; [exact Hr|]. intros d Hd. by apply url_char_step in Hd as (? & _). }
    destruct (query_loop q (p + S (length r)) s_req_path (Some UF_PATH) u1) as (u' & E' & Hu');
      [by right|done|done|lia|].
    exists u1, u'. rewrite E, E'. done.
Qed.

Lemma bytes_at_mid pre x post :
  bytes_at (pre ++ x ++ post) (Z.of_nat (length pre)) (Z.of_nat (length x)) = POk x.
Proof.
  unfold bytes_at. rewrite !length_app, (proj2 (Z.leb_le _ _)) by lia.
  rewrite !Nat2Z.id, drop_app_length, take_app_length. done.
Qed.

Lemma upd_set_len f l n u u' : upd f (Some l) (set_len f n u) u' -> upd f (Some l) u u'.
Proof.
  intros (H1 & H2 & H3). split; [done|]. split; [|done]. intros g. rewrite H2.
  case_decide; [done|]. by url_simp.
Qed.

(** The host part of a buffer. *)
Lemma parse_host_mid pre host prt post u :
  nonempty host = true -> forallb is_host_char host = true ->
  match prt with Some ds => nonempty ds && forallb is_num ds | None => true end = true ->
  has_field u UF_HOST = true ->
  field_data u UF_HOST
  = {| off := Z.of_nat (length pre); len := Z.of_nat (length (host ++ prefixed ":" prt)) |} ->
  Z.of_nat (length pre + length host + length (prefixed ":" prt)) < 65536 ->
  exists u1 u', http_parse_host (pre ++ (host ++ prefixed ":" prt) ++ post) u false = POk u'
    /\ upd UF_HOST (Some {| off := Z.of_nat (length pre); len := Z.of_nat (length host) |}) u u1
    /\ upd UF_PORT (loc_of (S (length pre + length host)) (default [] prt)) u1 u'.
Proof.
  intros Hne Hh Hprt Hf Hd Hl. unfold http_parse_host. rewrite Hf, Hd. cbn [negb off len].
  rewrite bytes_at_mid. cbn [pbind]. rewrite Nat2Z.id.
  destruct (host_loop_host host (prefixed ":" prt) (length pre) (set_len UF_HOST 0 u))
    as (u1 & E & Hu); [by destruct host|by apply forallb_F|done|by url_simp|lia|].
  rewrite E. apply upd_set_len in Hu. destruct prt as [ds|]; cbn [prefixed default length] in *.
  - apply andb_true_iff in Hprt as [Hn Hds].
    destruct (host_loop_port_digits ds (length pre + length host) u1)
      as (u' & E' & Hu'); [by destruct ds|by apply forallb_F|lia|].
    exists u1, u'. rewrite E'. split; [done|]. split; [done|]. by destruct ds.
  - exists u1, u1. split; [done|]. split; [done|]. apply upd_none.
Qed.

(** The scheme and its delimiter. *)
Lemma scheme_loop sch rest u :
  nonempty sch = true -> forallb is_alpha sch = true -> Z.of_nat (length sch) < 65536 ->
  exists u', url_loop (sch ++ lit "://" ++ rest) 0 s_req_spaces_before_url None false u
             = url_loop rest (length sch + 3) s_req_server_start (Some UF_SCHEMA) false u'
             /\ upd UF_SCHEMA (loc_of 0 sch) u u'.
Proof.
  intros (c & r & ->)%nonempty_cons Hs Hl. apply forallb_F in Hs. inversion_clear Hs as [|?? Hc Hr].
  destruct (url_loop_field c r (lit "://" ++ rest) 0 s_req_spaces_before_url s_req_schema None UF_SCHEMA false u)
    as (u' & E & Hu); [by apply alpha_step in Hc as []| |done|done|done|done|].
  { eapply Forall_impl; [exact Hr|]. intros e He. by apply alpha_step in He as []. }
  exists u'. split; [|exact Hu]. etransitivity; [exact E|].
  cbn [length]. replace (S (length r) + 3)%nat with (S (S (S (0 + S (length r))))) by lia. reflexivity.
Qed.

(** The server, from its first byte. *)
Lemma authority_loop auth rest p u :
  nonempty auth = true -> forallb authority_char auth = true -> Z.of_nat (p + length auth) < 65536 ->
  exists u', url_loop (auth ++ rest) p s_req_server_start (Some UF_SCHEMA) false u
             = url_loop rest (p + length auth) s_req_server (Some UF_HOST) false u'
             /\ upd UF_HOST (loc_of p auth) u u'.
Proof.
  intros (c & r & ->)%nonempty_cons Hs Hl. apply forallb_F in Hs. inversion_clear Hs as [|?? Hc Hr].
  destruct (url_loop_field c r rest p s_req_server_start s_req_server (Some UF_SCHEMA) UF_HOST false u)
    as (u' & E & Hu); [by apply authority_step in Hc as []| |done|done|done|done|by exists u'].
  eapply Forall_impl; [exact Hr|]. intros e He. by apply authority_step in He as [].
Qed.

Lemma authority_chars x :
  parts_ok x = true -> nonempty (authority x) = true /\ forallb authority_char (authority x) = true.
Proof.
  unfold parts_ok, authority. rewrite !andb_true_iff. intros ((((((_ & _) & Hh) & Hhc) & Hp) & _) & _).
  apply nonempty_cons in Hh as (d & t & E). split; [by rewrite E|]. rewrite forallb_app.
  apply andb_true_iff; split; apply forallb_forall; intros e He.
  - rewrite forallb_forall in Hhc. apply Hhc in He. by apply host_char_step in He as (_ & _ & ?).
  - destruct (u_port x) as [ds|]; [|done]. destruct He as [<-|He]; [done|].
    rewrite !andb_true_iff in Hp. destruct Hp as [[_ Hp] _]. rewrite forallb_forall in Hp.
    apply Hp, num_step in He as (_ & _ & ? & _). done.
Qed.

(** The scan of a whole URL. *)
Lemma url_loop_url x u :
  parts_ok x = true -> Z.of_nat (length (url_of x)) < 65536 ->
  let p := (length (u_scheme x) + 3)%nat in
  let q := (p + length (authority x))%nat in
  exists a b c d,
    url_loop (url_of x) 0 s_req_spaces_before_url None false u = POk (false, d)
    /\ upd UF_SCHEMA (loc_of 0 (u_scheme x)) u a
    /\ upd UF_HOST (loc_of p (authority x)) a b
    /\ upd UF_PATH (loc_of q (u_path x)) b c
    /\ upd UF_QUERY (loc_of (S (q + length (u_path x))) (default [] (u_query x))) c d.
Proof.
  intros Hok Hl p q. destruct (authority_chars x Hok) as [Hn Ha].
  unfold url_of in *. rewrite !length_app in Hl. change (length (lit "://")) with 3%nat in Hl.
  unfold parts_ok in Hok. rewrite !andb_true_iff in Hok.
  destruct Hok as ((((((Hs & Hsc) & _) & _) & _) & Hpath) & Hq).
  destruct (scheme_loop (u_scheme x) (authority x ++ u_path x ++ prefixed "?" (u_query x)) u)
    as (a & Ea & Hua); [done|done|lia|].
  destruct (authority_loop (authority x) (u_path x ++ prefixed "?" (u_query x)) p a)
    as (b & Eb & Hub); [done|done|lia|].
  destruct (path_query_loop (u_path x) (u_query x) q b) as (c & d & Ec & Huc & Hud); [done|done|lia|].
  exists a, b, c, d. rewrite Ea. fold p. rewrite Eb. fold q. rewrite Ec. done.
Qed.

(** *** The round trip *)

(** Field [f] is the text [s] at position [p], or absent when [s] is empty. *)
Definition located (u : http_parser_url) (f : url_field) (p : nat) (s : str) : Prop :=
  has_field u f = nonempty s
  /\ (nonempty s = true -> field_data u f = {| off := Z.of_nat p; len := Z.of_nat (length s) |}).

Lemma located_upd f p s u u' :
  has_field u f = false -> upd f (loc_of p s) u u' -> located u' f p s.
Proof.
  intros Hf (H1 & H2 & _). unfold located, loc_of in *. rewrite H1, H2, Hf, orb_false_r.
  rewrite bool_decide_eq_true_2, decide_True by done. by destruct (nonempty s).
Qed.

Lemma located_keep f g l p s u u' : upd g l u u' -> f <> g -> located u f p s -> located u' f p s.
Proof.
  intros (H1 & H2 & _) Hn [Hl1 Hl2]. unfold located. rewrite H1, H2.
  rewrite bool_decide_eq_false_2, decide_False by done. done.
Qed.

Lemma located_copy u f pre s post :
  located u f (length pre) s -> copy_url_component [] u f (pre ++ s ++ post) = POk s.
Proof.
  intros [H1 H2]. unfold copy_url_component. rewrite H1. destruct s as [|c s]; [done|].
  cbn [nonempty length Nat.eqb negb]. rewrite H2 by done. apply bytes_at_mid.
Qed.

Lemma has_field_upd f g l u u' : upd g l u u' -> f <> g -> has_field u' f = has_field u f.
Proof. intros (H1 & _) Hn. rewrite H1, bool_decide_eq_false_2 by done. done. Qed.

Lemma upd_port f l u u' : upd f l u u' -> port u' = port u.
Proof. by intros (_ & _ & ?). Qed.

(** The port number, once its digits are located. *)
Lemma parse_port_located pre ds post u :
  located u UF_PORT (length pre) ds -> forallb is_num ds = true -> util.decimal_value ds <= 65535 ->
  parse_port (pre ++ ds ++ post) u = POk (if nonempty ds then set_port (util.decimal_value ds) u else u).
Proof.
  intros [H1 H2] Hds Hv. unfold parse_port. rewrite H1. destruct (nonempty ds) eqn:En; [|done].
  rewrite H2 by done. cbn [off len]. rewrite bytes_at_mid. cbn [pbind]. apply forallb_F in Hds.
  rewrite port_loop_spec by (done || lia). unfold util.decimal_value in *.
  rewrite (proj2 (Z.leb_le _ _)) by done. cbn [pbind]. rewrite wrap_u_small; [done|lia|].
  split; [|lia]. apply util.decimal_from_mono; [done|].
  eapply Forall_impl; [done|]. intros d Hd. by apply num_step in Hd as (_ & _ & _ & ? & _).
Qed.

(** Where the fields are after the host has been split. *)
Lemma parse_located x u0 :
  parts_ok x = true -> Z.of_nat (length (url_of x)) < 65536 -> (forall f, has_field u0 f = false) ->
  let p := (length (u_scheme x) + 3)%nat in
  let q := (p + length (authority x))%nat in
  exists d u, url_loop (url_of x) 0 s_req_spaces_before_url None false u0 = POk (false, d)
    /\ has_field d UF_HOST = true
    /\ http_parse_host (url_of x) d false = POk u
    /\ located u UF_SCHEMA 0 (u_scheme x) /\ located u UF_HOST p (u_host x)
    /\ located u UF_PORT (S (p + length (u_host x))) (default [] (u_port x))
    /\ located u UF_PATH q (u_path x)
    /\ located u UF_QUERY (S (q + length (u_path x))) (default [] (u_query x))
    /\ has_field u UF_FRAGMENT = false /\ has_field u UF_USERINFO = false /\ port u = port u0.
Proof.
  intros Hok Hl H0 p q. destruct (authority_chars x Hok) as [Hn _].
  destruct (url_loop_url x u0 Hok Hl) as (a & b & c & d & E & Ha & Hb & Hc & Hd). fold p q in Hb, Hc, Hd.
  unfold parts_ok in Hok. rewrite !andb_true_iff in Hok.
  destruct Hok as ((((((Hs & Hsc) & Hh) & Hhc) & Hp) & _) & _).
  assert (located d UF_HOST p (authority x)) as [Hdf Hdl].
  { eapply located_keep; [eassumption|done|]. eapply located_keep; [eassumption|done|]. eapply located_upd; [|done].
    by rewrite (has_field_upd UF_HOST _ _ _ _ Ha). }
  rewrite Hn in Hdf. specialize (Hdl Hn).
  assert (forall f, f <> UF_SCHEMA -> f <> UF_HOST -> f <> UF_PATH -> f <> UF_QUERY -> has_field d f = false) as Hrest.
  { intros f ? ? ? ?. rewrite (has_field_upd f _ _ _ _ Hd), (has_field_upd f _ _ _ _ Hc), (has_field_upd f _ _ _ _ Hb),
      (has_field_upd f _ _ _ _ Ha) by done. done. }
  destruct (parse_host_mid (u_scheme x ++ lit "://") (u_host x) (u_port x)
              (u_path x ++ prefixed "?" (u_query x)) d) as (e & u & Eu & He & Hu); [done|done| |done| | |].
  { destruct (u_port x); [|done]. by apply andb_true_iff in Hp as []. }
  { rewrite Hdl, length_app. done. }
  { unfold url_of, authority in Hl. rewrite !length_app in *. lia. }
  rewrite length_app in He, Hu. change (length (u_scheme x) + length (lit "://"))%nat with p in *.
  assert (located e UF_HOST p (u_host x)) as Hhost.
  { destruct He as (He1 & He2 & _). unfold located. rewrite He1, He2, Hh. by rewrite decide_True. }
  exists d, u. split; [done|]. split; [done|]. split; [by rewrite <- app_assoc in Eu|].
  split; [do 5 (eapply located_keep; [eassumption|done|]); by eapply located_upd|].
  split; [eapply located_keep; done|].
  split; [eapply located_upd; [|done]; rewrite (has_field_upd _ _ _ _ _ He) by done; by apply Hrest|].
  split; [do 3 (eapply located_keep; [eassumption|done|]); eapply located_upd; [|done]|].
  { by rewrite (has_field_upd UF_PATH _ _ _ _ Hb), (has_field_upd UF_PATH _ _ _ _ Ha). }
  split; [do 2 (eapply located_keep; [eassumption|done|]); eapply located_upd; [|done]|].
  { by rewrite (has_field_upd UF_QUERY _ _ _ _ Hc), (has_field_upd UF_QUERY _ _ _ _ Hb), (has_field_upd UF_QUERY _ _ _ _ Ha). }
  rewrite !(has_field_upd UF_FRAGMENT _ _ _ _ Hu), !(has_field_upd UF_FRAGMENT _ _ _ _ He) by done.
  rewrite !(has_field_upd UF_USERINFO _ _ _ _ Hu), !(has_field_upd UF_USERINFO _ _ _ _ He) by done.
  split; [by apply Hrest|]. split; [by apply Hrest|].
  by rewrite (upd_port _ _ _ _ Hu), (upd_port _ _ _ _ He), (upd_port _ _ _ _ Hd), (upd_port _ _ _ _ Hc),
    (upd_port _ _ _ _ Hb), (upd_port _ _ _ _ Ha).
Qed.

(** The components in their places in the URL. *)
Lemma url_of_places x :
  url_of x = [] ++ u_scheme x ++ (lit "://" ++ authority x ++ u_path x ++ prefixed "?" (u_query x))
  /\ url_of x = (u_scheme x ++ lit "://") ++ u_host x
                ++ (prefixed ":" (u_port x) ++ u_path x ++ prefixed "?" (u_query x))
  /\ url_of x = (u_scheme x ++ lit "://" ++ authority x) ++ u_path x ++ prefixed "?" (u_query x)
  /\ (u_port x <> None ->
      url_of x = (u_scheme x ++ lit "://" ++ u_host x ++ [":"%char]) ++ default [] (u_port x)
                 ++ (u_path x ++ prefixed "?" (u_query x)))
  /\ (u_query x <> None ->
      url_of x = (u_scheme x ++ lit "://" ++ authority x ++ u_path x ++ ["?"%char])
                 ++ default [] (u_query x) ++ []).
Proof.
  unfold url_of, authority. split; [done|]. split; [by rewrite <- !app_assoc|].
  split; [by rewrite <- !app_assoc|].
  split; intros Hn.
  - destruct (u_port x); [|done]. cbn [prefixed]. by rewrite <- !app_assoc.
  - destruct (u_query x); [|done]. cbn [prefixed]. rewrite app_nil_r. by rewrite <- !app_assoc.
Qed.

Lemma located_copy_at u f p pre s post url :
  url = pre ++ s ++ post -> p = length pre -> located u f p s -> copy_url_component [] u f url = POk s.
Proof. intros -> ->. apply located_copy. Qed.

Lemma located_copy_empty u f p url : located u f p [] -> copy_url_component [] u f url = POk [].
Proof. intros [H _]. unfold copy_url_component. by rewrite H. Qed.

(** The port of a parsed URL. *)
Lemma parse_port_of x u :
  parts_ok x = true ->
  located u UF_PORT (S (length (u_scheme x) + 3 + length (u_host x))) (default [] (u_port x)) ->
  copy_url_component [] u UF_PORT (url_of x) = POk (default [] (u_port x))
  /\ parse_port (url_of x) u
     = POk (match u_port x with Some ds => set_port (util.decimal_value ds) u | None => u end)
  /\ has_field u UF_PORT = bool_decide (is_Some (u_port x)).
Proof.
  destruct (url_of_places x) as (_ & _ & _ & P4 & _).
  intros Hok L3. unfold parts_ok in Hok. rewrite !andb_true_iff in Hok. destruct Hok as [[[_ Hds] _] _].
  destruct (u_port x) as [ds|] eqn:Eds; cbn [default] in *.
  - specialize (P4 ltac:(done)). rewrite !andb_true_iff in Hds. destruct Hds as [[Hn Hds] Hv%Z.leb_le].
    match type of P4 with _ = ?pre ++ _ => assert (length pre = S (length (u_scheme x) + 3 + length (u_host x)))
      as Epre by (rewrite !length_app; cbn [length]; change (length (lit "://")) with 3%nat; lia) end.
    rewrite <- Epre in L3. split; [rewrite P4; by apply located_copy|].
    rewrite P4, (parse_port_located _ ds) by done. rewrite (proj1 L3). change (default [] (Some ds)) with ds.
    by rewrite Hn.
  - split; [by eapply located_copy_empty|]. unfold parse_port. by rewrite (proj1 L3).
Qed.

Lemma parse_url_of (x : url_parts) (u0 : http_parser_url) :
  parts_ok x = true -> Z.of_nat (length (url_of x)) < 65536 ->
  exists u, http_parser_parse_url (url_of x) false u0 = POk u
    /\ copy_url_component [] u UF_SCHEMA (url_of x) = POk (u_scheme x)
    /\ copy_url_component [] u UF_HOST (url_of x) = POk (u_host x)
    /\ copy_url_component [] u UF_PORT (url_of x) = POk (default [] (u_port x))
    /\ copy_url_component [] u UF_PATH (url_of x) = POk (u_path x)
    /\ copy_url_component [] u UF_QUERY (url_of x) = POk (default [] (u_query x))
    /\ has_field u UF_PORT = bool_decide (is_Some (u_port x))
    /\ has_field u UF_QUERY = bool_decide (is_Some (u_query x))
    /\ has_field u UF_FRAGMENT = false /\ has_field u UF_USERINFO = false
    /\ port u = match u_port x with Some ds => util.decimal_value ds | None => 0 end.
Proof.
  intros Hok Hlen. set (u1 := {| field_set := 0; port := 0; field_data := field_data u0 |}).
  destruct (parse_located x u1 Hok Hlen) as (d & u & E & Hh & Eu & L1 & L2 & L3 & L4 & L5 & F1 & F2 & Hp);
    [by intros []|].
  destruct (url_of_places x) as (P1 & P2 & P3 & _ & P5).
  set (u2 := match u_port x with Some ds => set_port (util.decimal_value ds) u | None => u end).
  assert (forall f, has_field u2 f = has_field u f /\ field_data u2 f = field_data u f) as Hu2.
  { intros f. subst u2. by destruct (u_port x). }
  assert (forall f p s, located u f p s -> located u2 f p s) as K.
  { intros f p s. unfold located. destruct (Hu2 f) as [-> ->]. done. }
  exists u2. destruct (parse_port_of x u Hok L3) as (_ & Hparse & _). fold u2 in Hparse.
  destruct (parse_port_of x u2 Hok (K _ _ _ L3)) as (Hport & _ & HP).
  split.
  { unfold http_parser_parse_url. rewrite (proj2 (Nat.eqb_neq _ _)).
    2:{ rewrite P3, !length_app. change (length (lit "://")) with 3%nat. lia. }
    fold u1. rewrite E. cbn [pbind]. rewrite Hh, andb_false_r, Eu. cbn [pbind andb]. exact Hparse. }
  split; [eapply located_copy_at; [exact P1|done|by apply K]|].
  split; [eapply located_copy_at; [exact P2| |by apply K]; rewrite length_app; done|].
  split; [done|].
  split; [eapply located_copy_at; [exact P3| |by apply K]; rewrite !length_app; change (length (lit "://")) with 3%nat; lia|].
  split.
  { destruct (u_query x) as [q|]; [|by eapply located_copy_empty, K].
    eapply located_copy_at; [by apply P5| |by apply K].
    rewrite !length_app. change (length (lit "://")) with 3%nat. cbn [length]. lia. }
  split; [done|]. rewrite !(proj1 (Hu2 _)), (proj1 L5).
  unfold parts_ok in Hok. rewrite !andb_true_iff in Hok. destruct Hok as [_ Hq].
  split; [destruct (u_query x); [|done]; by rewrite !andb_true_iff in Hq; destruct Hq as [? _]|].
  split; [done|]. split; [done|]. subst u2. by destruct (u_port x).
Qed.

(** C27. Round trip: the URL printed from a scheme, a host, an optional decimal
    port up to 65535, a path and an optional query, shorter than 65536 bytes, is
    accepted, and [copy_url_component] gives back exactly each component, the
    absent ones as absent; [port] is the value of the port's digits. *)
Theorem parse_url_roundtrip (x : url_parts) (u0 : http_parser_url)
    (Hok : parts_ok x = true) (Hlen : Z.of_nat (length (url_of x)) < 65536) :
  exists u, http_parser_parse_url (url_of x) false u0 = POk u
    /\ copy_url_component [] u UF_SCHEMA (url_of x) = POk (u_scheme x)
    /\ copy_url_component [] u UF_HOST (url_of x) = POk (u_host x)
    /\ copy_url_component [] u UF_PORT (url_of x) = POk (default [] (u_port x))
    /\ copy_url_component [] u UF_PATH (url_of x) = POk (u_path x)
    /\ copy_url_component [] u UF_QUERY (url_of x) = POk (default [] (u_query x))
    /\ has_field u UF_PORT = bool_decide (is_Some (u_port x))
    /\ has_field u UF_QUERY = bool_decide (is_Some (u_query x))
    /\ has_field u UF_FRAGMENT = false /\ has_field u UF_USERINFO = false
    /\ port u = match u_port x with Some ds => util.decimal_value ds | None => 0 end.
Proof. by apply parse_url_of. Qed.

Lemma parse_url_roundtrip_witness :
  let x := {| u_scheme := lit "https"; u_host := lit "nghttp2.org"; u_port := Some (lit "8443");
              u_path := lit "/a/b"; u_query := Some (lit "q=1") |} in
  parts_ok x = true /\ url_of x = lit "https://nghttp2.org:8443/a/b?q=1"
  /\ exists u, http_parser_parse_url (url_of x) false http_parser_url_init = POk u /\ port u = 8443.
Proof.
  intros x. split; [reflexivity|]. split; [reflexivity|].
  destruct (parse_url_roundtrip x http_parser_url_init) as (u & E & H); [reflexivity|vm_compute; reflexivity|].
  exists u. split; [exact E|]. apply H.
Defined.

(** ** URLs longer than the 16-bit lengths *)

Definition long_url : str := lit "http://a/" ++ replicate (Z.to_nat (65536 + 4)) "b"%char.

Definition reports (url : str) (f : url_field) (t : str) : bool :=
  match http_parser_parse_url url false http_parser_url_init with
  | POk u => match copy_url_component [] u f url with POk s => s =s t | _ => false end
  | _ => false
  end.

Lemma reports_spec url f t :
  reports url f t = true ->
  exists u, http_parser_parse_url url false http_parser_url_init = POk u
            /\ copy_url_component [] u f url = POk t.
Proof.
  unfold reports. destruct (http_parser_parse_url _ _ _) as [u| |]; [|done..]. intros H. exists u.
  split; [done|]. destruct (copy_url_component [] u f url); [|done..]. by apply bool_decide_eq_true in H as ->.
Qed.

(** The bound of the round trip is needed: the length of a component is a
    [uint16_t] that wraps around, so a URL whose path has 65541 bytes is
    accepted and its path is reported as its first five bytes. *)
Theorem parse_url_truncates_long_path :
  exists u, http_parser_parse_url long_url false http_parser_url_init = POk u
            /\ copy_url_component [] u UF_PATH long_url = POk (lit "/bbbb").
Proof. apply reports_spec. vm_compute. reflexivity. Qed.

End url_parser.
