(* ===== verification/TimeGm.v ===== *)
(** * lib/timegm.c and the HTTP date of lib/util.cc

    The conversions between a broken-down UTC time and seconds since the epoch,
    and the 29-byte date of the [date] header field.  Signed arithmetic that
    overflows, and a read outside [daysum], are [None]. *)

From S2P Require Import Prelude Util.

Module timegm.

(** The fields of [struct tm] that the code reads. *)
Record tm := mk_tm {
  tm_sec : Z; tm_min : Z; tm_hour : Z; tm_mday : Z;
  tm_mon : Z; tm_year : Z; tm_wday : Z; tm_yday : Z;
}.

(** A value of type [int] and of type [int64_t]: [None] on overflow. *)
Definition int32 (z : Z) : option Z := if (- 2 ^ 31 <=? z) && (z <=? INT32_MAX) then Some z else None.
Definition int64 (z : Z) : option Z := if (- 2 ^ 63 <=? z) && (z <=? INT64_MAX) then Some z else None.

(** C division truncates towards zero. *)
Definition count_leap_year (y : Z) : option Z :=
  y ← int32 (y - 1); Some (Z.quot y 4 - Z.quot y 100 + Z.quot y 400).

Definition is_leap_year (y : Z) : bool :=
  (Z.rem y 4 =? 0) && (negb (Z.rem y 100 =? 0) || (Z.rem y 400 =? 0)).

Definition daysum : list Z := [0; 31; 59; 90; 120; 151; 181; 212; 243; 273; 304; 334].

(** [daysum[i]] *)
Definition daysum_at (i : Z) : option Z := if i <? 0 then None else daysum !! Z.to_nat i.

(** [num_leap_year] and [(tm->tm_year - 70) * 365 + num_leap_year] *)
Definition days_to_year (year : Z) : option Z :=
  y ← int32 (year + 1900);
  l ← count_leap_year y;
  l0 ← count_leap_year 1970;
  n ← int32 (l - l0);
  a ← int32 (year - 70);
  b ← int32 (a * 365);
  int32 (b + n).

(** [((int64_t)days * 24 + tm->tm_hour) * 3600 + tm->tm_min * 60 + tm->tm_sec] *)
Definition seconds (days : Z) (t : tm) : option Z :=
  a ← int64 (days * 24);
  b ← int64 (a + tm_hour t);
  c ← int64 (b * 3600);
  m ← int32 (tm_min t * 60);
  d ← int64 (c + m);
  int64 (d + tm_sec t).

Definition nghttp2_timegm (t : tm) : option Z :=
  if 11 <? tm_mon t then Some (-1)
  else
    d ← days_to_year (tm_year t);
    days ← int32 (d + tm_yday t);
    seconds days t.

Definition nghttp2_timegm_without_yday (t : tm) : option Z :=
  if 11 <? tm_mon t then Some (-1)
  else
    d ← days_to_year (tm_year t);
    s ← daysum_at (tm_mon t);
    a ← int32 (d + s);
    b ← int32 (a + tm_mday t);
    days ← int32 (b - 1);
    days ← (if (2 <=? tm_mon t) && is_leap_year (tm_year t + 1900) then int32 (days + 1) else Some days);
    seconds days t.

(** ** The calendar *)

Definition leap (y : Z) : bool := (y mod 4 =? 0) && (negb (y mod 100 =? 0) || (y mod 400 =? 0)).

Definition year_days (y : Z) : Z := if leap y then 366 else 365.

Definition month_days (y : Z) : list Z :=
  [31; if leap y then 29 else 28; 31; 30; 31; 30; 31; 31; 30; 31; 30; 31].

Fixpoint sum_years (y : Z) (n : nat) : Z :=
  match n with
  | O => 0
  | S n => year_days y + sum_years (y + 1) n
  end.

(** Days from 1 January 1970 to 1 January of year [y]. *)
Definition jan1 (y : Z) : Z :=
  if 1970 <=? y then sum_years 1970 (Z.to_nat (y - 1970)) else - sum_years y (Z.to_nat (1970 - y)).

Definition sum (l : list Z) : Z := fold_right Z.add 0 l.

(** Days before month [m] (from 0) in year [y]. *)
Definition month_start (y : Z) (m : nat) : Z := sum (take m (month_days y)).

(** A broken-down time of the proleptic Gregorian calendar, [tm_wday] apart. *)
Definition valid_tm (t : tm) : Prop :=
  0 <= tm_sec t < 60 /\ 0 <= tm_min t < 60 /\ 0 <= tm_hour t < 24
  /\ exists m n, tm_mon t = Z.of_nat m /\ month_days (tm_year t + 1900) !! m = Some n
                 /\ 1 <= tm_mday t <= n
                 /\ tm_yday t = month_start (tm_year t + 1900) m + tm_mday t - 1.

(** The years for which the number of days fits an [int]. *)
Definition year_in_range (y : Z) : Prop := 1 <= y <= 5000000.

(** Seconds since the epoch of a calendar time. *)
Definition epoch_seconds (t : tm) : Z :=
  (jan1 (tm_year t + 1900) + tm_yday t) * 86400 + tm_hour t * 3600 + tm_min t * 60 + tm_sec t.

(** *** The day count of the calendar *)

Definition leaps (y : Z) : Z := (y - 1) / 4 - (y - 1) / 100 + (y - 1) / 400.

Lemma div_step a n : 0 < n -> a / n - (a - 1) / n = if a mod n =? 0 then 1 else 0.
Proof.
  intros Hn. pose proof (Z.div_mod a n ltac:(lia)). pose proof (Z.mod_pos_bound a n Hn).
  destruct (Z.eqb_spec (a mod n) 0) as [E|E].
  - rewrite <- (Z.div_unique_pos (a - 1) n (a / n - 1) (n - 1)); nia.
  - rewrite <- (Z.div_unique_pos (a - 1) n (a / n) (a mod n - 1)); nia.
Qed.

Lemma mod_divides y a b : 0 < a -> 0 < b -> y mod (a * b) = 0 -> y mod a = 0.
Proof.
  intros Ha Hb H. apply Z.mod_divide; [lia|]. apply Z.mod_divide in H as [k Hk]; [|lia].
  exists (k * b). lia.
Qed.

Lemma leaps_step y : leaps (y + 1) = leaps y + if leap y then 1 else 0.
Proof.
  unfold leaps, leap. replace (y + 1 - 1) with y by lia.
  pose proof (div_step y 4 ltac:(lia)) as H4. pose proof (div_step y 100 ltac:(lia)) as H100.
  pose proof (div_step y 400 ltac:(lia)) as H400.
  pose proof (mod_divides y 4 25 ltac:(lia) ltac:(lia)) as D1.
  pose proof (mod_divides y 100 4 ltac:(lia) ltac:(lia)) as D2.
  change (4 * 25) with 100 in D1. change (100 * 4) with 400 in D2.
  destruct (Z.eqb_spec (y mod 4) 0), (Z.eqb_spec (y mod 100) 0), (Z.eqb_spec (y mod 400) 0);
    cbn [andb orb negb]; lia.
Qed.

Lemma sum_years_closed y n :
  sum_years y n = 365 * Z.of_nat n + leaps (y + Z.of_nat n) - leaps y.
Proof.
  revert y. induction n as [|n IH]; intros y; cbn [sum_years]; [rewrite Z.add_0_r; lia|].
  rewrite IH, Nat2Z.inj_succ. replace (y + Z.succ (Z.of_nat n)) with (y + 1 + Z.of_nat n) by lia.
  rewrite leaps_step. unfold year_days. case_if; lia.
Qed.

Lemma jan1_closed y : jan1 y = 365 * (y - 1970) + leaps y - leaps 1970.
Proof.
  unfold jan1. case_if; boolp; rewrite sum_years_closed, Z2Nat.id by lia.
  - by replace (1970 + (y - 1970)) with y by lia.
  - replace (y + (1970 - y)) with 1970 by lia. lia.
Qed.

Lemma jan1_step y : jan1 (y + 1) = jan1 y + year_days y.
Proof. rewrite !jan1_closed, leaps_step. unfold year_days. case_if; lia. Qed.

(** *** The code against the calendar *)

Lemma int32_ok z : - 2 ^ 31 <= z <= INT32_MAX -> int32 z = Some z.
Proof.
  intros [H1 H2]. unfold int32. rewrite (proj2 (Z.leb_le _ _) H1), (proj2 (Z.leb_le _ _) H2). done.
Qed.

Lemma int64_ok z : - 2 ^ 63 <= z <= INT64_MAX -> int64 z = Some z.
Proof.
  intros [H1 H2]. unfold int64. rewrite (proj2 (Z.leb_le _ _) H1), (proj2 (Z.leb_le _ _) H2). done.
Qed.

(** Ranges of the day counts, for the overflow side conditions. *)
Ltac int_range := unfold INT32_MAX, INT64_MAX in *; lia.

Lemma count_leap_year_spec y : 1 <= y <= INT32_MAX -> count_leap_year y = Some (leaps y).
Proof.
  intros Hy. unfold count_leap_year. rewrite int32_ok by int_range. cbn.
  unfold leaps. by rewrite !Z.quot_div_nonneg by lia.
Qed.

Lemma is_leap_year_spec y : 0 <= y -> is_leap_year y = leap y.
Proof. intros Hy. unfold is_leap_year, leap. by rewrite !Z.rem_mod_nonneg by lia. Qed.

Lemma leaps_range y : 1 <= y <= 5000000 -> 0 <= leaps y <= 2500000.
Proof.
  intros Hy. unfold leaps.
  pose proof (Z.div_mod (y - 1) 4 ltac:(lia)). pose proof (Z.mod_pos_bound (y - 1) 4 ltac:(lia)).
  pose proof (Z.div_mod (y - 1) 100 ltac:(lia)). pose proof (Z.mod_pos_bound (y - 1) 100 ltac:(lia)).
  pose proof (Z.div_mod (y - 1) 400 ltac:(lia)). pose proof (Z.mod_pos_bound (y - 1) 400 ltac:(lia)).
  lia.
Qed.

Lemma jan1_range y : year_in_range y -> -1000000 <= jan1 y <= 1830000000.
Proof.
  intros Hy. pose proof (leaps_range y Hy). rewrite jan1_closed.
  change (leaps 1970) with 477. unfold year_in_range in Hy. lia.
Qed.

Lemma days_to_year_spec year :
  year_in_range (year + 1900) -> days_to_year year = Some (jan1 (year + 1900)).
Proof.
  intros Hy. pose proof (jan1_range _ Hy) as Hj. pose proof (leaps_range _ Hy) as Hl.
  unfold year_in_range in Hy. rewrite jan1_closed in *. change (leaps 1970) with 477 in *.
  unfold days_to_year. rewrite (int32_ok (year + 1900)) by int_range. cbn -[count_leap_year int32 leaps].
  rewrite !count_leap_year_spec by int_range. cbn -[int32 leaps]. change (leaps 1970) with 477.
  rewrite (int32_ok (leaps _ - _)) by int_range. cbn -[int32 leaps].
  rewrite (int32_ok (year - 70)) by int_range. cbn -[int32 leaps].
  rewrite (int32_ok ((year - 70) * 365)) by int_range. cbn -[int32 leaps].
  rewrite int32_ok by int_range. f_equal. lia.
Qed.

Lemma seconds_spec days t :
  -2000000 <= days <= 1831000000 -> 0 <= tm_sec t < 60 -> 0 <= tm_min t < 60 -> 0 <= tm_hour t < 24 ->
  seconds days t = Some (days * 86400 + tm_hour t * 3600 + tm_min t * 60 + tm_sec t).
Proof.
  intros Hd Hs Hm Hh. unfold seconds.
  repeat (first [rewrite int64_ok by int_range | rewrite int32_ok by int_range]; cbn -[int32 int64]).
  f_equal. lia.
Qed.

(** The month table. *)
Lemma daysum_spec y m n :
  month_days y !! m = Some n ->
  (m <= 11)%nat /\ n <= 31 /\ 0 <= month_start y m /\ month_start y m + n <= year_days y
  /\ exists s, daysum_at (Z.of_nat m) = Some s /\ 0 <= s <= 334
       /\ month_start y m = s + if (2 <=? Z.of_nat m) && leap y then 1 else 0.
Proof.
  unfold month_start, month_days, daysum_at, year_days. intros H.
  do 12 (destruct m as [|m]; [destruct (leap y); cbn in H; injection H as <-; cbn;
           (repeat split; try lia); eexists; (split; [reflexivity|]); (repeat split); by vm_compute|]).
  done.
Qed.

(** What a valid time says of its month. *)
Lemma valid_month t :
  valid_tm t ->
  0 <= tm_mon t <= 11 /\ 0 <= tm_mday t <= 31 /\ 0 <= tm_yday t < year_days (tm_year t + 1900)
  /\ exists s, daysum_at (tm_mon t) = Some s /\ 0 <= s <= 334
       /\ tm_yday t = s + (if (2 <=? tm_mon t) && leap (tm_year t + 1900) then 1 else 0) + tm_mday t - 1.
Proof.
  intros (_ & _ & _ & m & n & Em & En & Hd & Hyd).
  apply daysum_spec in En as (Hm & Hn & Hms & Hl & s & Eds & Hs & Es).
  rewrite Em. repeat (split; [lia|]). exists s. split; [done|]. split; [done|]. lia.
Qed.

Lemma year_days_range y : 365 <= year_days y <= 366.
Proof. unfold year_days. case_if; lia. Qed.

Lemma timegm_val t :
  valid_tm t -> year_in_range (tm_year t + 1900) -> nghttp2_timegm t = Some (epoch_seconds t).
Proof.
  intros Hv Hy. pose proof (valid_month t Hv) as (Hm & Hd & Hyd & _). destruct Hv as (? & ? & ? & _).
  pose proof (jan1_range _ Hy) as Hj. pose proof (year_days_range (tm_year t + 1900)).
  unfold nghttp2_timegm, epoch_seconds.
  rewrite (proj2 (Z.ltb_ge _ _)) by lia. rewrite days_to_year_spec by done. cbn -[int32 seconds jan1].
  rewrite int32_ok by int_range. cbn -[seconds jan1]. by rewrite seconds_spec by lia.
Qed.

Lemma timegm_without_yday_val t :
  valid_tm t -> year_in_range (tm_year t + 1900) -> nghttp2_timegm_without_yday t = Some (epoch_seconds t).
Proof.
  intros Hv Hy. pose proof (valid_month t Hv) as (Hm & Hd & Hyd & s & Eds & Hs & Es). destruct Hv as (? & ? & ? & _).
  pose proof (jan1_range _ Hy) as Hj. unfold nghttp2_timegm_without_yday, epoch_seconds.
  rewrite (proj2 (Z.ltb_ge _ _)) by lia. rewrite days_to_year_spec by done. cbn -[int32 seconds jan1 daysum_at].
  rewrite Eds. cbn -[int32 seconds jan1 Z.leb].
  do 3 (rewrite int32_ok by int_range; cbn -[int32 seconds jan1 Z.leb]).
  rewrite is_leap_year_spec by (unfold year_in_range in Hy; lia).
  destruct ((2 <=? tm_mon t) && leap (tm_year t + 1900)); [rewrite int32_ok by int_range|];
    cbn -[seconds jan1]; rewrite seconds_spec by lia; f_equal; lia.
Qed.

(** For every valid calendar time of the years 1 to 5000000, both
    [nghttp2_timegm], from the day of the year, and
    [nghttp2_timegm_without_yday], from the month table and the leap day, return
    the seconds from the epoch to that time, its days counted year by year over
    the Gregorian leap years, and no intermediate [int] or [int64_t]
    overflows. *)
Theorem timegm_spec (t : tm) (Hv : valid_tm t) (Hy : year_in_range (tm_year t + 1900)) :
  nghttp2_timegm t = Some (epoch_seconds t)
  /\ nghttp2_timegm_without_yday t = Some (epoch_seconds t).
Proof. split; [by apply timegm_val|by apply timegm_without_yday_val]. Qed.

Lemma timegm_spec_witness :
  (* Sat, 27 Sep 2014 06:31:15 GMT *)
  let t := {| tm_sec := 15; tm_min := 31; tm_hour := 6; tm_mday := 27; tm_mon := 8;
              tm_year := 114; tm_wday := 6; tm_yday := 269 |} in
  nghttp2_timegm t = Some (epoch_seconds t) /\ epoch_seconds t = 1411799475.
Proof.
  intros t. split; [apply (timegm_spec t)|reflexivity].
  - unfold valid_tm; cbn. repeat (split; [lia|]). exists 8%nat, 30. repeat split; try lia; reflexivity.
  - unfold year_in_range; cbn; lia.
Defined.

(** ** [gmtime_r] *)

Fixpoint year_loop (fuel : nat) (y r : Z) : Z * Z :=
  match fuel with
  | O => (y, r)
  | S fuel => if r <? year_days y then (y, r) else year_loop fuel (y + 1) (r - year_days y)
  end.

Fixpoint month_loop (months : list Z) (m : nat) (r : Z) : nat * Z :=
  match months with
  | [] => (m, r)
  | n :: months => if r <? n then (m, r) else month_loop months (S m) (r - n)
  end.

(** The calendar repeats every 400 years, which are 146097 days. *)
Definition civil (d : Z) : Z * Z :=
  let '(y, yday) := year_loop 400 1970 (d mod 146097) in (y + 400 * (d / 146097), yday).

(** [gmtime_r] of the C library, which fails when the year does not fit an
    [int]; 1 January 1970 was a Thursday. *)
Definition gmtime (t : Z) : option tm :=
  let d := t / 86400 in
  let s := t mod 86400 in
  let '(y, yday) := civil d in
  let '(m, r) := month_loop (month_days y) 0 yday in
  year ← int32 (y - 1900);
  Some {| tm_sec := s mod 60; tm_min := s / 60 mod 60; tm_hour := s / 3600; tm_mday := r + 1;
          tm_mon := Z.of_nat m; tm_year := year; tm_wday := (d + 4) mod 7; tm_yday := yday |}.

Lemma leaps_cycle y k : leaps (y + 400 * k) = leaps y + 97 * k.
Proof.
  unfold leaps. replace (y + 400 * k - 1) with (y - 1 + k * 400) by lia.
  rewrite (Z.div_add _ k 400) by lia.
  replace (y - 1 + k * 400) with (y - 1 + k * 100 * 4) by lia. rewrite Z.div_add by lia.
  replace (y - 1 + k * 100 * 4) with (y - 1 + k * 4 * 100) by lia. rewrite Z.div_add by lia. lia.
Qed.

Lemma jan1_cycle y k : jan1 (y + 400 * k) = jan1 y + 146097 * k.
Proof. rewrite !jan1_closed, leaps_cycle. lia. Qed.

Lemma year_days_cycle y k : year_days (y + 400 * k) = year_days y.
Proof.
  pose proof (jan1_step y) as H. pose proof (jan1_step (y + 400 * k)) as H'.
  replace (y + 400 * k + 1) with (y + 1 + 400 * k) in H' by lia. rewrite !jan1_cycle in H'. lia.
Qed.

Lemma year_loop_spec fuel y r :
  0 <= r < sum_years y fuel ->
  let '(y', r') := year_loop fuel y r in jan1 y' + r' = jan1 y + r /\ 0 <= r' < year_days y'.
Proof.
  revert y r. induction fuel as [|fuel IH]; intros y r Hr; cbn [year_loop sum_years] in *; [lia|].
  case_if; boolp; [lia|]. specialize (IH (y + 1) (r - year_days y) ltac:(lia)).
  destruct (year_loop fuel _ _) as [y' r']. rewrite jan1_step in IH. lia.
Qed.

Lemma civil_spec d : let '(y, r) := civil d in jan1 y + r = d /\ 0 <= r < year_days y.
Proof.
  unfold civil. pose proof (Z.div_mod d 146097 ltac:(lia)). pose proof (Z.mod_pos_bound d 146097 ltac:(lia)).
  pose proof (year_loop_spec 400 1970 (d mod 146097)) as Hl. destruct (year_loop _ _ _) as [y r].
  rewrite jan1_cycle, year_days_cycle. rewrite sum_years_closed in Hl.
  change (365 * Z.of_nat 400 + leaps (1970 + Z.of_nat 400) - leaps 1970) with 146097 in Hl.
  change (jan1 1970) with 0 in Hl. lia.
Qed.

Lemma month_loop_spec months m r :
  0 <= r < sum months ->
  let '(m', r') := month_loop months m r in
  exists k n, m' = (m + k)%nat /\ months !! k = Some n /\ 0 <= r' < n /\ sum (take k months) + r' = r.
Proof.
  revert m r. induction months as [|n months IH]; intros m r Hr; cbn [month_loop sum fold_right] in *; [lia|].
  case_if; boolp. { exists 0%nat, n. cbn. repeat split; lia. }
  specialize (IH (S m) (r - n) ltac:(unfold sum; lia)). destruct (month_loop months _ _) as [m' r'].
  destruct IH as (k & n' & -> & Hk & Hr' & Hs). exists (S k), n'. cbn. split; [lia|]. split; [done|].
  split; [done|]. unfold sum in Hs. lia.
Qed.

Lemma month_days_sum y : sum (month_days y) = year_days y.
Proof. unfold month_days, year_days. by destruct (leap y). Qed.

Lemma clock_split s :
  0 <= s < 86400 ->
  0 <= s mod 60 < 60 /\ 0 <= s / 60 mod 60 < 60 /\ 0 <= s / 3600 < 24
  /\ s / 3600 * 3600 + s / 60 mod 60 * 60 + s mod 60 = s.
Proof. intros Hs. Z.to_euclidean_division_equations. lia. Qed.

Lemma gmtime_valid t x :
  gmtime t = Some x ->
  valid_tm x /\ epoch_seconds x = t /\ tm_wday x = (t / 86400 + 4) mod 7.
Proof.
  unfold gmtime. pose proof (civil_spec (t / 86400)) as Hc. destruct (civil (t / 86400)) as [y yd].
  destruct Hc as [Hj Hyd]. pose proof (month_loop_spec (month_days y) 0 yd) as Hm. rewrite month_days_sum in Hm.
  destruct (month_loop (month_days y) 0 yd) as [m r]. destruct (Hm Hyd) as (k & n & -> & Hk & Hr & Hsum).
  unfold int32. case_if; [|done]. intros [= <-].
  destruct (clock_split (t mod 86400)) as (Hs & Hmin & Hh & Hclk); [by apply Z.mod_pos_bound|].
  split; [|split].
  - split; [done|]. split; [done|]. split; [done|]. exists k, n. cbn [tm_mon tm_year tm_mday tm_yday].
    replace (y - 1900 + 1900) with y by lia. split; [done|]. split; [done|]. split; [lia|].
    unfold month_start. lia.
  - unfold epoch_seconds. cbn [tm_mon tm_year tm_mday tm_yday tm_hour tm_min tm_sec].
    replace (y - 1900 + 1900) with y by lia. rewrite Hj.
    pose proof (Z.div_mod t 86400 ltac:(lia)). lia.
  - done.
Qed.

Lemma epoch_year_range t x :
  valid_tm x -> epoch_seconds x = t -> 0 <= t <= 100000000000000 -> year_in_range (tm_year x + 1900).
Proof.
  intros Hv Ht Hr. pose proof (valid_month x Hv) as (_ & _ & Hyd & _). destruct Hv as (? & ? & ? & _).
  unfold epoch_seconds in Ht. rewrite jan1_closed in Ht. unfold year_in_range, leaps, year_days in *.
  change ((1970 - 1) / 4 - (1970 - 1) / 100 + (1970 - 1) / 400) with 477 in Ht.
  assert (0 <= tm_yday x < 366) by (case_if_in Hyd; lia). clear Hyd.
  Z.to_euclidean_division_equations. lia.
Qed.

Lemma year_9999 t x :
  valid_tm x -> epoch_seconds x = t -> 0 <= t < 253402300800 -> tm_year x + 1900 <= 9999.
Proof.
  intros Hv Ht Hr. pose proof (valid_month x Hv) as (_ & _ & Hyd & _). destruct Hv as (? & ? & ? & _).
  unfold epoch_seconds in Ht. rewrite jan1_closed in Ht. unfold leaps, year_days in *.
  change ((1970 - 1) / 4 - (1970 - 1) / 100 + (1970 - 1) / 400) with 477 in Ht.
  assert (0 <= tm_yday x < 366) by (case_if_in Hyd; lia). clear Hyd.
  Z.to_euclidean_division_equations. lia.
Qed.

Lemma gmtime_total t : 0 <= t <= 100000000000000 -> gmtime t <> None.
Proof.
  intros Ht. unfold gmtime. pose proof (civil_spec (t / 86400)) as Hc.
  destruct (civil (t / 86400)) as [y yd]. destruct Hc as [Hj Hyd]. destruct (month_loop _ _ _) as [m r].
  rewrite int32_ok; [done|]. rewrite jan1_closed in Hj. unfold leaps in Hj. pose proof (year_days_range y).
  change ((1970 - 1) / 4 - (1970 - 1) / 100 + (1970 - 1) / 400) with 477 in Hj.
  unfold INT32_MAX. Z.to_euclidean_division_equations. lia.
Qed.

(** Round trip with [gmtime_r]: for every time from the epoch on up to 10^14
    seconds, [gmtime_r] succeeds, and both conversions applied to its result
    give the time back. *)
Theorem timegm_gmtime (t : Z) (Ht : 0 <= t <= 100000000000000) :
  exists x, gmtime t = Some x /\ nghttp2_timegm x = Some t /\ nghttp2_timegm_without_yday x = Some t.
Proof.
  destruct (gmtime t) as [x|] eqn:E.
  - exists x. apply gmtime_valid in E as (Hv & He & _). pose proof (epoch_year_range t x Hv He Ht) as Hy.
    split; [done|]. rewrite timegm_val, timegm_without_yday_val, He by done. done.
  - by apply gmtime_total in E.
Qed.

Lemma timegm_gmtime_witness :
  exists x, gmtime 1411799475 = Some x /\ nghttp2_timegm x = Some 1411799475.
Proof.
  destruct (timegm_gmtime 1411799475 ltac:(lia)) as (x & E & H & _).
  exists x. split; [exact E|exact H].
Defined.

(** ** The date of util.cc *)

(** [n] is a [uint32_t]; the loop writes [len] digits from the last. *)
Fixpoint cpydig (n : Z) (len : nat) : str :=
  match len with
  | O => []
  | S len => cpydig (n / 10) len ++ [chr (n mod 10 + code "0")]
  end.

Definition MONTH : list str :=
  [lit "Jan"; lit "Feb"; lit "Mar"; lit "Apr"; lit "May"; lit "Jun";
   lit "Jul"; lit "Aug"; lit "Sep"; lit "Oct"; lit "Nov"; lit "Dec"].

Definition DAY_OF_WEEK : list str :=
  [lit "Sun"; lit "Mon"; lit "Tue"; lit "Wed"; lit "Thu"; lit "Fri"; lit "Sat"].

(** Indexing of a table of strings. *)
Definition name_at (table : list str) (i : Z) : option str :=
  if i <? 0 then None else table !! Z.to_nat i.

(** [http_date(char *res, time_t t)] over the bytes [res] points to: [None] when
    it indexes a table or writes the buffer out of range. *)
Definition http_date_at (res : str) (t : Z) : option str :=
  match gmtime t with
  | None => Some res
  | Some tms =>
    d ← name_at DAY_OF_WEEK (tm_wday tms);
    m ← name_at MONTH (tm_mon tms);
    let w := d ++ [","; " "]%char ++ cpydig (wrap_u 32 (tm_mday tms)) 2 ++ [" "]%char ++ m ++ [" "]%char
               ++ cpydig (wrap_u 32 (tm_year tms + 1900)) 4 ++ [" "]%char
               ++ cpydig (wrap_u 32 (tm_hour tms)) 2 ++ [":"]%char
               ++ cpydig (wrap_u 32 (tm_min tms)) 2 ++ [":"]%char
               ++ cpydig (wrap_u 32 (tm_sec tms)) 2 ++ lit " GMT" in
    if (length w <=? length res)%nat then Some (w ++ drop (length w) res) else None
  end.

Definition http_date (t : Z) : option str := http_date_at (replicate 29 (chr 0)) t.

(** *** A reader of the fixed-length date *)

Definition sub (s : str) (o n : nat) : str := take n (drop o s).

(** The position of a name in a table. *)
Definition index_of (table : list str) (s : str) : option Z :=
  p ← list_find (fun x => x = s) table; Some (Z.of_nat p.1).

(** ["Sat, 27 Sep 2014 06:31:15 GMT"] read by position, [tm_yday] left zero. *)
Definition read_date (s : str) : option tm :=
  if bool_decide (sub s 3 2 = lit ", " /\ sub s 7 1 = lit " " /\ sub s 11 1 = lit " " /\ sub s 16 1 = lit " "
                  /\ sub s 19 1 = lit ":" /\ sub s 22 1 = lit ":" /\ drop 25 s = lit " GMT")
     && forallb util.is_digit (sub s 5 2 ++ sub s 12 4 ++ sub s 17 2 ++ sub s 20 2 ++ sub s 23 2)
  then
    w ← index_of DAY_OF_WEEK (sub s 0 3);
    m ← index_of MONTH (sub s 8 3);
    Some {| tm_sec := util.decimal_value (sub s 23 2); tm_min := util.decimal_value (sub s 20 2);
            tm_hour := util.decimal_value (sub s 17 2); tm_mday := util.decimal_value (sub s 5 2);
            tm_mon := m; tm_year := util.decimal_value (sub s 12 4) - 1900; tm_wday := w; tm_yday := 0 |}
  else None.

Lemma digit_of_mod n : util.is_digit (chr (n mod 10 + code "0")) = true.
Proof.
  pose proof (Z.mod_pos_bound n 10 ltac:(lia)) as H. rewrite util.is_digit_code, code_chr_small;
    change (code "0") with 48; change (code "9") with 57; [|lia].
  by rewrite !(proj2 (Z.leb_le _ _)) by lia.
Qed.

Lemma name_at_3 table i s :
  Forall (fun x => length x = 3%nat) table -> name_at table i = Some s -> exists a b c, s = [a; b; c].
Proof.
  intros Ht. unfold name_at. case_if; [done|]. intros H. eapply Forall_lookup_1 in H; [|done].
  destruct s as [|a [|b [|c [|]]]]; try done. by exists a, b, c.
Qed.

Lemma day_name i : 0 <= i < 7 -> exists s, name_at DAY_OF_WEEK i = Some s /\ index_of DAY_OF_WEEK s = Some i.
Proof.
  intros Hi. assert (i = 0 \/ i = 1 \/ i = 2 \/ i = 3 \/ i = 4 \/ i = 5 \/ i = 6) as H by lia.
  repeat destruct H as [->|H]; try (eexists; split; vm_compute; reflexivity). rewrite H.
  eexists; split; vm_compute; reflexivity.
Qed.

Lemma month_name i : 0 <= i <= 11 -> exists s, name_at MONTH i = Some s /\ index_of MONTH s = Some i.
Proof.
  intros Hi. assert (i = 0 \/ i = 1 \/ i = 2 \/ i = 3 \/ i = 4 \/ i = 5 \/ i = 6 \/ i = 7 \/ i = 8 \/ i = 9
                     \/ i = 10 \/ i = 11) as H by lia.
  repeat destruct H as [->|H]; try (eexists; split; vm_compute; reflexivity). rewrite H.
  eexists; split; vm_compute; reflexivity.
Qed.

Lemma cpydig_digits n len : forallb util.is_digit (cpydig n len) = true /\ length (cpydig n len) = len.
Proof.
  revert n. induction len as [|len IH]; intros n; [done|]. cbn [cpydig]. destruct (IH (n / 10)) as [H1 H2].
  rewrite forallb_app, H1, length_app, H2. cbn. rewrite digit_of_mod. split; [done|lia].
Qed.

Lemma cpydig_value n len : 0 <= n < 10 ^ Z.of_nat len -> util.decimal_value (cpydig n len) = n.
Proof.
  revert n. induction len as [|len IH]; intros n Hn; [cbn in *; lia|]. cbn [cpydig].
  unfold util.decimal_value. rewrite util.decimal_from_app. fold (util.decimal_value (cpydig (n / 10) len)).
  rewrite Nat2Z.inj_succ, Z.pow_succ_r in Hn by lia.
  rewrite IH by (split; [apply Z.div_pos; lia|apply Z.div_lt_upper_bound; lia]).
  change (util.decimal_from (n / 10) [chr (n mod 10 + code "0")])
    with (n / 10 * 10 + util.digit_val (util.digit_char n)).
  rewrite util.digit_char_val. pose proof (Z.div_mod n 10 ltac:(lia)). lia.
Qed.

Lemma list2 {A} (l : list A) : length l = 2%nat -> exists a b, l = [a; b].
Proof. destruct l as [|a [|b [|]]]; try done. by exists a, b. Qed.

Lemma list4 {A} (l : list A) : length l = 4%nat -> exists a b c d, l = [a; b; c; d].
Proof. destruct l as [|a [|b [|c [|d [|]]]]]; try done. by exists a, b, c, d. Qed.

(** The layout of the date as the reader sees it. *)
Lemma read_date_layout d m md y h mi s i j :
  length md = 2%nat -> length y = 4%nat -> length h = 2%nat -> length mi = 2%nat -> length s = 2%nat ->
  forallb util.is_digit (md ++ y ++ h ++ mi ++ s) = true ->
  length d = 3%nat -> length m = 3%nat ->
  index_of DAY_OF_WEEK d = Some i -> index_of MONTH m = Some j ->
  let w := d ++ [","; " "]%char ++ md ++ [" "]%char ++ m ++ [" "]%char ++ y ++ [" "]%char
             ++ h ++ [":"]%char ++ mi ++ [":"]%char ++ s ++ lit " GMT" in
  length w = 29%nat
  /\ read_date w
     = Some {| tm_sec := util.decimal_value s; tm_min := util.decimal_value mi;
               tm_hour := util.decimal_value h; tm_mday := util.decimal_value md;
               tm_mon := j; tm_year := util.decimal_value y - 1900; tm_wday := i; tm_yday := 0 |}.
Proof.
  intros (a1 & a2 & ->)%list2 (b1 & b2 & b3 & b4 & ->)%list4 (c1 & c2 & ->)%list2
    (d1 & d2 & ->)%list2 (e1 & e2 & ->)%list2 Hd Hl Hm Hi Hj.
  destruct d as [|f1 [|f2 [|f3 [|]]]]; try done. destruct m as [|g1 [|g2 [|g3 [|]]]]; try done.
  cbn -[index_of]. split; [done|]. unfold read_date. cbn [sub drop take app lit list_ascii_of_string].
  rewrite bool_decide_eq_true_2 by (repeat split). cbn [app] in Hd |- *. rewrite Hd. cbn [andb]. by rewrite Hi, Hj.
Qed.

Lemma http_date_text res t x :
  gmtime t = Some x -> (29 <= length res)%nat ->
  exists w, http_date_at res t = Some (w ++ drop 29 res) /\ length w = 29%nat
    /\ (tm_year x + 1900 <= 9999 -> 0 <= tm_year x + 1900 ->
        read_date w = Some {| tm_sec := tm_sec x; tm_min := tm_min x; tm_hour := tm_hour x;
                              tm_mday := tm_mday x; tm_mon := tm_mon x; tm_year := tm_year x;
                              tm_wday := tm_wday x; tm_yday := 0 |}).
Proof.
  intros E Hres. apply gmtime_valid in E as Hx. destruct Hx as (Hv & He & Hw).
  pose proof (valid_month x Hv) as (Hmon & Hmd & _). destruct Hv as (Hs & Hmi & Hh & _).
  destruct (day_name (tm_wday x)) as (d & Ed & Id); [rewrite Hw; by apply Z.mod_pos_bound|].
  destruct (month_name (tm_mon x) Hmon) as (m & Em & Im).
  destruct (name_at_3 DAY_OF_WEEK _ _ ltac:(by repeat constructor) Ed) as (d1 & d2 & d3 & Hd3).
  destruct (name_at_3 MONTH _ _ ltac:(by repeat constructor) Em) as (m1 & m2 & m3 & Hm3).
  edestruct (read_date_layout d m (cpydig (wrap_u 32 (tm_mday x)) 2) (cpydig (wrap_u 32 (tm_year x + 1900)) 4)
    (cpydig (wrap_u 32 (tm_hour x)) 2) (cpydig (wrap_u 32 (tm_min x)) 2) (cpydig (wrap_u 32 (tm_sec x)) 2))
    as [Hl Hr]; [by apply cpydig_digits..| | | |exact Id|exact Im|].
  { rewrite !forallb_app, !(fun n k => proj1 (cpydig_digits n k)). done. }
  { by rewrite Hd3. } { by rewrite Hm3. }
  eexists. split; [|split; [exact Hl|]].
  - unfold http_date_at. rewrite E, Ed, Em. cbv beta iota zeta delta [mbind option_bind].
    rewrite Hl. destruct (Nat.leb_spec 29 (length res)); [done|lia].
  - intros Hy Hy0. rewrite Hr, !wrap_u_small by lia. rewrite !cpydig_value by (cbn; lia).
    do 2 f_equal. lia.
Qed.

(** C33. [http_date] never indexes a table or writes its buffer out of range and
    always gives 29 bytes.  For the years 1970 to 9999 the text is the date of
    [t]: a reader that checks the punctuation, the names and the digits recovers
    a broken-down time, with the right day of the week, that
    [nghttp2_timegm_without_yday] turns back into [t]. *)
Theorem http_date_roundtrip (t : Z) :
  exists s, http_date t = Some s /\ length s = 29%nat
    /\ (0 <= t < 253402300800 ->
        exists x, read_date s = Some x /\ nghttp2_timegm_without_yday x = Some t
                  /\ tm_wday x = (t / 86400 + 4) mod 7).
Proof.
  unfold http_date. destruct (gmtime t) as [x|] eqn:E.
  - destruct (http_date_text (replicate 29 (chr 0)) t x E) as (w & Ew & Hl & Hr); [by rewrite length_replicate|].
    exists w. rewrite Ew. change (drop 29 (replicate 29 (chr 0))) with (@nil ascii). rewrite app_nil_r.
    split; [done|]. split; [done|]. intros Ht. apply gmtime_valid in E as (Hv & He & Hw).
    pose proof (epoch_year_range t x Hv He ltac:(lia)) as Hy.
    rewrite Hr; [|by apply (year_9999 t)|unfold year_in_range in Hy; lia].
    eexists. split; [done|]. split; [|exact Hw]. cbn. rewrite <- He. rewrite <- timegm_without_yday_val by done.
    reflexivity.
  - exists (replicate 29 (chr 0)). unfold http_date_at. rewrite E. split; [done|]. split; [done|].
    intros Ht. exfalso. eapply gmtime_total in E; [done|lia].
Qed.

Lemma http_date_total t : http_date t <> None.
Proof.
  unfold http_date. destruct (gmtime t) as [x|] eqn:E.
  - destruct (http_date_text (replicate 29 (chr 0)) t x E) as (w & -> & _); [by rewrite length_replicate|done].
  - unfold http_date_at. by rewrite E.
Qed.

End timegm.
