(* ===== verification/Common.v ===== *)
(** * lib/asio_common.cc and asio_common.h

    The error categories, the body generators, [split_path],
    [host_service_from_uri] and the protocol check of a TLS connection, with the
    header map and the [uri_ref] of includes/nghttp2/asio_http2.h. *)

From S2P Require Import Prelude Util Http2 UrlParser.

Module common.

(** ** asio_http2.h *)

Record header_value := mk_hv { value : str; sensitive : bool }.

#[export] Instance header_value_eq_dec : EqDecision header_value.
Proof. solve_decision. Defined.

(** [std::multimap<std::string, header_value>]: sorted by name, the values of
    one name in the order of their insertion. *)
Definition header_map := list (str * header_value).

(** [std::string::operator<]: unsigned bytes, lexicographically. *)
Fixpoint str_ltb (a b : str) : bool :=
  match a, b with
  | _, [] => false
  | [], _ :: _ => true
  | c :: a, d :: b => if code c =? code d then str_ltb a b else code c <? code d
  end.

(** [multimap::emplace]: at the end of the range of equal keys. *)
Fixpoint emplace (h : header_map) (k : str) (v : header_value) : header_map :=
  match h with
  | [] => [(k, v)]
  | (k', v') :: h' => if str_ltb k k' then (k, v) :: h else (k', v') :: emplace h' k v
  end.

Record uri_ref := mk_uri {
  scheme : str; host : str; path : str; raw_path : str; raw_query : str; fragment : str;
}.

Definition empty_uri : uri_ref :=
  {| scheme := []; host := []; path := []; raw_path := []; raw_query := []; fragment := [] |}.

Definition set_scheme (s : str) (u : uri_ref) : uri_ref :=
  mk_uri s (host u) (path u) (raw_path u) (raw_query u) (fragment u).
Definition set_host (s : str) (u : uri_ref) : uri_ref :=
  mk_uri (scheme u) s (path u) (raw_path u) (raw_query u) (fragment u).

(** ** Error codes *)

(** The categories of a [boost::system::error_code] that the code sets. *)
Inductive category := cat_none | cat_nghttp2 | cat_nghttp2_asio | cat_system.

Record error_code := mk_ec { ec_value : Z; ec_cat : category }.

#[export] Instance category_eq_dec : EqDecision category.
Proof. solve_decision. Defined.
#[export] Instance error_code_eq_dec : EqDecision error_code.
Proof. solve_decision. Defined.

(** A cleared error code. *)
Definition ec_ok : error_code := {| ec_value := 0; ec_cat := cat_system |}.

Definition NGHTTP2_ASIO_ERR_NO_ERROR : Z := 0.
Definition NGHTTP2_ASIO_ERR_TLS_NO_APP_PROTO_NEGOTIATED : Z := 1.

Definition make_error_code_nghttp2 (ev : Z) : error_code := {| ec_value := ev; ec_cat := cat_nghttp2 |}.
Definition make_error_code_asio (ev : Z) : error_code := {| ec_value := ev; ec_cat := cat_nghttp2_asio |}.

(** [make_error_code(boost::system::errc::invalid_argument)] (EINVAL). *)
Definition ec_invalid_argument : error_code := {| ec_value := 22; ec_cat := cat_system |}.

(** [nghttp2_asio_category_impl::message] *)
Definition asio_message (ev : Z) : str :=
  if ev =? NGHTTP2_ASIO_ERR_NO_ERROR then lit "no error"
  else if ev =? NGHTTP2_ASIO_ERR_TLS_NO_APP_PROTO_NEGOTIATED
  then lit "tls: no application protocol negotiated"
  else lit "unknown".

(** ** Generators *)

(** Error codes of nghttp2.h that a generator returns. *)
Definition NGHTTP2_ERR_DEFERRED : Z := -508.
Definition NGHTTP2_ERR_TEMPORAL_CALLBACK_FAILURE : Z := -521.

(** The bits of [*data_flags]. *)
Definition NGHTTP2_DATA_FLAG_NONE : Z := 0.
Definition NGHTTP2_DATA_FLAG_EOF : Z := 1.
Definition NGHTTP2_DATA_FLAG_NO_END_STREAM : Z := 2.

(** What one call of a [generator_cb] does: the bytes it wrote to [buf], or the
    negative code it returned; and [*data_flags] after the call. *)
Inductive gen_ret :=
  | GRead (bytes : str)
  | GErr (code : Z).

(** The lambda of [string_generator] over its shared pair [(data, left)]. *)
Definition string_generator_call (data : str) (left : nat) (len : nat) (flags : Z)
    : gen_ret * Z * nat :=
  let n := (len `min` left)%nat in
  let bytes := take n (drop (length data - left) data) in
  let left := (left - n)%nat in
  (GRead bytes, if (left =? 0)%nat then Z.lor flags NGHTTP2_DATA_FLAG_EOF else flags, left).

Definition deferred_generator_call (len : nat) (flags : Z) : gen_ret * Z :=
  (GErr NGHTTP2_ERR_DEFERRED, flags).

(** The outcomes of the system call [read(fd, buf, len)], in the order in which
    the calls are made: some bytes, at most [len] of them, a failure with
    [EINTR], or another failure. *)
Inductive read_ret := RBytes (bytes : str) | RIntr | RFail.

(** The lambda of [file_generator_from_fd]: [None] when the given outcomes end
    in the loop that retries after [EINTR]. *)
Fixpoint file_generator_call (reads : list read_ret) (len : nat) (flags : Z)
    : option (gen_ret * Z * list read_ret) :=
  match reads with
  | [] => None
  | RIntr :: reads => file_generator_call reads len flags
  | RFail :: reads => Some (GErr NGHTTP2_ERR_TEMPORAL_CALLBACK_FAILURE, flags, reads)
  | RBytes bs :: reads =>
    Some (GRead (take len bs),
          if (length (take len bs) =? 0)%nat then Z.lor flags NGHTTP2_DATA_FLAG_EOF else flags, reads)
  end.

(** A [generator_cb]: empty, one of the library's with its state, or the
    application's. *)
Inductive generator :=
  | gen_empty
  | gen_deferred
  | gen_string (data : str) (remaining : nat)
  | gen_user (id : nat).

Definition string_generator (data : str) : generator := gen_string data (length data).

(** ** Request targets *)

(** [std::find(first, last, c)]: the part before and the part from it on. *)
Fixpoint find_char (c : ascii) (s : str) : str * str :=
  match s with
  | [] => ([], [])
  | d :: s' => if d =c c then ([], s) else let '(a, b) := find_char c s' in (d :: a, b)
  end.

Definition split_path (dst : uri_ref) (s : str) : uri_ref :=
  let '(p, q) := find_char "?" s in
  {| scheme := scheme dst; host := host dst;
     path := util.percent_decode p; raw_path := p;
     raw_query := match q with [] => [] | _ :: q => q end;
     fragment := fragment dst |}.

(** [host_service_from_uri]: the error code, then the [scheme], [host] and
    [service] strings after the call; [None] is a read outside the string. *)
Definition host_service_from_uri (sch hst service uri : str) : option (error_code * str * str * str) :=
  match url_parser.http_parser_parse_url uri false url_parser.http_parser_url_init with
  | url_parser.PBad => None
  | url_parser.PErr => Some (ec_invalid_argument, sch, hst, service)
  | url_parser.POk u =>
    if negb (url_parser.has_field u url_parser.UF_SCHEMA) || negb (url_parser.has_field u url_parser.UF_HOST)
    then Some (ec_invalid_argument, sch, hst, service)
    else
      match url_parser.copy_url_component sch u url_parser.UF_SCHEMA uri,
            url_parser.copy_url_component hst u url_parser.UF_HOST uri with
      | url_parser.POk sch, url_parser.POk hst =>
        if url_parser.has_field u url_parser.UF_PORT then
          match url_parser.copy_url_component service u url_parser.UF_PORT uri with
          | url_parser.POk service => Some (ec_ok, sch, hst, service)
          | _ => None
          end
        else Some (ec_ok, sch, hst, sch)
      | _, _ => None
      end
  end.

(** [tls_h2_negotiated]: the protocols that NPN and ALPN report for the socket,
    [None] for a null pointer. *)
Definition tls_h2_negotiated (npn alpn : option str) : bool :=
  match (match npn with None => alpn | Some _ => npn end) with
  | None => false
  | Some proto => util.check_h2_is_selected proto
  end.

(** ** Theorems: the header map *)

(** The values of a name, in order. *)
Fixpoint values (k : str) (h : header_map) : list header_value :=
  match h with
  | [] => []
  | (k', v) :: h => if k' =s k then v :: values k h else values k h
  end.

(** The bytes of the header fields of a map. *)
Definition header_size (h : header_map) : Z :=
  fold_right (fun p n => Z.of_nat (length p.1) + Z.of_nat (length (value p.2)) + n) 0 h.

Lemma header_size_emplace hd name v :
  header_size (emplace hd name v) = header_size hd + (Z.of_nat (length name) + Z.of_nat (length (value v))).
Proof.
  induction hd as [|[k w] hd IH]; cbn [emplace]; [cbn; lia|]. case_if; cbn [header_size fold_right fst snd] in *.
  - lia.
  - fold (header_size (emplace hd name v)). fold (header_size hd). lia.
Qed.

(** Names in the order of [std::string::operator<]. *)
Definition name_le (p q : str * header_value) : Prop := str_ltb q.1 p.1 = false.

Lemma str_ltb_irrefl a : str_ltb a a = false.
Proof. induction a as [|c a IH]; cbn; [done|]. by rewrite Z.eqb_refl. Qed.

Lemma str_ltb_trans a b c : str_ltb a b = true -> str_ltb b c = true -> str_ltb a c = true.
Proof.
  revert b c. induction a as [|x a IH]; intros [|y b] [|z c]; cbn; try done.
  destruct (Z.eqb_spec (code x) (code y)), (Z.eqb_spec (code y) (code z)), (Z.eqb_spec (code x) (code z));
    rewrite ?Z.ltb_lt; try lia; eauto.
Qed.

Lemma str_ltb_total a b : str_ltb a b = false -> str_ltb b a = false -> a = b.
Proof.
  revert b. induction a as [|x a IH]; intros [|y b]; cbn; try done.
  rewrite (Z.eqb_sym (code y)). destruct (Z.eqb_spec (code x) (code y)) as [E%code_inj|E].
  - subst. intros. f_equal. by apply IH.
  - rewrite !Z.ltb_ge. lia.
Qed.

Lemma name_le_trans a b c : str_ltb b a = false -> str_ltb c b = false -> str_ltb c a = false.
Proof.
  intros H1 H2. destruct (str_ltb c a) eqn:E; [|done]. exfalso.
  destruct (str_ltb a b) eqn:E1.
  - by rewrite (str_ltb_trans _ _ _ E E1) in H2.
  - rewrite (str_ltb_total _ _ E1 H1) in E. congruence.
Qed.

Lemma emplace_elem h k v x : x ∈ emplace h k v <-> x = (k, v) \/ x ∈ h.
Proof.
  induction h as [|[k' v'] h IH]; cbn.
  - rewrite elem_of_cons. tauto.
  - case_if; rewrite !elem_of_cons, ?IH, ?elem_of_cons; tauto.
Qed.

Lemma values_none k h : Forall (fun p => p.1 <> k) h -> values k h = [].
Proof.
  induction 1 as [|[k' v] h Hk Hh IH]; [done|]. cbn. by rewrite bool_decide_eq_false_2.
Qed.



(** ** Theorems: generators *)

(** Successive calls with the buffer sizes [lens], [*data_flags] clear before
    each: the bytes and whether EOF was set. *)
Fixpoint string_generator_run (data : str) (rest : nat) (lens : list nat) : list (gen_ret * bool) :=
  match lens with
  | [] => []
  | len :: lens =>
    let '(r, flags, rest) := string_generator_call data rest len NGHTTP2_DATA_FLAG_NONE in
    (r, Z.testbit flags 0) :: string_generator_run data rest lens
  end.

Definition gen_bytes (r : gen_ret) : str := match r with GRead bs => bs | GErr _ => [] end.

Definition nat_sum (l : list nat) : nat := fold_right Nat.add 0%nat l.

Lemma string_generator_run_spec data left lens :
  (left <= length data)%nat ->
  let outs := string_generator_run data left lens in
  concat (map (fun o => gen_bytes o.1) outs) = take (nat_sum lens) (drop (length data - left) data)
  /\ length outs = length lens
  /\ forall i r eof, outs !! i = Some (r, eof) ->
       (eof = true <-> (left <= nat_sum (take (S i) lens))%nat) /\ exists bs, r = GRead bs.
Proof.
  revert left. induction lens as [|len lens IH]; intros left Hl; [done|].
  cbn -[take drop Nat.min]. specialize (IH (left - len `min` left)%nat ltac:(lia)).
  cbv zeta in IH. destruct IH as (IH1 & IH2 & IH3). set (outs := string_generator_run _ _ _) in *.
  split; [|split].
  - rewrite IH1. destruct (decide (len <= left)%nat) as [Hle|Hgt].
    + rewrite Nat.min_l by lia.
      replace (length data - (left - len))%nat with (length data - left + len)%nat by lia.
      rewrite <- drop_drop. rewrite <- (take_drop len (drop (length data - left) data)) at 3.
      rewrite take_app_add'; [done|]. rewrite length_take, length_drop. lia.
    + rewrite Nat.min_r by lia. rewrite (drop_ge data (length data - (left - left))) by lia. rewrite take_nil, app_nil_r.
      by rewrite !(take_ge (drop _ _)) by (rewrite length_drop; lia).
  - by rewrite IH2.
  - intros [|i] r eof; cbn -[take Nat.min].
    + intros [= <- <-]. split; [|by eexists]. cbn. rewrite Nat.add_0_r.
      destruct (Nat.eqb_spec (left - len `min` left) 0); cbn; split; try done; lia.
    + intros Hi. destruct (IH3 _ _ _ Hi) as [He ?]. split; [|done]. rewrite He.
      cbn [take nat_sum fold_right]. unfold nat_sum. lia.
Qed.

(** A string generator delivers exactly its data: whatever the sizes of the
    buffers, the calls return the first bytes of the data, in order and without
    gap or repetition, never an error, and EOF is set from the call that returns
    the last byte on (at the first call when the data is empty) and not before. *)
Theorem string_generator_delivers (data : str) (lens : list nat) :
  let outs := string_generator_run data (length data) lens in
  concat (map (fun o => gen_bytes o.1) outs) = take (nat_sum lens) data
  /\ length outs = length lens
  /\ forall i r eof, outs !! i = Some (r, eof) ->
       (eof = true <-> (length data <= nat_sum (take (S i) lens))%nat) /\ exists bs, r = GRead bs.
Proof.
  pose proof (string_generator_run_spec data (length data) lens (le_n _)) as H.
  by rewrite Nat.sub_diag, drop_0 in H.
Qed.

(** Successive calls of a file generator. *)
Fixpoint file_generator_run (fuel : nat) (reads : list read_ret) (len : nat) : list (gen_ret * bool) :=
  match fuel with
  | O => []
  | S fuel =>
    match file_generator_call reads len NGHTTP2_DATA_FLAG_NONE with
    | None => []
    | Some (r, flags, reads) => (r, Z.testbit flags 0) :: file_generator_run fuel reads len
    end
  end.

(** The outcomes that read a file in the given pieces, [n] interruptions before
    each and before the end of file. *)
Definition file_reads (pieces : list (nat * str)) (n : nat) : list read_ret :=
  concat (map (fun p => replicate p.1 RIntr ++ [RBytes p.2]) pieces) ++ replicate n RIntr ++ [RBytes []].

Lemma file_generator_intr n reads len flags :
  file_generator_call (replicate n RIntr ++ reads) len flags = file_generator_call reads len flags.
Proof. induction n; cbn; done. Qed.

Lemma file_generator_run_spec pieces n len :
  Forall (fun p => p.2 <> [] /\ (length p.2 <= len)%nat) pieces ->
  file_generator_run (S (length pieces)) (file_reads pieces n) len
  = map (fun p => (GRead p.2, false)) pieces ++ [(GRead [], true)].
Proof.
  intros Hp. unfold file_reads. induction Hp as [|[m bs] pieces [Hne Hle] Hp IH].
  - cbn -[file_generator_call]. rewrite file_generator_intr. cbn. by rewrite take_nil.
  - change (length ((m, bs) :: pieces)) with (S (length pieces)). remember (S (length pieces)) as fuel.
    cbn [file_generator_run map concat fst snd]. rewrite <- !app_assoc, file_generator_intr.
    cbn [app file_generator_call]. cbn [fst snd] in Hne, Hle. rewrite take_ge by done.
    rewrite IH. destruct bs; [done|]. done.
Qed.

(** A file generator delivers the file: interrupted reads are retried, each
    successful read is passed on without EOF, and the read of zero bytes at the
    end of the file gives an empty last call with EOF set. *)
Theorem file_generator_delivers (pieces : list (nat * str)) (n len : nat)
    (Hp : Forall (fun p => p.2 <> [] /\ (length p.2 <= len)%nat) pieces) :
  let outs := file_generator_run (S (length pieces)) (file_reads pieces n) len in
  concat (map (fun o => gen_bytes o.1) outs) = concat (map snd pieces)
  /\ map snd outs = replicate (length pieces) false ++ [true].
Proof.
  cbv zeta. rewrite file_generator_run_spec by done. rewrite !map_app, concat_app, app_nil_r. split.
  - by rewrite map_map.
  - f_equal. rewrite map_map. clear Hp. induction pieces as [|p l IH]; [done|]. cbn in *. by rewrite IH.
Qed.

Lemma file_generator_delivers_witness :
  let outs := file_generator_run 3 (file_reads [(1%nat, lit "abc"); (0%nat, lit "de")] 2) 16 in
  concat (map (fun o => gen_bytes o.1) outs) = lit "abcde" /\ map snd outs = [false; false; true].
Proof.
  apply (file_generator_delivers [(1%nat, lit "abc"); (0%nat, lit "de")] 2 16).
  constructor; [split; [done|cbn; lia]|]. constructor; [split; [done|cbn; lia]|constructor].
Defined.

(** ** Theorems: request targets *)

Lemma find_char_spec c s :
  (find_char c s).1 ++ (find_char c s).2 = s /\ c ∉ (find_char c s).1
  /\ ((find_char c s).2 = [] \/ exists b', (find_char c s).2 = c :: b').
Proof.
  induction s as [|d s IH]; cbn; [split; [done|split; [set_solver|by left]]|].
  case_if; [subst d|]; cbn.
  { split; [done|]. split; [set_solver|]. right. by exists s. }
  destruct (find_char c s) as [a b]. cbn in *. destruct IH as (H1 & H2 & H3). rewrite H1.
  split; [done|]. split; [|done]. rewrite elem_of_cons. intros [->|?]; done.
Qed.

(** The part from the first separator on. *)
Lemma find_char_app c a b : c ∉ a -> (b = [] \/ exists b', b = c :: b') -> find_char c (a ++ b) = (a, b).
Proof.
  intros Ha Hb. induction a as [|d a IH]; cbn.
  - destruct Hb as [->|[b' ->]]; [done|]. cbn. by rewrite bool_decide_eq_true_2.
  - rewrite not_elem_of_cons in Ha. destruct Ha as [Hd Ha]. rewrite bool_decide_eq_false_2 by congruence. by rewrite IH.
Qed.

(** [split_path] cuts a request target at its first ['?']: the raw path holds
    none, the two raw parts with the separator are the target again, and [path]
    is the percent-decoded raw path; the other fields are kept. *)
Theorem split_path_spec (dst : uri_ref) (s : str) :
  let u := split_path dst s in
  "?"%char ∉ raw_path u
  /\ (("?"%char ∉ s /\ s = raw_path u /\ raw_query u = [])
      \/ s = raw_path u ++ "?"%char :: raw_query u)
  /\ path u = util.percent_decode (raw_path u)
  /\ scheme u = scheme dst /\ host u = host dst /\ fragment u = fragment dst.
Proof.
  unfold split_path. pose proof (find_char_spec "?" s) as H. destruct (find_char "?" s) as [p q]. cbn in H.
  destruct H as (H1 & H2 & H3). cbn. split; [done|]. split; [|done].
  destruct H3 as [->|[q' ->]]; [left|by right]. rewrite app_nil_r in H1. subst. done.
Qed.

(** [host_service_from_uri] never reads outside the URI; on every error the
    output strings are untouched; and on a URI made of a scheme, a host, an
    optional port, path and query, it returns the scheme and the host, and the
    port as the service or else the scheme. *)
Theorem host_service_from_uri_spec (sch hst service uri : str) :
  host_service_from_uri sch hst service uri <> None
  /\ (forall ec sch' hst' service',
        host_service_from_uri sch hst service uri = Some (ec, sch', hst', service') ->
        ec = ec_ok \/ (ec = ec_invalid_argument /\ sch' = sch /\ hst' = hst /\ service' = service))
  /\ (forall x, url_parser.parts_ok x = true -> uri = url_parser.url_of x -> Z.of_nat (length uri) < 65536 ->
        host_service_from_uri sch hst service uri
        = Some (ec_ok, url_parser.u_scheme x, url_parser.u_host x,
                match url_parser.u_port x with Some p => p | None => url_parser.u_scheme x end)).
Proof.
  pose proof (url_parser.http_parser_parse_url_ok uri false url_parser.http_parser_url_init) as Hsafe.
  unfold host_service_from_uri.
  destruct (url_parser.http_parser_parse_url uri false _) as [u| |] eqn:E; [|split; [done|]; split|done].
  - destruct Hsafe as [Hf _].
    assert (forall dest f, exists t, url_parser.copy_url_component dest u f uri = url_parser.POk t) as Hc.
    { intros dest f. unfold url_parser.copy_url_component, url_parser.bytes_at. case_if; [|by eexists].
      destruct (Hf _ E0) as (_ & _ & Hle). rewrite (proj2 (Z.leb_le _ _)) by done. by eexists. }
    destruct (Hc sch url_parser.UF_SCHEMA) as [sch' Es], (Hc hst url_parser.UF_HOST) as [hst' Eh],
      (Hc service url_parser.UF_PORT) as [svc' Ep]. rewrite Es, Eh, Ep.
    split; [by repeat case_if|]. split.
    { intros ec ? ? ?. repeat case_if; intros [= <- <- <- <-]; auto. }
    intros x Hok -> Hl. destruct (url_parser.parse_url_of x url_parser.http_parser_url_init Hok Hl)
      as (u' & E' & C1 & C2 & C3 & _ & _ & HP & _). rewrite E in E'. injection E' as <-.
    unfold url_parser.parts_ok in Hok. rewrite !andb_true_iff in Hok.
    destruct Hok as ((((((Hs & _) & Hh) & _) & _) & _) & _).
    assert (forall f t dest t', url_parser.nonempty t = true ->
              url_parser.copy_url_component [] u f (url_parser.url_of x) = url_parser.POk t ->
              url_parser.copy_url_component dest u f (url_parser.url_of x) = url_parser.POk t' ->
              url_parser.has_field u f = true /\ t' = t) as K.
    { intros f t dest t' Hn H1 H2. unfold url_parser.copy_url_component in *.
      destruct (url_parser.has_field u f); [split; [done|congruence]|]. by injection H1 as <-. }
    destruct (K _ _ _ _ Hs C1 Es) as [-> ->]. destruct (K _ _ _ _ Hh C2 Eh) as [-> ->]. cbn [negb orb].
    rewrite HP. destruct (url_parser.u_port x) as [ds|]; cbn; [|done].
    unfold url_parser.copy_url_component in C3, Ep. rewrite HP in C3, Ep. cbn in C3, Ep. congruence.
  - intros ec ? ? ? [= <- <- <- <-]. auto.
  - intros x Hok -> Hl. destruct (url_parser.parse_url_of x url_parser.http_parser_url_init Hok Hl)
      as (u' & E' & _). congruence.
Qed.

End common.
