(* ===== verification/FileGenerator.v ===== *)
(** * The life of a file generator: [file_generator] and [file_generator_from_fd]
    of lib/asio_common.cc with [Defer] of lib/template.h

    The generator for a file keeps its descriptor in a closure that shares a
    [Defer], whose destructor closes it.  Generators are copied and destroyed by
    the application and by the requests and responses that hold them.  Here the
    values that exist, the shared owners with their use counts and the open
    descriptors of the process are a state, and creating, copying, destroying and
    calling a generator are its steps; the theorem shows that no step uses a closed descriptor and that
    each descriptor is closed once, with the last copy. *)

From S2P Require Import Prelude Common.

Module file_generator.
Import common.

(** The control block of a [std::shared_ptr<Defer>]: the bound descriptor and the
    use count. *)
Record owner := mk_owner { bound_fd : Z; use_count : nat }.

(** The generators that exist: [None] is an empty [generator_cb], [Some b] the
    closure of [file_generator_from_fd] with owner [b].  Then the owners, the open
    descriptors, and what [close] was called with, latest first. *)
Record world := mk_world {
  values : list (option nat);
  owners : gmap nat owner;
  open_fds : gset Z;
  close_log : list Z;
}.

(** [defer_shared(close, fd)]: a new owner. *)
Definition defer_shared (fd : Z) (w : world) : nat * world :=
  let b := fresh (dom (owners w)) in
  (b, mk_world (values w) (<[b := mk_owner fd 1]> (owners w)) (open_fds w) (close_log w)).

(** [~Defer]: [f()], which is [close(fd)]; [None] when the descriptor is not open. *)
Definition defer_destroy (fd : Z) (w : world) : option world :=
  if decide (fd ∈ open_fds w)
  then Some (mk_world (values w) (owners w) (open_fds w ∖ {[fd]}) (fd :: close_log w))
  else None.

Definition file_generator_from_fd (fd : Z) (w : world) : world :=
  let '(d, w) := defer_shared fd w in
  mk_world (values w ++ [Some d]) (owners w) (open_fds w) (close_log w).

(** [o] is the result of [open]. *)
Definition file_generator (o : Z) (w : world) : world :=
  if o =? -1 then mk_world (values w ++ [None]) (owners w) (open_fds w) (close_log w)
  else file_generator_from_fd o (mk_world (values w) (owners w) ({[o]} ∪ open_fds w) (close_log w)).

(** Copying a generator copies the pointer. *)
Definition copy_generator (i : nat) (w : world) : option world :=
  match values w !! i with
  | None => Some w
  | Some None => Some (mk_world (values w ++ [None]) (owners w) (open_fds w) (close_log w))
  | Some (Some b) =>
    o ← owners w !! b;
    Some (mk_world (values w ++ [Some b]) (<[b := mk_owner (bound_fd o) (S (use_count o))]> (owners w))
            (open_fds w) (close_log w))
  end.

(** Destroying one releases the pointer; the last one destroys the [Defer]. *)
Definition destroy_generator (i : nat) (w : world) : option world :=
  match values w !! i with
  | None => Some w
  | Some None => Some (mk_world (delete i (values w)) (owners w) (open_fds w) (close_log w))
  | Some (Some b) =>
    o ← owners w !! b;
    if (use_count o =? 1)%nat
    then defer_destroy (bound_fd o) (mk_world (delete i (values w)) (delete b (owners w)) (open_fds w) (close_log w))
    else Some (mk_world (delete i (values w)) (<[b := mk_owner (bound_fd o) (use_count o - 1)]> (owners w))
                 (open_fds w) (close_log w))
  end.

(** A call reads from the descriptor; calling an empty function is left to the
    caller, which tests it. *)
Definition call_generator (i : nat) (reads : list read_ret) (len : nat) (flags : Z) (w : world)
    : option (option (gen_ret * Z * list read_ret)) :=
  match values w !! i with
  | Some (Some b) =>
    o ← owners w !! b;
    if decide (bound_fd o ∈ open_fds w) then Some (file_generator_call reads len flags) else None
  | _ => Some None
  end.

Inductive op :=
  | op_file (o : Z)
  | op_copy (i : nat)
  | op_destroy (i : nat)
  | op_call (i : nat) (reads : list read_ret) (len : nat) (flags : Z).

Definition step (w : world) (x : op) : option world :=
  match x with
  | op_file o => Some (file_generator o w)
  | op_copy i => copy_generator i w
  | op_destroy i => destroy_generator i w
  | op_call i reads len flags => _ ← call_generator i reads len flags w; Some w
  end.

Fixpoint run (xs : list op) (w : world) : option world :=
  match xs with
  | [] => Some w
  | x :: xs => w ← step w x; run xs w
  end.

(** [open] fails or returns a descriptor that is not open. *)
Definition kernel_ok (w : world) (x : op) : Prop :=
  match x with op_file o => o = -1 \/ o ∉ open_fds w | _ => True end.

Fixpoint trace_ok (xs : list op) (w : world) : Prop :=
  match xs with
  | [] => True
  | x :: xs => kernel_ok w x /\ match step w x with Some w => trace_ok xs w | None => True end
  end.

Definition no_generators (fds : gset Z) : world := mk_world [] ∅ fds [].

(** ** Invariant *)

Definition copies (b : nat) (l : list (option nat)) : nat := length (filter (fun v => v = Some b) l).

Record Inv (others : gset Z) (w : world) : Prop := {
  inv_counts : forall b, copies b (values w) = match owners w !! b with Some o => use_count o | None => 0%nat end;
  inv_used : forall b o, owners w !! b = Some o -> (0 < use_count o)%nat;
  inv_fds : forall fd, fd ∈ open_fds w <-> fd ∈ others \/ exists b o, owners w !! b = Some o /\ bound_fd o = fd;
  inv_apart : forall b o, owners w !! b = Some o -> bound_fd o ∉ others;
  inv_distinct : forall b c o p, owners w !! b = Some o -> owners w !! c = Some p -> bound_fd o = bound_fd p -> b = c;
}.

Lemma copies_app b l k : copies b (l ++ k) = (copies b l + copies b k)%nat.
Proof. unfold copies. by rewrite filter_app, length_app. Qed.

Lemma copies_one b v : copies b [v] = if decide (v = Some b) then 1%nat else 0%nat.
Proof. unfold copies. rewrite filter_cons, filter_nil. by case_decide. Qed.

Lemma copies_delete b l i v :
  l !! i = Some v -> copies b l = (copies b (delete i l) + if decide (v = Some b) then 1 else 0)%nat.
Proof.
  intros Hi. rewrite <- (take_drop_middle l i v Hi) at 1. rewrite delete_take_drop.
  change (v :: drop (S i) l) with ([v] ++ drop (S i) l). rewrite !copies_app, copies_one. lia.
Qed.

Lemma no_generators_Inv fds : Inv fds (no_generators fds).
Proof.
  split; cbn; intros; rewrite ?lookup_empty in *; try done.
  split; [by left|]. intros [?|(b & o & E & _)]; [done|]. by rewrite lookup_empty in E.
Qed.

Section steps.
Context (others : gset Z).

Lemma file_generator_Inv o w : Inv others w -> (o = -1 \/ o ∉ open_fds w) -> Inv others (file_generator o w).
Proof.
  intros [I1 I2 I3 I4 I5] Ho. unfold file_generator. destruct (Z.eqb_spec o (-1)) as [->|Hne].
  - split; cbn [values owners open_fds]; [|done..]. intros b. by rewrite copies_app, copies_one, decide_False, Nat.add_0_r by done.
  - destruct Ho as [|Ho]; [done|]. unfold file_generator_from_fd, defer_shared. cbn [owners values open_fds close_log].
    set (b0 := fresh (dom (owners w))). assert (owners w !! b0 = None) as Hb by (apply not_elem_of_dom, is_fresh).
    assert (forall b o', owners w !! b = Some o' -> bound_fd o' <> o) as Hfd.
    { intros b o' E Heq. apply Ho, I3. right. by exists b, o'. }
    split; cbn [values owners open_fds].
    + intros b. rewrite copies_app, copies_one, I1. destruct (decide (b = b0)) as [->|Hn].
      * rewrite decide_True by done. by rewrite lookup_insert_eq, Hb.
      * rewrite decide_False by congruence. rewrite lookup_insert_ne by done. lia.
    + intros b o'. rewrite lookup_insert_Some. intros [[_ <-]|[_ E]]; [cbn; lia|by eapply I2].
    + intros fd. rewrite elem_of_union, elem_of_singleton, I3. setoid_rewrite lookup_insert_Some. split.
      * intros [->|[?|(b & o' & E & <-)]]; [right|by left|right].
        -- exists b0, (mk_owner o 1). by split; [left|].
        -- exists b, o'. split; [right; split; [congruence|done]|done].
      * intros [?|(b & o' & [[_ <-]|[_ E]] & <-)]; [tauto|by left|right; right; by exists b, o'].
    + intros b o'. rewrite lookup_insert_Some. intros [[_ <-]|[_ E]]; [|by eapply I4]. cbn. intros Hin. apply Ho, I3. by left.
    + intros b c o' p. rewrite !lookup_insert_Some. intros [[<- <-]|[_ E]] [[<- <-]|[_ E']] Heq; cbn in Heq; try done.
      * by destruct (Hfd _ _ E').
      * by destruct (Hfd _ _ E).
      * by eapply I5.
Qed.

(** A change of the use count of one owner. *)
Lemma set_count_Inv b o n vs w :
  Inv others w -> owners w !! b = Some o -> (0 < n)%nat ->
  (forall c, copies c vs = if decide (c = b) then n else copies c (values w)) ->
  Inv others (mk_world vs (<[b := mk_owner (bound_fd o) n]> (owners w)) (open_fds w) (close_log w)).
Proof.
  intros [I1 I2 I3 I4 I5] Hb Hn Hc.
  assert (forall c p, <[b := mk_owner (bound_fd o) n]> (owners w) !! c = Some p ->
            exists p', owners w !! c = Some p' /\ bound_fd p = bound_fd p') as K.
  { intros c p. rewrite lookup_insert_Some. intros [[<- <-]|[_ E]]; [by exists o|by exists p]. }
  split; cbn [values owners open_fds].
  - intros c. rewrite Hc. case_decide as E; [subst; by rewrite lookup_insert_eq|by rewrite lookup_insert_ne, I1 by done].
  - intros c p. rewrite lookup_insert_Some. intros [[_ <-]|[_ E]]; [done|by eapply I2].
  - intros fd. rewrite I3. split; (intros [?|(c & p & E & <-)]; [by left|right]).
    + destruct (decide (c = b)) as [->|Hne]; [|exists c, p; by rewrite lookup_insert_ne].
      exists b, (mk_owner (bound_fd o) n). rewrite lookup_insert_eq. split; [done|]. cbn. congruence.
    + apply K in E as (p' & E & ->). by exists c, p'.
  - intros c p E. apply K in E as (p' & E & ->). by eapply I4.
  - intros c d p q E E' Heq. apply K in E as (p' & E & Ep). apply K in E' as (q' & E' & Eq). apply (I5 c d p' q' E E'). congruence.
Qed.

Lemma copy_generator_Inv i w : Inv others w -> exists w', copy_generator i w = Some w' /\ Inv others w'.
Proof.
  intros HI. unfold copy_generator. destruct (values w !! i) as [[b|]|] eqn:Ei; [| |by eexists].
  - pose proof (inv_counts _ _ HI b) as Hc. rewrite (copies_delete b _ _ _ Ei), decide_True in Hc by done.
    destruct (owners w !! b) as [o|] eqn:Eb; [|lia]. eexists. split; [reflexivity|].
    apply set_count_Inv; [done|done|lia|]. intros c. rewrite copies_app, copies_one. case_decide as E; case_decide as E'; try congruence; [|lia].
    subst c. pose proof (inv_counts _ _ HI b) as Hc'. rewrite Eb in Hc'. lia.
  - eexists. split; [reflexivity|]. destruct HI as [I1 I2 I3 I4 I5]. split; cbn [values owners open_fds]; [|done..].
    intros b. by rewrite copies_app, copies_one, decide_False, Nat.add_0_r by done.
Qed.

Lemma destroy_generator_Inv i w : Inv others w -> exists w', destroy_generator i w = Some w' /\ Inv others w'.
Proof.
  intros HI. unfold destroy_generator. destruct (values w !! i) as [[b|]|] eqn:Ei; [| |by eexists].
  - pose proof (inv_counts _ _ HI b) as Hc. rewrite (copies_delete b _ _ _ Ei), decide_True in Hc by done.
    destruct (owners w !! b) as [o|] eqn:Eb; [|lia]. cbn [mbind option_bind].
    assert (forall c, c <> b -> copies c (delete i (values w)) = copies c (values w)) as Hoth.
    { intros c Hn. rewrite (copies_delete c _ _ _ Ei), decide_False by congruence. lia. }
    destruct (Nat.eqb_spec (use_count o) 1) as [E1|E1].
    + unfold defer_destroy. cbn [open_fds values owners close_log]. rewrite decide_True by (apply (inv_fds _ _ HI); right; by exists b, o).
      eexists. split; [reflexivity|]. destruct HI as [I1 I2 I3 I4 I5]. split; cbn [values owners open_fds].
      * intros c. destruct (decide (c = b)) as [->|Hn]; [rewrite lookup_delete_eq; lia|by rewrite lookup_delete_ne, Hoth by done].
      * intros c p. rewrite lookup_delete_Some. intros [_ E]. by eapply I2.
      * intros fd. rewrite elem_of_difference, elem_of_singleton, I3. setoid_rewrite lookup_delete_Some. split.
        -- intros [[?|(c & p & E & <-)] Hn]; [by left|right; exists c, p]. split; [split; [congruence|done]|done].
        -- intros [Ho|(c & p & [Hn E] & <-)].
           ++ split; [by left|]. intros ->. by apply (I4 _ _ Eb).
           ++ split; [right; by exists c, p|]. intros Heq. by apply Hn, (I5 b c o p).
      * intros c p. rewrite lookup_delete_Some. intros [_ E]. by eapply I4.
      * intros c d p q. rewrite !lookup_delete_Some. intros [_ E] [_ E']. by apply I5.
    + eexists. split; [reflexivity|]. apply set_count_Inv; [done|done|lia|]. intros c. case_decide; [subst; lia|by apply Hoth].
  - eexists. split; [reflexivity|]. destruct HI as [I1 I2 I3 I4 I5]. split; cbn [values owners open_fds]; [|done..].
    intros b. rewrite <- I1, (copies_delete b _ _ _ Ei), decide_False by done. lia.
Qed.

Lemma call_generator_ok i reads len flags w : Inv others w -> call_generator i reads len flags w <> None.
Proof.
  intros HI. unfold call_generator. destruct (values w !! i) as [[b|]|] eqn:Ei; [|done|done].
  pose proof (inv_counts _ _ HI b) as Hc. rewrite (copies_delete b _ _ _ Ei), decide_True in Hc by done.
  destruct (owners w !! b) as [o|] eqn:Eb; [|lia]. cbn [mbind option_bind].
  rewrite decide_True; [done|]. apply (inv_fds _ _ HI). right. by exists b, o.
Qed.

Lemma step_Inv x w : Inv others w -> kernel_ok w x -> exists w', step w x = Some w' /\ Inv others w'.
Proof.
  intros HI Hk. destruct x as [o|i|i|i reads len flags]; cbn [step].
  - eexists. split; [reflexivity|]. by apply file_generator_Inv.
  - by apply copy_generator_Inv.
  - by apply destroy_generator_Inv.
  - pose proof (call_generator_ok i reads len flags w HI) as Hn. destruct (call_generator _ _ _ _ w); [|done]. by exists w.
Qed.

End steps.

(** ** The ledger *)

Definition opened (fd : Z) (x : op) : nat :=
  match x with op_file o => if decide (o = fd /\ o <> -1) then 1 else 0 | _ => 0 end.

Definition closed (fd : Z) (w : world) : nat := length (filter (fun c => c = fd) (close_log w)).
Definition is_open (fd : Z) (w : world) : nat := if decide (fd ∈ open_fds w) then 1 else 0.

(** What is opened is open or has been closed. *)
Lemma step_ledger fd x w w' :
  kernel_ok w x -> step w x = Some w' -> (closed fd w' + is_open fd w' = closed fd w + is_open fd w + opened fd x)%nat.
Proof.
  intros Hk. destruct x as [o|i|i|i reads len flags]; cbn [step opened].
  - intros [= <-]. unfold file_generator. destruct (Z.eqb_spec o (-1)) as [->|Hne].
    + rewrite decide_False by tauto. unfold closed, is_open. cbn. lia.
    + unfold file_generator_from_fd, defer_shared, closed, is_open. cbn [open_fds close_log]. destruct Hk as [|Hk]; [done|].
      repeat case_decide; (lia || (exfalso; set_solver)).
  - unfold copy_generator. destruct (values w !! i) as [[b|]|]; [destruct (owners w !! b)| |]; intros [= <-]; cbn; unfold closed, is_open; cbn; lia.
  - unfold destroy_generator. destruct (values w !! i) as [[b|]|]; [destruct (owners w !! b) as [o|]| |];
      cbn [mbind option_bind]; try (intros [= <-]; unfold closed, is_open; cbn; lia); try done.
    destruct (use_count o =? 1)%nat; [|intros [= <-]; unfold closed, is_open; cbn; lia].
    unfold defer_destroy. cbn [open_fds]. case_decide as Hin; [|done]. intros [= <-]. unfold closed, is_open. cbn [close_log open_fds].
    rewrite filter_cons. repeat case_decide; cbn [length]; (lia || (exfalso; set_solver)).
  - destruct (call_generator _ _ _ _ w); [|done]. intros [= <-]. lia.
Qed.

Definition times_opened (fd : Z) (xs : list op) : nat := fold_right (fun x n => (opened fd x + n)%nat) 0%nat xs.

Lemma run_spec others xs w :
  Inv others w -> trace_ok xs w ->
  exists w', run xs w = Some w' /\ Inv others w'
    /\ forall fd, (closed fd w' + is_open fd w' = closed fd w + is_open fd w + times_opened fd xs)%nat
                  /\ (fd ∈ others -> times_opened fd xs = 0%nat).
Proof.
  revert w. induction xs as [|x xs IH]; intros w HI Ht; cbn [run times_opened fold_right].
  - exists w. split; [done|]. split; [done|]. intros fd. split; [lia|done].
  - destruct Ht as [Hk Ht]. destruct (step_Inv others x w HI Hk) as (w1 & E & HI1). rewrite E in Ht |- *. cbn [mbind option_bind].
    destruct (IH w1 HI1 Ht) as (w2 & E2 & HI2 & Hl). exists w2. split; [done|]. split; [done|]. intros fd. destruct (Hl fd) as [Hl1 Hl2].
    pose proof (step_ledger fd x w w1 Hk E) as Hs. fold (times_opened fd xs). split; [lia|]. intros Hfd. rewrite (Hl2 Hfd).
    destruct x as [o|i|i|i reads len flags]; try done. cbn [opened]. rewrite decide_False; [done|]. intros [-> Hne].
    destruct Hk as [|Hk]; [done|]. apply Hk, (inv_fds _ _ HI). by left.
Qed.

(** C19. Descriptors of file generators are neither leaked nor closed early: however
    an application makes generators for files, copies, calls and destroys them, no
    call reads from a closed descriptor and no [close] is called on one; a
    descriptor that the library opened is open exactly while a generator for it
    exists, and it has been closed as often as it was opened, less one while it
    is open; the other descriptors of the process are never closed.  A file that
    cannot be opened gives an empty generator. *)
Theorem descriptors_owned (fds : gset Z) (xs : list op) (Ht : trace_ok xs (no_generators fds)) :
  exists w, run xs (no_generators fds) = Some w
    /\ (forall fd, fd ∈ fds -> fd ∈ open_fds w /\ closed fd w = 0%nat)
    /\ (forall fd, fd ∉ fds ->
        (fd ∈ open_fds w <-> exists b o, Some b ∈ values w /\ owners w !! b = Some o /\ bound_fd o = fd)
        /\ times_opened fd xs = (closed fd w + is_open fd w)%nat)
    /\ file_generator (-1) w = mk_world (values w ++ [None]) (owners w) (open_fds w) (close_log w).
Proof.
  destruct (run_spec fds xs _ (no_generators_Inv fds) Ht) as (w & E & HI & Hl). exists w. split; [done|].
  assert (forall fd, closed fd (no_generators fds) = 0%nat) as H0 by done. split; [|split; [|done]].
  - intros fd Hfd. destruct (Hl fd) as [Hl1 Hl2]. rewrite (Hl2 Hfd), H0 in Hl1. assert (fd ∈ open_fds w) as Ho by (apply (inv_fds _ _ HI); by left).
    split; [done|]. unfold is_open in Hl1. cbn in Hl1. rewrite !decide_True in Hl1 by done. lia.
  - intros fd Hfd. destruct (Hl fd) as [Hl1 _]. split.
    + rewrite (inv_fds _ _ HI). split.
      * intros [?|(b & o & Eb & Ef)]; [done|]. exists b, o. split; [|done].
        pose proof (inv_counts _ _ HI b) as Hc. rewrite Eb in Hc. pose proof (inv_used _ _ HI b o Eb) as Hu.
        unfold copies in Hc. destruct (filter _ (values w)) as [|v l] eqn:Ev; [cbn in Hc; lia|].
        assert (v ∈ filter (fun v => v = Some b) (values w)) as Hv by (rewrite Ev; by left).
        apply list_elem_of_filter in Hv as [-> Hv]. done.
      * intros (b & o & _ & ?). right. by exists b, o.
    + rewrite H0 in Hl1. unfold is_open in Hl1 at 2. cbn in Hl1. rewrite (decide_False (P := fd ∈ fds)) in Hl1 by done. lia.
Qed.

Lemma descriptors_owned_witness :
  exists w, run [op_file 5; op_copy 0; op_destroy 0; op_call 0 [RBytes (lit "x")] 10 0; op_file (-1); op_destroy 0; op_file 5] (no_generators {[ 0; 1 ]}) = Some w
    /\ closed 5 w = 1%nat /\ 5 ∈ open_fds w.
Proof.
  destruct (descriptors_owned {[ 0; 1 ]}
    [op_file 5; op_copy 0; op_destroy 0; op_call 0 [RBytes (lit "x")] 10 0; op_file (-1); op_destroy 0; op_file 5]) as (w & E & _).
  - repeat split; try (left; reflexivity); right; vm_compute; intros H; inversion H.
  - exists w. split; [exact E|]. vm_compute in E. injection E as <-. split; vm_compute; reflexivity.
Defined.

End file_generator.
