(* ===== verification/Template.v ===== *)
(** * Strings and literals: lib/template.h

    The operators on [StringRef], a reference to bytes; a reference is modelled by
    the bytes it refers to, a C string by the bytes before its terminator. *)

From S2P Require Import Prelude Common.

Module template.

(** The literals [_k], [_m] and [_g], on [unsigned long long]. *)
Definition lit_k (k : Z) : Z := wrap_u 64 (k * 1024).
Definition lit_m (m : Z) : Z := wrap_u 64 (wrap_u 64 (m * 1024) * 1024).
Definition lit_g (g : Z) : Z := wrap_u 64 (wrap_u 64 (wrap_u 64 (g * 1024) * 1024) * 1024).

(** [StringRef::from_maybe_nullptr]: the bytes before the first NUL. *)
Fixpoint c_string (s : str) : str :=
  match s with
  | [] => []
  | c :: s => if code c =? 0 then [] else c :: c_string s
  end.

Definition from_maybe_nullptr (s : option str) : str := match s with None => [] | Some s => c_string s end.

(** [std::equal]: the second range has the length of the first. *)
Fixpoint equal_range (a b : str) : bool :=
  match a, b with
  | [], _ => true
  | c :: a, d :: b => (code c =? code d) && equal_range a b
  | _ :: _, [] => false
  end.

(** [operator==] on two references (or a reference and a [std::string]), and on a
    reference and a C string. *)
Definition string_ref_eq (lhs rhs : str) : bool := (length lhs =? length rhs)%nat && equal_range lhs rhs.
Definition string_ref_eq_cstr (lhs rhs : str) : bool :=
  (length lhs =? length (c_string rhs))%nat && equal_range lhs (c_string rhs).

(** [operator<]: [std::lexicographical_compare] of ranges of [char], which is signed. *)
Fixpoint string_ref_lt (a b : str) : bool :=
  match a, b with
  | _, [] => false
  | [], _ :: _ => true
  | c :: a, d :: b => if scode c <? scode d then true else if scode d <? scode c then false else string_ref_lt a b
  end.

(** The loop of [std::hash<StringRef>]: every operation on [uint32_t] wraps. *)
Definition hash_byte (h : Z) (c : ascii) : Z :=
  let h := Z.lxor h (code c) in
  let shl n := wrap_u 32 (Z.shiftl h n) in
  wrap_u 32 (h + wrap_u 32 (wrap_u 32 (wrap_u 32 (wrap_u 32 (shl 1 + shl 4) + shl 7) + shl 8) + shl 24)).

Definition hash (s : str) : Z := fold_left hash_byte s 2166136261.

(** ** Properties *)

(** The FNV-1a function of the draft that the comment cites: multiplication by the
    prime modulo [2 ^ 32]. *)
Definition fnv1a (s : str) : Z :=
  fold_left (fun h c => (Z.lxor h (code c) * 16777619) mod 2 ^ 32) s 2166136261.

Lemma add_wrapped a b : wrap_u 32 (wrap_u 32 a + wrap_u 32 b) = wrap_u 32 (a + b).
Proof. symmetry. apply Zplus_mod. Qed.

Lemma hash_byte_spec h c : hash_byte h c = (Z.lxor h (code c) * 16777619) mod 2 ^ 32.
Proof.
  unfold hash_byte. set (x := Z.lxor h (code c)). rewrite !Z.shiftl_mul_pow2 by lia.
  rewrite (add_wrapped (x * 2 ^ 1) (x * 2 ^ 4)), (add_wrapped _ (x * 2 ^ 7)), (add_wrapped _ (x * 2 ^ 8)), (add_wrapped _ (x * 2 ^ 24)).
  unfold wrap_u. rewrite Zplus_mod_idemp_r. f_equal. change (2 ^ 1) with 2. change (2 ^ 4) with 16. change (2 ^ 7) with 128.
  change (2 ^ 8) with 256. change (2 ^ 24) with 16777216. lia.
Qed.

(** [std::hash<StringRef>] is the 32-bit FNV-1a hash that its comment names: the
    shifts and additions with their wrap-around are the multiplication by the FNV
    prime 16777619 modulo [2 ^ 32], for every string. *)
Theorem hash_is_fnv1a (s : str) : hash s = fnv1a s.
Proof.
  unfold hash, fnv1a. generalize 2166136261. induction s as [|c s IH]; intros h; cbn [fold_left]; [done|].
  by rewrite hash_byte_spec, IH.
Qed.

Lemma equal_range_spec a b : length a = length b -> equal_range a b = bool_decide (a = b).
Proof.
  revert b. induction a as [|c a IH]; intros [|d b] El; try discriminate; cbn; [done|]. injection El as El. rewrite IH by done.
  destruct (Z.eqb_spec (code c) (code d)) as [E|E].
  - apply code_inj in E as ->. cbn. apply bool_decide_ext. split; congruence.
  - cbn. symmetry. apply bool_decide_eq_false. intros [= -> _]. done.
Qed.

(** [operator==] is equality of the bytes. *)
Lemma string_ref_eq_spec a b : string_ref_eq a b = bool_decide (a = b).
Proof.
  unfold string_ref_eq. destruct (Nat.eqb_spec (length a) (length b)) as [E|E]; cbn; [by apply equal_range_spec|].
  symmetry. apply bool_decide_eq_false. by intros ->.
Qed.

Lemma scode_inj c d : scode c = scode d -> c = d.
Proof.
  intros E. apply code_inj. unfold scode in E. pose proof (code_range c). pose proof (code_range d). repeat case_match; lia.
Qed.

Lemma lt_irrefl a : string_ref_lt a a = false.
Proof. induction a as [|c a IH]; cbn; [done|]. by rewrite Z.ltb_irrefl. Qed.

Lemma lt_trans a b c : string_ref_lt a b = true -> string_ref_lt b c = true -> string_ref_lt a c = true.
Proof.
  revert b c. induction a as [|x a IH]; intros [|y b] [|z c]; cbn; try done.
  destruct (Z.ltb_spec (scode x) (scode y)), (Z.ltb_spec (scode y) (scode x)), (Z.ltb_spec (scode y) (scode z)),
    (Z.ltb_spec (scode z) (scode y)), (Z.ltb_spec (scode x) (scode z)), (Z.ltb_spec (scode z) (scode x)); try done; try lia.
  apply IH.
Qed.

Lemma lt_total a b : string_ref_lt a b = false -> string_ref_lt b a = false -> a = b.
Proof.
  revert b. induction a as [|x a IH]; intros [|y b]; cbn; try done.
  destruct (Z.ltb_spec (scode x) (scode y)), (Z.ltb_spec (scode y) (scode x)); try done; try lia.
  intros H1 H2. rewrite (IH b H1 H2). f_equal. apply scode_inj. lia.
Qed.

Lemma ascii_order a b :
  Forall (fun x => code x < 128) a -> Forall (fun x => code x < 128) b -> string_ref_lt a b = common.str_ltb a b.
Proof.
  revert b. induction a as [|x a IH]; intros [|y b] Ha Hb; cbn; try done.
  apply Forall_cons in Ha as [Hx Ha], Hb as [Hy Hb]. unfold scode.
  destruct (Z.ltb_spec (code x) 128), (Z.ltb_spec (code y) 128); try lia. rewrite IH by done.
  destruct (Z.ltb_spec (code x) (code y)), (Z.ltb_spec (code y) (code x)), (Z.eqb_spec (code x) (code y)); done || lia.
Qed.

Lemma high_order x y p a b : code x < 128 <= code y ->
  string_ref_lt (p ++ y :: a) (p ++ x :: b) = true /\ common.str_ltb (p ++ x :: b) (p ++ y :: a) = true.
Proof.
  intros Hxy. pose proof (code_range x). pose proof (code_range y). induction p as [|c p [IH1 IH2]]; cbn.
  - unfold scode. destruct (Z.ltb_spec (code x) 128), (Z.ltb_spec (code y) 128); try lia.
    destruct (Z.ltb_spec (code y - 256) (code x)), (Z.eqb_spec (code x) (code y)); lia.
  - by rewrite Z.ltb_irrefl, Z.eqb_refl.
Qed.

(** [operator<] on [StringRef] is a strict total order that is consistent with
    [operator==], so that it can order a map; it agrees with the order of
    [std::string] (by unsigned bytes) on bytes below 128, and where a byte above 127
    meets one below it, the two orders are opposite. *)
Theorem string_ref_order (a b c : str) :
  string_ref_lt a a = false
  /\ (string_ref_lt a b = true -> string_ref_lt b c = true -> string_ref_lt a c = true)
  /\ string_ref_eq a b = negb (string_ref_lt a b) && negb (string_ref_lt b a)
  /\ (Forall (fun x => code x < 128) a -> Forall (fun x => code x < 128) b -> string_ref_lt a b = common.str_ltb a b)
  /\ (forall x y p, code x < 128 <= code y ->
        string_ref_lt (p ++ y :: a) (p ++ x :: b) = true /\ common.str_ltb (p ++ x :: b) (p ++ y :: a) = true).
Proof.
  split; [apply lt_irrefl|]. split; [apply lt_trans|]. split; [|split].
  - rewrite string_ref_eq_spec. destruct (string_ref_lt a b) eqn:E1; [|destruct (string_ref_lt b a) eqn:E2]; cbn.
    + apply bool_decide_eq_false. intros ->. by rewrite lt_irrefl in E1.
    + apply bool_decide_eq_false. intros ->. by rewrite lt_irrefl in E2.
    + apply bool_decide_eq_true. by apply lt_total.
  - apply ascii_order.
  - intros x y p Hxy. by apply high_order.
Qed.

Lemma string_ref_order_witness :
  string_ref_lt [chr 97; chr 200] [chr 97; chr 98] = true /\ common.str_ltb [chr 97; chr 98] [chr 97; chr 200] = true.
Proof.
  destruct (string_ref_order [] [] []) as (_ & _ & _ & _ & H). apply (H (chr 98) (chr 200) [chr 97]). vm_compute. split; [reflexivity|discriminate].
Defined.

End template.
