(* ===== verification/StringRefs.v ===== *)
(** * References to strings in memory: [StringRef] of lib/template.h

    A [StringRef] is an address and a length; its operations read the memory behind it,
    which is somebody else's, through its iterators, which are pointers.  The theorems
    show that on a reference whose bytes are there they compute the operators of Template
    on the bytes, and read nothing else. *)

From S2P Require Import Prelude Common Template.

Module string_refs.

(** The bytes that may be read, by their address; [None] below is a read of another one. *)
Abbreviation memory := (gmap Z ascii).

(** ** References *)

Record StringRef := mk_ref { base : Z; len : Z }.

(** [strlen]: it stops at a NUL, or leaves the memory, before it has seen all of it. *)
Fixpoint strlen_from (fuel : nat) (m : memory) (p n : Z) : option Z :=
  match fuel with
  | O => None
  | S fuel => c ← m !! p; if code c =? 0 then Some n else strlen_from fuel m (p + 1) (n + 1)
  end.

Definition strlen (m : memory) (p : Z) : option Z := strlen_from (S (size m)) m p 0.

(** The constructors: of nothing, given the address of the literal [""]; of a
    [std::string], given the address and the number of its bytes; of a C string; of an
    address and a length; of two iterators, the first of which is dereferenced; of two
    pointers. *)
Definition ref_empty (literal : Z) : StringRef := mk_ref literal 0.
Definition ref_string (c_str size : Z) : StringRef := mk_ref c_str size.
Definition ref_cstr (m : memory) (s : Z) : option StringRef := n ← strlen m s; Some (mk_ref s n).
Definition ref_sized (s n : Z) : StringRef := mk_ref s n.
Definition ref_iterators (m : memory) (first last : Z) : option StringRef :=
  _ ← m !! first; Some (mk_ref first (wrap_u 64 (last - first))).
Definition ref_pointers (first last : Z) : StringRef := mk_ref first (wrap_u 64 (last - first)).
(** An array of [n] characters. *)
Definition from_lit (s n : Z) : StringRef := ref_sized s (wrap_u 64 (n - 1)).
Definition from_maybe_nullptr (m : memory) (literal : Z) (s : option Z) : option StringRef :=
  match s with None => Some (ref_empty literal) | Some s => ref_cstr m s end.

Definition cbegin (r : StringRef) : Z := base r.
Definition cend (r : StringRef) : Z := base r + len r.
(** A reverse iterator is the pointer behind the byte that it reads. *)
Definition rbegin (r : StringRef) : Z := base r + len r.
Definition rend (r : StringRef) : Z := base r.
Definition c_str (r : StringRef) : Z := base r.
Definition size_ (r : StringRef) : Z := len r.
Definition empty_ (r : StringRef) : bool := len r =? 0.
Definition index (m : memory) (r : StringRef) (pos : Z) : option ascii := m !! (base r + pos).

(** ** Loops over ranges *)

(** A loop from one pointer to another has as many turns as there are bytes between
    them. *)
Definition turns (first last : Z) : nat := Z.to_nat (last - first).

Fixpoint copy_n (n : nat) (m : memory) (p : Z) : option str :=
  match n with
  | O => Some []
  | S n => c ← m !! p; s ← copy_n n m (p + 1); Some (c :: s)
  end.

Fixpoint copy_back_n (n : nat) (m : memory) (p : Z) : option str :=
  match n with
  | O => Some []
  | S n => c ← m !! (p - 1); s ← copy_back_n n m (p - 1); Some (c :: s)
  end.

(** [std::equal] *)
Fixpoint equal_n (n : nat) (m : memory) (p q : Z) : option bool :=
  match n with
  | O => Some true
  | S n => c ← m !! p; d ← m !! q; if code c =? code d then equal_n n m (p + 1) (q + 1) else Some false
  end.

(** [std::lexicographical_compare] *)
Fixpoint less_n (n k : nat) (m : memory) (p q : Z) : option bool :=
  match n, k with
  | _, O => Some false
  | O, S _ => Some true
  | S n, S k =>
    c ← m !! p; d ← m !! q;
    if scode c <? scode d then Some true else if scode d <? scode c then Some false else less_n n k m (p + 1) (q + 1)
  end.

Fixpoint hash_n (n : nat) (m : memory) (p h : Z) : option Z :=
  match n with
  | O => Some h
  | S n => c ← m !! p; hash_n n m (p + 1) (template.hash_byte h c)
  end.

(** ** Operators *)

(** [str()]: [std::string(base, len)] *)
Definition to_string (m : memory) (r : StringRef) : option str := copy_n (Z.to_nat (len r)) m (base r).

(** What a loop from [rbegin()] to [rend()] reads. *)
Definition reversed (m : memory) (r : StringRef) : option str := copy_back_n (turns (rend r) (rbegin r)) m (rbegin r).

(** [operator==]: on two references, or a reference and a [std::string], given where its
    bytes are; and on a reference and a C string. *)
Definition equal_ref (m : memory) (lhs rhs : StringRef) : option bool :=
  if size_ lhs =? size_ rhs then equal_n (turns (cbegin lhs) (cend lhs)) m (cbegin lhs) (cbegin rhs) else Some false.
Definition equal_cstr (m : memory) (lhs : StringRef) (rhs : Z) : option bool :=
  n ← strlen m rhs; if size_ lhs =? n then equal_n (turns (cbegin lhs) (cend lhs)) m (cbegin lhs) rhs else Some false.
Definition not_equal_ref (m : memory) (lhs rhs : StringRef) : option bool := b ← equal_ref m lhs rhs; Some (negb b).
Definition not_equal_cstr (m : memory) (lhs : StringRef) (rhs : Z) : option bool := b ← equal_cstr m lhs rhs; Some (negb b).

Definition less_ref (m : memory) (lhs rhs : StringRef) : option bool :=
  less_n (turns (cbegin lhs) (cend lhs)) (turns (cbegin rhs) (cend rhs)) m (cbegin lhs) (cbegin rhs).

(** [operator<<], given what the stream has got so far, and [operator+=]. *)
Definition put_ref (m : memory) (o : str) (s : StringRef) : option str := l ← copy_n (Z.to_nat (size_ s)) m (c_str s); Some (o ++ l).
Definition append_ref (m : memory) (lhs : str) (rhs : StringRef) : option str :=
  l ← copy_n (Z.to_nat (size_ rhs)) m (c_str rhs); Some (lhs ++ l).

Definition hash_ref (m : memory) (s : StringRef) : option Z := hash_n (turns (cbegin s) (cend s)) m (cbegin s) 2166136261.

(** ** The bytes behind a reference *)

Fixpoint bytes_at (m : memory) (p : Z) (s : str) : Prop :=
  match s with
  | [] => True
  | c :: s => m !! p = Some c /\ bytes_at m (p + 1) s
  end.

Definition refers (m : memory) (r : StringRef) (s : str) : Prop := len r = Z.of_nat (length s) /\ bytes_at m (base r) s.

(** A C string: bytes and the first NUL. *)
Definition cstr_at (m : memory) (p : Z) (s : str) : Prop := bytes_at m p (s ++ [chr 0]) /\ Forall (fun c => code c <> 0) s.

Lemma bytes_at_app m p s t : bytes_at m p (s ++ t) <-> bytes_at m p s /\ bytes_at m (p + Z.of_nat (length s)) t.
Proof.
  revert p. induction s as [|c s IH]; intros p; cbn [app bytes_at length].
  - rewrite Z.add_0_r. tauto.
  - rewrite IH. replace (p + Z.of_nat (S (length s))) with (p + 1 + Z.of_nat (length s)) by lia. tauto.
Qed.

Lemma bytes_at_lookup m p s i : bytes_at m p s -> (i < length s)%nat -> m !! (p + Z.of_nat i) = s !! i.
Proof.
  revert p i. induction s as [|c s IH]; intros p i Hb Hi; [cbn in Hi; lia|]. destruct Hb as [Hc Hb], i as [|i].
  - by rewrite Z.add_0_r.
  - cbn [length lookup list_lookup] in *. rewrite <- (IH (p + 1)) by (done || lia). f_equal. lia.
Qed.

(** A memory has at least as many bytes as a string in it. *)
Lemma bytes_at_size m p s : bytes_at m p s -> (length s <= size m)%nat.
Proof.
  revert m p. induction s as [|c s IH]; intros m p Hb; [cbn; lia|]. destruct Hb as [Hc Hb].
  specialize (IH (delete p m) (p + 1)).
  rewrite (map_size_delete_Some p m (mk_is_Some _ _ Hc)) in IH.
  assert (forall q, p < q -> bytes_at m q s -> bytes_at (delete p m) q s) as Hdel.
  { clear. induction s as [|c s IH]; intros q Hq; [done|]. intros [Hc Hb]. split; [by rewrite lookup_delete_ne by lia|]. apply IH; [lia|done]. }
  assert (0 < size m)%nat. { apply Nat.neq_0_lt_0. intros ->%map_size_empty_inv. by rewrite lookup_empty in Hc. }
  cbn. specialize (IH (Hdel (p + 1) ltac:(lia) Hb)). lia.
Qed.

(** ** What the loops compute *)

Lemma strlen_from_spec fuel m p n s : cstr_at m p s -> (length s < fuel)%nat ->
  strlen_from fuel m p n = Some (n + Z.of_nat (length s)).
Proof.
  unfold cstr_at. revert fuel p n. induction s as [|c s IH]; intros [|fuel] p n [Hb Hs] Hf; cbn [length] in *; try lia; cbn [strlen_from].
  - destruct Hb as [-> _]. cbn. f_equal. lia.
  - destruct Hb as [-> Hb]. apply Forall_cons in Hs as [Hc Hs]. cbn [mbind option_bind]. rewrite (proj2 (Z.eqb_neq _ _) Hc).
    rewrite IH by (done || lia). f_equal. lia.
Qed.

Lemma strlen_spec m p s : cstr_at m p s -> strlen m p = Some (Z.of_nat (length s)).
Proof.
  intros Hs. unfold strlen. rewrite (strlen_from_spec _ _ _ _ s Hs); [done|]. destruct Hs as [Hb _].
  apply bytes_at_size in Hb. rewrite length_app in Hb. cbn in Hb. lia.
Qed.

Lemma strlen_from_outside fuel m p n : strlen_from fuel m p n = None ->
  exists s, bytes_at m p s /\ Forall (fun c => code c <> 0) s /\ (length s = fuel \/ m !! (p + Z.of_nat (length s)) = None).
Proof.
  revert p n. induction fuel as [|fuel IH]; intros p n Hn; cbn [strlen_from] in Hn.
  { exists []. split; [done|split; [constructor|by left]]. }
  destruct (m !! p) as [c|] eqn:Ec; cbn [mbind option_bind] in Hn.
  2:{ exists []. split; [done|split; [constructor|right]]. cbn. by rewrite Z.add_0_r. }
  destruct (Z.eqb_spec (code c) 0) as [|Hc]; [done|]. destruct (IH _ _ Hn) as (s & Hb & Hs & Hor).
  exists (c :: s). split; [done|split; [by constructor|]]. cbn [length].
  destruct Hor as [->|Ho]; [by left|right]. rewrite <- Ho. f_equal. lia.
Qed.

(** When [strlen] fails, a byte before any NUL cannot be read: it has not just stopped. *)
Lemma strlen_outside m p : strlen m p = None ->
  exists s, bytes_at m p s /\ Forall (fun c => code c <> 0) s /\ m !! (p + Z.of_nat (length s)) = None.
Proof.
  intros (s & Hb & Hs & Hor)%strlen_from_outside. exists s. split; [done|split; [done|]].
  destruct Hor as [E|?]; [|done]. apply bytes_at_size in Hb. lia.
Qed.

Lemma copy_n_spec m p s : bytes_at m p s -> copy_n (length s) m p = Some s.
Proof.
  revert p. induction s as [|c s IH]; intros p Hb; cbn; [done|]. destruct Hb as [-> Hb]. cbn. by rewrite IH.
Qed.

Lemma copy_back_n_spec m p s : bytes_at m p s -> copy_back_n (length s) m (p + Z.of_nat (length s)) = Some (rev s).
Proof.
  induction s as [|c s IH] using rev_ind; [done|]. rewrite length_app, Nat.add_1_r. intros [Hb [Hc _]]%bytes_at_app.
  cbn [copy_back_n]. replace (p + Z.of_nat (S (length s)) - 1) with (p + Z.of_nat (length s)) by lia. rewrite Hc. cbn [mbind option_bind].
  rewrite IH by done. cbn [mbind option_bind]. by rewrite rev_app_distr.
Qed.

Lemma equal_n_spec m p q s t : bytes_at m p s -> bytes_at m q t -> length s = length t ->
  equal_n (length s) m p q = Some (template.equal_range s t).
Proof.
  revert p q t. induction s as [|c s IH]; intros p q [|d t] Hs Ht El; try done. destruct Hs as [Ec Hs], Ht as [Ed Ht].
  cbn. rewrite Ec, Ed. cbn [mbind option_bind]. destruct (code c =? code d); [|done]. cbn [andb]. apply IH; [done..|]. by injection El.
Qed.

Lemma less_n_spec m p q s t : bytes_at m p s -> bytes_at m q t ->
  less_n (length s) (length t) m p q = Some (template.string_ref_lt s t).
Proof.
  revert p q t. induction s as [|c s IH]; intros p q [|d t] Hs Ht; try done. destruct Hs as [Ec Hs], Ht as [Ed Ht].
  cbn. rewrite Ec, Ed. cbn [mbind option_bind]. repeat (case_match; [done|]). by apply IH.
Qed.

Lemma hash_n_spec m p s h : bytes_at m p s -> hash_n (length s) m p h = Some (fold_left template.hash_byte s h).
Proof.
  revert p h. induction s as [|c s IH]; intros p h Hs; [done|]. destruct Hs as [Ec Hs]. cbn. rewrite Ec. cbn. by apply IH.
Qed.

Lemma refers_turns m r s : refers m r s -> turns (cbegin r) (cend r) = length s.
Proof. intros [Hl _]. unfold turns, cbegin, cend. lia. Qed.

Lemma equal_sized m r q s t : refers m r s -> bytes_at m q t ->
  (if size_ r =? Z.of_nat (length t) then equal_n (turns (cbegin r) (cend r)) m (cbegin r) q else Some false)
  = Some (template.string_ref_eq s t).
Proof.
  intros Hr Ht. rewrite (refers_turns _ _ _ Hr). destruct Hr as [Hl Hs]. unfold template.string_ref_eq, size_. rewrite Hl.
  destruct (Z.eqb_spec (Z.of_nat (length s)) (Z.of_nat (length t))) as [E|E], (Nat.eqb_spec (length s) (length t)); try lia; [|done].
  by apply equal_n_spec.
Qed.

(** ** The properties *)

Section refinement.
Context (m : memory).

(** The constructors of [StringRef] refer to what they should: a C string, up to its
    first NUL; a [std::string] or any bytes given with their length; a literal without its
    terminator; the bytes between two iterators or pointers, for instance a part of
    what another reference refers to; and the empty string for none and for a null
    pointer.  A C string is found to its end, without a read behind its NUL. *)
Theorem string_ref_constructors (p literal : Z) (s : str) (r : StringRef) (i j : nat)
    (Hlen : Z.of_nat (length s) < 2 ^ 64 - 1) (Hr : refers m r s) (Hij : (i <= j <= length s)%nat) :
  refers m (ref_empty literal) [] /\ from_maybe_nullptr m literal None = Some (ref_empty literal)
  /\ (forall t, cstr_at m p t -> exists q, ref_cstr m p = Some q /\ from_maybe_nullptr m literal (Some p) = Some q /\ refers m q t)
  /\ (bytes_at m p s -> refers m (ref_string p (Z.of_nat (length s))) s /\ refers m (ref_sized p (Z.of_nat (length s))) s)
  /\ (bytes_at m p (s ++ [chr 0]) -> refers m (from_lit p (Z.of_nat (length s) + 1)) s)
  /\ refers m (ref_pointers (cbegin r + Z.of_nat i) (cbegin r + Z.of_nat j)) (take (j - i) (drop i s))
  /\ ((i < j)%nat -> ref_iterators m (cbegin r + Z.of_nat i) (cbegin r + Z.of_nat j)
        = Some (ref_pointers (cbegin r + Z.of_nat i) (cbegin r + Z.of_nat j))).
Proof.
  destruct Hr as [Hl Hs]. split; [done|]. split; [done|]. split; [|split; [done|split; [|split]]].
  - intros t Ht. unfold from_maybe_nullptr, ref_cstr. rewrite (strlen_spec _ _ _ Ht). cbn. eexists. split; [done|split; [done|]].
    split; [done|]. destruct Ht as [Hb _]. by apply bytes_at_app in Hb as [Hb _].
  - intros [Hb _]%bytes_at_app. split; [|done]. cbn. unfold wrap_u. rewrite Z.mod_small; lia.
  - split; cbn [len base ref_pointers].
    + unfold wrap_u. rewrite length_take, length_drop, Z.mod_small; lia.
    + rewrite <- (take_drop i s) in Hs. apply bytes_at_app in Hs as [_ Hs]. rewrite length_take_le in Hs by lia.
      rewrite <- (take_drop (j - i) (drop i s)) in Hs. by apply bytes_at_app in Hs as [Hs _].
  - intros Hlt. unfold ref_iterators, cbegin. rewrite (bytes_at_lookup _ _ _ _ Hs) by lia.
    destruct (lookup_lt_is_Some_2 s i) as [c ->]; [lia|done].
Qed.

(** C40. On references whose bytes are in memory, [StringRef] behaves as a string: equality
    is equality of the bytes, against a reference, a [std::string] and a C string;
    the order is the lexicographical one by signed bytes; the hash is FNV-1a; [str], [<<]
    and [+=] copy the bytes, indexing gives each of them and the reverse iterators give
    them backwards.  No operation reads outside the bytes and the terminator of a C
    string. *)
Theorem string_ref_refines (a b : StringRef) (s t u : str) (p : Z)
    (Ha : refers m a s) (Hb : refers m b t) (Hu : cstr_at m p u) :
  equal_ref m a b = Some (bool_decide (s = t)) /\ not_equal_ref m a b = Some (bool_decide (s <> t))
  /\ equal_cstr m a p = Some (bool_decide (s = u)) /\ not_equal_cstr m a p = Some (bool_decide (s <> u))
  /\ less_ref m a b = Some (template.string_ref_lt s t)
  /\ hash_ref m a = Some (template.fnv1a s)
  /\ to_string m a = Some s /\ reversed m a = Some (rev s)
  /\ put_ref m t a = Some (t ++ s) /\ append_ref m t a = Some (t ++ s)
  /\ empty_ a = bool_decide (s = []) /\ (forall i, (i < length s)%nat -> index m a (Z.of_nat i) = s !! i).
Proof.
  assert (equal_ref m a b = Some (bool_decide (s = t))) as E1.
  { unfold equal_ref. destruct Hb as [Hlb Hb]. unfold size_ at 2. rewrite Hlb, (equal_sized m a (cbegin b) s t) by done. by rewrite template.string_ref_eq_spec. }
  assert (equal_cstr m a p = Some (bool_decide (s = u))) as E2.
  { unfold equal_cstr. rewrite (strlen_spec _ _ _ Hu). cbn [mbind option_bind]. rewrite (equal_sized m a p s u) by (done || apply (proj1 (bytes_at_app m p u [chr 0]) (proj1 Hu))).
    by rewrite template.string_ref_eq_spec. }
  pose proof (refers_turns _ _ _ Ha) as Hta. pose proof (refers_turns _ _ _ Hb) as Htb. destruct Ha as [Hla Ha], Hb as [Hlb Hb].
  assert (copy_n (Z.to_nat (len a)) m (base a) = Some s) as Ec by (rewrite Hla, Nat2Z.id; by apply copy_n_spec).
  split; [done|]. split; [unfold not_equal_ref; rewrite E1; cbn; by rewrite bool_decide_not|].
  split; [done|]. split; [unfold not_equal_cstr; rewrite E2; cbn; by rewrite bool_decide_not|].
  split; [unfold less_ref; rewrite Hta, Htb; by apply less_n_spec|].
  split; [unfold hash_ref; rewrite Hta, <- template.hash_is_fnv1a; by apply hash_n_spec|].
  split; [done|]. split.
  { unfold reversed, turns, rend, rbegin. rewrite Hla. replace (Z.to_nat _) with (length s) by lia. by apply copy_back_n_spec. }
  split; [unfold put_ref, size_, c_str; by rewrite Ec|]. split; [unfold append_ref, size_, c_str; by rewrite Ec|].
  split; [|intros i Hi; by apply bytes_at_lookup]. unfold empty_. rewrite Hla. by destruct s.
Qed.

End refinement.

(** ** Witnesses *)

(** ["ab"] at 100, with its terminator, and ["b"] at 200. *)
Definition demo_memory : memory := {[ 100 := chr 97; 101 := chr 98; 102 := chr 0; 200 := chr 98 ]}.

Lemma string_ref_constructors_witness :
  exists r q, refers demo_memory r [chr 97; chr 98] /\ ref_pointers (cbegin r + 1) (cbegin r + 2) = q /\ refers demo_memory q [chr 98].
Proof.
  exists (mk_ref 100 2), (mk_ref 101 1).
  assert (refers demo_memory (mk_ref 100 2) [chr 97; chr 98]) as Hr by (vm_compute; repeat split).
  split; [exact Hr|]. split; [reflexivity|].
  destruct (string_ref_constructors demo_memory 100 0 [chr 97; chr 98] (mk_ref 100 2) 1 2 ltac:(vm_compute; reflexivity) Hr ltac:(cbn; lia))
    as (_ & _ & _ & _ & _ & H & _).
  exact H.
Defined.

Lemma string_ref_refines_witness :
  equal_ref demo_memory (mk_ref 101 1) (mk_ref 200 1) = Some true /\ equal_cstr demo_memory (mk_ref 200 1) 100 = Some false
  /\ less_ref demo_memory (mk_ref 200 1) (mk_ref 101 1) = Some false /\ reversed demo_memory (mk_ref 101 1) = Some [chr 98].
Proof.
  assert (H1 : refers demo_memory (mk_ref 101 1) [chr 98]) by (vm_compute; repeat split).
  assert (H2 : refers demo_memory (mk_ref 200 1) [chr 98]) by (vm_compute; repeat split).
  assert (H3 : cstr_at demo_memory 100 [chr 97; chr 98]) by (split; [vm_compute; repeat split|repeat constructor; vm_compute; discriminate]).
  destruct (string_ref_refines demo_memory (mk_ref 101 1) (mk_ref 200 1) _ _ _ 100 H1 H2 H3) as (E1 & _ & _ & _ & _ & _ & _ & E4 & _).
  destruct (string_ref_refines demo_memory (mk_ref 200 1) (mk_ref 101 1) _ _ _ 100 H2 H1 H3) as (_ & _ & E2 & _ & E3 & _).
  split; [exact E1|]. split; [exact E2|]. split; [exact E3|exact E4].
Defined.

End string_refs.
