(* ===== verification/ServeMux.v ===== *)
(** * The request router: lib/asio_server_serve_mux.cc and
    lib/asio_server_request_handler.cc

    [serve_mux] maps patterns to request handlers.  Its [std::map] is an
    association list in key order; a handler is one the application registered,
    or one of the two the server makes itself. *)

From S2P Require Import Prelude Util PathJoin Http2 Common.

Module serve_mux.
Import common.

(** ** Handlers *)

(** A non-empty [request_cb]: the application's, by a number that identifies it,
    [redirect_handler(status, uri)] or [status_handler(status)]. *)
Inductive request_cb :=
  | cb_user (id : nat)
  | cb_redirect (status : Z) (uri : str)
  | cb_status (status : Z).

#[export] Instance request_cb_eq_dec : EqDecision request_cb.
Proof. solve_decision. Defined.

(** The calls a handler makes on its [response]. *)
Inductive response_call :=
  | write_head (status : Z) (h : header_map)
  | end_data (data : str).

(** [None] when [stringify_status] would write outside its buffer. *)
Definition create_html (status_code : Z) : option str :=
  status_string ← http2.stringify_status status_code;
  let reason_phrase := http2.get_reason_phrase status_code in
  Some (lit "<!DOCTYPE html><html lang=" ++ [chr 34] ++ lit "en" ++ [chr 34]
        ++ lit "><title>" ++ status_string ++ [" "%char] ++ reason_phrase
        ++ lit "</title><body><h1>" ++ status_string ++ [" "%char] ++ reason_phrase
        ++ lit "</h1></body></html>").

(** [util::utos] of a size. *)
Definition size_value (s : str) : header_value :=
  {| value := util.utos (Z.of_nat (length s)); sensitive := false |}.

Definition redirect_handler (status_code : Z) (uri method : str) : option (list response_call) :=
  let h := emplace [] (lit "location") {| value := uri; sensitive := false |} in
  html ← (if method =s lit "GET" then create_html status_code else Some []);
  let h := emplace h (lit "content-length") (size_value html) in
  Some [write_head status_code h; end_data html].

Definition status_handler (status_code : Z) : option (list response_call) :=
  if negb (http2.expect_response_body status_code)
  then Some [write_head status_code []; end_data []]
  else
    html ← create_html status_code;
    let h := emplace [] (lit "content-length") (size_value html) in
    let h := emplace h (lit "content-type") {| value := lit "text/html; charset=utf-8"; sensitive := false |} in
    Some [write_head status_code h; end_data html].

(** ** The map of patterns *)

Record handler_entry := mk_entry { user_defined : bool; cb : request_cb; pattern : str }.

Definition mux := list (str * handler_entry).

Fixpoint mux_find (m : mux) (k : str) : option handler_entry :=
  match m with
  | [] => None
  | (k', e) :: m => if k' =s k then Some e else mux_find m k
  end.

(** [std::map::emplace]: in key order; a key that is present keeps its entry. *)
Fixpoint mux_emplace (m : mux) (k : str) (e : handler_entry) : mux :=
  match m with
  | [] => [(k, e)]
  | (k', e') :: m' =>
    if k' =s k then m
    else if str_ltb k k' then (k, e) :: m
    else (k', e') :: mux_emplace m' k e
  end.

(** [( *it).second = e] for the entry of a key that is present. *)
Fixpoint mux_assign (m : mux) (k : str) (e : handler_entry) : mux :=
  match m with
  | [] => []
  | (k', e') :: m' => if k' =s k then (k', e) :: m' else (k', e') :: mux_assign m' k e
  end.

(** [pattern.substr(pattern.find('/'))], for a pattern that has a ['/'];
    [pattern] itself when it starts with one. *)
Definition redirect_path (p : str) : str :=
  match p with
  | c :: _ => if c =c "/"%char then p else (find_char "/" p).2
  | [] => []
  end.

(** The implicit redirect for a pattern that ends with ['/']. *)
Definition add_redirect (m : mux) (p : str) : mux :=
  if (2 <=? length p)%nat && (last p =s Some "/"%char) then
    let redirect_pattern := take (length p - 1) p in
    let e := {| user_defined := false; cb := cb_redirect 301 (redirect_path p); pattern := p |} in
    match mux_find m redirect_pattern with
    | None => mux_emplace m redirect_pattern e
    | Some it => if user_defined it then m else mux_assign m redirect_pattern e
    end
  else m.

(** [serve_mux::handle]; [None] is an empty [request_cb]. *)
Definition handle (m : mux) (p : str) (c : option request_cb) : bool * mux :=
  match c with
  | None => (false, m)
  | Some c =>
    if (length p =? 0)%nat then (false, m)
    else if match mux_find m p with Some it => user_defined it | None => false end then (false, m)
    else
      let m := add_redirect m p in
      (true, mux_emplace m p {| user_defined := true; cb := c; pattern := p |})
  end.

(** [path_match]; [None] is [back()] of an empty string. *)
Definition path_match (p path : str) : option bool :=
  match last p with
  | None => None
  | Some c => Some (if negb (c =c "/"%char) then p =s path else util.starts_with path p)
  end.

(** The loop of [serve_mux::match]; [ent] with its [best]. *)
Fixpoint match_loop (m : mux) (path : str) (ent : option handler_entry) (best : nat)
    : option (option handler_entry) :=
  match m with
  | [] => Some ent
  | (p, e) :: m =>
    b ← path_match p path;
    if (b : bool) then
      if match ent with None => true | Some _ => (best <? length p)%nat end
      then match_loop m path (Some e) (length p)
      else match_loop m path ent best
    else match_loop m path ent best
  end.

Definition match_ (m : mux) (path : str) : option (option request_cb) :=
  ent ← match_loop m path None 0;
  Some (match ent with Some e => Some (cb e) | None => None end).

(** The part of a request the router reads. *)
Record request := mk_request { method : str; uri : uri_ref }.

(** [serve_mux::handler]; [None] when [path_join] would leave its buffer or
    [path_match] reads an empty pattern. *)
Definition handler (m : mux) (req : request) : option request_cb :=
  let path := common.path (uri req) in
  let route :=
    c ← match_ m (host (uri req) ++ path);
    match c with
    | Some c => Some c
    | None =>
      c ← match_ m path;
      Some (match c with Some c => c | None => cb_status 404 end)
    end in
  if negb (method req =s lit "CONNECT") then
    clean_path ← http2_path.path_join [] [] path [];
    if negb (clean_path =s path) then
      let new_uri := util.percent_encode_path clean_path in
      let q := raw_query (uri req) in
      Some (cb_redirect 301 (if negb (length q =? 0)%nat then new_uri ++ ["?"%char] ++ q else new_uri))
    else route
  else route.

(** ** The map *)

Definition key_lt (p q : str * handler_entry) : Prop := str_ltb p.1 q.1 = true.

Definition sorted_mux (m : mux) : Prop := StronglySorted key_lt m.

Lemma mux_find_elem m k e : mux_find m k = Some e -> (k, e) ∈ m.
Proof.
  induction m as [|[k' e'] m IH]; cbn; [done|]. case_if; subst.
  - intros [= ->]. by left.
  - intros H. right. auto.
Qed.

Lemma elem_mux_find m k e : sorted_mux m -> (k, e) ∈ m -> mux_find m k = Some e.
Proof.
  induction 1 as [|[k' e'] m Hs IH Hf]; [by intros ?%elem_of_nil|]. rewrite elem_of_cons. cbn.
  intros [[= <- <-]|He]; [by rewrite bool_decide_eq_true_2|].
  rewrite bool_decide_eq_false_2; [auto|]. intros ->. rewrite Forall_forall in Hf.
  specialize (Hf _ He). unfold key_lt in Hf. cbn in Hf. by rewrite str_ltb_irrefl in Hf.
Qed.

Lemma mux_find_above m k k0 e0 :
  Forall (key_lt (k0, e0)) m -> str_ltb k k0 = true -> mux_find m k = None.
Proof.
  intros Hf Hk. destruct (mux_find m k) as [e|] eqn:E; [|done]. apply mux_find_elem in E.
  rewrite Forall_forall in Hf. specialize (Hf _ E). unfold key_lt in Hf. cbn in Hf.
  pose proof (str_ltb_trans _ _ _ Hk Hf) as Hc. by rewrite str_ltb_irrefl in Hc.
Qed.

Lemma mux_find_emplace m k e k' :
  sorted_mux m ->
  mux_find (mux_emplace m k e) k'
  = if decide (k' = k) then Some (default e (mux_find m k)) else mux_find m k'.
Proof.
  induction 1 as [|[k0 e0] m Hs IH Hf]; cbn [mux_emplace].
  - cbn. case_decide; case_if; subst; done.
  - case_if; [subst k0; cbn; case_decide; subst; [by rewrite bool_decide_eq_true_2|done]|].
    destruct (str_ltb k k0) eqn:E1; cbn [mux_find].
    + case_decide; subst.
      * rewrite bool_decide_eq_true_2 by done. rewrite bool_decide_eq_false_2 by done.
        by rewrite (mux_find_above m k k0 e0).
      * by rewrite bool_decide_eq_false_2 by done.
    + rewrite IH. case_decide; subst; [|done]. by rewrite !bool_decide_eq_false_2 by done.
Qed.

Lemma mux_emplace_elem m k e x : x ∈ mux_emplace m k e -> x = (k, e) \/ x ∈ m.
Proof.
  induction m as [|[k0 e0] m IH]; cbn; [rewrite elem_of_cons; tauto|].
  repeat case_if; rewrite ?elem_of_cons; tauto.
Qed.

Lemma mux_emplace_sorted m k e : sorted_mux m -> sorted_mux (mux_emplace m k e).
Proof.
  induction 1 as [|[k0 e0] m Hs IH Hf]; cbn [mux_emplace]; [by repeat constructor|].
  case_if; [by constructor|]. destruct (str_ltb k k0) eqn:E1.
  - constructor; [by constructor|]. constructor; [done|]. eapply Forall_impl; [done|].
    intros p Hp. by eapply str_ltb_trans.
  - constructor; [done|]. apply Forall_forall. rewrite Forall_forall in Hf.
    intros x [->|Hx]%mux_emplace_elem; [|auto]. unfold key_lt. cbn.
    destruct (str_ltb k0 k) eqn:E2; [done|]. by rewrite (str_ltb_total _ _ E2 E1) in E.
Qed.

Lemma mux_find_assign m k e k' :
  mux_find (mux_assign m k e) k'
  = if decide (k' = k) then match mux_find m k with Some _ => Some e | None => None end
    else mux_find m k'.
Proof.
  induction m as [|[k0 e0] m IH]; cbn; [by case_decide|].
  case_if; subst; cbn.
  - case_decide; subst; [by rewrite bool_decide_eq_true_2|by rewrite !bool_decide_eq_false_2 by done].
  - rewrite IH. case_decide; subst; [|done]. by rewrite !bool_decide_eq_false_2 by done.
Qed.

Lemma mux_assign_keys m k e : (mux_assign m k e).*1 = m.*1.
Proof. induction m as [|[k0 e0] m IH]; cbn; [done|]. case_if; cbn; congruence. Qed.

Lemma sorted_mux_keys m m' : m.*1 = m'.*1 -> sorted_mux m -> sorted_mux m'.
Proof.
  intros E Hs. revert m' E. induction Hs as [|[k e] m Hs IH Hf]; intros [|[k' e'] m'] E; try done.
  { constructor. }
  injection E as <- E. change (m.*1 = m'.*1) in E. constructor; [by apply IH|]. apply Forall_forall. intros [k2 e2] H2. unfold key_lt. cbn.
  assert (k2 ∈ m'.*1) as H3 by (apply list_elem_of_fmap; by exists (k2, e2)).
  rewrite <- E in H3. apply list_elem_of_fmap in H3 as ([k3 e3] & -> & H3). cbn.
  rewrite Forall_forall in Hf. apply (Hf _ H3).
Qed.

(** ** Registration *)

(** The registrations made so far. *)
Definition registered (regs : list (str * option request_cb)) : mux :=
  fold_left (fun m r => (handle m r.1 r.2).2) regs [].

(** Sorted distinct keys; a user's entry under its own pattern; an implicit
    entry [k] redirects to the pattern [k/] it was made for. *)
Definition entry_ok (k : str) (e : handler_entry) : Prop :=
  k <> []
  /\ if user_defined e then pattern e = k
     else pattern e = k ++ ["/"%char] /\ cb e = cb_redirect 301 (redirect_path (pattern e)).

Definition mux_ok (m : mux) : Prop :=
  sorted_mux m /\ forall k e, mux_find m k = Some e -> entry_ok k e.

(** The pattern whose implicit redirect a registration adds. *)
Lemma slash_pattern p :
  (2 <=? length p)%nat && (last p =s Some "/"%char) = true ->
  exists k, k <> [] /\ p = k ++ ["/"%char] /\ take (length p - 1) p = k.
Proof.
  intros H. apply andb_true_iff in H as [H1%Nat.leb_le H2%bool_decide_eq_true].
  apply last_Some in H2 as [k ->]. exists k. rewrite length_app in *. cbn in H1.
  split; [by destruct k; cbn in *; [lia|]|]. split; [done|]. cbn. rewrite Nat.add_sub. apply take_app_length.
Qed.

Lemma add_redirect_find m p k :
  sorted_mux m ->
  sorted_mux (add_redirect m p)
  /\ (mux_find (add_redirect m p) k = mux_find m k
      \/ (p = k ++ ["/"%char] /\ k <> []
          /\ match mux_find m k with Some it => user_defined it = false | None => True end
          /\ mux_find (add_redirect m p) k
             = Some {| user_defined := false; cb := cb_redirect 301 (redirect_path p); pattern := p |})).
Proof.
  intros Hs. unfold add_redirect.
  destruct ((2 <=? length p)%nat && (last p =s Some "/"%char)) eqn:E; [|auto].
  apply slash_pattern in E as (k0 & Hne & Hp & ->).
  destruct (mux_find m k0) as [it|] eqn:Ef; [destruct (user_defined it) eqn:Eu; [auto|]|].
  - split; [eapply sorted_mux_keys; [symmetry; apply mux_assign_keys|done]|].
    rewrite mux_find_assign. case_decide as Ek; [|auto]. subst k. right. rewrite Ef. done.
  - split; [by apply mux_emplace_sorted|].
    rewrite mux_find_emplace by done. case_decide as Ek; [|auto]. subst k. right. rewrite Ef. done.
Qed.

Lemma add_redirect_same m p : sorted_mux m -> mux_find (add_redirect m p) p = mux_find m p.
Proof.
  intros Hs. destruct (add_redirect_find m p p Hs) as [_ [H|(H & _)]]; [done|].
  apply (f_equal length) in H. rewrite length_app in H. cbn in H. lia.
Qed.

Lemma handle_ok m p c : mux_ok m -> mux_ok (handle m p c).2.
Proof.
  intros [Hs Hm]. unfold handle. destruct c as [c|]; [|done].
  destruct (length p =? 0)%nat eqn:El; [done|]. apply Nat.eqb_neq in El.
  destruct (match mux_find m p with Some it => user_defined it | None => false end); [done|]. cbn [snd].
  pose proof (proj1 (add_redirect_find m p p Hs)) as Hs'. split; [by apply mux_emplace_sorted|].
  assert (forall k e, mux_find (add_redirect m p) k = Some e -> entry_ok k e) as Hr.
  { intros k e He. destruct (add_redirect_find m p k Hs) as [_ [H|(Hp & Hne & _ & H)]].
    - apply Hm. congruence.
    - rewrite H in He. injection He as <-. split; [done|]. cbn. done. }
  intros k e. rewrite mux_find_emplace by done. case_decide as Ek; [|apply Hr]. subst k.
  destruct (mux_find (add_redirect m p) p) as [e'|] eqn:Ep; intros [= <-]; [by apply Hr|].
  split; [by intros ->|]. done.
Qed.

Lemma registered_ok regs : mux_ok (registered regs).
Proof.
  unfold registered. assert (mux_ok []) as H by (split; [constructor|done]).
  revert H. generalize (@nil (str * handler_entry)). induction regs as [|[p c] regs IH]; intros m H; [done|].
  cbn. apply IH. by apply handle_ok.
Qed.

(** Registering a handler: [handle] succeeds exactly for a non-empty pattern
    and callback when the pattern has no handler of the user's; then, if the
    pattern had no entry at all, the callback is found under it.  Every other
    entry is kept, except that a pattern ending in ['/'] adds or renews the
    redirect of the pattern without the slash, never over a user's handler.  A
    failed registration changes nothing. *)
Theorem handle_spec (regs : list (str * option request_cb)) (p : str) (c : option request_cb) :
  let m := registered regs in
  let '(ok, m') := handle m p c in
  (ok = true <-> p <> [] /\ c <> None /\ forall e, mux_find m p = Some e -> user_defined e = false)
  /\ (ok = false -> m' = m)
  /\ (ok = true -> mux_find m p = None ->
      exists c', c = Some c' /\ mux_find m' p = Some {| user_defined := true; cb := c'; pattern := p |})
  /\ (forall k, k <> p -> mux_find m' k <> mux_find m k ->
      p = k ++ ["/"%char]
      /\ (forall e, mux_find m k = Some e -> user_defined e = false)
      /\ mux_find m' k
         = Some {| user_defined := false; cb := cb_redirect 301 (redirect_path p); pattern := p |}).
Proof.
  cbv zeta. destruct (registered_ok regs) as [Hs Hm]. set (m := registered regs) in *. unfold handle.
  destruct c as [c|]; [|by repeat split; intros; destruct_and?].
  destruct (length p =? 0)%nat eqn:El.
  { apply Nat.eqb_eq, nil_length_inv in El as ->. repeat split; intros; destruct_and?; done. }
  apply Nat.eqb_neq in El. assert (p <> []) as Hne by (by intros ->).
  destruct (mux_find m p) as [it|] eqn:Ef; [destruct (user_defined it) eqn:Eu|].
  { split; [split; [done|]; intros (_ & _ & H); by rewrite (H it eq_refl) in Eu|]. repeat split; intros; done. }
  all: split; [split; [intros _; repeat split; [done|done|by intros e [= <-]]|done]|];
    split; [done|]; split; [try done|intros k Hk].
  2:{ intros _ _. exists c. split; [done|]. rewrite mux_find_emplace by (by apply add_redirect_find).
      rewrite decide_True by done. by rewrite add_redirect_same, Ef by done. }
  all: rewrite mux_find_emplace by (by apply add_redirect_find); rewrite decide_False by done; intros Hd;
    destruct (add_redirect_find m p k Hs) as [_ [H|(Hp & _ & Hu & H)]]; [done|];
    split; [done|]; split; [|done]; intros e He; by rewrite He in Hu.
Qed.

(** An explicit registration is lost when an implicit redirect holds its
    pattern: for every path [k] and all callbacks, registering [k/] and then [k]
    succeeds twice, but the entry of [k] is still the redirect to [k/], because
    [emplace] keeps the entry that is there; in the other order the user's
    handler for [k] is kept. *)
Theorem handle_after_redirect_lost (k : str) (a b : request_cb) (Hk : k <> []) (Hs : last k <> Some "/"%char) :
  let p := k ++ ["/"%char] in
  let m := (handle [] p (Some a)).2 in
  (handle [] p (Some a)).1 = true
  /\ (handle m k (Some b)).1 = true
  /\ mux_find (handle m k (Some b)).2 k
     = Some {| user_defined := false; cb := cb_redirect 301 (redirect_path p); pattern := p |}
  /\ mux_find (registered [(k, Some b); (p, Some a)]) k
     = Some {| user_defined := true; cb := b; pattern := k |}.
Proof.
  cbv zeta. set (p := k ++ ["/"%char]).
  assert (add_redirect [] p
          = [(k, {| user_defined := false; cb := cb_redirect 301 (redirect_path p); pattern := p |})]) as Ep.
  { unfold add_redirect. destruct (_ && _) eqn:E.
    - apply slash_pattern in E as (k0 & _ & H & ->). apply app_inj_2 in H as [<- _]; done.
    - exfalso. apply andb_false_iff in E as [E%Nat.leb_gt|E%bool_decide_eq_false].
      + subst p. rewrite length_app in E. cbn in E. destruct k; [done|cbn in E; lia].
      + apply E. subst p. apply last_snoc. }
  assert (forall m, add_redirect m k = m) as Ek.
  { intros m. unfold add_redirect. by rewrite bool_decide_eq_false_2, andb_false_r. }
  assert (k <> p) as Hkp.
  { subst p. intros H. apply (f_equal length) in H. rewrite length_app in H. cbn in H. lia. }
  assert ((length p =? 0)%nat = false) as Lp by (subst p; rewrite length_app; cbn; by rewrite Nat.add_comm).
  assert ((length k =? 0)%nat = false) as Lk by (by destruct k).
  set (m := (handle [] p (Some a)).2).
  assert (m = mux_emplace (add_redirect [] p) p {| user_defined := true; cb := a; pattern := p |}) as Em.
  { subst m. cbn. by rewrite Lp. }
  assert (sorted_mux (add_redirect [] p)) as Hsp by (rewrite Ep; by repeat constructor).
  assert (mux_find m k = Some {| user_defined := false; cb := cb_redirect 301 (redirect_path p); pattern := p |}) as Ef.
  { rewrite Em, mux_find_emplace, decide_False by done. rewrite Ep. cbn. by rewrite bool_decide_eq_true_2. }
  split; [cbn; by rewrite Lp|]. cbn [handle]. rewrite Lk, Ef. cbn [fst snd user_defined]. rewrite Ek.
  split; [done|]. split.
  - rewrite mux_find_emplace, decide_True, Ef; [done|done|]. rewrite Em. by apply mux_emplace_sorted.
  - unfold registered. cbn [fold_left fst snd handle mux_find]. rewrite Lk, Lp, Ek. cbn [mux_emplace snd].
    set (m2 := [_]). assert (sorted_mux m2) as Hs2 by (by repeat constructor).
    assert (mux_find m2 p = None) as E2 by (cbn; by rewrite bool_decide_eq_false_2).
    rewrite E2. cbn [snd]. rewrite mux_find_emplace by (by apply add_redirect_find).
    rewrite decide_False by done. destruct (add_redirect_find m2 p k Hs2) as [_ [H|(_ & _ & H & _)]].
    + rewrite H. cbn. by rewrite bool_decide_eq_true_2.
    + cbn in H. by rewrite bool_decide_eq_true_2 in H.
Qed.

Lemma handle_after_redirect_lost_witness :
  let m := registered [(lit "/foo/", Some (cb_user 1)); (lit "/foo", Some (cb_user 2))] in
  mux_find m (lit "/foo")
  = Some {| user_defined := false; cb := cb_redirect 301 (lit "/foo/"); pattern := lit "/foo/" |}.
Proof.
  destruct (handle_after_redirect_lost (lit "/foo") (cb_user 1) (cb_user 2) ltac:(done) ltac:(done))
    as (_ & _ & H & _). exact H.
Defined.

(** ** Matching *)

(** A pattern matches the path it is equal to, and, when it ends with ['/'],
    every path below it. *)
Definition matches (p path : str) : Prop := p = path \/ (last p = Some "/"%char /\ p `prefix_of` path).

Lemma path_match_spec p path :
  p <> [] -> exists b, path_match p path = Some b /\ (b = true <-> matches p path).
Proof.
  intros Hp. unfold path_match, matches. destruct (last p) as [c|] eqn:E.
  2:{ by apply last_None in E. }
  eexists. split; [done|]. destruct (bool_decide_reflect (c = "/"%char)) as [->|Hc]; cbn [negb].
  - rewrite util.starts_with_spec. split; [intros [r ->]; right; split; [done|by exists r]|].
    intros [<-|[_ [r ->]]]; [exists []; by rewrite app_nil_r|by exists r].
  - rewrite bool_decide_eq_true. split; [by left|]. intros [?|[H _]]; [done|congruence].
Qed.

(** The entry under [k] is the longest match of [path]. *)
Definition longest_match (m : mux) (path k : str) : Prop :=
  matches k path /\ forall k' e', (k', e') ∈ m -> matches k' path -> (length k' <= length k)%nat.

Lemma match_loop_spec m path ent best :
  Forall (fun p => p.1 <> []) m ->
  exists r, match_loop m path ent best = Some r
    /\ ((r = ent /\ forall k e, (k, e) ∈ m -> matches k path -> ent <> None /\ (length k <= best)%nat)
        \/ exists k e, r = Some e /\ (k, e) ∈ m /\ longest_match m path k
                       /\ (ent = None \/ (best < length k)%nat)).
Proof.
  intros Hm. revert ent best. induction Hm as [|[p e] m Hp Hm IH]; intros ent best.
  { exists ent. split; [done|]. left. split; [done|]. by intros ? ? ?%elem_of_nil. }
  cbn [match_loop]. destruct (path_match_spec p path Hp) as (b & -> & Hb).
  change (mbind ?f (Some ?x)) with (f x). cbv beta.
  assert (b = false \/ b = true) as [-> | ->] by (destruct b; auto).
  { destruct (IH ent best) as (r & Er & Hr). exists r. split; [done|].
    assert (~ matches p path) as Hn by (intros ?%Hb; done).
    destruct Hr as [[-> Hr]|(k & e' & -> & Hk & [Hmt Hl] & Hbest)]; [left|right].
    - split; [done|]. intros k e0 [[= -> ->]|Hin]%elem_of_cons; [done|]. eauto.
    - exists k, e'. split; [done|]. split; [by right|]. split; [|done]. split; [done|].
      intros k' e0 [[= -> ->]|Hin]%elem_of_cons; [done|]. eauto. }
  assert (matches p path) as Hmp by (by apply Hb).
  destruct (match ent with None => true | Some _ => (best <? length p)%nat end) eqn:Eb.
  - destruct (IH (Some e) (length p)) as (r & Er & Hr). exists r. split; [done|]. right.
    assert (ent = None \/ (best < length p)%nat) as Hbest.
    { destruct ent; [right; by apply Nat.ltb_lt|by left]. }
    destruct Hr as [[-> Hr]|(k & e' & -> & Hk & [Hmt Hl] & Hor)]; [|destruct Hor as [?|Hlt]; [done|]].
    + exists p, e. split; [done|]. split; [by left|]. split; [|done]. split; [done|].
      intros k' e0 [[= -> ->]|Hin]%elem_of_cons; [done|]. intros Hk'. by eapply Hr.
    + exists k, e'. split; [done|]. split; [by right|]. split; [|destruct Hbest; [by left|right; lia]].
      split; [done|]. intros k' e0 [[= -> ->]|Hin]%elem_of_cons; [lia|]. eauto.
  - destruct (IH ent best) as (r & Er & Hr). exists r. split; [done|].
    destruct ent as [ent|]; [|done]. apply Nat.ltb_ge in Eb.
    destruct Hr as [[-> Hr]|(k & e' & -> & Hk & [Hmt Hl] & [?|Hlt])]; [left|done|right].
    + split; [done|]. intros k e0 [[= -> ->]|Hin]%elem_of_cons; [done|]. eauto.
    + exists k, e'. split; [done|]. split; [by right|]. split; [|by right]. split; [done|].
      intros k' e0 [[= -> ->]|Hin]%elem_of_cons; [lia|]. eauto.
Qed.

(** What [match_] returns for [path]: the callback of the longest matching
    pattern, or nothing when no pattern matches. *)
Definition match_result (m : mux) (path : str) (r : option request_cb) : Prop :=
  match r with
  | Some c => exists k e, mux_find m k = Some e /\ c = cb e /\ longest_match m path k
  | None => forall k e, mux_find m k = Some e -> ~ matches k path
  end.

Lemma match_spec m path : mux_ok m -> exists r, match_ m path = Some r /\ match_result m path r.
Proof.
  intros [Hs Hm].
  destruct (match_loop_spec m path None 0) as (r & Er & Hr).
  { apply Forall_forall. intros [k e] Hk. apply (elem_mux_find _ _ _ Hs), Hm in Hk. apply Hk. }
  unfold match_. rewrite Er. eexists. split; [done|].
  destruct Hr as [[-> Hr]|(k & e & -> & Hk & Hl & _)].
  - intros k e He%mux_find_elem Hmt. by destruct (Hr _ _ He Hmt) as [? _].
  - exists k, e. split; [by apply elem_mux_find|]. done.
Qed.

(** A pattern that matches is unique for its length. *)
Lemma matches_prefix k path : matches k path -> k `prefix_of` path.
Proof. intros [->|[_ ?]]; done. Qed.

Lemma longest_match_unique m path k k' e e' :
  longest_match m path k -> longest_match m path k' -> (k, e) ∈ m -> (k', e') ∈ m -> k = k'.
Proof.
  intros [H1 H2] [H1' H2'] He He'. specialize (H2 _ _ He' H1'). specialize (H2' _ _ He H1).
  apply matches_prefix in H1 as [r E], H1' as [r' E']. rewrite E in E'.
  apply app_inj_1 in E'; [by destruct E'|lia].
Qed.

(** Longest match, for every sequence of registrations: [match] never reads
    an empty pattern; it returns the callback registered under the longest
    pattern that matches the path, which is the only one of its length, and
    nothing exactly when no pattern matches. *)
Theorem match_longest (regs : list (str * option request_cb)) (path : str) :
  let m := registered regs in
  exists r, match_ m path = Some r /\ match_result m path r
    /\ forall k k' e e', mux_find m k = Some e -> mux_find m k' = Some e' ->
         longest_match m path k -> longest_match m path k' -> k = k'.
Proof.
  intros m. destruct (match_spec m path (registered_ok regs)) as (r & Er & Hr).
  exists r. split; [done|]. split; [done|].
  intros k k' e e' He%mux_find_elem He'%mux_find_elem Hl Hl'. by eapply longest_match_unique.
Qed.

(** C28. Routing of a request whose path is clean (or of a CONNECT request): a
    pattern that matches the host with the path takes precedence over any
    pattern that matches the path alone; among either kind the longest is taken;
    when none matches the answer is a 404. *)
Theorem handler_routes (regs : list (str * option request_cb)) (req : request)
    (Hclean : method req = lit "CONNECT" \/ http2_path.path_join [] [] (path (uri req)) [] = Some (path (uri req))) :
  let m := registered regs in
  exists c, handler m req = Some c
    /\ (match_result m (host (uri req) ++ path (uri req)) (Some c)
        \/ (match_result m (host (uri req) ++ path (uri req)) None
            /\ (match_result m (path (uri req)) (Some c)
                \/ (match_result m (path (uri req)) None /\ c = cb_status 404)))).
Proof.
  intros m. pose proof (registered_ok regs : mux_ok m) as Hm.
  destruct (match_spec m (host (uri req) ++ path (uri req)) Hm) as (r1 & E1 & H1).
  destruct (match_spec m (path (uri req)) Hm) as (r2 & E2 & H2).
  assert (handler m req = Some (match r1 with Some c => c | None => match r2 with Some c => c | None => cb_status 404 end end)) as E.
  { unfold handler. rewrite E1, E2. cbn [mbind option_bind].
    destruct (bool_decide_reflect (method req = lit "CONNECT")) as [Hc|Hc]; cbn [negb]; [by destruct r1|].
    destruct Hclean as [?|Hclean]; [done|]. rewrite Hclean. cbn [mbind option_bind].
    rewrite bool_decide_eq_true_2 by done. by destruct r1. }
  eexists. split; [exact E|]. destruct r1 as [c|]; [by left|]. right. split; [done|].
  destruct r2 as [c|]; [by left|by right].
Qed.

Lemma handler_routes_witness :
  let regs := [(lit "/", Some (cb_user 1)); (lit "a.org/img/", Some (cb_user 2))] in
  let req := {| method := lit "GET"; uri := split_path {| scheme := []; host := lit "a.org"; path := [];
                  raw_path := []; raw_query := []; fragment := [] |} (lit "/img/x.png") |} in
  handler (registered regs) req = Some (cb_user 2)
  /\ exists c, handler (registered regs) req = Some c
       /\ match_result (registered regs) (lit "a.org/img/x.png") (Some c).
Proof.
  intros regs req. split; [vm_compute; reflexivity|].
  destruct (handler_routes regs req) as (c & Hc & H); [right; vm_compute; reflexivity|].
  exists c. split; [exact Hc|]. destruct H as [H|[H _]]; [exact H|].
  exfalso. apply (H (lit "a.org/img/") {| user_defined := true; cb := cb_user 2; pattern := lit "a.org/img/" |}).
  - vm_compute; reflexivity.
  - right. split; [reflexivity|]. exists (lit "x.png"). reflexivity.
Defined.

(** ** Cleaning redirects *)

(** The location of the redirect to a cleaned path. *)
Definition location (req : request) (c : str) : str :=
  let q := raw_query (uri req) in
  if negb (length q =? 0)%nat then util.percent_encode_path c ++ ["?"%char] ++ q
  else util.percent_encode_path c.

(** The request a client makes to the location, on the same host. *)
Definition follow (req : request) (loc : str) : request :=
  {| method := method req; uri := split_path (uri req) loc |}.

Lemma encode_no_query c : ~ ("?"%char ∈ util.percent_encode_path c).
Proof.
  intros H. pose proof (util.percent_encode_alphabet c) as Ha. rewrite Forall_forall in Ha.
  specialize (Ha _ H). by vm_compute in Ha.
Qed.

Lemma find_char_none c s : ~ (c ∈ s) -> find_char c s = (s, []).
Proof.
  induction s as [|d s IH]; intros H; [done|]. cbn. rewrite elem_of_cons in H.
  rewrite bool_decide_eq_false_2 by (intros ->; tauto). rewrite IH by tauto. done.
Qed.

Lemma follow_location req c :
  let r := follow req (location req c) in
  path (uri r) = c /\ raw_query (uri r) = raw_query (uri req) /\ host (uri r) = host (uri req)
  /\ method r = method req.
Proof.
  unfold follow, location, split_path. cbn. pose proof (encode_no_query c) as Hn.
  destruct (raw_query (uri req)) as [|x q] eqn:Eq; cbn.
  - rewrite find_char_none by done. cbn. by rewrite util.decode_encode.
  - rewrite find_char_app; [|done|right; by eexists]. cbn. by rewrite util.decode_encode.
Qed.

Lemma handler_clean m req :
  method req <> lit "CONNECT" -> http2_path.clean (path (uri req)) <> path (uri req) ->
  handler m req = Some (cb_redirect 301 (location req (http2_path.clean (path (uri req))))).
Proof.
  intros Hm Hp. unfold handler. rewrite bool_decide_eq_false_2 by done. cbn [negb].
  rewrite http2_path.path_join_clean. cbn [mbind option_bind]. by rewrite bool_decide_eq_false_2.
Qed.



(** ** The server's own handlers *)

Lemma size_value_spec body : util.decimal_value (value (size_value body)) = Z.of_nat (length body).
Proof. cbn. apply util.utos_decimal. lia. Qed.

Lemma create_html_total status : 0 <= status <= UINT32_MAX -> exists html, create_html status = Some html.
Proof. intros H. unfold create_html. rewrite http2.stringify_status_utos by done. by eexists. Qed.

(** The server's own answers, for every status code of an [unsigned int]:
    each handler makes one [write_head] with its status and then one [end]; the
    declared content length is the length of the body given to [end]; a redirect
    carries its location, with a body for GET only; the status handler sends
    neither header fields nor body for a status that forbids a body. *)
Theorem own_handlers_spec (status : Z) (target method : str) (Hs : 0 <= status <= UINT32_MAX) :
  (exists h body, redirect_handler status target method = Some [write_head status h; end_data body]
     /\ map value (values (lit "location") h) = [target]
     /\ map (fun v => util.decimal_value (value v)) (values (lit "content-length") h) = [Z.of_nat (length body)]
     /\ (body <> [] -> method = lit "GET"))
  /\ (exists h body, status_handler status = Some [write_head status h; end_data body]
     /\ (http2.expect_response_body status = true ->
         map (fun v => util.decimal_value (value v)) (values (lit "content-length") h) = [Z.of_nat (length body)])
     /\ (http2.expect_response_body status = false -> h = [] /\ body = [])).
Proof.
  destruct (create_html_total status Hs) as [html Eh]. split.
  - unfold redirect_handler. rewrite Eh.
    destruct (bool_decide_reflect (method = lit "GET")); cbn [mbind option_bind]; do 2 eexists; (split; [reflexivity|]).
    all: split; [reflexivity|]; split; [|done].
    all: vm_compute (emplace _ _ _); cbn [values map].
    all: vm_compute (bool_decide _); cbn [map]; f_equal; apply size_value_spec.
  - unfold status_handler. destruct (http2.expect_response_body status); cbn [negb].
    + rewrite Eh. cbn [mbind option_bind]. do 2 eexists. split; [reflexivity|]. split; [|done]. intros _.
      rewrite <- size_value_spec. reflexivity.
    + do 2 eexists. split; [reflexivity|]. done.
Qed.

Lemma own_handlers_spec_witness :
  exists h body, status_handler 404 = Some [write_head 404 h; end_data body]
     /\ map (fun v => util.decimal_value (value v)) (values (lit "content-length") h) = [Z.of_nat (length body)].
Proof.
  destruct (own_handlers_spec 404 [] [] ltac:(unfold UINT32_MAX; lia)) as [_ (h & body & E & H & _)].
  exists h, body. split; [exact E|]. apply H. reflexivity.
Defined.

(** ** Routers of an application *)

(** A router in which an application registered its own callbacks. *)
Definition app_mux (m : mux) : Prop :=
  exists regs, m = registered regs /\ Forall (fun r => exists n, r.2 = Some (cb_user n)) regs.

(** A handler that the server can run. *)
Definition own_or_user (c : request_cb) : Prop :=
  (exists n, c = cb_user n) \/ (exists u, c = cb_redirect 301 u) \/ c = cb_status 404.

Definition entries_ok (m : mux) : Prop := forall k e, mux_find m k = Some e -> own_or_user (cb e).

Lemma handle_entries m p n : mux_ok m -> entries_ok m -> entries_ok (handle m p (Some (cb_user n))).2.
Proof.
  intros [Hs Hm] He. unfold handle.
  destruct (length p =? 0)%nat; [done|]. case_if; [done|]. cbn [snd]. intros k e.
  rewrite mux_find_emplace by (by apply add_redirect_find).
  assert (forall k e, mux_find (add_redirect m p) k = Some e -> own_or_user (cb e)) as Hr.
  { intros k' e' H'. destruct (add_redirect_find m p k' Hs) as [_ [H|(_ & _ & _ & H)]].
    - rewrite H in H'. by eapply He.
    - rewrite H in H'. injection H' as <-. right. left. by eexists. }
  case_decide; [|by apply Hr]. destruct (mux_find (add_redirect m p) p) as [e'|] eqn:Ep; intros [= <-].
  - by eapply Hr.
  - left. by exists n.
Qed.

Lemma app_mux_entries m : app_mux m -> mux_ok m /\ entries_ok m.
Proof.
  intros (regs & -> & Hregs). unfold registered.
  assert (mux_ok [] /\ entries_ok []) as H by (split; [split; [constructor|done]|done]).
  revert H. generalize (@nil (str * handler_entry)).
  induction Hregs as [|[p c] regs [n Hn] Hregs IH]; intros m [H1 H2]; [done|].
  cbn in Hn. subst c. apply IH. split; [by apply handle_ok|by apply handle_entries].
Qed.

Lemma handler_total m req : app_mux m -> exists c, handler m req = Some c /\ own_or_user c.
Proof.
  intros [Hm He]%app_mux_entries. unfold handler.
  destruct (match_spec m (host (uri req) ++ path (uri req)) Hm) as (r1 & E1 & H1).
  destruct (match_spec m (path (uri req)) Hm) as (r2 & E2 & H2).
  assert (forall r p c, match_result m p r -> r = Some c -> own_or_user c) as Hc.
  { intros r p c Hr ->. destruct Hr as (k & e & Hk & -> & _). by eapply He. }
  assert (exists c, (c ← Some r1; match c with Some c => Some c | None =>
             c ← Some r2; Some (match c with Some c => c | None => cb_status 404 end) end) = Some c /\ own_or_user c) as Hroute.
  { destruct r1 as [c|]; [exists c; split; [done|exact (Hc _ _ _ H1 eq_refl)]|]. destruct r2 as [c|].
    - exists c; split; [done|exact (Hc _ _ _ H2 eq_refl)].
    - exists (cb_status 404). split; [done|]. by right; right. }
  rewrite E1, E2. case_if; [|done]. rewrite http2_path.path_join_clean. cbn [mbind option_bind].
  case_if; [|done]. eexists. split; [done|]. right. left. by eexists.
Qed.

Lemma own_handlers_total u method :
  (exists h body, redirect_handler 301 u method = Some [write_head 301 h; end_data body])
  /\ exists h body, status_handler 404 = Some [write_head 404 h; end_data body].
Proof.
  destruct (create_html_total 301 ltac:(unfold UINT32_MAX; lia)) as [html Eh].
  destruct (create_html_total 404 ltac:(unfold UINT32_MAX; lia)) as [html' Eh'].
  unfold redirect_handler, status_handler. rewrite Eh, Eh'. split; [|by do 2 eexists].
  case_if; by do 2 eexists.
Qed.

End serve_mux.
