(* ===== verification/Nghttp2.v ===== *)
(** * The interface to libnghttp2

    The HTTP/2 library is not part of the repository.  Its session object is
    represented by what the code can observe of it: the calls the code makes on
    the session, recorded in order, their return values, which a class gives as
    a function of the calls made before, and the callbacks the session invokes,
    which are arguments of the definitions of ServerHandler and ClientSession. *)

From S2P Require Import Prelude Http2 Common.

Module nghttp2.
Import http2 common.

(** ** Frames, as the callbacks read them *)

Inductive frame_type :=
  | NGHTTP2_DATA | NGHTTP2_HEADERS | NGHTTP2_PRIORITY | NGHTTP2_RST_STREAM | NGHTTP2_SETTINGS
  | NGHTTP2_PUSH_PROMISE | NGHTTP2_PING | NGHTTP2_GOAWAY | NGHTTP2_WINDOW_UPDATE
  | NGHTTP2_CONTINUATION | NGHTTP2_EXTENSION.

Inductive headers_category :=
  | NGHTTP2_HCAT_REQUEST | NGHTTP2_HCAT_RESPONSE | NGHTTP2_HCAT_PUSH_RESPONSE | NGHTTP2_HCAT_HEADERS.

#[export] Instance frame_type_eq_dec : EqDecision frame_type.
Proof. solve_decision. Defined.
#[export] Instance headers_category_eq_dec : EqDecision headers_category.
Proof. solve_decision. Defined.

(** [cat] is meaningful for HEADERS, [promised_stream_id] for PUSH_PROMISE. *)
Record frame := mk_frame {
  hd_type : frame_type;
  hd_stream_id : Z;
  hd_flags : Z;
  cat : headers_category;
  promised_stream_id : Z;
}.

Definition NGHTTP2_FLAG_END_STREAM : Z := 1.
Definition NGHTTP2_NV_FLAG_NO_INDEX : Z := 1.
Definition NGHTTP2_NO_ERROR : Z := 0.
Definition NGHTTP2_INTERNAL_ERROR : Z := 2.
Definition NGHTTP2_SETTINGS_ENABLE_PUSH : Z := 2.
Definition NGHTTP2_SETTINGS_MAX_CONCURRENT_STREAMS : Z := 3.
Definition NGHTTP2_SETTINGS_INITIAL_WINDOW_SIZE : Z := 4.

(** [flags & f] as a condition *)
Definition has_flag (flags f : Z) : bool := negb (Z.land flags f =? 0).

(** ** Header fields *)

(** A header field as the session reports it: name, value, flags. *)
Definition field := (str * str * Z)%type.

Definition field_size (f : field) : Z := Z.of_nat (length f.1.1) + Z.of_nat (length f.1.2).

Definition field_value (f : field) : header_value :=
  {| value := f.1.2; sensitive := has_flag f.2 NGHTTP2_NV_FLAG_NO_INDEX |}.

(** The fields stored in the order in which they come. *)
Definition store_fields (h : header_map) (fs : list field) : header_map :=
  fold_left (fun h f => emplace h f.1.1 (field_value f)) fs h.

Definition fields_size (fs : list field) : Z := fold_right (fun f n => field_size f + n) 0 fs.

Lemma fields_size_nonneg fs : 0 <= fields_size fs.
Proof.
  unfold fields_size. induction fs as [|f fs IH]; [done|]. cbn [fold_right].
  assert (0 <= field_size f) by (unfold field_size; lia). lia.
Qed.

(** ** Calls on a session *)

(** The arguments of each function besides the session; [body] says whether a
    data provider is given, [payload] whether it is a null pointer. *)
Inductive lib_call :=
  | submit_rst_stream (stream_id error_code : Z)
  | submit_response (stream_id : Z) (nva : list nghttp2_nv) (body : bool)
  | submit_request (pri : option (Z * Z * bool)) (nva : list nghttp2_nv) (body : bool)
  | submit_trailer (stream_id : Z) (nva : list nghttp2_nv)
  | submit_push_promise (stream_id : Z) (nva : list nghttp2_nv)
  | submit_settings (iv : list (Z * Z))
  | submit_ping
  | session_resume_data (stream_id : Z)
  | session_terminate (error_code : Z)
  | session_set_local_window_size (stream_id window_size : Z).

(** The value a call returns, given the calls made before it, latest first. *)
Class Nghttp2 := lib_ret : list lib_call -> lib_call -> Z.

Definition is_push_promise (c : lib_call) : bool :=
  match c with submit_push_promise _ _ => true | _ => false end.
Definition is_request (c : lib_call) : bool :=
  match c with submit_request _ _ _ => true | _ => false end.

(** Documented behaviour that the theorems use: a successful
    [nghttp2_submit_push_promise] of a server returns the id of the promised
    stream, a positive even number, and a successful [nghttp2_submit_request] of
    a client a positive odd one, larger than any such id returned before. *)
Class Nghttp2Laws `{Nghttp2} : Prop := {
  push_id_even : forall h c, is_push_promise c = true -> 0 <= lib_ret h c ->
    0 < lib_ret h c /\ Z.even (lib_ret h c) = true;
  push_id_fresh : forall h c h' c', is_push_promise c = true -> is_push_promise c' = true ->
    0 <= lib_ret h c -> 0 <= lib_ret (h' ++ c :: h) c' -> lib_ret h c < lib_ret (h' ++ c :: h) c';
  request_id_odd : forall h c, is_request c = true -> 0 <= lib_ret h c ->
    0 < lib_ret h c /\ Z.odd (lib_ret h c) = true;
  request_id_fresh : forall h c h' c', is_request c = true -> is_request c' = true ->
    0 <= lib_ret h c -> 0 <= lib_ret (h' ++ c :: h) c' -> lib_ret h c < lib_ret (h' ++ c :: h) c';
}.

(** The ids that the successful calls of a kind have returned. *)
Fixpoint ids_of `{Nghttp2} (f : lib_call -> bool) (h : list lib_call) : list Z :=
  match h with
  | [] => []
  | c :: h => if f c && (0 <=? lib_ret h c) then lib_ret h c :: ids_of f h else ids_of f h
  end.

Lemma ids_of_inv `{Nghttp2} f h id :
  id ∈ ids_of f h -> exists h2 c h1, h = h2 ++ c :: h1 /\ f c = true /\ 0 <= lib_ret h1 c /\ id = lib_ret h1 c.
Proof.
  induction h as [|c h IH]; cbn; [by intros ?%elem_of_nil|].
  assert (id ∈ ids_of f h -> exists h2 c0 h1, c :: h = h2 ++ c0 :: h1 /\ f c0 = true
            /\ 0 <= lib_ret h1 c0 /\ id = lib_ret h1 c0) as K.
  { intros (h2 & c0 & h1 & -> & ?)%IH. by exists (c :: h2), c0, h1. }
  case_if; [|done]. rewrite elem_of_cons. intros [->|?]; [|by apply K]. boolp. by exists [], c, h.
Qed.

(** An instance: a library in which every call succeeds. *)
Definition count {A} (f : A -> bool) (l : list A) : Z := Z.of_nat (length (filter (fun x => f x = true) l)).

Definition counting_lib : Nghttp2 := fun h c =>
  if is_push_promise c then 2 * (count is_push_promise h + 1)
  else if is_request c then 2 * count is_request h + 1
  else 0.

Lemma count_app {A} (f : A -> bool) (l k : list A) : count f (l ++ k) = count f l + count f k.
Proof. unfold count. rewrite filter_app, length_app. lia. Qed.

Lemma count_cons {A} (f : A -> bool) (x : A) (l : list A) :
  count f (x :: l) = (if f x then 1 else 0) + count f l.
Proof.
  unfold count. rewrite filter_cons. destruct (f x) eqn:E.
  - rewrite decide_True by done. cbn [length]. lia.
  - rewrite decide_False by done. lia.
Qed.

Lemma count_nonneg {A} (f : A -> bool) (l : list A) : 0 <= count f l.
Proof. unfold count. lia. Qed.

#[export] Instance counting_lib_laws : @Nghttp2Laws counting_lib.
Proof.
  split; unfold lib_ret, counting_lib.
  - intros h c -> _. pose proof (count_nonneg is_push_promise h). split; [lia|]. by rewrite Z.even_mul.
  - intros h c h' c' E -> _ _. rewrite E, count_app, count_cons, E.
    pose proof (count_nonneg is_push_promise h'). lia.
  - intros h c Hc _. assert (is_push_promise c = false) as -> by (by destruct c). rewrite Hc.
    pose proof (count_nonneg is_request h). split; [lia|]. by rewrite Z.odd_add, Z.odd_mul.
  - intros h c h' c' Hc Hc' _ _. assert (is_push_promise c = false) as -> by (by destruct c).
    assert (is_push_promise c' = false) as -> by (by destruct c').
    rewrite Hc, Hc', count_app, count_cons, Hc. pose proof (count_nonneg is_request h'). lia.
Qed.

End nghttp2.
