(* ===== verification/Monad.v ===== *)
(** * Stateful operations that can fail

    The state monad in which the handler of the server and the session of the
    client are written, and the weakest preconditions with which their invariants
    are proved. *)

From S2P Require Import Prelude.

Module monad.

(** How an operation can go wrong: a failed [assert], a write outside a buffer, a
    reference to a stream that has been destroyed, a call of the application on a
    session that does not exist yet, a write started inside a callback, [new] that
    throws, an access outside the memory (also one that a routine of another file
    reports), an operation on a socket that throws. *)
Inductive failure :=
  assertion_failed | buffer_overflow | dangling_stream | null_session | nested_write | out_of_memory
  | memory_error | socket_exception.

(** The failures that a component ascribes to its user. *)
Class Misuse := misuse : failure -> Prop.

Inductive outcome (S A : Type) :=
  | Done (a : A) (s : S)
  | Failed (e : failure).
Arguments Done {S A} a s.
Arguments Failed {S A} e.

Definition M (S A : Type) : Type := S -> outcome S A.

Section monad.
Context {S : Type} `{Misuse}.

Definition ret {A} (a : A) : M S A := fun s => Done a s.
Definition bind {A B} (m : M S A) (k : A -> M S B) : M S B :=
  fun s => match m s with Done a s' => k a s' | Failed e => Failed e end.
Definition fail {A} (e : failure) : M S A := fun _ => Failed e.
Definition get : M S S := fun s => Done s s.
Definition modify (f : S -> S) : M S unit := fun s => Done tt (f s).

(** [assert(b)] *)
Definition assert_ (b : bool) : M S unit := if b then ret tt else fail assertion_failed.

Fixpoint forM {A} (l : list A) (f : A -> M S unit) : M S unit :=
  match l with
  | [] => ret tt
  | x :: l => bind (f x) (fun _ => forM l f)
  end.

(** The operation succeeds and ends in [Q], unless the component is misused. *)
Definition wp {A} (m : M S A) (Q : A -> S -> Prop) (s : S) : Prop :=
  match m s with
  | Done a s' => Q a s'
  | Failed e => misuse e
  end.

Lemma wp_ret {A} (a : A) (Q : A -> S -> Prop) s : Q a s -> wp (ret a) Q s.
Proof. done. Qed.

Lemma wp_bind {A B} (m : M S A) (k : A -> M S B) Q s :
  wp m (fun a s' => wp (k a) Q s') s -> wp (bind m k) Q s.
Proof. unfold wp, bind. by destruct (m s). Qed.

Lemma wp_mono {A} (m : M S A) (Q R : A -> S -> Prop) s :
  wp m Q s -> (forall a s', Q a s' -> R a s') -> wp m R s.
Proof. unfold wp. intros H1 H2. destruct (m s); auto. Qed.

Lemma wp_modify f (Q : unit -> S -> Prop) s : Q tt (f s) -> wp (modify f) Q s.
Proof. done. Qed.

Lemma wp_get (Q : S -> S -> Prop) s : Q s s -> wp get Q s.
Proof. done. Qed.

Lemma wp_forM {A} (l : list A) f (I : S -> Prop) s :
  I s -> (forall x s, x ∈ l -> I s -> wp (f x) (fun _ => I) s) -> wp (forM l f) (fun _ => I) s.
Proof.
  revert s. induction l as [|x l IH]; intros s HI Hf; cbn [forM]; [by apply wp_ret|].
  apply wp_bind. eapply wp_mono; [apply Hf; [by left|done]|]. intros a s' HI'.
  apply IH; [done|]. intros y s'' Hy. apply Hf. by right.
Qed.

End monad.

Declare Scope monad_scope.
Notation "x <- m ;; k" := (bind m (fun x => k)) (at level 100, m at next level, right associativity) : monad_scope.
Notation "m ;; k" := (bind m (fun _ => k)) (at level 100, right associativity) : monad_scope.

End monad.
