(* ===== verification/Allocator.v ===== *)
(** * The block allocator: lib/allocator.h

    [BlockAllocator] cuts small allocations from blocks and gives large ones a
    block of their own; the strings made by util.h and http2.cc live in its
    memory.  Addresses are integers, the memory maps them to bytes, and every
    access is checked against the blocks that [new] returned.  [new] is an
    argument: it returns an address, or throws. *)

From S2P Require Import Prelude Monad.

Module allocator.
Import monad.
Local Open Scope monad_scope.

(** ** State *)

(** [sizeof] on a 64-bit machine: a [MemBlock] is four pointers. *)
Definition SIZEOF_SIZE_T : Z := 8.
Definition SIZEOF_MEMBLOCK : Z := 32.

(** A [MemBlock] at address [mb_addr]; [mb_len] is the number of bytes that [new]
    was asked for.  The member [next] is the order of the list that holds it. *)
Record MemBlock := mk_block { mb_addr : Z; mb_len : Z; mb_begin : Z; mb_last : Z; mb_end : Z }.

Definition span (b : MemBlock) : Z * Z := (mb_addr b, mb_len b).

(** The members, [retain] as the chain it starts and [head] as an address; then
    the memory, and the blocks that were deleted. *)
Record BlockAllocator := mk_alloc {
  retain : list MemBlock;
  head : option Z;
  block_size : Z;
  isolation_threshold : Z;
  mem : gmap Z ascii;
  deleted : list Z;
}.

Definition set_retain (r : list MemBlock) (h : option Z) (s : BlockAllocator) : BlockAllocator :=
  mk_alloc r h (block_size s) (isolation_threshold s) (mem s) (deleted s).
Definition set_mem (m : gmap Z ascii) (s : BlockAllocator) : BlockAllocator :=
  mk_alloc (retain s) (head s) (block_size s) (isolation_threshold s) m (deleted s).

Local Abbreviation M := (monad.M BlockAllocator).

(** [new uint8_t[n]]: given the blocks that exist, the address of the new one, or
    [None] when it throws. *)
Class New := new_array : list (Z * Z) -> Z -> option Z.

Definition disjoint (p q : Z * Z) : Prop := p.1 + p.2 <= q.1 \/ q.1 + q.2 <= p.1.

(** The block is aligned for every type, lies in the address space and apart from
    the others. *)
Class NewLaws `{New} : Prop := {
  new_ok : forall l n a, 0 <= n -> new_array l n = Some a ->
    0 < a /\ a + n < 2 ^ 63 /\ a mod 16 = 0 /\ Forall (disjoint (a, n)) l;
}.

(** An instance: above all blocks. *)
Definition top_of (l : list (Z * Z)) : Z := fold_right (fun p m => Z.max (p.1 + p.2) m) 16 l.
Definition bump_new : New := fun l n =>
  let a := (top_of l + 15) / 16 * 16 in if a + n <? 2 ^ 63 then Some a else None.

(** ** Memory *)

Definition zero : ascii := chr 0.

Fixpoint store_bytes (a : Z) (l : str) (m : gmap Z ascii) : gmap Z ascii :=
  match l with
  | [] => m
  | c :: l => <[a := c]> (store_bytes (a + 1) l m)
  end.

Fixpoint load_bytes (m : gmap Z ascii) (a : Z) (n : nat) : str :=
  match n with
  | O => []
  | S n => default zero (m !! a) :: load_bytes m (a + 1) n
  end.

Definition in_block (a n : Z) (b : MemBlock) : bool := (mb_begin b <=? a) && (a + n <=? mb_end b).

(** The bytes of an access lie in the buffer of one block; an access to the header
    of a block, which the record keeps, counts as a fault. *)
Definition accessible (s : BlockAllocator) (a n : Z) : bool := existsb (in_block a n) (retain s).

Definition write (a : Z) (l : str) : M unit :=
  s <- get;;
  if accessible s a (Z.of_nat (length l)) then modify (set_mem (store_bytes a l (mem s))) else fail memory_error.

Definition read (a : Z) (n : nat) : M str :=
  s <- get;; if accessible s a (Z.of_nat n) then ret (load_bytes (mem s) a n) else fail memory_error.

(** A [size_t] in memory, little endian. *)
Fixpoint le_bytes (k : nat) (v : Z) : str :=
  match k with O => [] | S k => chr v :: le_bytes k (v / 256) end.
Fixpoint le_value (l : str) : Z :=
  match l with [] => 0 | c :: l => code c + 256 * le_value l end.

Definition write_size (a v : Z) : M unit := write a (le_bytes 8 v).
Definition read_size (a : Z) : M Z := l <- read a 8;; ret (le_value l).

(** ** Allocation *)

#[export] Instance alloc_misuse : Misuse := fun e => e = out_of_memory.

Section alloc.
Context `{New}.

Definition alloc_mem_block (size : Z) : M MemBlock :=
  s <- get;;
  let n := wrap_u 64 (SIZEOF_MEMBLOCK + size) in
  match new_array (map span (retain s)) n with
  | None => fail out_of_memory
  | Some block =>
    let begin := block + SIZEOF_MEMBLOCK in
    let mb := {| mb_addr := block; mb_len := n; mb_begin := begin; mb_last := begin; mb_end := begin + size |} in
    modify (set_retain (mb :: retain s) (head s));;
    ret mb
  end.

Definition set_last (last : Z) (b : MemBlock) : MemBlock :=
  mk_block (mb_addr b) (mb_len b) (mb_begin b) last (mb_end b).

(** [mb->last = last], for the block at [addr] *)
Definition with_last (addr last : Z) (b : MemBlock) : MemBlock := if mb_addr b =? addr then set_last last b else b.

Definition update_last (addr last : Z) : M unit :=
  modify (fun s => set_retain (map (with_last addr last) (retain s)) (head s) s).

Definition head_block (s : BlockAllocator) : option MemBlock :=
  a ← head s; List.find (fun b => mb_addr b =? a) (retain s).

Definition align16 (z : Z) : Z := Z.land (z + 15) (Z.lnot 15).

(** The block to cut from: a new one when there is none or it is too full; the
    comparison is signed. *)
Definition current_block (size : Z) : M MemBlock :=
  s <- get;;
  match head_block s with
  | Some b =>
    if mb_end b - mb_last b <? wrap_s 64 (size + SIZEOF_SIZE_T) then
      b <- alloc_mem_block (block_size s);; modify (fun s => set_retain (retain s) (Some (mb_addr b)) s);; ret b
    else ret b
  | None => b <- alloc_mem_block (block_size s);; modify (fun s => set_retain (retain s) (Some (mb_addr b)) s);; ret b
  end.

Definition alloc (size : Z) : M Z :=
  s <- get;;
  if isolation_threshold s <=? wrap_u 64 (size + SIZEOF_SIZE_T) then
    let len := Z.max 16 size in
    mb <- alloc_mem_block (wrap_u 64 (len + SIZEOF_SIZE_T));;
    write_size (mb_begin mb) len;;
    update_last (mb_addr mb) (mb_end mb);;
    ret (mb_begin mb + SIZEOF_SIZE_T)
  else
    b <- current_block size;;
    let res := mb_last b + SIZEOF_SIZE_T in
    write_size (mb_last b) size;;
    update_last (mb_addr b) (align16 (res + size));;
    ret res.

Definition get_alloc_length (ptr : Z) : M Z := read_size (ptr - SIZEOF_SIZE_T).

Definition realloc (ptr size : Z) : M Z :=
  if ptr =? 0 then alloc size
  else
    alloclen <- get_alloc_length ptr;;
    if size <=? alloclen then ret ptr
    else
      res <- alloc (Z.max (wrap_u 64 (size + 1)) (wrap_u 64 (alloclen * 2)));;
      l <- read ptr (Z.to_nat alloclen);;
      write res l;;
      ret res.

(** ** Strings *)

(** A [StringRef]: an address and a length. *)
Definition make_string_ref (src : str) : M (Z * Z) :=
  dst <- alloc (wrap_u 64 (Z.of_nat (length src) + 1));;
  write dst src;;
  write (dst + Z.of_nat (length src)) [zero];;
  ret (dst, Z.of_nat (length src)).

Definition concat_string_ref_count (args : list str) : Z := 
  fold_left (fun acc v => wrap_u 64 (acc + Z.of_nat (length v))) args 0.

Fixpoint concat_string_ref_copy (p : Z) (args : list str) : M Z :=
  match args with
  | [] => ret p
  | v :: args => write p v;; concat_string_ref_copy (p + Z.of_nat (length v)) args
  end.

Definition concat_string_ref (args : list str) : M (Z * Z) :=
  let len := concat_string_ref_count args in
  dst <- alloc (wrap_u 64 (len + 1));;
  p <- concat_string_ref_copy dst args;;
  write p [zero];;
  ret (dst, len).

Definition realloc_concat_string_ref (value : Z * Z) (args : list str) : M (Z * Z) :=
  if value.2 =? 0 then concat_string_ref args
  else
    let len := wrap_u 64 (value.2 + concat_string_ref_count args) in
    dst <- realloc value.1 (wrap_u 64 (len + 1));;
    p <- concat_string_ref_copy (dst + value.2) args;;
    write p [zero];;
    ret (dst, len).

(** [make_byte_ref]: [{dst, size}] *)
Definition make_byte_ref (size : Z) : M (Z * Z) := dst <- alloc size;; ret (dst, size).

End alloc.

(** The constructor; [None] when its assertion fails. *)
Definition new_allocator (block_size isolation_threshold : Z) : option BlockAllocator :=
  if isolation_threshold <=? block_size
  then Some (mk_alloc [] None block_size (Z.min block_size isolation_threshold) ∅ [])
  else None.

(** The loop of [reset] over the chain: what it hands to [delete[]]. *)
Fixpoint delete_blocks (l : list MemBlock) (deleted : list Z) : list Z :=
  match l with
  | [] => deleted
  | mb :: next => delete_blocks next (deleted ++ [mb_addr mb])
  end.

Definition reset (s : BlockAllocator) : BlockAllocator :=
  mk_alloc [] None (block_size s) (isolation_threshold s) (mem s) (delete_blocks (retain s) (deleted s)).

(** [std::exchange(other.retain, nullptr)] and the same for [head]: the source. *)
Definition moved_from (other : BlockAllocator) : BlockAllocator :=
  mk_alloc [] None (block_size other) (isolation_threshold other) (mem other) (deleted other).

(** The move constructor and the move assignment: the target and the source. *)
Definition move_construct (other : BlockAllocator) : BlockAllocator * BlockAllocator :=
  (mk_alloc (retain other) (head other) (block_size other) (isolation_threshold other) (mem other) [], moved_from other).

Definition move_assign (s other : BlockAllocator) : BlockAllocator * BlockAllocator :=
  let s := reset s in
  (mk_alloc (retain other) (head other) (block_size other) (isolation_threshold other) (mem other) (deleted s), moved_from other).

(** ** Memory *)

Lemma load_length m a n : length (load_bytes m a n) = n.
Proof. revert a. induction n as [|n IH]; intros a; cbn; [done|]. by rewrite IH. Qed.

Lemma load_app m a n k : load_bytes m a (n + k) = load_bytes m a n ++ load_bytes m (a + Z.of_nat n) k.
Proof.
  revert a. induction n as [|n IH]; intros a; cbn [plus load_bytes app]; [by rewrite Z.add_0_r|].
  f_equal. rewrite IH. do 2 f_equal. lia.
Qed.

Lemma load_ext m m' a n : (forall i, a <= i < a + Z.of_nat n -> m' !! i = m !! i) -> load_bytes m' a n = load_bytes m a n.
Proof.
  revert a. induction n as [|n IH]; intros a Hm; cbn; [done|]. rewrite Hm by lia. f_equal. apply IH.
  intros i Hi. apply Hm. lia.
Qed.

Lemma store_outside a l m i : i < a \/ a + Z.of_nat (length l) <= i -> store_bytes a l m !! i = m !! i.
Proof.
  revert a. induction l as [|c l IH]; intros a Hi; cbn in *; [done|].
  rewrite lookup_insert_ne by lia. apply IH. lia.
Qed.

Lemma load_store a l m : load_bytes (store_bytes a l m) a (length l) = l.
Proof.
  revert a. induction l as [|c l IH]; intros a; cbn [store_bytes length load_bytes]; [done|].
  rewrite lookup_insert_eq. cbn. f_equal. transitivity (load_bytes (store_bytes (a + 1) l m) (a + 1) (length l)); [|apply IH].
  apply load_ext. intros i Hi. by rewrite lookup_insert_ne by lia.
Qed.

Lemma load_store_apart a l m b n :
  a + Z.of_nat (length l) <= b \/ b + Z.of_nat n <= a -> load_bytes (store_bytes a l m) b n = load_bytes m b n.
Proof. intros Hd. apply load_ext. intros i Hi. apply store_outside. lia. Qed.

Lemma le_bytes_length k v : length (le_bytes k v) = k.
Proof. revert v. induction k as [|k IH]; intros v; cbn; [done|]. by rewrite IH. Qed.

Lemma le_round_trip k v : 0 <= v < 256 ^ Z.of_nat k -> le_value (le_bytes k v) = v.
Proof.
  revert v. induction k as [|k IH]; intros v Hv; cbn [le_bytes le_value]; [cbn in *; lia|].
  rewrite Nat2Z.inj_succ, Z.pow_succ_r in Hv by lia. rewrite IH.
  - rewrite code_chr. pose proof (Z.div_mod v 256). lia.
  - split; [apply Z.div_pos; lia|]. apply Z.div_lt_upper_bound; lia.
Qed.

(** ** Invariant *)

(** A block as [alloc_mem_block] makes it, with a cursor past its start.  The
    cursor may lie up to 15 bytes beyond the end, because it is aligned. *)
Record block_ok (b : MemBlock) : Prop := {
  bo_addr : 0 < mb_addr b;
  bo_aligned : mb_addr b mod 16 = 0;
  bo_begin : mb_begin b = mb_addr b + SIZEOF_MEMBLOCK;
  bo_end : mb_end b = mb_addr b + mb_len b;
  bo_room : mb_begin b <= mb_end b < 2 ^ 63;
  bo_last : mb_begin b <= mb_last b;
}.

(** An allocation of [n] bytes at [p]: its region starts with its length. *)
Definition region (p : Z * Z) : Z * Z := (p.1 - SIZEOF_SIZE_T, SIZEOF_SIZE_T + p.2).

Definition held (s : BlockAllocator) (p : Z * Z) : Prop :=
  0 <= p.2 /\ exists b, b ∈ retain s /\ mb_begin b <= p.1 - SIZEOF_SIZE_T /\ p.1 + p.2 <= mb_last b /\ p.1 + p.2 <= mb_end b.

Definition size_at (m : gmap Z ascii) (p : Z) : Z := le_value (load_bytes m (p - SIZEOF_SIZE_T) 8).

(** The allocations [al] made so far lie in the blocks, below their cursors, apart
    from each other, each with its length before it. *)
Record Inv (al : list (Z * Z)) (s : BlockAllocator) : Prop := {
  in_blocks : Forall block_ok (retain s);
  in_apart : ForallOrdPairs disjoint (map span (retain s));
  in_head : forall a, head s = Some a -> exists b, b ∈ retain s /\ mb_addr b = a /\ mb_last b mod 16 = 0;
  in_sizes : 0 <= isolation_threshold s <= block_size s /\ block_size s < 2 ^ 62;
  in_held : Forall (held s) al;
  in_regions : ForallOrdPairs disjoint (map region al);
  in_lengths : Forall (fun p => size_at (mem s) p.1 = p.2) al;
}.

Lemma disjoint_sym p q : disjoint p q -> disjoint q p.
Proof. intros [?|?]; [by right|by left]. Qed.

Lemma pairs_elem {A} (f : A -> Z * Z) (l : list A) b c :
  ForallOrdPairs disjoint (map f l) -> b ∈ l -> c ∈ l -> b = c \/ disjoint (f b) (f c).
Proof.
  induction l as [|x l IH]; cbn [map]; intros Hl; [by intros ?%elem_of_nil|]. inversion Hl as [|? ? Hx Hl']; subst.
  rewrite Forall_map, Forall_forall in Hx.
  rewrite !elem_of_cons. intros [->|Hb] [->|Hc]; [by left|right; by apply Hx|right; apply disjoint_sym; by apply Hx|by apply IH].
Qed.

Lemma addr_inj al s b c : Inv al s -> b ∈ retain s -> c ∈ retain s -> mb_addr b = mb_addr c -> b = c.
Proof.
  intros HI Hb Hc E. destruct (pairs_elem _ _ _ _ (in_apart _ _ HI) Hb Hc) as [|Hd]; [done|].
  pose proof (in_blocks _ _ HI) as Hok. rewrite Forall_forall in Hok.
  destruct (Hok _ Hb), (Hok _ Hc). unfold disjoint, span, SIZEOF_MEMBLOCK in *. cbn in Hd. lia.
Qed.

Lemma accessible_in s b a n :
  b ∈ retain s -> mb_begin b <= a -> a + n <= mb_end b -> accessible s a n = true.
Proof.
  intros Hb H1 H2. apply existsb_exists. exists b. split; [by apply list_elem_of_In|]. unfold in_block.
  rewrite andb_true_iff, !Z.leb_le. lia.
Qed.

Lemma wp_write a l (Q : unit -> BlockAllocator -> Prop) s :
  accessible s a (Z.of_nat (length l)) = true -> Q tt (set_mem (store_bytes a l (mem s)) s) -> wp (write a l) Q s.
Proof. intros Ha HQ. unfold write. apply wp_bind, wp_get. rewrite Ha. by apply wp_modify. Qed.

Lemma wp_read a n (Q : str -> BlockAllocator -> Prop) s :
  accessible s a (Z.of_nat n) = true -> Q (load_bytes (mem s) a n) s -> wp (read a n) Q s.
Proof. intros Ha HQ. unfold read. apply wp_bind, wp_get. rewrite Ha. by apply wp_ret. Qed.

(** ** Cutting an allocation from a block *)

Definition cut (b : MemBlock) (n last : Z) (s : BlockAllocator) : BlockAllocator :=
  let s := set_mem (store_bytes (mb_last b) (le_bytes 8 n) (mem s)) s in
  set_retain (map (with_last (mb_addr b) last) (retain s)) (head s) s.

Section cut.
Variables (al : list (Z * Z)) (s : BlockAllocator) (b : MemBlock) (n last : Z).
Hypothesis HI : Inv al s.
Hypothesis Hb : b ∈ retain s.
Hypothesis Hn : 0 <= n < 2 ^ 63.
Hypothesis Hroom : mb_last b + SIZEOF_SIZE_T + n <= mb_end b.
Hypothesis Hlast : mb_last b + SIZEOF_SIZE_T + n <= last.
Hypothesis Hhead : head s = Some (mb_addr b) -> last mod 16 = 0.

Local Abbreviation p := (mb_last b + SIZEOF_SIZE_T, n).
Local Abbreviation upd := (with_last (mb_addr b) last).

Lemma block_is_ok c : c ∈ retain s -> block_ok c.
Proof using HI. pose proof (in_blocks _ _ HI) as H. rewrite Forall_forall in H. apply H. Qed.

Lemma upd_cases c : c ∈ retain s -> c = b /\ upd c = set_last last b \/ c <> b /\ upd c = c.
Proof using HI Hb.
  intros Hc. unfold with_last. destruct (Z.eqb_spec (mb_addr c) (mb_addr b)) as [E|E].
  - left. pose proof (addr_inj _ _ _ _ HI Hc Hb E) as ->. done.
  - right. split; [|done]. by intros ->.
Qed.

Lemma cut_span : map span (map upd (retain s)) = map span (retain s).
Proof using. rewrite map_map. apply map_ext. intros c. unfold with_last. by destruct (mb_addr c =? mb_addr b). Qed.

Lemma cut_elem c : c ∈ retain s -> upd c ∈ retain (cut b n last s).
Proof using. apply (list_elem_of_fmap_2 upd (retain s)). Qed.

Lemma cut_held q : held s q -> held (cut b n last s) q.
Proof using HI Hb Hlast Hn.
  intros [Hq [c (Hc & H1 & H2 & H3)]]. split; [done|]. exists (upd c). split; [by apply cut_elem|].
  destruct (upd_cases c Hc) as [[-> ->]|[_ ->]]; cbn; unfold SIZEOF_SIZE_T in *; lia.
Qed.

Lemma cut_apart q : q ∈ al -> disjoint (region p) (region q).
Proof using HI Hb Hroom Hn.
  intros Hq. pose proof (in_held _ _ HI) as Hh. rewrite Forall_forall in Hh.
  destruct (Hh _ Hq) as [Hq0 [c (Hc & H1 & H2 & H3)]].
  pose proof (block_is_ok b Hb) as []. pose proof (block_is_ok c Hc) as [].
  unfold disjoint, region, SIZEOF_SIZE_T, SIZEOF_MEMBLOCK in *. cbn in *.
  destruct (pairs_elem _ _ _ _ (in_apart _ _ HI) Hb Hc) as [<-|[Hd|Hd]]; cbn in *; lia.
Qed.

Lemma cut_load q k : q ∈ al -> (k <= Z.to_nat q.2)%nat ->
  load_bytes (mem (cut b n last s)) q.1 k = load_bytes (mem s) q.1 k /\ size_at (mem (cut b n last s)) q.1 = size_at (mem s) q.1.
Proof using HI Hb Hroom Hn.
  intros Hq Hk. pose proof (cut_apart q Hq) as Hd. pose proof (in_held _ _ HI) as Hh. rewrite Forall_forall in Hh.
  destruct (Hh _ Hq) as [Hq0 _]. unfold disjoint, region, SIZEOF_SIZE_T in *. cbn in Hd.
  split; [|unfold size_at; f_equal]; apply load_store_apart; rewrite le_bytes_length; unfold SIZEOF_SIZE_T; lia.
Qed.

Lemma cut_Inv : Inv (p :: al) (cut b n last s).
Proof using HI Hb Hlast Hn Hroom Hhead.
  pose proof (block_is_ok b Hb) as Hbo. split; cbn [retain head mem block_size isolation_threshold cut set_retain set_mem].
  - rewrite Forall_map, Forall_forall. intros c Hc. cbn. destruct (upd_cases c Hc) as [[_ ->]|[_ ->]]; [|by apply block_is_ok].
    destruct Hbo. split; cbn; unfold SIZEOF_SIZE_T in *; try done; lia.
  - rewrite cut_span. apply (in_apart _ _ HI).
  - intros a Ha. destruct (in_head _ _ HI a Ha) as [c (Hc & Ea & Hm)]. exists (upd c).
    split; [by apply cut_elem|]. destruct (upd_cases c Hc) as [[-> ->]|[_ ->]]; [|done].
    split; [done|]. cbn. apply Hhead. by rewrite Ha, Ea.
  - apply (in_sizes _ _ HI).
  - constructor.
    + split; [cbn; lia|]. exists (set_last last b). split.
      * pose proof (cut_elem b Hb) as E. by destruct (upd_cases b Hb) as [[_ <-]|[]].
      * destruct Hbo. unfold SIZEOF_SIZE_T in *. cbn. lia.
    + eapply Forall_impl; [apply (in_held _ _ HI)|]. intros q. apply cut_held.
  - cbn [map]. constructor; [|apply (in_regions _ _ HI)]. rewrite Forall_map, Forall_forall. intros q. apply cut_apart.
  - constructor.
    + unfold size_at. cbn [fst snd]. replace (mb_last b + SIZEOF_SIZE_T - SIZEOF_SIZE_T) with (mb_last b) by lia.
      pose proof (load_store (mb_last b) (le_bytes 8 n) (mem s)) as E. rewrite le_bytes_length in E. rewrite E.
      apply le_round_trip. cbn. lia.
    + rewrite Forall_forall. intros q Hq. pose proof (in_lengths _ _ HI) as Hl. rewrite Forall_forall in Hl.
      rewrite <- (Hl q Hq). apply (cut_load q 0); [done|lia].
Qed.

End cut.

(** ** Allocation *)

Section laws.
Context `{NewLaws}.

(** A fresh block is empty, and its cursor is aligned. *)
Record fresh (size : Z) (mb : MemBlock) : Prop := {
  fr_last : mb_last mb = mb_begin mb;
  fr_end : mb_end mb = mb_begin mb + size;
  fr_aligned : mb_last mb mod 16 = 0;
}.

Lemma wp_alloc_mem_block al size (Q : MemBlock -> BlockAllocator -> Prop) s :
  Inv al s -> 0 <= size < 2 ^ 63 ->
  (forall mb, let s' := set_retain (mb :: retain s) (head s) s in Inv al s' -> fresh size mb -> Q mb s') ->
  wp (alloc_mem_block size) Q s.
Proof.
  intros HI Hs HQ. unfold alloc_mem_block. apply wp_bind, wp_get. rewrite wrap_u_small by (unfold SIZEOF_MEMBLOCK; lia).
  destruct (new_array _ _) as [a|] eqn:Ea; [|done].
  apply new_ok in Ea as (Ha & Hr & Hm & Hd); [|unfold SIZEOF_MEMBLOCK; lia].
  apply wp_bind, wp_modify, wp_ret. unfold SIZEOF_MEMBLOCK in *. apply HQ.
  - destruct HI as [Hb Hap Hh Hz Hhe Hre Hle]. split; cbn; try done.
    + constructor; [|done]. split; unfold SIZEOF_MEMBLOCK; cbn [mb_addr mb_begin mb_last mb_len mb_end]; solve [done | lia].
    + by constructor.
    + intros h Eh. destruct (Hh h Eh) as (b & Hb1 & Hb2). exists b. split; [by right|done].
    + eapply Forall_impl; [apply Hhe|]. intros q [Hq (b & Hb1 & Hb2)]. split; [done|]. exists b. split; [by right|done].
  - split; cbn; [done|done|]. replace (a + 32) with (a + 2 * 16) by lia. by rewrite Z.mod_add.
Qed.

Lemma align16_spec z : 0 <= z -> z <= align16 z < z + 16 /\ align16 z mod 16 = 0.
Proof.
  intros Hz. unfold align16. change (Z.lnot 15) with (Z.lnot (Z.ones 4)). rewrite <- Z.ldiff_land, Z.ldiff_ones_r by lia.
  rewrite Z.shiftr_div_pow2, Z.shiftl_mul_pow2 by lia. change (2 ^ 4) with 16. split; [|by rewrite Z.mod_mul].
  pose proof (Z.div_mod (z + 15) 16). pose proof (Z.mod_pos_bound (z + 15) 16). lia.
Qed.

(** The head block is the block at its address. *)
Lemma head_block_spec al s b : Inv al s -> head_block s = Some b ->
  b ∈ retain s /\ head s = Some (mb_addr b) /\ mb_last b mod 16 = 0.
Proof.
  intros HI. unfold head_block. destruct (head s) as [a|] eqn:Eh; cbn; [|done]. intros [Hb E]%find_some.
  apply Z.eqb_eq in E as <-. apply list_elem_of_In in Hb. split; [done|split; [done|]].
  destruct (in_head _ _ HI _ Eh) as (c & Hc & Ea & Hm). by rewrite (addr_inj _ _ _ _ HI Hb Hc).
Qed.

Lemma set_head al s b : Inv al s -> b ∈ retain s -> mb_last b mod 16 = 0 ->
  Inv al (set_retain (retain s) (Some (mb_addr b)) s).
Proof. intros [] Hb Hm. split; try done. cbn. intros a [= <-]. by exists b. Qed.

(** [current_block] leaves memory and allocations alone, and yields the head block
    with room for the request. *)
Lemma wp_current_block al size (Q : MemBlock -> BlockAllocator -> Prop) s :
  Inv al s -> 0 <= size -> size + SIZEOF_SIZE_T < isolation_threshold s ->
  (forall b s', Inv al s' -> b ∈ retain s' -> mb_last b + SIZEOF_SIZE_T + size <= mb_end b ->
    mem s' = mem s -> Q b s') ->
  wp (current_block size) Q s.
Proof.
  intros HI Hpos Hs HQ. destruct (in_sizes _ _ HI) as [Hz1 Hz2]. unfold SIZEOF_SIZE_T in *.
  assert (Hnew : wp (b <- alloc_mem_block (block_size s);;
    modify (fun s => set_retain (retain s) (Some (mb_addr b)) s);; ret b) Q s).
  { apply wp_bind. eapply wp_alloc_mem_block; [done|lia|]. intros mb s' HI' [F1 F2 F3]. apply wp_bind, wp_modify, wp_ret.
    apply HQ; [|by left|unfold SIZEOF_SIZE_T; lia|done]. apply set_head; [done|by left|done]. }
  unfold current_block. apply wp_bind, wp_get. destruct (head_block s) as [b|] eqn:Eb; [|done].
  unfold SIZEOF_SIZE_T. rewrite wrap_s_small by lia. destruct (Z.ltb_spec (mb_end b - mb_last b) (size + 8)); [done|].
  destruct (head_block_spec _ _ _ HI Eb) as (Hb & _ & _).
  apply wp_ret, HQ; [done|done|unfold SIZEOF_SIZE_T; lia|done].
Qed.

(** What the allocation [q] holds. *)
Definition contents (s : BlockAllocator) (q : Z * Z) : str := load_bytes (mem s) q.1 (Z.to_nat q.2).

Definition unchanged (al : list (Z * Z)) (s s' : BlockAllocator) : Prop :=
  forall q, q ∈ al -> contents s' q = contents s q.

Lemma cut_unchanged al s b n last :
  Inv al s -> b ∈ retain s -> 0 <= n < 2 ^ 63 -> mb_last b + SIZEOF_SIZE_T + n <= mb_end b ->
  unchanged al s (cut b n last s).
Proof. intros HI Hb Hn Hr q Hq. by apply (cut_load al s b n last HI Hb Hn Hr q). Qed.

(** The tail of both paths of [alloc]. *)
Lemma wp_cut al b n last r (Q : Z -> BlockAllocator -> Prop) s :
  Inv al s -> b ∈ retain s -> 0 <= n < 2 ^ 63 -> mb_last b + SIZEOF_SIZE_T + n <= mb_end b ->
  Q r (cut b n last s) ->
  wp (write_size (mb_last b) n;; update_last (mb_addr b) last;; ret r) Q s.
Proof.
  intros HI Hb Hn Hr HQ. apply wp_bind. pose proof (in_blocks _ _ HI) as Hok. rewrite Forall_forall in Hok.
  destruct (Hok _ Hb). apply wp_write.
  - apply accessible_in with b; [done|done|]. rewrite le_bytes_length. unfold SIZEOF_SIZE_T in *. lia.
  - by apply wp_bind, wp_modify, wp_ret.
Qed.

Lemma new_not_head al s mb :
  Inv al s -> Inv al (set_retain (mb :: retain s) (head s) s) -> head s <> Some (mb_addr mb).
Proof.
  intros HI HI' E. destruct (in_head _ _ HI _ E) as (c & Hc & Ec & _).
  pose proof (in_apart _ _ HI') as Hap. pose proof (in_blocks _ _ HI') as Hok. cbn in Hap, Hok.
  inversion Hap as [|? ? Hx _]; subst. rewrite Forall_map, Forall_forall in Hx. rewrite Forall_cons, Forall_forall in Hok.
  destruct Hok as [[] Hok]. destruct (Hok _ Hc). specialize (Hx _ Hc). unfold disjoint, span, SIZEOF_MEMBLOCK in *.
  cbn in Hx. lia.
Qed.

Lemma wp_alloc al size (Q : Z -> BlockAllocator -> Prop) s :
  Inv al s -> 0 <= size < 2 ^ 62 ->
  (forall p n s', size <= n <= Z.max 16 size -> Inv ((p, n) :: al) s' -> unchanged al s s' -> Q p s') ->
  wp (alloc size) Q s.
Proof.
  intros HI Hs HQ. unfold alloc. apply wp_bind, wp_get. destruct (in_sizes _ _ HI) as [Hz1 Hz2].
  rewrite wrap_u_small by (unfold SIZEOF_SIZE_T; lia). destruct (Z.leb_spec (isolation_threshold s) (size + SIZEOF_SIZE_T)) as [Hi|Hi].
  - cbv zeta. rewrite wrap_u_small by (unfold SIZEOF_SIZE_T; lia). set (len := Z.max 16 size).
    apply wp_bind. eapply wp_alloc_mem_block; [done|unfold SIZEOF_SIZE_T; lia|]. intros mb s' HI' [F1 F2 F3]. rewrite <- F1 in F2 |- *.
    assert (Hb : mb ∈ retain s') by by left.
    eapply wp_cut; [done|done|lia|lia|]. apply HQ with len; [lia| |].
    + apply cut_Inv; [done|done|lia|lia|lia|]. intros E. by destruct (new_not_head al s mb HI HI').
    + by apply (cut_unchanged al s' mb); try lia.
  - apply wp_bind. eapply wp_current_block; [done|lia|done|]. intros b s' HI' Hb Hr Em.
    eapply wp_cut; [done|done|lia|done|]. pose proof (in_blocks _ _ HI') as Hok. rewrite Forall_forall in Hok. destruct (Hok _ Hb).
    destruct (align16_spec (mb_last b + SIZEOF_SIZE_T + size)); [unfold SIZEOF_SIZE_T, SIZEOF_MEMBLOCK in *; lia|].
    apply HQ with size; [lia| |].
    + apply cut_Inv; [done|done|lia|done|lia|done].
    + pose proof (cut_unchanged al s' b size (align16 (mb_last b + SIZEOF_SIZE_T + size)) HI' Hb ltac:(lia) Hr) as Hu.
      intros q Hq. rewrite (Hu q Hq). unfold contents. by rewrite Em.
Qed.

(** ** Writing into an allocation *)

Lemma head_not_in p al s : Inv (p :: al) s -> p ∉ al.
Proof.
  intros HI Hp. pose proof (in_regions _ _ HI) as Hr. cbn in Hr. inversion Hr as [|? ? Hx _]; subst.
  rewrite Forall_map, Forall_forall in Hx. pose proof (in_held _ _ HI) as Hh. apply Forall_cons in Hh as [[Hn _] _].
  destruct (Hx _ Hp); unfold region, SIZEOF_SIZE_T in *; cbn in *; lia.
Qed.

Lemma held_accessible al s q a k :
  Inv al s -> q ∈ al -> q.1 - SIZEOF_SIZE_T <= a -> a + k <= q.1 + q.2 -> accessible s a k = true.
Proof.
  intros HI Hq Ha Hk. pose proof (in_held _ _ HI) as Hh. rewrite Forall_forall in Hh.
  destruct (Hh _ Hq) as [_ (b & Hb & H1 & H2 & H3)]. apply accessible_in with b; [done|lia|lia].
Qed.

(** A write inside an allocation keeps the invariant and every other allocation. *)
Lemma write_Inv al q a l s :
  Inv al s -> q ∈ al -> q.1 <= a -> a + Z.of_nat (length l) <= q.1 + q.2 ->
  let s' := set_mem (store_bytes a l (mem s)) s in
  Inv al s' /\ (forall r, r ∈ al -> r <> q -> contents s' r = contents s r).
Proof.
  intros HI Hq Ha Hk s'. pose proof (in_held _ _ HI) as Hh. rewrite Forall_forall in Hh.
  pose proof (Hh _ Hq) as [Hq0 _].
  assert (Hload : forall r, r ∈ al -> size_at (mem s') r.1 = size_at (mem s) r.1 /\ (r <> q -> contents s' r = contents s r)).
  { intros r Hr. pose proof (Hh _ Hr) as [Hr0 _]. unfold size_at, contents. cbn [mem s' set_mem].
    destruct (pairs_elem _ _ _ _ (in_regions _ _ HI) Hr Hq) as [->|Hd].
    - split; [|done]. f_equal. apply load_store_apart. unfold SIZEOF_SIZE_T. lia.
    - unfold disjoint, region, SIZEOF_SIZE_T in *. cbn in Hd. split; [f_equal|intros _]; apply load_store_apart; lia. }
  split; [|intros r Hr; by apply Hload]. destruct HI as [? ? ? ? ? ? Hl]. split; try done.
  rewrite Forall_forall in Hl |- *. intros r Hr. rewrite <- (Hl _ Hr). by apply Hload.
Qed.

Lemma store_insert_comm a c b l m : a < b -> <[a := c]> (store_bytes b l m) = store_bytes b l (<[a := c]> m).
Proof.
  revert b. induction l as [|d l IH]; intros b Hb; cbn; [done|]. rewrite insert_insert_ne by lia. f_equal. apply IH. lia.
Qed.

Lemma store_app a l k m : store_bytes a (l ++ k) m = store_bytes (a + Z.of_nat (length l)) k (store_bytes a l m).
Proof.
  revert a. induction l as [|c l IH]; intros a; cbn [app store_bytes length]; [by rewrite Z.add_0_r|].
  rewrite IH, store_insert_comm by lia. f_equal. lia.
Qed.

Lemma wp_concat_copy al q (args : list str) p (Q : Z -> BlockAllocator -> Prop) s :
  Inv al s -> q ∈ al -> q.1 <= p -> p + Z.of_nat (length (concat args)) <= q.1 + q.2 ->
  Q (p + Z.of_nat (length (concat args))) (set_mem (store_bytes p (concat args) (mem s)) s) ->
  wp (concat_string_ref_copy p args) Q s.
Proof.
  revert p s. induction args as [|v args IH]; intros p s HI Hq Hp Hl HQ; cbn [concat_string_ref_copy concat] in *.
  - cbn in HQ. rewrite Z.add_0_r in HQ. apply wp_ret. by destruct s.
  - rewrite length_app, Nat2Z.inj_add in *. apply wp_bind, wp_write.
    { eapply held_accessible; [done|done|unfold SIZEOF_SIZE_T; lia|lia]. }
    pose proof (write_Inv al q p v s HI Hq Hp ltac:(lia)) as [HI' _]. apply IH; [done|done|lia|lia|].
    rewrite store_app, Z.add_assoc in HQ. done.
Qed.

Lemma concat_count_spec (args : list str) acc : 0 <= acc -> acc + Z.of_nat (length (concat args)) < 2 ^ 64 ->
  fold_left (fun acc v => wrap_u 64 (acc + Z.of_nat (length v))) args acc = acc + Z.of_nat (length (concat args)).
Proof.
  revert acc. induction args as [|v args IH]; intros acc Ha Hl; cbn [fold_left concat] in *; [cbn; lia|].
  rewrite length_app in *. rewrite wrap_u_small by lia. rewrite IH; lia.
Qed.

(** The terminated string [l] at [p]. *)
Definition string_at (s : BlockAllocator) (p : Z) (l : str) : Prop := load_bytes (mem s) p (length l + 1) = l ++ [zero].

Lemma string_at_stored s p l k : string_at (set_mem (store_bytes (p + Z.of_nat (length k)) (l ++ [zero]) (mem s)) s) p (k ++ l)
  <-> load_bytes (mem s) p (length k) = k.
Proof.
  unfold string_at. cbn [mem set_mem]. rewrite length_app, <- Nat.add_assoc, load_app.
  rewrite load_store_apart by lia. replace (length l + 1)%nat with (length (l ++ [zero])) by (rewrite length_app; cbn; lia).
  rewrite load_store, app_assoc. split; [|by intros ->]. intros [E _]%app_inj_2; [|done].
  by apply app_inj_2 in E as [? _].
Qed.

(** The copy and the terminator, the common tail of the string functions. *)
Lemma wp_concat_tail al q (args : list str) k (Q : Z * Z -> BlockAllocator -> Prop) s r :
  Inv al s -> q ∈ al -> Z.of_nat (length k + length (concat args)) + 1 <= q.2 -> load_bytes (mem s) q.1 (length k) = k ->
  (forall s', Inv al s' -> string_at s' q.1 (k ++ concat args) ->
    (forall r, r ∈ al -> r <> q -> contents s' r = contents s r) -> Q r s') ->
  wp (p <- concat_string_ref_copy (q.1 + Z.of_nat (length k)) args;; write p [zero];; ret r) Q s.
Proof.
  intros HI Hq Hl Hk HQ. apply wp_bind. eapply wp_concat_copy; [done|done|lia|lia|].
  set (a := q.1 + Z.of_nat (length k)). apply wp_bind, wp_write.
  { eapply (held_accessible al _ q); [by eapply write_Inv; [|done|lia|lia]|done|unfold SIZEOF_SIZE_T; lia|cbn; lia]. }
  cbn [mem set_mem]. rewrite <- store_app. apply wp_ret.
  replace (set_mem (store_bytes a (concat args ++ [zero]) (mem s)) (set_mem (store_bytes a (concat args) (mem s)) s))
    with (set_mem (store_bytes a (concat args ++ [zero]) (mem s)) s) by done.
  destruct (write_Inv al q a (concat args ++ [zero]) s) as [HI' Hu]; [done|done|lia|rewrite length_app; cbn; lia|].
  apply HQ; [done|by apply string_at_stored|done].
Qed.

(** ** The operations *)

Lemma contents_prefix s p n k : (k <= Z.to_nat n)%nat -> take k (contents s (p, n)) = load_bytes (mem s) p k.
Proof.
  intros Hk. unfold contents. cbn [fst snd]. replace (Z.to_nat n) with (k + (Z.to_nat n - k))%nat by lia.
  rewrite load_app, take_app_le, take_ge; [done|by rewrite load_length|by rewrite load_length].
Qed.

Lemma held_positive al s q : Inv al s -> q ∈ al -> 0 < q.1 /\ 0 <= q.2.
Proof.
  intros HI Hq. pose proof (in_held _ _ HI) as Hh. rewrite Forall_forall in Hh.
  destruct (Hh _ Hq) as [Hn (b & Hb & H1 & _)]. pose proof (in_blocks _ _ HI) as Hok. rewrite Forall_forall in Hok.
  destruct (Hok _ Hb). unfold SIZEOF_SIZE_T, SIZEOF_MEMBLOCK in *. lia.
Qed.

Lemma wp_get_alloc_length al p n (Q : Z -> BlockAllocator -> Prop) s :
  Inv al s -> (p, n) ∈ al -> Q n s -> wp (get_alloc_length p) Q s.
Proof.
  intros HI Hp HQ. unfold get_alloc_length, read_size. apply wp_bind.
  pose proof (in_lengths _ _ HI) as Hl. rewrite Forall_forall in Hl. specialize (Hl _ Hp). cbn [fst snd] in Hl.
  destruct (held_positive _ _ _ HI Hp) as [_ Hn]. apply wp_read.
  - eapply held_accessible; [done|done|cbn; lia|]. unfold SIZEOF_SIZE_T. cbn in *. lia.
  - apply wp_ret. unfold size_at in Hl. by rewrite Hl.
Qed.

(** [realloc] yields an allocation of at least [size] bytes that starts with what
    the old one held: the old one, or a new one. *)
Lemma wp_realloc al p n size (Q : Z -> BlockAllocator -> Prop) s :
  Inv al s -> (p, n) ∈ al -> n < 2 ^ 61 -> 0 <= size < 2 ^ 61 ->
  (size <= n -> Q p s) ->
  (forall q m s', n < size -> size <= m <= 2 * size + 16 -> Inv ((q, m) :: al) s' -> unchanged al s s' ->
     load_bytes (mem s') q (Z.to_nat n) = contents s (p, n) -> Q q s') ->
  wp (realloc p size) Q s.
Proof.
  intros HI Hp Hn Hs HQ1 HQ2. destruct (held_positive _ _ _ HI Hp) as [Hp0 Hn0]. cbn in Hp0, Hn0.
  unfold realloc. destruct (Z.eqb_spec p 0); [lia|]. apply wp_bind. eapply wp_get_alloc_length; [done|done|].
  destruct (Z.leb_spec size n); [by apply wp_ret, HQ1|]. apply wp_bind. rewrite !wrap_u_small by lia.
  eapply wp_alloc; [done|lia|]. intros q m s' Hm HI' Hu. assert (Hp' : (p, n) ∈ (q, m) :: al) by by right.
  assert (Hq : (q, m) ∈ (q, m) :: al) by by left.
  apply wp_bind, wp_read; [eapply (held_accessible _ _ (p, n)); [done|done|unfold SIZEOF_SIZE_T; cbn; lia|cbn; lia]|].
   change (load_bytes (mem s') p (Z.to_nat n)) with (contents s' (p, n)). rewrite (Hu _ Hp).
  pose proof (load_length (mem s) p (Z.to_nat n)) as El. change (load_bytes (mem s) p (Z.to_nat n)) with (contents s (p, n)) in El.
  destruct (write_Inv _ (q, m) q (contents s (p, n)) s' HI' Hq) as [HI'' Hu'']; [done|cbn; lia|].
  apply wp_bind, wp_write; [eapply held_accessible; [done|done|unfold SIZEOF_SIZE_T; cbn; lia|cbn; lia]|].
  apply wp_ret, HQ2 with m; [lia|lia|done| |].
  - intros r Hr. rewrite <- (Hu _ Hr). apply Hu''; [by right|]. intros ->.
    by apply (head_not_in _ _ _ HI').
  - cbn [mem set_mem]. rewrite <- El at 1. apply load_store.
Qed.

Lemma wp_concat_string_ref al (args : list str) (Q : Z * Z -> BlockAllocator -> Prop) s :
  let len := Z.of_nat (length (concat args)) in
  Inv al s -> len < 2 ^ 60 ->
  (forall p n s', len + 1 <= n <= len + 17 -> Inv ((p, n) :: al) s' -> string_at s' p (concat args) -> unchanged al s s' ->
     Q (p, len) s') ->
  wp (concat_string_ref args) Q s.
Proof.
  intros len HI Hl HQ. unfold concat_string_ref, concat_string_ref_count. rewrite concat_count_spec by lia.
  rewrite Z.add_0_l. fold len. rewrite wrap_u_small by lia. apply wp_bind. eapply wp_alloc; [done|lia|].
  intros p n s' Hn HI' Hu. replace p with ((p, n).1 + Z.of_nat (@length ascii [])) at 1 by (cbn; lia).
  eapply wp_concat_tail with (al := (p, n) :: al); [done|by left|cbn; lia|done|]. intros s'' HI'' Hs'' Hu''.
  apply HQ with n; [lia|done|done|].  intros r Hr.
  rewrite <- (Hu _ Hr). apply Hu''; [by right|]. intros ->. by apply (head_not_in _ _ _ HI').
Qed.

(** [make_string_ref] is [concat_string_ref] of one string. *)
Lemma make_string_ref_concat src s :
  Z.of_nat (length src) < 2 ^ 64 -> make_string_ref src s = concat_string_ref [src] s.
Proof.
  intros Hl. unfold make_string_ref, concat_string_ref, concat_string_ref_count. cbn [fold_left].
  rewrite Z.add_0_l, !(wrap_u_small 64 (Z.of_nat (length src))) by lia. unfold bind. destruct (alloc _ _) as [p s'|e]; [|done].
  cbn [concat_string_ref_copy]. unfold bind. by destruct (write p src s').
Qed.

Lemma wp_realloc_concat_string_ref al p n (k : str) (args : list str) (Q : Z * Z -> BlockAllocator -> Prop) s :
  let len := Z.of_nat (length (k ++ concat args)) in
  Inv al s -> (p, n) ∈ al -> string_at s p k -> Z.of_nat (length k) + 1 <= n < 2 ^ 61 -> len < 2 ^ 60 ->
  (forall q m al' s', len + 1 <= m <= Z.max n (2 * len + 18) -> al' = al /\ (q, m) = (p, n) \/ al' = (q, m) :: al -> Inv al' s' ->
     string_at s' q (k ++ concat args) -> (forall r, r ∈ al -> r <> (p, n) -> contents s' r = contents s r) -> Q (q, len) s') ->
  wp (realloc_concat_string_ref (p, Z.of_nat (length k)) args) Q s.
Proof.
  intros len HI Hp Hk Hn Hl HQ. unfold len in *. rewrite length_app, Nat2Z.inj_add in *. unfold realloc_concat_string_ref. cbn [fst snd].
  assert (Hk' : load_bytes (mem s) p (length k) = k).
  { unfold string_at in Hk. rewrite load_app in Hk. by apply app_inj_2 in Hk as [? _]. }
  destruct (Z.eqb_spec (Z.of_nat (length k)) 0) as [E|E].
  - destruct k; [|done]. cbn [length app] in *. eapply wp_concat_string_ref; [done|lia|]. intros q m s' Hm HI' Hs' Hu.
     eapply HQ; [|by right|done|done|]; [lia|]. intros r Hr _. by apply Hu.
  - unfold concat_string_ref_count. rewrite concat_count_spec by lia. rewrite Z.add_0_l, (wrap_u_small 64 (Z.of_nat (length k) + _)), (wrap_u_small 64 (_ + 1)) by lia.
    apply wp_bind. eapply wp_realloc; [done|done|lia|lia| |].
    + intros Hle. eapply (wp_concat_tail al (p, n)); [done|done|cbn; lia|done|]. intros s' HI' Hs' Hu.
      eapply HQ; [|by left|done|done|done]. lia.
    + intros q m s' Hlt Hm HI' Hu Hq. 
      eapply (wp_concat_tail ((q, m) :: al) (q, m)); [done|by left|cbn; lia| |].
      * cbn. rewrite <- (contents_prefix s' q n) by lia. unfold contents. cbn [fst snd]. rewrite Hq, contents_prefix by lia. done.
      * intros s'' HI'' Hs'' Hu''. eapply HQ; [|by right|done|done|]; [lia|]. intros r Hr _. rewrite <- (Hu _ Hr).
        apply Hu''; [by right|]. intros ->. by apply (head_not_in _ _ _ HI').
Qed.

(** ** Sequences of string operations *)

(** Strings are made, concatenated, or extended in place.  [op_append i] uses up the
    reference [i]: its bytes may be overwritten by the longer string. *)
Inductive string_op :=
  | op_make (src : str)
  | op_concat (args : list str)
  | op_append (i : nat) (args : list str).

Definition op_size (o : string_op) : nat :=
  match o with op_make src => length src | op_concat args | op_append _ args => length (concat args) end.

(** The specification: a store of strings that are never touched by each other. *)
Definition abs_op (o : string_op) (ss : list (option str)) : list (option str) :=
  match o with
  | op_make src => ss ++ [Some src]
  | op_concat args => ss ++ [Some (concat args)]
  | op_append i args =>
    match ss !! i with Some (Some k) => <[i := None]> ss ++ [Some (k ++ concat args)] | _ => ss end
  end.

Definition run_op (o : string_op) (hs : list (option (Z * Z))) : M (list (option (Z * Z))) :=
  match o with
  | op_make src => r <- make_string_ref src;; ret (hs ++ [Some r])
  | op_concat args => r <- concat_string_ref args;; ret (hs ++ [Some r])
  | op_append i args =>
    match hs !! i with
    | Some (Some r) => r' <- realloc_concat_string_ref r args;; ret (<[i := None]> hs ++ [Some r'])
    | _ => ret hs
    end
  end.

Fixpoint run_ops (os : list string_op) (hs : list (option (Z * Z))) : M (list (option (Z * Z))) :=
  match os with
  | [] => ret hs
  | o :: os => hs' <- run_op o hs;; run_ops os hs'
  end.

(** The reference [h] stands for the string [k]: an allocation holds it, terminated. *)
Definition represents (al : list (Z * Z)) (s : BlockAllocator) (h : option (Z * Z)) (k : option str) : Prop :=
  match h, k with
  | None, None => True
  | Some (p, l), Some k => l = Z.of_nat (length k) /\ exists n, (p, n) ∈ al /\ l + 1 <= n <= 2 * l + 18 /\ string_at s p k
  | _, _ => False
  end.

Record store_ok (al : list (Z * Z)) (total : nat) (hs : list (option (Z * Z))) (ss : list (option str))
    (s : BlockAllocator) : Prop := {
  so_inv : Inv al s;
  so_represents : Forall2 (represents al s) hs ss;
  so_sizes : forall i k, ss !! i = Some (Some k) -> (length k <= total)%nat;
  so_distinct : forall i j p l l', hs !! i = Some (Some (p, l)) -> hs !! j = Some (Some (p, l')) -> i = j;
}.

Lemma same_address al s q r : Inv al s -> q ∈ al -> r ∈ al -> q.1 = r.1 -> q = r.
Proof.
  intros HI Hq Hr E. destruct (pairs_elem _ _ _ _ (in_regions _ _ HI) Hq Hr) as [|Hd]; [done|].
  destruct (held_positive _ _ _ HI Hq), (held_positive _ _ _ HI Hr). unfold disjoint, region, SIZEOF_SIZE_T in Hd. cbn in Hd. lia.
Qed.

Lemma string_at_kept s s' p n k :
  contents s' (p, n) = contents s (p, n) -> Z.of_nat (length k) + 1 <= n -> string_at s p k -> string_at s' p k.
Proof. intros E Hn. unfold string_at. by rewrite <- !(contents_prefix _ p n), E by lia. Qed.

(** A reference is used up. *)
Lemma store_drop al total hs ss s i :
  store_ok al total hs ss s -> store_ok al total (<[i := None]> hs) (<[i := None]> ss) s.
Proof.
  intros [HI Hr Hs Hd]. split; [done|by apply Forall2_insert| |].
  - intros j k [[_ [[=] _]]|[_ E]]%list_lookup_insert_Some. by apply (Hs j).
  - intros j j' p l l' [[_ [[=] _]]|[_ E]]%list_lookup_insert_Some [[_ [[=] _]]|[_ E']]%list_lookup_insert_Some. by eapply Hd.
Qed.

(** A reference is added, and the allocations of the others keep their contents. *)
Lemma store_push al al' total total' hs ss s s' q m k :
  store_ok al total hs ss s -> Inv al' s' -> al ⊆ al' -> (total <= total')%nat -> (length k <= total')%nat ->
  (q, m) ∈ al' -> Z.of_nat (length k) + 1 <= m <= 2 * Z.of_nat (length k) + 18 -> string_at s' q k ->
  (forall i p l n, hs !! i = Some (Some (p, l)) -> (p, n) ∈ al -> p <> q /\ contents s' (p, n) = contents s (p, n)) ->
  store_ok al' total' (hs ++ [Some (q, Z.of_nat (length k))]) (ss ++ [Some k]) s'.
Proof.
  intros [HI Hr Hs Hd] HI' Hal Ht Hk Hq Hm Hsq Hother. split; [done| | |].
  - apply Forall2_app; [|constructor; [|done]; split; [done|by exists m]].
    apply Forall2_same_length_lookup. rewrite Forall2_same_length_lookup in Hr. destruct Hr as [El Hr]. split; [done|].
    intros i [[p l]|] [k'|] Eh Es; specialize (Hr _ _ _ Eh Es); try done. cbn in *. destruct Hr as [-> (n & Hn & Hb & Hsn)].
    split; [done|]. exists n. split; [by apply Hal|split; [done|]]. destruct (Hother _ _ _ _ Eh Hn) as [_ Hc].
    by eapply string_at_kept; [done|lia|].
  - intros i k' [E|[_ E]]%lookup_app_Some; [specialize (Hs _ _ E); lia|]. apply list_lookup_singleton_Some in E as [_ [= <-]]. done.
  - assert (Hnew : forall i l, hs !! i = Some (Some (q, l)) -> False).
    { intros i l E. destruct (Forall2_lookup_l _ _ _ _ _ Hr E) as ([k'|] & _ & Hk'); [|done].
      destruct Hk' as [_ (n & Hn & _)]. by destruct (Hother _ _ _ _ E Hn). }
    intros i j p l l' [E|[Hi E]]%lookup_app_Some [E'|[Hj E']]%lookup_app_Some; [by eapply Hd| | |];
      repeat match goal with H : [_] !! _ = Some _ |- _ => apply list_lookup_singleton_Some in H as [? [= ? ?]]; subst end;
      [by destruct (Hnew _ _ E)|by destruct (Hnew _ _ E')|].
    apply list_lookup_singleton_Some in E as [? _]. lia.
Qed.

(** A new allocation is apart from every reference. *)
Lemma fresh_reference al s q m p n : Inv ((q, m) :: al) s -> (p, n) ∈ al -> p <> q.
Proof.
  intros HI Hp ->. assert ((q, n) = (q, m)) as [= ->] by (eapply same_address; [done|by right|by left|done]).
  by apply (head_not_in _ _ _ HI).
Qed.

Lemma store_total al total total' hs ss s : (total <= total')%nat -> store_ok al total hs ss s -> store_ok al total' hs ss s.
Proof. intros Ht [HI Hr Hs Hd]. split; [done|done| |done]. intros i k E. specialize (Hs _ _ E). lia. Qed.

Lemma run_concat_spec al total hs ss s (args : list str) :
  store_ok al total hs ss s -> Z.of_nat (total + length (concat args)) < 2 ^ 59 ->
  wp (r <- concat_string_ref args;; ret (hs ++ [Some r]))
    (fun hs' s' => exists al', store_ok al' (total + length (concat args)) hs' (ss ++ [Some (concat args)]) s') s.
Proof.
  intros Hok Ht. apply wp_bind. eapply wp_concat_string_ref; [apply Hok|lia|]. intros q m s' Hm HI' Hs' Hu.
  apply wp_ret. exists ((q, m) :: al). eapply store_push; [done|done|by intros ? ?; right|lia|lia|by left|lia|done|].
  intros i p l n _ Hp. split; [by eapply fresh_reference|by apply Hu].
Qed.

Lemma run_append_spec al total hs ss s i r k (args : list str) :
  store_ok al total hs ss s -> Z.of_nat (total + length (concat args)) < 2 ^ 59 ->
  hs !! i = Some (Some r) -> ss !! i = Some (Some k) ->
  wp (r' <- realloc_concat_string_ref r args;; ret (<[i := None]> hs ++ [Some r']))
    (fun hs' s' => exists al', store_ok al' (total + length (concat args)) hs' (<[i := None]> ss ++ [Some (k ++ concat args)]) s') s.
Proof.
  intros Hok Ht Eh Es. pose proof (so_sizes _ _ _ _ _ Hok _ _ Es) as Hlk. pose proof (length_app k (concat args)) as Hla.
  pose proof (so_represents _ _ _ _ _ Hok) as Hr. rewrite Forall2_lookup in Hr. specialize (Hr i). rewrite Eh, Es in Hr.
  inversion Hr as [? ? Hr'|]; subst. destruct r as [p l]. destruct Hr' as [-> (n & Hn & Hb & Hsn)].
  assert (Hother : forall j p' l' n', <[i:=None]> hs !! j = Some (Some (p', l')) -> (p', n') ∈ al -> p' <> p).
  { intros j p' l' n' [[_ [[=] _]]|[Hne E]]%list_lookup_insert_Some _ ->. apply Hne. by eapply (so_distinct _ _ _ _ _ Hok). }
  apply wp_bind. eapply wp_realloc_concat_string_ref; [apply Hok|done|done|lia|lia|].
  intros q m al' s' Hm Hal HI' Hs' Hu. apply wp_ret. exists al'.
  eapply (store_push al al' total _ _ _ s s' q m); [by apply store_drop|done| |lia|lia| |lia|done|].
  - destruct Hal as [[-> _]| ->]; [done|by intros ? ?; right].
  - destruct Hal as [[-> ->]| ->]; [done|by left].
  - intros j p' l' n' E Hp'. specialize (Hother _ _ _ _ E Hp'). split; [|by apply Hu; [|intros [= ? ?]]].
    destruct Hal as [[_ Eq]| ->]; [by injection Eq as -> ->|by eapply fresh_reference].
Qed.

Lemma run_op_spec al total hs ss s o :
  store_ok al total hs ss s -> Z.of_nat (total + op_size o) < 2 ^ 59 ->
  wp (run_op o hs) (fun hs' s' => exists al', store_ok al' (total + op_size o) hs' (abs_op o ss) s') s.
Proof.
  intros Hok Ht. destruct o as [src|args|i args]; cbn [run_op abs_op op_size] in *.
  - pose proof (run_concat_spec al total hs ss s [src] Hok) as Hc. cbn [concat] in Hc. rewrite app_nil_r in Hc.
    specialize (Hc Ht). unfold wp, bind in *. by rewrite make_string_ref_concat by lia.
  - by apply (run_concat_spec al).
  - pose proof (so_represents _ _ _ _ _ Hok) as Hr. rewrite Forall2_lookup in Hr. specialize (Hr i).
    destruct (hs !! i) as [[r|]|] eqn:Eh; inversion Hr as [? y Hy Ey|]; subst.
    + destruct r as [p l], y as [k|]; [|done]. by apply (run_append_spec al).
    + destruct y; [done|]. apply wp_ret. exists al. eapply store_total; [|done]. lia.
    + apply wp_ret. exists al. eapply store_total; [|done]. lia.
Qed.

Lemma run_ops_spec os al total hs ss s :
  store_ok al total hs ss s -> Z.of_nat (total + list_sum (map op_size os)) < 2 ^ 59 ->
  wp (run_ops os hs) (fun hs' s' => exists al' total', store_ok al' total' hs' (fold_left (fun ss o => abs_op o ss) os ss) s') s.
Proof.
  revert al total hs ss s. induction os as [|o os IH]; intros al total hs ss s Hok Ht; unfold list_sum in *; cbn [run_ops fold_left map fold_right] in *.
  - apply wp_ret. by exists al, total.
  - apply wp_bind. eapply wp_mono; [apply (run_op_spec al total); [done|lia]|]. intros hs' s' [al' Hok'].
    apply (IH al' (total + op_size o)%nat); [done|lia].
Qed.

Lemma new_allocator_Inv block_size isolation_threshold s :
  new_allocator block_size isolation_threshold = Some s -> 0 <= isolation_threshold -> 0 <= block_size < 2 ^ 62 -> Inv [] s.
Proof.
  unfold new_allocator. case_match eqn:E; [|done]. apply Z.leb_le in E. intros [= <-] Ht Hb.
  split; cbn; try done; [constructor|lia|constructor].
Qed.

(** C16. Allocation is safe: when the allocations [al] made so far lie in the
    blocks, apart from each other, then [alloc] yields one of at least the requested
    size that is apart from all of them and inside a block, and changes the contents
    of none; the only failure is that [new] throws. *)
Theorem alloc_spec al s size :
  Inv al s -> 0 <= size < 2 ^ 62 ->
  match alloc size s with
  | Done p s' => exists n, size <= n /\ Inv ((p, n) :: al) s' /\ forall q, q ∈ al -> contents s' q = contents s q
  | Failed e => e = out_of_memory
  end.
Proof. intros HI Hs. apply (wp_alloc al); [done|done|]. intros p n s' Hn HI' Hu. exists n. split; [lia|done]. Qed.

(** C15. The allocator refines a store of strings: after any sequence of
    [make_string_ref], [concat_string_ref] and [realloc_concat_string_ref] (each
    consuming the reference it extends) on a fresh allocator, every reference that
    was not consumed reads back, terminated, the string that the specification has
    in its place, whatever was written for the others; no access leaves the blocks,
    and the only failure is that [new] throws. *)
Theorem strings_refine block_size isolation_threshold s os :
  new_allocator block_size isolation_threshold = Some s -> 0 <= isolation_threshold -> 0 <= block_size < 2 ^ 62 ->
  Z.of_nat (list_sum (map op_size os)) < 2 ^ 59 ->
  match run_ops os [] s with
  | Done hs s' =>
    Forall2 (fun h k => match h, k with
      | Some (p, l), Some k => l = Z.of_nat (length k) /\ load_bytes (mem s') p (length k + 1) = k ++ [zero]
      | None, None => True
      | _, _ => False
      end) hs (fold_left (fun ss o => abs_op o ss) os [])
  | Failed e => e = out_of_memory
  end.
Proof.
  intros Es Ht Hb Hos. assert (HI : Inv [] s) by by eapply new_allocator_Inv.
  assert (Hok : store_ok [] 0 [] [] s) by (split; [done|by apply Forall2_nil_2|by intros i k E; rewrite lookup_nil in E|by intros i j p l l' E; rewrite lookup_nil in E]).
  pose proof (run_ops_spec os [] 0 [] [] s Hok Hos) as Hw. unfold wp in Hw. destruct (run_ops os [] s) as [hs s'|e]; [|done].
  destruct Hw as (al' & total' & Hok'). eapply Forall2_impl; [apply (so_represents _ _ _ _ _ Hok')|].
  intros [[p l]|] [k|] Hr; try done. destruct Hr as [-> (n & _ & _ & Hk)]. by split.
Qed.

Lemma delete_blocks_spec l d : delete_blocks l d = d ++ map mb_addr l.
Proof. revert d. induction l as [|b l IH]; intros d; cbn; [by rewrite app_nil_r|]. by rewrite IH, <- app_assoc. Qed.

Lemma addr_NoDup al s : Inv al s -> NoDup (map mb_addr (retain s)).
Proof.
  intros [Hok Hap _ _ _ _ _]. induction (retain s) as [|b l IH]; cbn in *; [constructor|].
  apply Forall_cons in Hok as [[] Hok]. inversion Hap as [|? ? Hx Hap']; subst. constructor; [|by apply IH].
  intros (c & E & Hc)%list_elem_of_fmap. rewrite Forall_map, Forall_forall in Hx. rewrite Forall_forall in Hok.
  destruct (Hok _ Hc). specialize (Hx _ Hc). unfold disjoint, span, SIZEOF_MEMBLOCK in *. cbn in Hx. lia.
Qed.

(** Resetting, the destructor and a move: each block is handed to [delete[]]
    exactly once.  [reset] deletes every block it retained and leaves an allocator
    without allocations; the move assignment deletes the blocks of the target and
    hands over those of the source with their allocations, and leaves the source
    empty. *)
Theorem move_assign_spec al al' s other :
  Inv al s -> Inv al' other ->
  let '(s', other') := move_assign s other in
  Inv al' s' /\ (forall q, contents s' q = contents other q) /\ deleted s' = deleted s ++ map mb_addr (retain s)
  /\ NoDup (map mb_addr (retain s)) /\ Inv [] other' /\ retain other' = [] /\ head_block other' = None.
Proof.
  intros HI HI'. cbn. rewrite delete_blocks_spec. split; [by destruct HI'|]. split; [done|]. split; [done|].
  split; [by eapply addr_NoDup|]. split; [|done]. split; cbn; try done; [constructor|apply (in_sizes _ _ HI')|constructor].
Qed.

End laws.

(** [bump_new] satisfies the laws of [new]. *)
Lemma top_of_bound l : 16 <= top_of l /\ Forall (fun p => p.1 + p.2 <= top_of l) l.
Proof.
  induction l as [|p l [IH1 IH2]]; [by split; [|constructor]|].
  change (top_of (p :: l)) with (Z.max (p.1 + p.2) (top_of l)). split; [lia|]. constructor; [lia|].
  eapply Forall_impl; [done|]. intros q Hq. cbn beta in Hq. lia.
Qed.

#[export] Instance bump_new_laws : @NewLaws bump_new.
Proof.
  split. intros l n a Hn. unfold new_array, bump_new. case_match eqn:E; [|done]. apply Z.ltb_lt in E. intros [= <-].
  destruct (top_of_bound l) as [H1 H2]. set (t := (top_of l + 15) / 16 * 16) in *.
  assert (top_of l <= t) by (unfold t; pose proof (Z.div_mod (top_of l + 15) 16); pose proof (Z.mod_pos_bound (top_of l + 15) 16); lia).
  split; [lia|split; [lia|split; [by apply Z.mod_mul|]]]. eapply Forall_impl; [done|]. intros p Hp. right. cbn in *. lia.
Qed.

(** ** Witnesses *)

Definition small : BlockAllocator := mk_alloc [] None 256 64 ∅ [].

Lemma small_Inv : Inv [] small.
Proof. by apply (new_allocator_Inv 256 64). Qed.

(** The first string is cut from a shared block; the second has a block of its own,
    and so has the copy of the first that [op_append] makes. *)
Example alloc_runs :
  match @run_ops bump_new [op_make (repeat (chr 97) 40); op_concat [repeat (chr 98) 30; repeat (chr 99) 69]; op_append 0 [[chr 100]]] [] small with
  | Done hs s => (hs, map span (retain s))
  | Failed _ => ([], [])
  end = ([None; Some (344, 99); Some (488, 41)],
        [(448, 122); (304, 140); (16, 288)]).
Proof. vm_compute. reflexivity. Qed.

Lemma alloc_spec_witness :
  match @alloc bump_new 40 small with
  | Done p s' => exists n, 40 <= n /\ Inv [(p, n)] s' /\ forall q, q ∈ @nil (Z * Z) -> contents s' q = contents small q
  | Failed e => e = out_of_memory
  end.
Proof. apply (@alloc_spec bump_new bump_new_laws [] small 40); [exact small_Inv|lia]. Defined.

Lemma strings_refine_witness :
  match @run_ops bump_new [op_make [chr 97]; op_append 0 [[chr 98]; [chr 99]]] [] small with
  | Done hs s' =>
    Forall2 (fun h k => match h, k with
      | Some (p, l), Some k => l = Z.of_nat (length k) /\ load_bytes (mem s') p (length k + 1) = k ++ [zero]
      | None, None => True
      | _, _ => False
      end) hs [None; Some [chr 97; chr 98; chr 99]]
  | Failed e => e = out_of_memory
  end.
Proof.
  apply (@strings_refine bump_new bump_new_laws 256 64 small [op_make [chr 97]; op_append 0 [[chr 98]; [chr 99]]]);
    [reflexivity|lia|lia|reflexivity].
Defined.

Lemma move_assign_spec_witness :
  let '(s', other') := move_assign small small in
  Inv [] s' /\ (forall q, contents s' q = contents small q) /\ deleted s' = [] /\ NoDup (map mb_addr (retain small))
  /\ Inv [] other' /\ retain other' = [] /\ head_block other' = None.
Proof. exact (move_assign_spec [] [] small small small_Inv small_Inv). Defined.

End allocator.
