(* ===== verification/AllocStrings.v ===== *)
(** * Strings in allocator memory: [path_join] of lib/http2.cc, [utos] and
    [make_string_ref_uint] of lib/util.h, [stringify_status] of lib/http2.cc and [create_html] of
    lib/asio_server_request_handler.cc

    These functions obtain their buffer from the block allocator and work on it
    through pointers.  Here they run on the memory of Allocator: pointers are
    addresses, every load and store is checked against the blocks, and the theorems
    show that each computes what the definitions on lists say (PathJoin, Util,
    Http2, ServeMux), inside the allocation it made, without touching another
    one. *)

From S2P Require Import Prelude Monad Util PathJoin Http2 Common ServeMux Allocator.

Module alloc_strings.
Import monad util http2_path allocator.
Local Open Scope monad_scope.
Local Abbreviation M := (monad.M BlockAllocator).

(** ** [path_join] *)

(** [*(base + i)] and [*(base + i) = c] *)
Definition load_at (base : Z) (i : nat) : M ascii := l <- read (base + Z.of_nat i) 1;; ret (hd zero l).
Definition store_at (base : Z) (i : nat) (c : ascii) : M unit := write (base + Z.of_nat i) [c].

(** The cursor [p] is an offset from [base]. *)
Definition put_at (base : Z) (p : nat) (c : ascii) : M nat := store_at base p c;; ret (S p).

Fixpoint copy_at (base : Z) (s : str) (p : nat) : M nat :=
  match s with
  | [] => ret p
  | c :: s => p <- put_at base p c;; copy_at base s p
  end.

Fixpoint scan_back_at (base : Z) (p : nat) : M nat :=
  match p with
  | O => ret O
  | S q => c <- load_at base q;; if negb (c =c "/"%char) then scan_back_at base q else ret p
  end.

Definition eat_file_at (base : Z) (last : nat) : M nat :=
  if (last =? 0)%nat then put_at base 0 "/"%char
  else
    c <- load_at base (last - 1);;
    if c =c "/"%char then ret last
    else
      p <- scan_back_at base last;;
      if (p =? 0)%nat then put_at base 0 "/"%char else ret p.

Definition eat_dir_at (base : Z) (last : nat) : M nat :=
  p <- eat_file_at base last;;
  match p with
  | O => fail memory_error
  | S p => c <- load_at base p;; assert_ (c =c "/"%char);; eat_file_at base p
  end.

Fixpoint join_loop_at (fuel : nat) (base : Z) (first : str) (p : nat) : M nat :=
  match first with
  | [] => ret p
  | _ :: _ =>
    match fuel with
    | O => fail memory_error
    | S fuel =>
      match classify first with
      | StepBreak => ret p
      | StepSkip rest => join_loop_at fuel base rest p
      | StepUpBreak => eat_dir_at base p
      | StepUp rest => p <- eat_dir_at base p;; join_loop_at fuel base rest p
      | StepCopy =>
        match p with
        | O => fail memory_error
        | S q =>
          c <- load_at base q;;
          p <- (if negb (c =c "/"%char) then eat_file_at base p else ret p);;
          match find_slash first with
          | (pre, None) => copy_at base pre p
          | (pre, Some post) =>
            p <- copy_at base (pre ++ ["/"%char]) p;; join_loop_at fuel base (skip_slashes post) p
          end
        end
      end
    end
  end.

(** [*p = '\0'; return StringRef{res.base, p};] *)
Definition finish_at (base : Z) (p : nat) : M (Z * Z) := store_at base p zero;; ret (base, Z.of_nat p).

Section users.
Context `{New}.

Definition path_join_at (base_path base_query rel_path rel_query : str) : M (Z * Z) :=
  res <- make_byte_ref (wrap_u 64 (Z.of_nat (path_join_size base_path base_query rel_path rel_query)));;
  let base := res.1 in
  match rel_path with
  | [] =>
    p <- (if base_path =s [] then put_at base 0 "/"%char else copy_at base base_path 0);;
    if rel_query =s [] then
      p <- (if negb (base_query =s []) then p <- put_at base p "?"%char;; copy_at base base_query p else ret p);;
      finish_at base p
    else p <- put_at base p "?"%char;; p <- copy_at base rel_query p;; finish_at base p
  | c :: rel' =>
    x <- (if c =c "/"%char then p <- put_at base 0 "/"%char;; ret (skip_slashes rel', p)
          else if base_path =s [] then p <- put_at base 0 "/"%char;; ret (rel_path, p)
          else p <- copy_at base base_path 0;; ret (rel_path, p));;
    p <- join_loop_at (length x.1) base x.1 x.2;;
    p <- (if negb (rel_query =s []) then p <- put_at base p "?"%char;; copy_at base rel_query p else ret p);;
    finish_at base p
  end.

(** ** Numbers *)

(** The loop of [utos(OutputIt dst, T n)]: [*--p = (n % 10) + '0'] *)
Fixpoint utos_fill_at (fuel : nat) (n : Z) (p : Z) : M unit :=
  match fuel with
  | O => ret tt
  | S fuel => if n =? 0 then ret tt else write (p - 1) [digit_char n];; utos_fill_at fuel (n / 10) (p - 1)
  end.

Definition utos_at (dst n : Z) : M Z :=
  if n =? 0 then write dst ["0"%char];; ret (dst + 1)
  else
    let nlen := utos_nlen (utos_fuel n) n 0 in
    let res := dst + Z.of_nat nlen in
    utos_fill_at (utos_fuel n) n res;;
    ret res.

Definition make_string_ref_uint_at (n : Z) : M (Z * Z) :=
  iov <- make_byte_ref (Z.of_nat http2.NGHTTP2_MAX_UINT64_DIGITS + 1);;
  p <- utos_at iov.1 n;;
  write p [zero];;
  ret (iov.1, p - iov.1).

(** [stringify_status]: a literal, or a string in the allocator. *)
Definition stringify_status_at (status_code : Z) : M (string + Z * Z) :=
  match http2.switch http2.status_strings status_code with
  | Some s => ret (inl s)
  | None => r <- make_string_ref_uint_at status_code;; ret (inr r)
  end.

(** The bytes of a [StringRef], as [str()] and [operator+=] copy them. *)
Definition text (r : string + Z * Z) : M str :=
  match r with
  | inl s => ret (lit s)
  | inr (p, n) => read p (Z.to_nat n)
  end.

(** ** Callers with an allocator of their own *)

(** [BlockAllocator balloc(1024, 1024);] and a body; the destructor gives the blocks
    back. *)
Definition with_balloc {A} (body : M A) : outcome BlockAllocator A :=
  match new_allocator 1024 1024 with
  | None => Failed assertion_failed
  | Some balloc => match body balloc with Done a s => Done a (reset s) | Failed e => Failed e end
  end.

(** [path_join] that returns a [std::string] *)
Definition path_join_str (base_path base_query rel_path rel_query : str) : outcome BlockAllocator str :=
  with_balloc (r <- path_join_at base_path base_query rel_path rel_query;; text (inr r)).

Definition create_html_at (status_code : Z) : outcome BlockAllocator str :=
  with_balloc (
    status_string <- stringify_status_at status_code;;
    let reason_phrase := http2.get_reason_phrase status_code in
    let res := lit "<!DOCTYPE html><html lang=" ++ [chr 34] ++ lit "en" ++ [chr 34] ++ lit "><title>" in
    t <- text status_string;;
    let res := res ++ t ++ [" "%char] ++ reason_phrase ++ lit "</title><body><h1>" in
    t <- text status_string;;
    ret (res ++ t ++ [" "%char] ++ reason_phrase ++ lit "</h1></body></html>")).

End users.

(** ** The buffer of [path_join] in memory *)

Lemma load_store_insert m a i c n :
  (i < n)%nat -> load_bytes (store_bytes (a + Z.of_nat i) [c] m) a n = <[i := c]> (load_bytes m a n).
Proof.
  intros Hi. replace n with (i + (1 + (n - i - 1)))%nat at 1 by lia. rewrite !load_app.
  replace (load_bytes m a n) with (load_bytes m a i ++ load_bytes m (a + Z.of_nat i) 1 ++ load_bytes m (a + Z.of_nat i + Z.of_nat 1) (n - i - 1)).
  - rewrite load_store_apart by lia. rewrite (load_store _ [c]). rewrite load_store_apart by (cbn; lia).
    rewrite insert_app_r_alt by (by rewrite load_length). rewrite load_length, Nat.sub_diag. done.
  - rewrite <- !load_app. f_equal. lia.
Qed.

Section simulation.
Context (al : list (Z * Z)) (q : Z * Z) (s0 : BlockAllocator).

(** The first bytes of the allocation [q] are [buf], and the others are as in
    [s0]. *)
Record sim (buf : str) (s : BlockAllocator) : Prop := {
  sim_Inv : Inv al s;
  sim_in : q ∈ al;
  sim_len : Z.of_nat (length buf) <= q.2;
  sim_buf : load_bytes (mem s) q.1 (length buf) = buf;
  sim_others : forall r, r ∈ al -> r <> q -> contents s r = contents s0 r;
}.

Lemma wp_store_at buf i c buf' (Q : unit -> BlockAllocator -> Prop) s :
  store buf i c = Some buf' -> sim buf s -> (forall s', sim buf' s' -> Q tt s') -> wp (store_at q.1 i c) Q s.
Proof.
  unfold store. destruct (Nat.ltb_spec i (length buf)) as [Hi|]; [|done]. intros [= <-] [HI Hq Hl Hb Ho] HQ.
  unfold store_at. apply wp_write; [eapply held_accessible; [done|done|unfold SIZEOF_SIZE_T; lia|cbn; lia]|].
  destruct (write_Inv al q (q.1 + Z.of_nat i) [c] s HI Hq) as [HI' Hu]; [lia|cbn; lia|].
  apply HQ. split; [done|done|by rewrite length_insert| |].
  - rewrite length_insert. cbn [mem set_mem]. rewrite load_store_insert by done. by rewrite Hb.
  - intros r Hr Hn. rewrite Hu by done. auto.
Qed.

Lemma wp_load_at buf i c (Q : ascii -> BlockAllocator -> Prop) s :
  buf !! i = Some c -> sim buf s -> Q c s -> wp (load_at q.1 i) Q s.
Proof.
  intros Hc [HI Hq Hl Hb Ho] HQ. pose proof (lookup_lt_Some _ _ _ Hc) as Hi.
  unfold load_at. apply wp_bind, wp_read; [eapply held_accessible; [done|done|unfold SIZEOF_SIZE_T; lia|lia]|].
  apply wp_ret. replace (hd zero _) with c; [done|].
  rewrite <- Hb in Hc. replace (length buf) with (i + (1 + (length buf - i - 1)))%nat in Hc by lia.
  rewrite !load_app, lookup_app_r in Hc by (by rewrite load_length). rewrite load_length, Nat.sub_diag in Hc.
  cbn in Hc |- *. congruence.
Qed.

(** An operation on the list buffer and the one on the memory. *)
Definition simulates (f : str * nat -> option (str * nat)) (m : nat -> M nat) : Prop :=
  forall buf p buf' p' (Q : nat -> BlockAllocator -> Prop) s,
    f (buf, p) = Some (buf', p') -> sim buf s -> (forall s', sim buf' s' -> Q p' s') -> wp (m p) Q s.

Lemma put_sim c : simulates (fun st => put st c) (fun p => put_at q.1 p c).
Proof.
  intros buf p buf' p' Q s Hf Hs HQ. cbn in Hf. destruct (store buf p c) as [b1|] eqn:E; [|done]. injection Hf as <- <-.
  unfold put_at. apply wp_bind. eapply wp_store_at; [done|done|]. intros s' Hs'. by apply wp_ret, HQ.
Qed.

Lemma copy_sim t : simulates (copy t) (copy_at q.1 t).
Proof.
  induction t as [|c t IH]; intros buf p buf' p' Q s Hf Hs HQ; cbn [copy copy_at] in *.
  - injection Hf as <- <-. by apply wp_ret, HQ.
  - destruct (put (buf, p) c) as [[b1 p1]|] eqn:E; [|done]. apply wp_bind. eapply (put_sim c); [exact E|done|].
    intros s1 Hs1. eapply IH; [exact Hf|done|done].
Qed.

Lemma scan_back_sim buf p p' (Q : nat -> BlockAllocator -> Prop) s :
  scan_back buf p = Some p' -> sim buf s -> Q p' s -> wp (scan_back_at q.1 p) Q s.
Proof.
  revert s. induction p as [|k IH]; intros s Hf Hs HQ; cbn [scan_back scan_back_at] in *.
  - injection Hf as <-. by apply wp_ret.
  - destruct (buf !! k) as [c|] eqn:E; [|done]. cbn in Hf. apply wp_bind. eapply wp_load_at; [done|done|].
    destruct (negb (c =c "/"%char)); [by apply IH|]. injection Hf as <-. by apply wp_ret.
Qed.

Lemma eat_file_sim : simulates eat_file (eat_file_at q.1).
Proof.
  intros buf p buf' p' Q s Hf Hs HQ. unfold eat_file, put_root in Hf. unfold eat_file_at.
  destruct (p =? 0)%nat; [by eapply (put_sim "/"%char)|].
  destruct (buf !! (p - 1)%nat) as [c|] eqn:E; [|done]. cbn in Hf. apply wp_bind. eapply wp_load_at; [done|done|].
  destruct (c =c "/"%char); [injection Hf as <- <-; by apply wp_ret, HQ|].
  destruct (scan_back buf p) as [k|] eqn:Ek; [|done]. cbn in Hf. apply wp_bind. eapply scan_back_sim; [done|done|].
  destruct (k =? 0)%nat; [by eapply (put_sim "/"%char)|]. injection Hf as <- <-. by apply wp_ret, HQ.
Qed.

Lemma eat_dir_sim : simulates eat_dir (eat_dir_at q.1).
Proof.
  intros buf p buf' p' Q s Hf Hs HQ. unfold eat_dir in Hf. unfold eat_dir_at.
  destruct (eat_file (buf, p)) as [[b1 p1]|] eqn:E; [|done]. cbn in Hf. apply wp_bind. eapply eat_file_sim; [done|done|].
  intros s1 Hs1. destruct p1 as [|k]; [done|]. destruct (b1 !! k) as [c|] eqn:Ec; [|done]. cbn in Hf.
  apply wp_bind. eapply wp_load_at; [done|done|]. destruct (c =c "/"%char); [|done].
  unfold assert_. apply wp_bind, wp_ret. by eapply eat_file_sim.
Qed.

Lemma join_loop_sim fuel first : simulates (join_loop fuel first) (join_loop_at fuel q.1 first).
Proof.
  revert first. induction fuel as [|fuel IH]; intros first buf p buf' p' Q s Hf Hs HQ;
    destruct first as [|c0 r0]; cbn [join_loop join_loop_at] in *; try done.
  1, 2: injection Hf as <- <-; by apply wp_ret, HQ.
  destruct (classify (c0 :: r0)) as [|rest| |rest|].
  - injection Hf as <- <-. by apply wp_ret, HQ.
  - by eapply IH.
  - by eapply eat_dir_sim.
  - destruct (eat_dir (buf, p)) as [[b1 p1]|] eqn:E; [|done]. cbn in Hf. apply wp_bind. eapply eat_dir_sim; [done|done|].
    intros s1 Hs1. by eapply IH.
  - cbn [fst snd] in Hf. destruct p as [|k]; [done|]. destruct (buf !! k) as [c|] eqn:Ec; [|done]. cbn [mbind option_bind] in Hf.
    apply wp_bind. eapply wp_load_at; [done|done|]. apply wp_bind.
    assert (simulates (fun st => if negb (c =c "/"%char) then eat_file st else Some st)
              (fun p => if negb (c =c "/"%char) then eat_file_at q.1 p else ret p)) as K.
    { destruct (negb _); [exact eat_file_sim|]. intros ? ? ? ? ? ? [= <- <-] ? HQ'. by apply wp_ret, HQ'. }
    destruct (if negb (c =c "/"%char) then _ else _) as [[b1 p1]|] eqn:E; [|done]. cbn [mbind option_bind] in Hf.
    eapply K; [exact E|done|]. intros s1 Hs1. destruct (find_slash (c0 :: r0)) as [pre [post|]]; [|by eapply copy_sim].
    destruct (copy (pre ++ ["/"%char]) (b1, p1)) as [[b2 p2]|] eqn:E2; [|done]. cbn [mbind option_bind] in Hf.
    apply wp_bind. eapply copy_sim; [exact E2|done|]. intros s2 Hs2. by eapply IH.
Qed.

Lemma query_sim qy :
  simulates (fun st => if negb (qy =s []) then st ← put st "?"%char; copy qy st else Some st)
    (fun p => if negb (qy =s []) then p <- put_at q.1 p "?"%char;; copy_at q.1 qy p else ret p).
Proof.
  intros buf p buf' p' Q s Hf Hs HQ. destruct (negb _); [|injection Hf as <- <-; by apply wp_ret, HQ].
  destruct (put (buf, p) "?"%char) as [[b1 p1]|] eqn:E; [|done]. cbn in Hf. apply wp_bind.
  eapply (put_sim "?"%char); [exact E|done|]. intros s1 Hs1. by eapply copy_sim.
Qed.

Lemma finish_sim buf p out (Q : Z * Z -> BlockAllocator -> Prop) s :
  finish (buf, p) = Some out -> sim buf s ->
  (forall s', Inv al s' -> Z.of_nat (length out) + 1 <= q.2 -> string_at s' q.1 out ->
     (forall r, r ∈ al -> r <> q -> contents s' r = contents s0 r) -> Q (q.1, Z.of_nat (length out)) s') ->
  wp (finish_at q.1 p) Q s.
Proof.
  unfold finish. destruct (store buf p "000"%char) as [b1|] eqn:E; [|done]. intros [= <-] Hs HQ.
  unfold finish_at. apply wp_bind. eapply wp_store_at; [exact E|done|]. intros s' [HI Hq Hl Hb Ho]. apply wp_ret.
  unfold store in E. destruct (Nat.ltb_spec p (length buf)) as [Hp|]; [|done]. injection E as <-. rewrite length_insert in *.
  assert (length (take p (<[p := "000"%char]> buf)) = p) as El by (rewrite length_take, length_insert; lia).
  rewrite <- El at 1. apply HQ; [done|lia| |done].
  unfold string_at. rewrite El.
  assert (load_bytes (mem s') q.1 (p + 1) = take (p + 1) (<[p := "000"%char]> buf)) as ->.
  { rewrite <- Hb. replace (length buf) with ((p + 1) + (length buf - p - 1))%nat by lia. rewrite (load_app _ _ (p + 1)).
    rewrite take_app_length'; [done|]. by rewrite load_length. }
  rewrite Nat.add_1_r. apply take_S_r. by apply list_lookup_insert_eq.
Qed.

End simulation.

(** One step of a chain on the list buffer, and of the one on the memory. *)
Ltac sim_step Hf lem s' Hs' :=
  match type of Hf with
  | mbind _ ?e = _ =>
    let E := fresh "E" in let b := fresh "b" in let k := fresh "k" in
    destruct e as [[b k]|] eqn:E; [|done]; cbn [mbind option_bind] in Hf;
    apply wp_bind; eapply lem; [exact E|eassumption|]; intros s' Hs'
  end.

Section in_memory.
Context `{NewLaws}.

Lemma wp_make_byte_ref al size (Q : Z * Z -> BlockAllocator -> Prop) s :
  Inv al s -> 0 <= size < 2 ^ 62 ->
  (forall p n s', sim ((p, n) :: al) (p, n) s (load_bytes (mem s') p (Z.to_nat size)) s' -> Q (p, size) s') ->
  wp (make_byte_ref size) Q s.
Proof.
  intros HI Hs HQ. unfold make_byte_ref. apply wp_bind. eapply wp_alloc; [done|done|]. intros p n s' Hn HI' Hu.
  apply wp_ret, (HQ p n). split; [done|by left|rewrite load_length; cbn; lia|by rewrite load_length|].
  intros r [->|Hr]%elem_of_cons Hne; [done|]. by apply Hu.
Qed.

(** The terminated string [out] in a new allocation, the rest unchanged. *)
Definition new_string (al : list (Z * Z)) (s : BlockAllocator) (out : str) (r : Z * Z) (s' : BlockAllocator) : Prop :=
  exists n, Inv ((r.1, n) :: al) s' /\ r.2 = Z.of_nat (length out) /\ r.2 + 1 <= n /\ string_at s' r.1 out /\ unchanged al s s'.

Lemma new_string_intro al p n s out s' :
  Inv ((p, n) :: al) s' -> Z.of_nat (length out) + 1 <= n -> string_at s' p out ->
  (forall r, r ∈ (p, n) :: al -> r <> (p, n) -> contents s' r = contents s r) ->
  new_string al s out (p, Z.of_nat (length out)) s'.
Proof.
  intros HI Hl Hs Hu. exists n. do 4 (split; [done|]). intros r Hr. apply Hu; [by right|].
  intros ->. by apply (head_not_in _ _ _ HI).
Qed.

Lemma wp_path_join al (base_path base_query rel_path rel_query : str) s :
  Inv al s -> Z.of_nat (path_join_size base_path base_query rel_path rel_query) < 2 ^ 62 ->
  wp (path_join_at base_path base_query rel_path rel_query)
    (new_string al s (path_join_ref base_path base_query rel_path rel_query)) s.
Proof.
  intros HI Hsz. unfold path_join_at. rewrite wrap_u_small by lia. apply wp_bind. eapply wp_make_byte_ref; [done|lia|].
  intros p n s1 Hs1. rewrite Nat2Z.id in Hs1. set (buf := load_bytes _ _ _) in Hs1.
  assert (path_join_in buf base_path base_query rel_path rel_query = Some (path_join_ref base_path base_query rel_path rel_query)) as Hf
    by (apply path_join_in_ref; apply load_length).
  revert Hf. generalize (path_join_ref base_path base_query rel_path rel_query) as out. intros out Hf. cbv zeta. cbn [fst].
  set (q := (p, n)) in *. change p with q.1.
  assert (forall buf p (s2 : BlockAllocator), finish (buf, p) = Some out -> sim (q :: al) q s buf s2 ->
    wp (finish_at q.1 p) (new_string al s out) s2) as Hfin.
  { intros b k s2 Hk Hs2. eapply finish_sim; [exact Hk|exact Hs2|]. intros s3. apply new_string_intro. }
  unfold path_join_in in Hf. destruct rel_path as [|c rel'].
  - assert (simulates (q :: al) q s (fun st => if base_path =s [] then put st "/"%char else copy base_path st)
      (fun k => if base_path =s [] then put_at q.1 k "/"%char else copy_at q.1 base_path k)) as K
      by (case_if; [apply put_sim|apply copy_sim]).
    destruct (if base_path =s [] then _ else _) as [[b2 p2]|] eqn:E2; [|done]. cbn [mbind option_bind] in Hf.
    apply wp_bind. eapply K; [exact E2|exact Hs1|]. intros s2 Hs2.
    case_if_in Hf; [|destruct (put (b2, p2) "?"%char) as [[b3 p3]|] eqn:E3; [|done]]; cbn [mbind option_bind] in Hf.
    + sim_step Hf (query_sim (q :: al) q s base_query) s3 Hs3. by eapply Hfin.
    + apply wp_bind. eapply put_sim; [exact E3|exact Hs2|]. intros s3 Hs3.
      sim_step Hf (copy_sim (q :: al) q s rel_query) s4 Hs4. by eapply Hfin.
  - destruct (if c =s "/"%char then _ else _) as [[first [b2 p2]]|] eqn:E2 in Hf; [|done]. cbn [mbind option_bind] in Hf.
    apply wp_bind. apply (wp_mono _ (fun x s' => x = (first, p2) /\ sim (q :: al) q s b2 s')).
    + case_if_in E2; [|case_if_in E2];
        [sim_step E2 (put_sim (q :: al) q s "/"%char) s2 Hs2|sim_step E2 (put_sim (q :: al) q s "/"%char) s2 Hs2
        |sim_step E2 (copy_sim (q :: al) q s base_path) s2 Hs2]; apply wp_ret; by injection E2 as <- <- <-.
    + intros x s2 [-> Hs2]. cbn [fst snd]. sim_step Hf (join_loop_sim (q :: al) q s (length first) first) s3 Hs3.
      sim_step Hf (query_sim (q :: al) q s rel_query) s4 Hs4. by eapply Hfin.
Qed.

End in_memory.

(** ** Numbers in memory *)

Lemma utos_fill_sim al q s0 fuel n nlen buf (Q : unit -> BlockAllocator -> Prop) s :
  sim al q s0 buf s -> (length (digits fuel n) <= nlen <= length buf)%nat ->
  (forall s', sim al q s0 (utos_fill fuel n nlen buf) s' -> Q tt s') ->
  wp (utos_fill_at fuel n (q.1 + Z.of_nat nlen)) Q s.
Proof.
  revert n nlen buf s. induction fuel as [|fuel IH]; intros n nlen buf s Hs Hl HQ; cbn [utos_fill utos_fill_at digits] in *.
  - by apply wp_ret, HQ.
  - revert Hl HQ. case_if; intros Hl HQ; [by apply wp_ret, HQ|]. rewrite length_app in Hl. cbn [length] in Hl. apply wp_bind.
    replace (q.1 + Z.of_nat nlen - 1) with (q.1 + Z.of_nat (nlen - 1)) by lia. fold (store_at q.1 (nlen - 1) (digit_char n)).
    apply (wp_store_at al q s0 buf _ _ (<[(nlen - 1)%nat := digit_char n]> buf));
      [unfold store; by rewrite (proj2 (Nat.ltb_lt _ _)) by lia|exact Hs|].
    intros s1 Hs1. apply (IH _ _ _ _ Hs1); [rewrite length_insert; lia|exact HQ].
Qed.

(** [utos(dst, n)] writes the decimal notation at the start of the buffer. *)
Lemma utos_sim al q s0 n buf (Q : Z -> BlockAllocator -> Prop) s :
  0 <= n -> sim al q s0 buf s -> (length (utos n) <= length buf)%nat ->
  (forall s', sim al q s0 (utos n ++ drop (length (utos n)) buf) s' -> Q (q.1 + Z.of_nat (length (utos n))) s') ->
  wp (utos_at q.1 n) Q s.
Proof.
  intros Hn Hs Hl HQ. unfold utos_at. destruct (Z.eqb_spec n 0) as [->|Hne].
  - change (utos 0) with ["0"%char] in *. apply wp_bind. replace q.1 with (q.1 + Z.of_nat 0) at 1 by lia. fold (store_at q.1 0 "0"%char).
    destruct buf as [|c buf]; [cbn in Hl; lia|].
    eapply (wp_store_at al q s0 (c :: buf)); [reflexivity|exact Hs|]. intros s1 Hs1. by apply wp_ret, HQ.
  - cbv zeta. rewrite utos_nlen_digits. cbn [Nat.add]. rewrite utos_digits in Hl, HQ by lia. apply wp_bind.
    eapply utos_fill_sim; [exact Hs|lia|]. intros s1 Hs1. rewrite utos_fill_digits in Hs1 by done. by apply wp_ret, HQ.
Qed.

Section numbers.
Context `{NewLaws}.

Lemma wp_make_string_ref_uint al n s :
  Inv al s -> 0 <= n <= SIZE_MAX -> wp (make_string_ref_uint_at n) (new_string al s (utos n)) s.
Proof.
  intros HI Hn. unfold make_string_ref_uint_at. change (Z.of_nat http2.NGHTTP2_MAX_UINT64_DIGITS + 1) with 21.
  assert (length (utos n) <= 20)%nat as Hl.
  { apply http2.utos_length; [|lia]. unfold SIZE_MAX in Hn. change (10 ^ Z.of_nat 20) with 100000000000000000000. lia. }
  apply wp_bind. eapply wp_make_byte_ref; [done|lia|]. intros p m s1 Hs1. set (buf := load_bytes _ _ _) in Hs1.
  assert (length buf = 21%nat) as Hb by apply load_length. cbn [fst]. set (q := (p, m)) in *. change p with q.1.
  apply wp_bind. eapply utos_sim; [lia|exact Hs1|lia|]. intros s2 Hs2. set (k := length (utos n)) in *.
  fold (store_at q.1 k zero).
  assert (finish (utos n ++ drop k buf, k) = Some (utos n)) as Hf.
  { unfold finish, store. rewrite (proj2 (Nat.ltb_lt _ _)); [|rewrite length_app, length_drop; fold k; lia].
    cbn [mbind option_bind]. rewrite take_insert_ge by done. unfold k. by rewrite take_app_length. }
  replace (q.1 + Z.of_nat k - q.1) with (Z.of_nat k) by lia. fold (finish_at q.1 k).
  eapply finish_sim; [exact Hf|exact Hs2|]. intros s3. apply new_string_intro.
Qed.

(** Copying the bytes of a string in the allocator. *)
Lemma wp_text al s out r s' (Q : str -> BlockAllocator -> Prop) :
  new_string al s out r s' -> Q out s' -> wp (text (inr r)) Q s'.
Proof.
  intros (n & HI & Hr & Hn & Hs & _) HQ. destruct r as [p k]. cbn [fst snd] in *. subst k. unfold text. rewrite Nat2Z.id.
  apply wp_read; [eapply (held_accessible _ _ (p, n)); [exact HI|by left|unfold SIZEOF_SIZE_T; cbn; lia|cbn; lia]|].
  unfold string_at in Hs. rewrite load_app in Hs. by apply app_inj_2 in Hs as [-> _].
Qed.

Lemma balloc_new : exists s, new_allocator 1024 1024 = Some s /\ Inv [] s.
Proof. eexists. split; [reflexivity|]. apply (new_allocator_Inv 1024 1024); [done|lia|lia]. Qed.

(** The body of a function with an allocator of its own. *)
Lemma with_balloc_spec {A} (body : M A) (a : A) :
  (forall s, Inv [] s -> wp body (fun a' _ => a' = a) s) ->
  with_balloc body = Failed out_of_memory \/ exists s, with_balloc body = Done a s /\ retain s = [].
Proof.
  intros Hb. destruct balloc_new as (s & E & HI). unfold with_balloc. rewrite E. specialize (Hb s HI). unfold wp in Hb.
  destruct (body s) as [a' s'|e]; [right; subst; by eexists|left]. by rewrite Hb.
Qed.

Lemma path_join_str_spec (base_path base_query rel_path rel_query : str) :
  Z.of_nat (path_join_size base_path base_query rel_path rel_query) < 2 ^ 62 ->
  path_join_str base_path base_query rel_path rel_query = Failed out_of_memory
  \/ exists s, path_join_str base_path base_query rel_path rel_query
               = Done (path_join_ref base_path base_query rel_path rel_query) s /\ retain s = [].
Proof.
  intros Hl. apply with_balloc_spec. intros s HI. apply wp_bind. eapply wp_mono; [by apply wp_path_join|].
  intros r s' Hr. by eapply wp_text.
Qed.

End numbers.

(** C17. [path_join] on the memory of the block allocator: unless [new] throws, it
    returns a string of its own allocation, which holds the joined path that the
    list-level reference computes and a terminator; every load and store lies
    inside that allocation, the assertion of [eat_dir] holds, and the contents of
    every earlier allocation are unchanged.  With an allocator of its own the
    function returns that path as a [std::string] and gives every block back. *)
Theorem path_join_in_memory `{NewLaws} (al : list (Z * Z)) (s : BlockAllocator)
    (base_path base_query rel_path rel_query : str) (HI : Inv al s)
    (Hl : Z.of_nat (path_join_size base_path base_query rel_path rel_query) < 2 ^ 62) :
  let out := path_join_ref base_path base_query rel_path rel_query in
  (path_join_at base_path base_query rel_path rel_query s = Failed out_of_memory
   \/ exists r s', path_join_at base_path base_query rel_path rel_query s = Done r s' /\ new_string al s out r s')
  /\ (path_join_str base_path base_query rel_path rel_query = Failed out_of_memory
      \/ exists s', path_join_str base_path base_query rel_path rel_query = Done out s' /\ retain s' = []).
Proof.
  cbv zeta. split; [|by apply path_join_str_spec].
  pose proof (wp_path_join al base_path base_query rel_path rel_query s HI Hl) as Hw. unfold wp in Hw.
  destruct (path_join_at _ _ _ _ s) as [r s'|e]; [right; by exists r, s'|left; by rewrite Hw].
Qed.

Lemma path_join_in_memory_witness :
  exists r s', @path_join_at bump_new (lit "/a/b") (lit "x") (lit "../c/./d") (lit "q") small = Done r s'
    /\ load_bytes (mem s') r.1 (Z.to_nat r.2) = lit "/c/d?q".
Proof.
  destruct (@path_join_in_memory bump_new _ [] small (lit "/a/b") (lit "x") (lit "../c/./d") (lit "q") small_Inv eq_refl)
    as [[E|(r & s' & E & K)] _]; [vm_compute in E; discriminate|].
  exists r, s'. split; [exact E|]. vm_compute in E. injection E as <- <-. vm_compute. reflexivity.
Defined.

(** The built-in pages are built in allocator memory: unless [new] throws,
    [create_html] returns the page that the router's definition gives, whether the
    status is one of the literals or is written out in digits, and gives every
    block back. *)
Theorem create_html_in_memory `{NewLaws} (status_code : Z) (Hs : 0 <= status_code <= INT32_MAX) :
  create_html_at status_code = Failed out_of_memory
  \/ exists html s, create_html_at status_code = Done html s
       /\ serve_mux.create_html status_code = Some html /\ retain s = [].
Proof.
  unfold serve_mux.create_html. rewrite http2.stringify_status_utos by (unfold INT32_MAX, UINT32_MAX in *; lia).
  cbn [mbind option_bind]. set (html := lit "<!DOCTYPE html><html lang=" ++ _).
  enough (create_html_at status_code = Failed out_of_memory \/ exists s, create_html_at status_code = Done html s /\ retain s = [])
    as [?|(s & ? & ?)]; [by left|right; by exists html, s|].
  apply with_balloc_spec. intros s HI. apply wp_bind. unfold stringify_status_at.
  assert (forall r s', (forall Q : str -> BlockAllocator -> Prop, Q (utos status_code) s' -> wp (text r) Q s') ->
    wp (t <- text r;; let res := (lit "<!DOCTYPE html><html lang=" ++ [chr 34] ++ lit "en" ++ [chr 34] ++ lit "><title>")
                                   ++ t ++ [" "%char] ++ http2.get_reason_phrase status_code ++ lit "</title><body><h1>" in
        t <- text r;; ret (res ++ t ++ [" "%char] ++ http2.get_reason_phrase status_code ++ lit "</h1></body></html>"))
      (fun a _ => a = html) s') as K.
  { intros r s' Hr. apply wp_bind, Hr. cbv zeta. apply wp_bind, Hr, wp_ret. unfold html. by rewrite <- !app_assoc. }
  destruct (http2.switch http2.status_strings status_code) as [x|] eqn:E.
  - apply wp_ret, K. intros Q HQ. apply wp_ret.
    pose proof (http2.stringify_status_utos status_code ltac:(unfold INT32_MAX, UINT32_MAX in *; lia)) as E'.
    unfold http2.stringify_status in E'. rewrite E in E'. by injection E' as ->.
  - apply wp_bind. eapply wp_mono; [apply wp_make_string_ref_uint; [done|unfold INT32_MAX, SIZE_MAX in *; lia]|].
    intros r s' Hr. apply wp_ret, K. intros Q. by eapply wp_text.
Qed.

End alloc_strings.
