(* ===== verification/IoServicePool.v ===== *)
(** * The pool of event loops: lib/asio_io_service_pool.cc

    A service is known by its index.  What its [run] waits for is an argument:
    [idle i] says that service [i] has no pending operation and no handler to run,
    [threw i] that its [run] was left by an exception of a handler. *)

From S2P Require Import Prelude.

Module io_service_pool.

(** The members; of each service only whether [stop] was called on it.  A [work]
    object is the index of its service, a future the index of the service whose
    [run] it waits for, [None] after [get]. *)
Record pool := mk_pool {
  io_services_ : list bool;
  work_ : list nat;
  next_io_service_ : nat;
  futures_ : list (option nat);
}.

(** The constructor; [None] when it throws. *)
Definition new_pool (pool_size : nat) : option pool :=
  if (pool_size =? 0)%nat then None
  else Some (mk_pool (replicate pool_size false) (seq 0 pool_size) 0 []).

(** [run], up to the [join] of the synchronous variant. *)
Definition run (p : pool) : pool :=
  mk_pool (io_services_ p) (work_ p) (next_io_service_ p) (futures_ p ++ map Some (seq 0 (length (io_services_ p)))).

Definition force_stop (p : pool) : pool :=
  mk_pool (map (fun _ => true) (io_services_ p)) (work_ p) (next_io_service_ p) (futures_ p).

Definition stop (p : pool) : pool :=
  mk_pool (io_services_ p) [] (next_io_service_ p) (futures_ p).

(** The index of the service, [None] outside the vector. *)
Definition get_io_service (p : pool) : option (nat * pool) :=
  _ ← io_services_ p !! next_io_service_ p;
  let next := S (next_io_service_ p) in
  let next := if (next =? length (io_services_ p))%nat then O else next in
  Some (next_io_service_ p, mk_pool (io_services_ p) (work_ p) next (futures_ p)).

(** [io_service::run] returns when the service was stopped, or has neither work
    nor anything else to wait for. *)
Definition run_returns (p : pool) (idle : nat -> bool) (i : nat) : bool :=
  default true (io_services_ p !! i) || (bool_decide (i ∉ work_ p) && idle i).

(** [join]: it waits for ever, or a second [get] of a future fails, or [get] throws the
    exception that left [run] and the other futures are kept, or all of them are used up. *)
Inductive join_result := blocked | no_state | rethrown (p : pool) | joined (p : pool).

Definition set_futures (l : list (option nat)) (p : pool) : pool :=
  mk_pool (io_services_ p) (work_ p) (next_io_service_ p) l.

(** The loop; [used] are the futures before. *)
Fixpoint join_futures (p : pool) (idle threw : nat -> bool) (used l : list (option nat)) : join_result :=
  match l with
  | [] => joined (set_futures used p)
  | None :: _ => no_state
  | Some i :: l =>
    if threw i then rethrown (set_futures (used ++ None :: l) p)
    else if run_returns p idle i then join_futures p idle threw (used ++ [None]) l
    else blocked
  end.

Definition join (p : pool) (idle threw : nat -> bool) : join_result := join_futures p idle threw [] (futures_ p).

(** The destructor: [futures_] goes first, and the destructor of a future of [std::async]
    waits for its thread, whose exception it drops.  Whether it returns. *)
Definition destroy (p : pool) (idle threw : nat -> bool) : bool :=
  forallb (fun f => match f with None => true | Some i => threw i || run_returns p idle i end) (futures_ p).

(** ** Properties *)

(** The vector is not empty and the cursor is in it. *)
Definition pool_ok (p : pool) : Prop := (next_io_service_ p < length (io_services_ p))%nat.

(** [n] calls of [get_io_service]. *)
Fixpoint take_services (n : nat) (p : pool) : option (list nat * pool) :=
  match n with
  | O => Some ([], p)
  | S n => '(i, p) ← get_io_service p; '(l, p) ← take_services n p; Some (i :: l, p)
  end.

Lemma get_io_service_spec p : pool_ok p ->
  exists p', get_io_service p = Some (next_io_service_ p, p')
    /\ io_services_ p' = io_services_ p /\ work_ p' = work_ p /\ futures_ p' = futures_ p
    /\ next_io_service_ p' = ((next_io_service_ p + 1) mod length (io_services_ p))%nat.
Proof.
  intros Hp. unfold get_io_service. destruct (lookup_lt_is_Some_2 _ _ Hp) as [b ->]. cbn [mbind option_bind]. eexists. split; [done|].
  repeat split. cbn [next_io_service_]. unfold pool_ok in Hp. rewrite Nat.add_1_r.
  destruct (Nat.eqb_spec (S (next_io_service_ p)) (length (io_services_ p))) as [->|E]; [by rewrite Nat.Div0.mod_same|].
  by rewrite Nat.mod_small by lia.
Qed.

Lemma take_services_spec n p : pool_ok p ->
  exists p', take_services n p
    = Some (map (fun k => (next_io_service_ p + k) mod length (io_services_ p))%nat (seq 0 n), p')
  /\ pool_ok p' /\ io_services_ p' = io_services_ p.
Proof.
  revert p. induction n as [|n IH]; intros p Hp; cbn [take_services]; [by exists p|].
  destruct (get_io_service_spec p Hp) as (p1 & -> & Es & _ & _ & En). cbn.
  assert (pool_ok p1) as Hp1 by (unfold pool_ok in *; rewrite En, Es; apply Nat.mod_upper_bound; lia).
  destruct (IH p1 Hp1) as (p2 & -> & Hp2 & Es2). cbn. exists p2. split; [|split; [done|by rewrite Es2]]. rewrite Es, En.
  do 2 f_equal. unfold pool_ok in Hp. f_equal; [rewrite Nat.add_0_r; by rewrite Nat.mod_small|].
  rewrite <- seq_shift, map_map. apply map_ext. intros k. rewrite Nat.Div0.add_mod_idemp_l. f_equal. lia.
Qed.

(** Round robin: a pool of [pool_size] services hands out service
    [k mod pool_size] at the [k]-th call, and never reads outside its vector; in
    particular each service serves every [pool_size]-th connection.  A pool of no
    services cannot be made. *)
Theorem round_robin (pool_size n : nat) :
  match new_pool pool_size with
  | None => pool_size = 0%nat
  | Some p => exists p', take_services n p = Some (map (fun k => k mod pool_size)%nat (seq 0 n), p')
  end.
Proof.
  unfold new_pool. destruct (Nat.eqb_spec pool_size 0) as [->|E]; [done|].
  set (p := mk_pool _ _ _ _). assert (pool_ok p) as Hp by (unfold pool_ok; cbn; rewrite length_replicate; lia).
  destruct (take_services_spec n p Hp) as (p' & -> & _). exists p'. cbn. by rewrite length_replicate.
Qed.

Definition threw_future (threw : nat -> bool) (f : option nat) : bool := match f with Some i => threw i | None => false end.

(** When every [run] has returned or was left by an exception: [join] returns when
    there was none, and throws the first one otherwise. *)
Lemma join_futures_ended p idle threw used l :
  Forall (fun f => exists i, f = Some i /\ (threw i = false -> run_returns p idle i = true)) l ->
  join_futures p idle threw used l
  = match list_find (fun f => threw_future threw f = true) l with
    | None => joined (set_futures (used ++ map (fun _ => None) l) p)
    | Some (k, _) => rethrown (set_futures (used ++ replicate (S k) None ++ drop (S k) l) p)
    end.
Proof.
  intros Hl. revert used. induction Hl as [|f l (i & -> & Hi) _ IH]; intros used; cbn [join_futures list_find]; [by rewrite app_nil_r|].
  destruct (threw i) eqn:Et.
  - by rewrite decide_True by exact Et.
  - rewrite decide_False by (cbn; congruence). rewrite (Hi eq_refl), IH. destruct (list_find _ l) as [[k f]|]; cbn; by rewrite <- app_assoc.
Qed.

(** A pool whose futures are all used up, or belong to threads that have ended, is
    destroyed; not so while a thread runs that has work. *)
Lemma destroy_ended p idle threw :
  Forall (fun f => f = None \/ exists i, f = Some i /\ (threw i = false -> run_returns p idle i = true)) (futures_ p) ->
  destroy p idle threw = true.
Proof.
  intros Hl. apply forallb_forall. intros f Hf%list_elem_of_In. rewrite Forall_forall in Hl.
  destruct (Hl f Hf) as [->|(i & -> & Hi)]; [done|]. destruct (threw i); [done|]. by apply Hi.
Qed.

Lemma destroy_waits p idle threw i :
  Some i ∈ futures_ p -> threw i = false -> io_services_ p !! i = Some false -> i ∈ work_ p -> destroy p idle threw = false.
Proof.
  intros Hf Ht Hs Hw. apply not_true_iff_false. unfold destroy. rewrite forallb_forall. intros Hall.
  specialize (Hall (Some i) (proj1 (list_elem_of_In _ _) Hf)). cbn in Hall. rewrite Ht in Hall. unfold run_returns in Hall.
  rewrite Hs, bool_decide_false in Hall by (by intros Hn). done.
Qed.

(** The first future that [join] has passed has no state any more. *)
Lemma join_futures_used p idle threw used l q :
  join_futures p idle threw (None :: used) l = joined q \/ join_futures p idle threw (None :: used) l = rethrown q ->
  exists u, futures_ q = None :: u.
Proof.
  revert used. induction l as [|[i|] l IH]; intros used; cbn [join_futures]; [| |by intros [?|?]].
  - intros [[= <-]|?]; [by eexists|done].
  - destruct (threw i); [intros [?|[= <-]]; [done|by eexists]|]. destruct (run_returns p idle i); [|by intros [?|?]]. apply IH.
Qed.

(** [join] does not return normally when one of the threads was left by an exception. *)
Lemma join_futures_threw p idle threw used l i q :
  Some i ∈ l -> threw i = true -> join_futures p idle threw used l <> joined q.
Proof.
  intros Hin Ht. revert used. induction l as [|f l IH]; intros used; [by apply elem_of_nil in Hin|]. cbn [join_futures].
  apply elem_of_cons in Hin as [<-|Hin]; [by rewrite Ht|].
  destruct f as [j|]; [|done]. destruct (threw j); [done|]. destruct (run_returns p idle j); [|done]. by apply IH.
Qed.

(** A second [join] gets a future that has no state any more. *)
Lemma join_twice p idle threw idle' threw' p' :
  join p idle threw = joined p' \/ join p idle threw = rethrown p' -> futures_ p <> [] -> join p' idle' threw' = no_state.
Proof.
  intros Hj Hne. assert (exists u, futures_ p' = None :: u) as (u & E); [|unfold join; by rewrite E].
  unfold join in Hj. destruct (futures_ p) as [|[i|] l]; [done| |by destruct Hj]. cbn [join_futures] in Hj.
  destruct (threw i); [destruct Hj as [?|[= <-]]; [done|by eexists]|].
  destruct (run_returns p idle i); [|by destruct Hj]. by apply join_futures_used in Hj.
Qed.

End io_service_pool.
