(* ===== verification/ServerHandler.v ===== *)
(** * The server side of a connection: lib/asio_server_http2_handler.{cc,h},
    asio_server_response_impl.cc, asio_server_request_impl.cc and
    asio_server_stream.cc

    One [http2_handler] with its streams.  The operations are functions on its
    state in a state monad with failure: a failed assertion, a write outside a
    buffer, an access to a stream that has been destroyed.  The application is represented
    by the calls it makes on requests and responses when one of its callbacks
    runs; the session by its callbacks and the return values of its functions. *)

From S2P Require Import Prelude Monad Util Http2 TimeGm Common ServeMux Nghttp2.

Module server.
Import monad http2 common nghttp2.
Local Open Scope monad_scope.

(** ** State *)

Inductive response_state := INITIAL | HEADER_DONE | BODY_STARTED.

#[export] Instance response_state_eq_dec : EqDecision response_state.
Proof. solve_decision. Defined.

(** [tcp::endpoint]: an address and a port; the default is the unspecified address. *)
Definition tcp_endpoint := (str * Z)%type.
Definition no_endpoint : tcp_endpoint := (lit "0.0.0.0", 0).

(** Callbacks of the application are numbers that identify them. *)
Record request_impl := mk_req {
  rq_method : str;
  rq_uri : uri_ref;
  rq_header : header_map;
  rq_header_buffer_size : Z;
  rq_on_data : option nat;
  rq_remote_ep : tcp_endpoint;
}.

Record response_impl := mk_res {
  rs_header : header_map;
  rs_generator : generator;
  rs_close_cb : option nat;
  rs_status_code : Z;
  rs_state : response_state;
  rs_pushed : bool;
  rs_push_promise_sent : bool;
}.

Record stream := mk_stream { st_request : request_impl; st_response : response_impl }.

Definition new_request : request_impl :=
  {| rq_method := []; rq_uri := empty_uri; rq_header := []; rq_header_buffer_size := 0; rq_on_data := None;
     rq_remote_ep := no_endpoint |}.

Definition new_response : response_impl :=
  {| rs_header := []; rs_generator := gen_deferred; rs_close_cb := None; rs_status_code := 200;
     rs_state := INITIAL; rs_pushed := false; rs_push_promise_sent := false |}.

Definition new_stream : stream := {| st_request := new_request; st_response := new_response |}.

(** The callbacks of the application that the server invokes. *)
Inductive app_event :=
  | app_request (cb : nat) (stream_id : Z)
  | app_data (cb : nat) (stream_id : Z) (data : str)
  | app_close (cb : nat) (stream_id : Z) (error_code : Z)
  | app_generate (cb : nat) (stream_id : Z) (len : nat).

(** The calls the application makes on the request and the response of a
    stream. *)
Inductive app_call :=
  | call_write_head (stream_id : Z) (status_code : Z) (h : header_map)
  | call_end (stream_id : Z) (g : generator)
  | call_write_trailer (stream_id : Z) (h : header_map)
  | call_on_close (stream_id : Z) (cb : nat)
  | call_on_data (stream_id : Z) (cb : nat)
  | call_cancel (stream_id : Z) (error_code : Z)
  | call_resume (stream_id : Z)
  | call_push (stream_id : Z) (method raw_path_query : str) (h : header_map).

(** The members of [http2_handler], [buf_] as the length of the bytes it points
    to when it is not null.  Then the world around the handler: the memory of the
    session to which the pointers returned by [nghttp2_session_mem_send] refer,
    the clock, the calls made on the session (latest first), the number of posted
    [initiate_write] tasks that have not run, the number of calls of
    [writefun_], and the callbacks of the application (latest first); the last member is
    [remote_ep_]. *)
Record http2_handler := mk_handler {
  streams : gmap Z stream;
  inside_callback : bool;
  write_signaled : bool;
  tstamp_cached : Z;
  formatted_date : str;
  buf_ : option nat;
  sendbuf : str;
  clock : Z;
  calls : list lib_call;
  posts : nat;
  writes : nat;
  app_log : list app_event;
  remote_ep_ : tcp_endpoint;
}.

Definition set_streams (m : gmap Z stream) (h : http2_handler) : http2_handler :=
  mk_handler m (inside_callback h) (write_signaled h) (tstamp_cached h) (formatted_date h) (buf_ h)
    (sendbuf h) (clock h) (calls h) (posts h) (writes h) (app_log h) (remote_ep_ h).
Definition set_inside (b : bool) (h : http2_handler) : http2_handler :=
  mk_handler (streams h) b (write_signaled h) (tstamp_cached h) (formatted_date h) (buf_ h)
    (sendbuf h) (clock h) (calls h) (posts h) (writes h) (app_log h) (remote_ep_ h).
Definition set_signaled (b : bool) (h : http2_handler) : http2_handler :=
  mk_handler (streams h) (inside_callback h) b (tstamp_cached h) (formatted_date h) (buf_ h)
    (sendbuf h) (clock h) (calls h) (posts h) (writes h) (app_log h) (remote_ep_ h).
Definition set_posts (n : nat) (h : http2_handler) : http2_handler :=
  mk_handler (streams h) (inside_callback h) (write_signaled h) (tstamp_cached h) (formatted_date h) (buf_ h)
    (sendbuf h) (clock h) (calls h) n (writes h) (app_log h) (remote_ep_ h).
Definition set_date (t : Z) (d : str) (h : http2_handler) : http2_handler :=
  mk_handler (streams h) (inside_callback h) (write_signaled h) t d (buf_ h)
    (sendbuf h) (clock h) (calls h) (posts h) (writes h) (app_log h) (remote_ep_ h).
Definition set_buf (b : option nat) (h : http2_handler) : http2_handler :=
  mk_handler (streams h) (inside_callback h) (write_signaled h) (tstamp_cached h) (formatted_date h) b
    (sendbuf h) (clock h) (calls h) (posts h) (writes h) (app_log h) (remote_ep_ h).
Definition set_sendbuf (d : str) (h : http2_handler) : http2_handler :=
  mk_handler (streams h) (inside_callback h) (write_signaled h) (tstamp_cached h) (formatted_date h) (buf_ h)
    d (clock h) (calls h) (posts h) (writes h) (app_log h) (remote_ep_ h).
Definition set_clock (t : Z) (h : http2_handler) : http2_handler :=
  mk_handler (streams h) (inside_callback h) (write_signaled h) (tstamp_cached h) (formatted_date h) (buf_ h)
    (sendbuf h) t (calls h) (posts h) (writes h) (app_log h) (remote_ep_ h).
Definition add_call (c : lib_call) (h : http2_handler) : http2_handler :=
  mk_handler (streams h) (inside_callback h) (write_signaled h) (tstamp_cached h) (formatted_date h) (buf_ h)
    (sendbuf h) (clock h) (c :: calls h) (posts h) (writes h) (app_log h) (remote_ep_ h).
Definition add_write (h : http2_handler) : http2_handler :=
  mk_handler (streams h) (inside_callback h) (write_signaled h) (tstamp_cached h) (formatted_date h) (buf_ h)
    (sendbuf h) (clock h) (calls h) (posts h) (S (writes h)) (app_log h) (remote_ep_ h).
Definition add_event (e : app_event) (h : http2_handler) : http2_handler :=
  mk_handler (streams h) (inside_callback h) (write_signaled h) (tstamp_cached h) (formatted_date h) (buf_ h)
    (sendbuf h) (clock h) (calls h) (posts h) (writes h) (e :: app_log h) (remote_ep_ h).

(** ** The monad *)

Local Abbreviation M := (monad.M http2_handler).

(** A stream of the server must not be used after it has been closed. *)
#[export] Instance server_misuse : Misuse := fun e => e = dangling_stream.

(** ** Streams *)

Definition find_stream (id : Z) : M (option stream) := h <- get;; ret (streams h !! id).

(** The stream that a reference designates: it must not have been destroyed. *)
Definition the_stream (id : Z) : M stream :=
  o <- find_stream id;; match o with Some s => ret s | None => fail dangling_stream end.

Definition put_stream (id : Z) (s : stream) : M unit := modify (fun h => set_streams (<[id := s]> (streams h)) h).

Definition update_request (id : Z) (f : request_impl -> request_impl) : M unit :=
  s <- the_stream id;; put_stream id {| st_request := f (st_request s); st_response := st_response s |}.

Definition update_response (id : Z) (f : response_impl -> response_impl) : M unit :=
  s <- the_stream id;; put_stream id {| st_request := st_request s; st_response := f (st_response s) |}.

(** [create_stream]: [emplace] keeps a stream that is there, and the assertion
    fails. *)
Definition create_stream (id : Z) : M unit :=
  o <- find_stream id;;
  match o with
  | Some _ => fail assertion_failed
  | None => put_stream id new_stream
  end.

Definition close_stream (id : Z) : M unit := modify (fun h => set_streams (delete id (streams h)) h).

(** Setters of the members that the operations change. *)
Definition set_state (x : response_state) (r : response_impl) : response_impl :=
  mk_res (rs_header r) (rs_generator r) (rs_close_cb r) (rs_status_code r) x (rs_pushed r) (rs_push_promise_sent r).
Definition set_head (status : Z) (h : header_map) (r : response_impl) : response_impl :=
  mk_res h (rs_generator r) (rs_close_cb r) status HEADER_DONE (rs_pushed r) (rs_push_promise_sent r).
Definition set_generator (g : generator) (r : response_impl) : response_impl :=
  mk_res (rs_header r) g (rs_close_cb r) (rs_status_code r) (rs_state r) (rs_pushed r) (rs_push_promise_sent r).
Definition set_close_cb (c : nat) (r : response_impl) : response_impl :=
  mk_res (rs_header r) (rs_generator r) (Some c) (rs_status_code r) (rs_state r) (rs_pushed r) (rs_push_promise_sent r).
Definition set_pushed (b : bool) (r : response_impl) : response_impl :=
  mk_res (rs_header r) (rs_generator r) (rs_close_cb r) (rs_status_code r) (rs_state r) b (rs_push_promise_sent r).
Definition set_promise_sent (r : response_impl) : response_impl :=
  mk_res (rs_header r) (rs_generator r) (rs_close_cb r) (rs_status_code r) (rs_state r) (rs_pushed r) true.

Definition set_method (m : str) (r : request_impl) : request_impl :=
  mk_req m (rq_uri r) (rq_header r) (rq_header_buffer_size r) (rq_on_data r) (rq_remote_ep r).
Definition set_uri (u : uri_ref) (r : request_impl) : request_impl :=
  mk_req (rq_method r) u (rq_header r) (rq_header_buffer_size r) (rq_on_data r) (rq_remote_ep r).
Definition set_header (h : header_map) (n : Z) (r : request_impl) : request_impl :=
  mk_req (rq_method r) (rq_uri r) h n (rq_on_data r) (rq_remote_ep r).
Definition set_on_data (c : nat) (r : request_impl) : request_impl :=
  mk_req (rq_method r) (rq_uri r) (rq_header r) (rq_header_buffer_size r) (Some c) (rq_remote_ep r).
Definition set_remote_endpoint (ep : tcp_endpoint) (r : request_impl) : request_impl :=
  mk_req (rq_method r) (rq_uri r) (rq_header r) (rq_header_buffer_size r) (rq_on_data r) ep.

(** The application: the calls it makes when one of its callbacks runs, and what
    its generators return, the flags to set in [*data_flags] included. *)
Class App := {
  app_react : http2_handler -> app_event -> list app_call;
  app_gen : list app_event -> nat -> nat -> gen_ret * Z;
}.

Section handler.
Context `{Nghttp2} (mux_ : serve_mux.mux) `{App}.

(** A function of the session. *)
Definition lib (c : lib_call) : M Z := fun h => Done (lib_ret (calls h) c) (add_call c h).

(** ** Writing *)

Definition signal_write : M unit :=
  h <- get;;
  if negb (inside_callback h) && negb (write_signaled h)
  then modify (fun h => set_posts (S (posts h)) (set_signaled true h))
  else ret tt.

Definition initiate_write : M unit := modify (set_signaled false);; modify add_write.

Definition enter_callback : M unit :=
  h <- get;; assert_ (negb (inside_callback h));; modify (set_inside true).

Definition leave_callback : M unit :=
  h <- get;; assert_ (inside_callback h);; modify (set_inside false).

Definition stream_error (id error_code : Z) : M unit := lib (submit_rst_stream id error_code);; signal_write.

Definition resume (id : Z) : M unit := lib (session_resume_data id);; signal_write.

(** ** Responses *)

(** [http2_handler::http_date] *)
Definition http_date : M str :=
  h <- get;;
  if clock h =? tstamp_cached h then ret (formatted_date h)
  else
    match timegm.http_date (clock h) with
    | Some d => modify (set_date (clock h) d);; ret d
    | None => fail memory_error
    end.

Definition header_nva (h : header_map) : list nghttp2_nv :=
  map (fun hd => make_nv hd.1 (value hd.2) (sensitive hd.2)) h.

(** [http2_handler::start_response] *)
Definition handler_start_response (id : Z) : M Z :=
  s <- the_stream id;;
  date <- http_date;;
  let res := st_response s in
  let nva := make_nv_ls ":status" (util.utos (rs_status_code res)) :: make_nv_ls "date" date
               :: header_nva (rs_header res) in
  let body := expect_response_body_for (rq_method (st_request s)) (rs_status_code res) in
  rv <- lib (submit_response id nva body);;
  if negb (rv =? 0) then ret (-1)
  else signal_write;; ret 0.

(** [http2_handler::submit_trailer] *)
Definition handler_submit_trailer (id : Z) (h : header_map) : M Z :=
  rv <- lib (submit_trailer id (header_nva h));;
  if negb (rv =? 0) then ret (-1)
  else signal_write;; ret 0.

(** [response_impl::start_response] *)
Definition start_response (id : Z) : M unit :=
  s <- the_stream id;;
  (if negb (expect_response_body_for (rq_method (st_request s)) (rs_status_code (st_response s)))
   then update_response id (set_state BODY_STARTED) else ret tt);;
  rv <- handler_start_response id;;
  if negb (rv =? 0) then stream_error id NGHTTP2_INTERNAL_ERROR else ret tt.

Definition write_head (id status_code : Z) (h : header_map) : M unit :=
  s <- the_stream id;;
  let res := st_response s in
  if negb (bool_decide (rs_state res = INITIAL)) then ret tt
  else
    update_response id (set_head status_code h);;
    if rs_pushed res && negb (rs_push_promise_sent res) then ret tt
    else start_response id.

(** [response_impl::end(generator_cb)] *)
Definition end_ (id : Z) (g : generator) : M unit :=
  s <- the_stream id;;
  let res := st_response s in
  if bool_decide (rs_state res = BODY_STARTED) then ret tt
  else
    update_response id (set_generator g);;
    (if bool_decide (rs_state res = INITIAL) then write_head id (rs_status_code res) []
     else resume id);;
    update_response id (set_state BODY_STARTED).

(** [response_impl::end(std::string)] *)
Definition end_data (id : Z) (data : str) : M unit := end_ id (string_generator data).

Definition write_trailer (id : Z) (h : header_map) : M unit :=
  the_stream id;; handler_submit_trailer id h;; ret tt.

Definition cancel (id error_code : Z) : M unit := the_stream id;; stream_error id error_code.

(** [response_impl::resume] *)
Definition response_resume (id : Z) : M unit := the_stream id;; resume id.

Definition push_promise_sent (id : Z) : M unit :=
  s <- the_stream id;;
  let res := st_response s in
  if rs_push_promise_sent res then ret tt
  else
    update_response id set_promise_sent;;
    if bool_decide (rs_state res = INITIAL) then ret tt else start_response id.

(** [http2_handler::push_promise]: the error code and the id of the promised
    stream. *)
Definition push_promise (id : Z) (method raw_path_query : str) (h : header_map) : M (error_code * option Z) :=
  s <- the_stream id;;
  let u := rq_uri (st_request s) in
  let nva := make_nv_ls ":method" method :: make_nv_ls ":scheme" (scheme u)
               :: make_nv_ls ":authority" (host u) :: make_nv_ls ":path" raw_path_query
               :: header_nva h in
  rv <- lib (submit_push_promise id nva);;
  if rv <? 0 then ret (make_error_code_nghttp2 rv, None)
  else
    create_stream rv;;
    update_request rv (fun r => set_header h (rq_header_buffer_size r) r);;
    update_request rv (set_method method);;
    update_request rv (fun r => set_uri (split_path (set_host (host u) (set_scheme (scheme u) (rq_uri r)))
                                            raw_path_query) r);;
    update_response rv (set_pushed true);;
    signal_write;;
    ret (ec_ok, Some rv).

(** ** The application *)

Definition run_app_call (c : app_call) : M unit :=
  match c with
  | call_write_head id status h => write_head id status h
  | call_end id g => end_ id g
  | call_write_trailer id h => write_trailer id h
  | call_on_close id cb => update_response id (set_close_cb cb)
  | call_on_data id cb => update_request id (set_on_data cb)
  | call_cancel id error_code => cancel id error_code
  | call_resume id => response_resume id
  | call_push id method raw_path_query h => push_promise id method raw_path_query h;; ret tt
  end.

(** A callback of the application with the calls it makes. *)
Definition react (e : app_event) : M unit :=
  modify (add_event e);; h <- get;; forM (app_react h e) run_app_call.

(** [request_impl::call_on_data]; an empty [data] signals the end. *)
Definition request_call_on_data (id : Z) (data : str) : M unit :=
  s <- the_stream id;;
  match rq_on_data (st_request s) with
  | Some cb => react (app_data cb id data)
  | None => ret tt
  end.

(** [response_impl::call_on_close] *)
Definition response_call_on_close (id error_code : Z) : M unit :=
  s <- the_stream id;;
  match rs_close_cb (st_response s) with
  | Some cb => react (app_close cb id error_code)
  | None => ret tt
  end.

(** [response_impl::call_read]: what it returns and [*data_flags]. *)
Definition call_read (id : Z) (len : nat) (flags : Z) : M (gen_ret * Z) :=
  s <- the_stream id;;
  match rs_generator (st_response s) with
  | gen_empty => ret (GRead [], Z.lor flags NGHTTP2_DATA_FLAG_EOF)
  | gen_deferred => ret (deferred_generator_call len flags)
  | gen_string data remaining =>
    let '(r, flags, remaining) := string_generator_call data remaining len flags in
    update_response id (set_generator (gen_string data remaining));;
    ret (r, flags)
  | gen_user cb =>
    h <- get;;
    let '(r, fl) := app_gen (app_log h) cb len in
    react (app_generate cb id len);;
    ret (r, Z.lor flags fl)
  end.

(** The calls of a handler the server made itself. *)
Definition run_response_call (id : Z) (c : serve_mux.response_call) : M unit :=
  match c with
  | serve_mux.write_head status h => write_head id status h
  | serve_mux.end_data data => end_data id data
  end.

(** [http2_handler::call_on_request] *)
Definition call_on_request (id : Z) : M unit :=
  s <- the_stream id;;
  let req := st_request s in
  match serve_mux.handler mux_ {| serve_mux.method := rq_method req; serve_mux.uri := rq_uri req |} with
  | None => fail memory_error
  | Some (serve_mux.cb_user cb) => react (app_request cb id)
  | Some (serve_mux.cb_redirect status uri) =>
    match serve_mux.redirect_handler status uri (rq_method req) with
    | Some cs => forM cs (run_response_call id)
    | None => fail memory_error
    end
  | Some (serve_mux.cb_status status) =>
    match serve_mux.status_handler status with
    | Some cs => forM cs (run_response_call id)
    | None => fail memory_error
    end
  end.

(** ** Callbacks of the session *)

Definition is_request_headers (f : frame) : bool :=
  bool_decide (hd_type f = NGHTTP2_HEADERS) && bool_decide (cat f = NGHTTP2_HCAT_REQUEST).

Definition on_begin_headers_callback (f : frame) : M unit :=
  if negb (is_request_headers f) then ret tt else create_stream (hd_stream_id f).

Definition HEADER_LIMIT : Z := 64 * 1024.

(** The [default] case of [on_header_callback], which [HD_HOST] falls through
    to. *)
Definition add_header (id : Z) (name val : str) (flags : Z) : M unit :=
  s <- the_stream id;;
  let req := st_request s in
  let n := Z.of_nat (length name) + Z.of_nat (length val) in
  if HEADER_LIMIT <? rq_header_buffer_size req + n
  then lib (submit_rst_stream id NGHTTP2_INTERNAL_ERROR);; ret tt
  else
    update_request id (fun r =>
      set_header (emplace (rq_header r) name {| value := val; sensitive := has_flag flags NGHTTP2_NV_FLAG_NO_INDEX |})
        (rq_header_buffer_size r + n) r).

Definition update_uri (id : Z) (f : uri_ref -> uri_ref) : M unit :=
  update_request id (fun r => set_uri (f (rq_uri r)) r).

Definition on_header_callback (f : frame) (name val : str) (flags : Z) : M unit :=
  let id := hd_stream_id f in
  if negb (is_request_headers f) then ret tt
  else
    o <- find_stream id;;
    match o with
    | None => ret tt
    | Some s =>
      match lookup_token name with
      | Some HD__METHOD => update_request id (set_method val)
      | Some HD__SCHEME => update_uri id (set_scheme val)
      | Some HD__AUTHORITY => update_uri id (set_host val)
      | Some HD__PATH => update_uri id (fun u => split_path u val)
      | Some HD_HOST =>
        (if (length (host (rq_uri (st_request s))) =? 0)%nat then update_uri id (set_host val) else ret tt);;
        add_header id name val flags
      | _ => add_header id name val flags
      end
    end.

Definition on_frame_recv_callback (f : frame) : M unit :=
  let id := hd_stream_id f in
  o <- find_stream id;;
  match hd_type f with
  | NGHTTP2_DATA =>
    match o with
    | None => ret tt
    | Some _ =>
      if has_flag (hd_flags f) NGHTTP2_FLAG_END_STREAM then request_call_on_data id [] else ret tt
    end
  | NGHTTP2_HEADERS =>
    match o with
    | None => ret tt
    | Some _ =>
      if negb (bool_decide (cat f = NGHTTP2_HCAT_REQUEST)) then ret tt
      else
        h <- get;;
        update_request id (set_remote_endpoint (remote_ep_ h));;
        call_on_request id;;
        if has_flag (hd_flags f) NGHTTP2_FLAG_END_STREAM then request_call_on_data id [] else ret tt
    end
  | _ => ret tt
  end.

Definition on_data_chunk_recv_callback (id : Z) (data : str) : M unit :=
  o <- find_stream id;;
  match o with
  | None => ret tt
  | Some _ => request_call_on_data id data
  end.

Definition on_stream_close_callback (id error_code : Z) : M unit :=
  o <- find_stream id;;
  match o with
  | None => ret tt
  | Some _ => response_call_on_close id error_code;; close_stream id
  end.

Definition on_frame_send_callback (f : frame) : M unit :=
  if negb (bool_decide (hd_type f = NGHTTP2_PUSH_PROMISE)) then ret tt
  else
    o <- find_stream (promised_stream_id f);;
    match o with
    | None => ret tt
    | Some _ => push_promise_sent (promised_stream_id f)
    end.

Definition on_frame_not_send_callback (f : frame) : M unit :=
  if negb (bool_decide (hd_type f = NGHTTP2_HEADERS)) then ret tt
  else lib (submit_rst_stream (hd_stream_id f) NGHTTP2_INTERNAL_ERROR);; ret tt.

(** What the session invokes: a callback, or the read callback of a data
    provider. *)
Inductive session_event :=
  | on_begin_headers (f : frame)
  | on_header (f : frame) (name val : str) (flags : Z)
  | on_frame_recv (f : frame)
  | on_data_chunk_recv (id : Z) (data : str)
  | on_stream_close (id error_code : Z)
  | on_frame_send (f : frame)
  | on_frame_not_send (f : frame)
  | on_read_data (id : Z) (len : nat) (flags : Z).

Definition run_callback (e : session_event) : M unit :=
  match e with
  | on_begin_headers f => on_begin_headers_callback f
  | on_header f name val flags => on_header_callback f name val flags
  | on_frame_recv f => on_frame_recv_callback f
  | on_data_chunk_recv id data => on_data_chunk_recv_callback id data
  | on_stream_close id error_code => on_stream_close_callback id error_code
  | on_frame_send f => on_frame_send_callback f
  | on_frame_not_send f => on_frame_not_send_callback f
  | on_read_data id len flags => call_read id len flags;; ret tt
  end.

(** ** Input and output *)

(** [on_read]: the callbacks that [nghttp2_session_mem_recv] invokes for the
    bytes, and its return value. *)
Definition on_read (evs : list session_event) (rv : Z) : M Z :=
  enter_callback;;
  forM evs run_callback;;
  leave_callback;;
  ret (if rv <? 0 then -1 else 0).

(** One call of [nghttp2_session_mem_send]: the callbacks it invokes, then the
    bytes its pointer refers to, or a negative result. *)
Record mem_send := mk_send { send_events : list session_event; send_data : option str }.

(** The loop of [on_write]; [out] is the buffer up to [len].  The result is the
    return value, the buffer and the calls of [nghttp2_session_mem_send] that
    were not made; when [sends] is used up the session returns 0. *)
Fixpoint write_loop (size : nat) (sends : list mem_send) (out : str) : M (Z * str * list mem_send) :=
  match sends with
  | [] => ret (0, out, [])
  | s :: rest =>
    forM (send_events s) run_callback;;
    match send_data s with
    | None => ret (-1, out, rest)
    | Some data =>
      modify (set_sendbuf data);;
      if (length data =? 0)%nat then ret (0, out, rest)
      else if (size <? length out + length data)%nat then modify (set_buf (Some (length data)));; ret (0, out, rest)
      else write_loop size rest (out ++ data)
    end
  end.

(** The bytes left over from the last [on_write], copied to the start of the
    buffer. *)
Definition copy_pending (size : nat) : M str :=
  h <- get;;
  match buf_ h with
  | None => ret []
  | Some n =>
    (if (n <=? size)%nat then ret tt else fail buffer_overflow);;
    modify (set_buf None);;
    ret (take n (sendbuf h))
  end.

Definition on_write (size : nat) (sends : list mem_send) : M (Z * str * list mem_send) :=
  enter_callback;;
  out <- copy_pending size;;
  r <- write_loop size sends out;;
  leave_callback;;
  ret r.

(** [http2_handler::start]: [rv1] and [rv2] are the results of
    [nghttp2_session_callbacks_new] and [nghttp2_session_server_new]. *)
Definition start (rv1 rv2 : Z) : M Z :=
  if negb (rv1 =? 0) then ret (-1)
  else if negb (rv2 =? 0) then ret (-1)
  else lib (submit_settings [(NGHTTP2_SETTINGS_MAX_CONCURRENT_STREAMS, 100)]);; ret 0.

(** The destructor closes the streams that are left, in the order of the map; no
    call on them follows. *)
Definition destroy : M unit :=
  h <- get;;
  forM (merge_sort Z.le (map_to_list (streams h)).*1) (fun id =>
    s <- the_stream id;;
    match rs_close_cb (st_response s) with
    | Some cb => modify (add_event (app_close cb id NGHTTP2_INTERNAL_ERROR))
    | None => ret tt
    end).

End handler.

(** The constructor, for the peer [ep] at time [t]; [date] is [util::http_date(t)]. *)
Definition new_handler (ep : tcp_endpoint) (t : Z) (date : str) : http2_handler :=
  {| streams := ∅; inside_callback := false; write_signaled := false; tstamp_cached := t;
     formatted_date := date; buf_ := None; sendbuf := []; clock := t; calls := []; posts := 0;
     writes := 0; app_log := []; remote_ep_ := ep |}.

End server.
