(* ===== verification/ServerApi.v ===== *)
(** * The objects that the application of a server holds:
    lib/asio_server_request.cc and lib/asio_server_response.cc

    A [server::request] and a [server::response] own an implementation that knows
    its stream; they are referred to by the id of that stream, and using one after its
    stream was closed is the failure [dangling_stream].  Each member forwards to
    the implementation.  A callback of the application is a program over these
    members, whose next call may depend on what it has seen; the theorem shows that
    it does what the list of calls does by which ServerHandler represents it. *)

From S2P Require Import Prelude Monad Common Nghttp2 ServerHandler.

Module server_api.
Import monad common nghttp2 server.
Local Open Scope monad_scope.
Local Abbreviation M := (monad.M http2_handler).

Section members.
Context `{Nghttp2}.

(** ** [request] *)

Definition request_header (id : Z) : M header_map := s <- the_stream id;; ret (rq_header (st_request s)).
Definition request_method (id : Z) : M str := s <- the_stream id;; ret (rq_method (st_request s)).
Definition request_uri (id : Z) : M uri_ref := s <- the_stream id;; ret (rq_uri (st_request s)).
Definition request_remote_endpoint (id : Z) : M tcp_endpoint := s <- the_stream id;; ret (rq_remote_ep (st_request s)).
Definition request_on_data (id : Z) (cb : nat) : M unit := update_request id (set_on_data cb).

(** ** [response] *)

Definition response_write_head (id status_code : Z) (h : header_map) : M unit := write_head id status_code h.
Definition response_end_string (id : Z) (data : str) : M unit := end_data id data.
Definition response_end_generator (id : Z) (cb : generator) : M unit := end_ id cb.
Definition response_write_trailer (id : Z) (h : header_map) : M unit := write_trailer id h.
Definition response_on_close (id : Z) (cb : nat) : M unit := update_response id (set_close_cb cb).
Definition response_cancel (id error_code : Z) : M unit := cancel id error_code.
Definition response_push (id : Z) (method path : str) (h : header_map) : M (error_code * option Z) :=
  push_promise id method path h.
Definition response_resume_ (id : Z) : M unit := response_resume id.
Definition response_status_code (id : Z) : M Z := s <- the_stream id;; ret (rs_status_code (st_response s)).

(** ** Programs *)

(** The members, the ones that change something and the ones that look; what the
    application does next depends on what it sees. *)
Inductive program :=
  | p_done
  | p_request_header (id : Z) (k : header_map -> program)
  | p_request_method (id : Z) (k : str -> program)
  | p_request_uri (id : Z) (k : uri_ref -> program)
  | p_request_remote_endpoint (id : Z) (k : tcp_endpoint -> program)
  | p_status_code (id : Z) (k : Z -> program)
  | p_push (id : Z) (method path : str) (h : header_map) (k : error_code * option Z -> program)
  | p_call (c : app_call) (k : program).

Definition run_member (c : app_call) : M unit :=
  match c with
  | call_write_head id status h => response_write_head id status h
  | call_end id g => response_end_generator id g
  | call_write_trailer id h => response_write_trailer id h
  | call_on_close id cb => response_on_close id cb
  | call_on_data id cb => request_on_data id cb
  | call_cancel id error_code => response_cancel id error_code
  | call_resume id => response_resume_ id
  | call_push id method path h => response_push id method path h;; ret tt
  end.

Fixpoint run_program (p : program) : M unit :=
  match p with
  | p_done => ret tt
  | p_request_header id k => x <- request_header id;; run_program (k x)
  | p_request_method id k => x <- request_method id;; run_program (k x)
  | p_request_uri id k => x <- request_uri id;; run_program (k x)
  | p_request_remote_endpoint id k => x <- request_remote_endpoint id;; run_program (k x)
  | p_status_code id k => x <- response_status_code id;; run_program (k x)
  | p_push id method path h k => x <- response_push id method path h;; run_program (k x)
  | p_call c k => run_member c;; run_program k
  end.

(** The calls that a program makes when it runs in [h]. *)
Fixpoint calls_of (p : program) (h : http2_handler) : list app_call :=
  match p with
  | p_done => []
  | p_request_header id k => match request_header id h with Done x h => calls_of (k x) h | Failed _ => [] end
  | p_request_method id k => match request_method id h with Done x h => calls_of (k x) h | Failed _ => [] end
  | p_request_uri id k => match request_uri id h with Done x h => calls_of (k x) h | Failed _ => [] end
  | p_request_remote_endpoint id k =>
    match request_remote_endpoint id h with Done x h => calls_of (k x) h | Failed _ => [] end
  | p_status_code id k => match response_status_code id h with Done x h => calls_of (k x) h | Failed _ => [] end
  | p_push id method path hd k =>
    call_push id method path hd
      :: match response_push id method path hd h with Done x h => calls_of (k x) h | Failed _ => [] end
  | p_call c k => c :: match run_member c h with Done _ h => calls_of k h | Failed _ => [] end
  end.

(** Looking at an object changes nothing, and fails only when its stream is gone. *)
Lemma look_pure {A} (f : stream -> A) id h :
  (s <- the_stream id;; ret (f s)) h = match streams h !! id with Some s => Done (f s) h | None => Failed dangling_stream end.
Proof. unfold the_stream, find_stream, bind, get, ret. by destruct (streams h !! id). Qed.

(** A program that looks at an object and goes on. *)
Lemma look_covered {A} (f : stream -> A) id (k : A -> program) h :
  (forall x h', match run_program (k x) h' with
     | Done _ h'' => forM (calls_of (k x) h') run_app_call h' = Done tt h''
     | Failed e => e = dangling_stream \/ forM (calls_of (k x) h') run_app_call h' = Failed e
     end) ->
  match (x <- (s <- the_stream id;; ret (f s));; run_program (k x)) h with
  | Done _ h' => forM (match (s <- the_stream id;; ret (f s)) h with Done x h => calls_of (k x) h | Failed _ => [] end) run_app_call h = Done tt h'
  | Failed e => e = dangling_stream
      \/ forM (match (s <- the_stream id;; ret (f s)) h with Done x h => calls_of (k x) h | Failed _ => [] end) run_app_call h = Failed e
  end.
Proof.
  intros IH. unfold bind at 1. rewrite look_pure. destruct (streams h !! id) as [s|]; [apply IH|by left].
Qed.

End members.

(** The application's callbacks are no less general than the public interface:
    a program over the members of [request] and [response], in which every step may
    depend on what it has seen (header, method, URI, endpoint, status, the result of a
    push), does in every state exactly what the list of calls does that it makes
    there; and it fails where they fail, or because it looks at an object whose
    stream is closed.  So what holds of the server for all applications of
    ServerHandler holds for all programs. *)
Theorem programs_are_calls {Lib : Nghttp2} (p : program) (h : http2_handler) :
  match run_program p h with
  | Done _ h' => forM (calls_of p h) run_app_call h = Done tt h'
  | Failed e => e = dangling_stream \/ forM (calls_of p h) run_app_call h = Failed e
  end.
Proof.
  revert h. induction p as [|id k IH|id k IH|id k IH|id k IH|id k IH|id method path hd k IH|c k IH]; intros h; [done| | | | | | |].
  1-5: exact (look_covered _ id k h IH).
  - cbn [run_program calls_of forM run_app_call]. unfold response_push, bind.
    destruct (push_promise id method path hd h) as [x h'|e]; [apply IH|by right].
  - cbn [run_program calls_of forM]. unfold bind.
    assert (run_member c h = run_app_call c h) as -> by (by destruct c).
    destruct (run_app_call c h) as [[] h'|e]; [apply IH|by right].
Qed.

End server_api.
