(* ===== verification/ServerProps.v ===== *)
(** * Properties of the server's handler

    An invariant of [http2_handler] over every sequence of reads, writes, calls
    of the application, posted tasks and clock changes, for every library that
    satisfies the documented laws and every application; and its consequences:
    no assertion fails, one response and one close notification per stream, the
    limit on header fields, one posted write at a time. *)

From S2P Require Import Prelude Monad Util Http2 TimeGm Common ServeMux Nghttp2 ServerHandler.

Module server_props.
Import monad http2 common nghttp2 server.
Local Open Scope monad_scope.

(** ** Weakest preconditions of the operations on streams *)

Local Abbreviation M := (monad.M http2_handler).

Lemma wp_the_stream id (Q : stream -> http2_handler -> Prop) h :
  (forall s, streams h !! id = Some s -> Q s h) -> wp (the_stream id) Q h.
Proof.
  intros HQ. unfold the_stream, find_stream, wp, bind, get, ret, fail.
  destruct (streams h !! id) eqn:E; [by apply HQ|done].
Qed.

Lemma wp_find_stream id (Q : option stream -> http2_handler -> Prop) h :
  Q (streams h !! id) h -> wp (find_stream id) Q h.
Proof. done. Qed.

Lemma wp_update_request id f (Q : unit -> http2_handler -> Prop) h :
  (forall s, streams h !! id = Some s ->
     Q tt (set_streams (<[id := mk_stream (f (st_request s)) (st_response s)]> (streams h)) h)) ->
  wp (update_request id f) Q h.
Proof.
  intros HQ. unfold update_request. apply wp_bind, wp_the_stream. intros s Hs. by apply wp_modify, HQ.
Qed.

Lemma wp_update_response id f (Q : unit -> http2_handler -> Prop) h :
  (forall s, streams h !! id = Some s ->
     Q tt (set_streams (<[id := mk_stream (st_request s) (f (st_response s))]> (streams h)) h)) ->
  wp (update_response id f) Q h.
Proof.
  intros HQ. unfold update_response. apply wp_bind, wp_the_stream. intros s Hs. by apply wp_modify, HQ.
Qed.

(** ** What the history says of a stream *)

Definition is_response_to (id : Z) (c : lib_call) : bool :=
  match c with submit_response i _ _ => i =? id | _ => false end.
Definition is_close_of (id : Z) (e : app_event) : bool :=
  match e with app_close _ i _ => i =? id | _ => false end.

(** The number of responses submitted for a stream, and of close notifications
    given for it. *)
Definition responses (id : Z) (l : list lib_call) : Z := count (is_response_to id) l.
Definition closes (id : Z) (l : list app_event) : Z := count (is_close_of id) l.

(** The response has been passed on to the session. *)
Definition started (r : response_impl) : bool :=
  negb (bool_decide (rs_state r = INITIAL)) && (negb (rs_pushed r) || rs_push_promise_sent r).

(** Streams of the client have odd ids, promised streams even ones. *)
Definition stream_wf (id : Z) (s : stream) : Prop :=
  let rq := st_request s in
  let rs := st_response s in
  0 <= rq_header_buffer_size rq <= HEADER_LIMIT
  /\ if Z.even id then rs_pushed rs = true
     else rs_pushed rs = false /\ rs_push_promise_sent rs = false
          /\ rq_header_buffer_size rq = header_size (rq_header rq).

Section props.
Context {Lib : Nghttp2} {Laws : Nghttp2Laws} (mux_ : serve_mux.mux) (Hmux : serve_mux.app_mux mux_)
  {Ap : App} (bufsize : nat).

(** The streams promised so far. *)
Local Abbreviation pushed_ids := (ids_of is_push_promise).

Lemma pushed_ids_fresh h c :
  is_push_promise c = true -> 0 <= lib_ret h c ->
  ~ (lib_ret h c ∈ pushed_ids h) /\ Z.even (lib_ret h c) = true.
Proof.
  intros Hc Hr. split; [|by apply push_id_even].
  intros (h2 & c0 & h1 & -> & Hc0 & Hr0 & E)%ids_of_inv.
  pose proof (push_id_fresh h1 c0 h2 c Hc0 Hc Hr0 Hr). lia.
Qed.

(** Where the execution is: the streams the client has opened, the stream whose
    close callback runs, the stream whose response is being submitted, and
    whether a callback of the session is running; and the pending output, which
    only [on_write] changes. *)
Record ctx := mk_ctx {
  begun : gset Z; closing : option Z; pending : option Z; ins : bool;
  cbuf : option nat; cdata : str;
}.

Definition created (x : ctx) (l : list lib_call) (id : Z) : Prop :=
  if Z.even id then id ∈ pushed_ids l else id ∈ begun x.

Definition id_ok (x : ctx) (l : list lib_call) (log : list app_event) (id : Z) (o : option stream) : Prop :=
  match o with
  | Some s =>
    created x l id /\ stream_wf id s
    /\ (if decide (pending x = Some id) then started (st_response s) = true /\ responses id l = 0
        else responses id l = if started (st_response s) then 1 else 0)
    /\ (if decide (closing x = Some id) then closes id log <= 1 else closes id log = 0)
  | None =>
    responses id l <= 1 /\ closes id log <= 1
    /\ (~ created x l id -> responses id l = 0 /\ closes id log = 0)
  end.

Definition buf_ok (x : ctx) (h : http2_handler) : Prop := buf_ h = cbuf x /\ sendbuf h = cdata x.

Definition Inv (x : ctx) (h : http2_handler) : Prop :=
  inside_callback h = ins x
  /\ posts h = (if write_signaled h then 1 else 0)%nat
  /\ buf_ok x h
  /\ forall id, id_ok x (calls h) (app_log h) id (streams h !! id).

(** A change outside the streams and the histories. *)
Lemma Inv_frame x h h' :
  streams h' = streams h -> calls h' = calls h -> app_log h' = app_log h ->
  inside_callback h' = inside_callback h ->
  (posts h' = (if write_signaled h' then 1 else 0))%nat -> buf_ok x h' -> Inv x h -> Inv x h'.
Proof. intros E1 E2 E3 E4 Hp Hb (I1 & _ & _ & I4). unfold Inv. rewrite E1, E2, E3, E4. done. Qed.

Lemma wp_signal_write x Q h :
  Inv x h -> (forall h', Inv x h' -> streams h' = streams h -> calls h' = calls h -> app_log h' = app_log h -> Q tt h') ->
  wp signal_write Q h.
Proof.
  intros HI HQ. unfold signal_write. apply wp_bind, wp_get. case_if.
  - apply wp_modify, HQ; [|done..]. destruct HI as (I1 & I2 & I3 & I4). split; [done|]. split; [|done].
    cbn. boolp. destruct (write_signaled h); [done|]. by rewrite I2.
  - by apply wp_ret, HQ.
Qed.

(** *** Calls on the session *)

(** Calls that neither answer a stream nor promise one. *)
Definition neutral (c : lib_call) : bool :=
  match c with submit_response _ _ _ | submit_push_promise _ _ => false | _ => true end.

Lemma neutral_history c l id :
  neutral c = true -> responses id (c :: l) = responses id l /\ pushed_ids (c :: l) = pushed_ids l.
Proof. intros Hc. unfold responses. rewrite count_cons. by destruct c. Qed.

Lemma Inv_neutral x c h : neutral c = true -> Inv x h -> Inv x (add_call c h).
Proof.
  intros Hc (I1 & I2 & I3 & I4). split; [done|]. split; [done|]. split; [done|].
  intros id. specialize (I4 id). cbn. unfold id_ok, created in *.
  by rewrite (proj1 (neutral_history c (calls h) id Hc)), (proj2 (neutral_history c (calls h) id Hc)).
Qed.

Lemma wp_lib c (Q : Z -> http2_handler -> Prop) h : Q (lib_ret (calls h) c) (add_call c h) -> wp (lib c) Q h.
Proof. done. Qed.

Lemma wp_stream_error x id code Q h :
  Inv x h -> (forall h', Inv x h' -> streams h' = streams h -> Q tt h') -> wp (stream_error id code) Q h.
Proof.
  intros HI HQ. unfold stream_error. apply wp_bind, wp_lib.
  eapply wp_signal_write; [by apply Inv_neutral|]. intros h' HI' Es _ _. by apply HQ.
Qed.

Lemma wp_resume x id Q h :
  Inv x h -> (forall h', Inv x h' -> streams h' = streams h -> Q tt h') -> wp (resume id) Q h.
Proof.
  intros HI HQ. unfold resume. apply wp_bind, wp_lib.
  eapply wp_signal_write; [by apply Inv_neutral|]. intros h' HI' Es _ _. by apply HQ.
Qed.

(** *** Updates of one stream *)

Definition pend (x : ctx) (id : Z) : ctx := mk_ctx (begun x) (closing x) (Some id) (ins x) (cbuf x) (cdata x).
Definition unpend (x : ctx) : ctx := mk_ctx (begun x) (closing x) None (ins x) (cbuf x) (cdata x).

Lemma Inv_update x h id s s' :
  streams h !! id = Some s -> stream_wf id s' -> started (st_response s') = started (st_response s) ->
  Inv x h -> Inv x (set_streams (<[id := s']> (streams h)) h).
Proof.
  intros Hs Hwf Hst (I1 & I2 & I3 & I4). split; [done|]. split; [done|]. split; [done|].
  intros id'. cbn. destruct (decide (id' = id)) as [->|Hn]; [|rewrite lookup_insert_ne by done; apply I4].
  rewrite lookup_insert_eq. specialize (I4 id). rewrite Hs in I4. unfold id_ok in *. rewrite Hst.
  destruct I4 as (? & _ & ? & ?). done.
Qed.

(** The update after which the response has to be submitted. *)
Lemma Inv_update_pend x h id s s' :
  streams h !! id = Some s -> stream_wf id s' -> started (st_response s) = false ->
  started (st_response s') = true -> pending x = None ->
  Inv x h -> Inv (pend x id) (set_streams (<[id := s']> (streams h)) h).
Proof.
  intros Hs Hwf Hst Hst' Hp (I1 & I2 & I3 & I4). split; [done|]. split; [done|]. split; [done|].
  intros id'. cbn. specialize (I4 id'). destruct (decide (id' = id)) as [->|Hn].
  - rewrite lookup_insert_eq. rewrite Hs in I4. unfold id_ok in *. rewrite Hst in I4. rewrite Hp in I4.
    rewrite decide_False in I4 by done. cbn [pending pend closing]. rewrite decide_True by done.
    destruct I4 as (? & _ & ? & ?). done.
  - rewrite lookup_insert_ne by done. unfold id_ok in *. rewrite Hp in I4.
    destruct (streams h !! id') as [t|]; [|done]. rewrite decide_False in I4 by done.
    cbn [pending pend closing]. by rewrite decide_False by congruence.
Qed.

(** The submission itself. *)
Lemma Inv_submit x h id nva body :
  pending x = Some id -> streams h !! id <> None ->
  Inv x h -> Inv (unpend x) (add_call (submit_response id nva body) h).
Proof.
  intros Hp Hs (I1 & I2 & I3 & I4). split; [done|]. split; [done|]. split; [done|].
  intros id'. cbn. specialize (I4 id'). unfold id_ok, created, responses in *. rewrite !count_cons.
  cbn [is_response_to ids_of is_push_promise andb closing pending unpend begun] in *.
  rewrite Hp in I4. destruct (decide (id' = id)) as [->|Hn].
  - rewrite Z.eqb_refl. destruct (streams h !! id) as [t|]; [|done]. rewrite decide_True in I4 by done.
    rewrite decide_False by done. destruct I4 as (? & ? & [-> Hr] & ?). rewrite Hr. done.
  - rewrite (proj2 (Z.eqb_neq id id')) by done. destruct (streams h !! id') as [t|]; [|done].
    rewrite decide_False in I4 by congruence. by rewrite decide_False.
Qed.

(** *** Responses *)

Lemma wp_http_date x (Q : str -> http2_handler -> Prop) h :
  Inv x h ->
  (forall d h', Inv x h' -> streams h' = streams h -> calls h' = calls h -> app_log h' = app_log h -> Q d h') ->
  wp http_date Q h.
Proof.
  intros HI HQ. unfold http_date. apply wp_bind, wp_get. case_if; [by apply wp_ret, HQ|].
  pose proof (timegm.http_date_total (clock h)) as Ht. destruct (timegm.http_date (clock h)) as [d|]; [|done].
  apply wp_bind, wp_modify, wp_ret, HQ; [|done..]. eapply Inv_frame; [..|exact HI]; try done; apply HI.
Qed.

(** The stream of [id] is the same up to members that do not matter here. *)
Definition same_state (id : Z) (f : response_state -> Prop) (h : http2_handler) : Prop :=
  forall s, streams h !! id = Some s -> f (rs_state (st_response s)).

Lemma wp_handler_start_response x id h :
  Inv (pend x id) h ->
  wp (handler_start_response id) (fun _ h' => Inv (unpend x) h' /\ streams h' = streams h) h.
Proof.
  intros HI. unfold handler_start_response. apply wp_bind, wp_the_stream. intros s Hs.
  apply wp_bind. eapply wp_http_date; [done|]. intros d h1 HI1 Es1 _ _. cbv zeta.
  apply wp_bind, wp_lib.
  match goal with |- context [add_call ?c h1] => set (h2 := add_call c h1) end.
  assert (Inv (unpend x) h2) as HI2.
  { apply (Inv_submit (pend x id) h1 id); [done| |done]. rewrite Es1, Hs. done. }
  assert (streams h2 = streams h) as Es2 by (cbn; done).
  case_if; [by apply wp_ret|]. apply wp_bind. eapply wp_signal_write; [done|].
  intros h3 HI3 Es3 _ _. apply wp_ret. split; [done|]. congruence.
Qed.

Lemma started_set_state r st :
  rs_state r <> INITIAL -> st <> INITIAL -> started (set_state st r) = started r.
Proof. intros H1 H2. unfold started. cbn. by rewrite !bool_decide_eq_false_2. Qed.

Lemma stream_wf_response id s r :
  stream_wf id s -> rs_pushed r = rs_pushed (st_response s) ->
  rs_push_promise_sent r = rs_push_promise_sent (st_response s) -> stream_wf id (mk_stream (st_request s) r).
Proof. intros [H1 H2] E1 E2. split; [done|]. cbn. by rewrite E1, E2. Qed.

Lemma Inv_stream x h id s : Inv x h -> streams h !! id = Some s -> id_ok x (calls h) (app_log h) id (Some s).
Proof. intros (_ & _ & _ & I) Hs. rewrite <- Hs. apply I. Qed.

Lemma Inv_wf x h id s : Inv x h -> streams h !! id = Some s -> stream_wf id s.
Proof. intros HI Hs. by destruct (Inv_stream _ _ _ _ HI Hs) as (_ & ? & _). Qed.

Lemma started_not_initial r : started r = true -> rs_state r <> INITIAL.
Proof. unfold started. rewrite andb_true_iff, negb_true_iff, bool_decide_eq_false. by intros []. Qed.

Lemma wp_start_response x id h :
  Inv (pend x id) h ->
  wp (start_response id) (fun _ h' => Inv (unpend x) h' /\ same_state id (fun st => st <> INITIAL) h') h.
Proof.
  intros HI. unfold start_response. apply wp_bind, wp_the_stream. intros s Hs.
  pose proof (Inv_stream _ _ _ _ HI Hs) as (_ & Hwf & Hp & _). cbn [pending pend] in Hp.
  rewrite decide_True in Hp by done. destruct Hp as [Hst _]. pose proof (started_not_initial _ Hst) as Hni.
  assert (forall h1, Inv (pend x id) h1 -> same_state id (fun st => st <> INITIAL) h1 ->
    wp (rv <- handler_start_response id;;
        (if negb (rv =? 0) then stream_error id NGHTTP2_INTERNAL_ERROR else ret tt))
       (fun _ h' => Inv (unpend x) h' /\ same_state id (fun st => st <> INITIAL) h') h1) as K.
  { intros h1 HI1 Hs1. apply wp_bind. eapply wp_mono; [by apply wp_handler_start_response|].
    intros rv h2 [HI2 Es2]. assert (same_state id (fun st => st <> INITIAL) h2) as Hs2.
    { intros s2. rewrite Es2. apply Hs1. }
    case_if; [|by apply wp_ret]. eapply wp_stream_error; [done|]. intros h3 HI3 Es3. split; [done|].
    intros s3. rewrite Es3. apply Hs2. }
  apply wp_bind. case_if.
  - apply wp_update_response. intros s' Hs'. assert (s' = s) as -> by congruence. apply K.
    + eapply Inv_update; [done|by apply stream_wf_response|by apply started_set_state|done].
    + intros s1. cbn. rewrite lookup_insert_eq. by intros [= <-].
  - apply wp_ret, K; [done|]. intros s'. rewrite Hs. by intros [= <-].
Qed.

Lemma started_head r status hd : started (set_head status hd r) = negb (rs_pushed r) || rs_push_promise_sent r.
Proof. reflexivity. Qed.

Lemma wp_write_head x id status hd h :
  Inv x h -> pending x = None ->
  wp (write_head id status hd) (fun _ h' => Inv x h' /\ same_state id (fun st => st <> INITIAL) h') h.
Proof.
  intros HI Hp. assert (unpend x = x) as Ux by (destruct x; cbn in *; by rewrite Hp).
  unfold write_head. apply wp_bind, wp_the_stream. intros s Hs. cbv zeta.
  destruct (bool_decide_reflect (rs_state (st_response s) = INITIAL)) as [Hi|Hi]; cbn [negb].
  2:{ apply wp_ret. split; [done|]. intros s'. rewrite Hs. by intros [= <-]. }
  apply wp_bind, wp_update_response. intros s' Hs'. assert (s' = s) as -> by congruence.
  assert (started (st_response s) = false) as Hst by (unfold started; by rewrite bool_decide_eq_true_2).
  pose proof (Inv_wf _ _ _ _ HI Hs) as Hwf.
  case_if.
  - apply wp_ret. split.
    + eapply Inv_update; [done|by apply stream_wf_response| |done].
      cbn [st_response]. rewrite started_head, Hst. boolp. by rewrite H, H0.
    + intros s1. cbn. rewrite lookup_insert_eq. by intros [= <-].
  - eapply wp_mono; [apply (wp_start_response x)|]; [|intros a h' [HI' Hs2]; by rewrite Ux in HI'].
    eapply Inv_update_pend; [done|by apply stream_wf_response|done| |done|done].
    cbn [st_response]. rewrite started_head. by destruct (rs_pushed (st_response s)), (rs_push_promise_sent (st_response s)).
Qed.

Lemma wp_end x id g h : Inv x h -> pending x = None -> wp (end_ id g) (fun _ => Inv x) h.
Proof.
  intros HI Hp. unfold end_. apply wp_bind, wp_the_stream. intros s Hs. cbv zeta.
  case_if; [by apply wp_ret|]. apply wp_bind, wp_update_response. intros s' Hs'.
  assert (s' = s) as -> by congruence. pose proof (Inv_wf _ _ _ _ HI Hs) as Hwf.
  set (h1 := set_streams _ h).
  assert (Inv x h1) as HI1 by (eapply Inv_update; [done|by apply stream_wf_response|done|done]).
  assert (forall h2, Inv x h2 -> same_state id (fun st => st <> INITIAL) h2 ->
            wp (update_response id (set_state BODY_STARTED)) (fun _ => Inv x) h2) as K.
  { intros h2 HI2 Hst2. apply wp_update_response. intros s2 Hs2.
    eapply Inv_update; [done|apply stream_wf_response; [by eapply Inv_wf|done..]| |done].
    apply started_set_state; [by apply Hst2|done]. }
  apply wp_bind. case_if.
  - eapply wp_mono; [by apply wp_write_head|]. intros a h2 [HI2 Hst2]. by apply K.
  - eapply wp_resume; [done|]. intros h2 HI2 Es2. apply K; [done|]. intros s2. rewrite Es2. cbn.
    rewrite lookup_insert_eq. by intros [= <-].
Qed.

Lemma wp_push_promise_sent x id h :
  Inv x h -> pending x = None -> Z.even id = true -> wp (push_promise_sent id) (fun _ => Inv x) h.
Proof.
  intros HI Hp Heven. assert (unpend x = x) as Ux by (destruct x; cbn in *; by rewrite Hp).
  unfold push_promise_sent. apply wp_bind, wp_the_stream. intros s Hs. cbv zeta.
  destruct (rs_push_promise_sent (st_response s)) eqn:Esent; [by apply wp_ret|].
  apply wp_bind, wp_update_response. intros s' Hs'. assert (s' = s) as -> by congruence.
  pose proof (Inv_wf _ _ _ _ HI Hs) as [Hw1 Hw2]. rewrite Heven in Hw2.
  assert (stream_wf id (mk_stream (st_request s) (set_promise_sent (st_response s)))) as Hwf'.
  { split; [done|]. by rewrite Heven. }
  case_if.
  - apply wp_ret. eapply Inv_update; [done|done| |done]. unfold started. cbn. by rewrite bool_decide_eq_true_2.
  - eapply wp_mono; [apply (wp_start_response x)|]; [|intros a h' [HI' _]; by rewrite Ux in HI'].
    eapply Inv_update_pend; [done|done| | |done|done]; unfold started; cbn.
    + by rewrite Hw2, Esent, andb_false_r.
    + by rewrite bool_decide_eq_false_2, orb_true_r.
Qed.

(** *** Promised streams *)

Definition promised (u : uri_ref) (method raw : str) (hd : header_map) : stream :=
  {| st_request := {| rq_method := method;
                      rq_uri := split_path (set_host (host u) (set_scheme (scheme u) empty_uri)) raw;
                      rq_header := hd; rq_header_buffer_size := 0; rq_on_data := None; rq_remote_ep := no_endpoint |};
     st_response := set_pushed true new_response |}.

(** A promise that succeeds adds its stream. *)
Lemma Inv_promise x h c u method raw hd :
  is_push_promise c = true -> 0 <= lib_ret (calls h) c -> pending x = None -> Inv x h ->
  let id := lib_ret (calls h) c in
  streams h !! id = None
  /\ Inv x (set_streams (<[id := promised u method raw hd]> (streams h)) (add_call c h)).
Proof.
  intros Hc Hr Hpn (I1 & I2 & I3 & I4). cbv zeta. set (id := lib_ret (calls h) c) in *.
  destruct (pushed_ids_fresh (calls h) c Hc Hr) as [Hfresh Heven]. fold id in Hfresh, Heven.
  assert (~ created x (calls h) id) as Hnc by (unfold created; by rewrite Heven).
  assert (streams h !! id = None) as Hnone.
  { destruct (streams h !! id) eqn:E; [|done]. specialize (I4 id). rewrite E in I4. by destruct I4. }
  split; [done|]. split; [done|]. split; [done|]. split; [done|]. intros id'. cbn.
  assert (forall i, responses i (c :: calls h) = responses i (calls h)) as Er.
  { intros i. unfold responses. rewrite count_cons. by destruct c. }
  assert (pushed_ids (c :: calls h) = id :: pushed_ids (calls h)) as Ep.
  { cbn. rewrite Hc, (proj2 (Z.leb_le _ _)) by done. done. }
  assert (forall i, created x (calls h) i -> created x (c :: calls h) i) as Hmono.
  { intros i. unfold created. rewrite Ep. case_if; [|done]. by right. }
  specialize (I4 id'). destruct (decide (id' = id)) as [->|Hn].
  - rewrite lookup_insert_eq. rewrite Hnone in I4. destruct I4 as (_ & _ & I4). destruct (I4 Hnc) as [Hr0 Hc0].
    unfold id_ok. rewrite Er, Hr0, Hc0. split; [unfold created; rewrite Heven, Ep; by left|].
    split; [split; [cbn; unfold HEADER_LIMIT; lia|by rewrite Heven]|].
    rewrite decide_False by congruence. split; [done|]. by case_decide.
  - rewrite lookup_insert_ne by done. unfold id_ok in *. rewrite Er.
    destruct (streams h !! id') as [t|]; [destruct I4 as (? & ?); auto|].
    destruct I4 as (? & ? & I4). split; [done|]. split; [done|]. auto.
Qed.

Lemma wp_create_stream id (Q : unit -> http2_handler -> Prop) h :
  streams h !! id = None -> Q tt (set_streams (<[id := new_stream]> (streams h)) h) -> wp (create_stream id) Q h.
Proof.
  intros Hn HQ. unfold create_stream. apply wp_bind, wp_find_stream. rewrite Hn. by apply wp_modify.
Qed.

Lemma set_streams_twice m m' h : set_streams m (set_streams m' h) = set_streams m h.
Proof. reflexivity. Qed.

(** Updates of the stream that was just put. *)
Lemma wp_update_request_put id f s m (Q : unit -> http2_handler -> Prop) h :
  Q tt (set_streams (<[id := mk_stream (f (st_request s)) (st_response s)]> m) h) ->
  wp (update_request id f) Q (set_streams (<[id := s]> m) h).
Proof.
  intros HQ. apply wp_update_request. cbn. intros s'. rewrite lookup_insert_eq. intros [= <-].
  by rewrite set_streams_twice, insert_insert_eq.
Qed.

Lemma wp_update_response_put id f s m (Q : unit -> http2_handler -> Prop) h :
  Q tt (set_streams (<[id := mk_stream (st_request s) (f (st_response s))]> m) h) ->
  wp (update_response id f) Q (set_streams (<[id := s]> m) h).
Proof.
  intros HQ. apply wp_update_response. cbn. intros s'. rewrite lookup_insert_eq. intros [= <-].
  by rewrite set_streams_twice, insert_insert_eq.
Qed.

Lemma wp_push_promise x id method raw hd h :
  Inv x h -> pending x = None -> wp (push_promise id method raw hd) (fun _ => Inv x) h.
Proof.
  intros HI Hp. unfold push_promise. apply wp_bind, wp_the_stream. intros s Hs. cbv zeta.
  apply wp_bind, wp_lib. set (c := submit_push_promise _ _). set (u := rq_uri (st_request s)).
  destruct (lib_ret (calls h) c <? 0) eqn:E.
  - apply wp_ret. apply Z.ltb_lt in E. destruct HI as (I1 & I2 & I3 & I4). split; [done|]. split; [done|].
    split; [done|]. intros id'. specialize (I4 id'). cbn. unfold id_ok, created in *.
    assert (pushed_ids (c :: calls h) = pushed_ids (calls h)) as ->.
    { cbn. by rewrite (proj2 (Z.leb_gt _ _)) by done. }
    assert (responses id' (c :: calls h) = responses id' (calls h)) as ->
      by (unfold responses; by rewrite count_cons). done.
  - apply Z.ltb_ge in E. destruct (Inv_promise x h c u method raw hd) as [Hn HI']; [done..|].
    apply wp_bind, wp_create_stream; [done|].
    do 3 apply wp_bind, wp_update_request_put. apply wp_bind, wp_update_response_put.
    apply wp_bind. eapply wp_signal_write; [exact HI'|]. intros h' HI'' _ _ _. by apply wp_ret.
Qed.

(** *** The application *)

Lemma stream_wf_request id s r :
  stream_wf id s -> rq_header_buffer_size r = rq_header_buffer_size (st_request s) ->
  rq_header r = rq_header (st_request s) -> stream_wf id (mk_stream r (st_response s)).
Proof. intros [H1 H2] E1 E2. unfold stream_wf. cbn. rewrite E1, E2. done. Qed.

Lemma wp_update_request_inv x id f h :
  Inv x h ->
  (forall r, rq_header_buffer_size (f r) = rq_header_buffer_size r /\ rq_header (f r) = rq_header r) ->
  wp (update_request id f) (fun _ => Inv x) h.
Proof.
  intros HI Hf. apply wp_update_request. intros s Hs. eapply Inv_update; [done| |done|done].
  apply stream_wf_request; [by eapply Inv_wf|apply Hf..].
Qed.

Lemma wp_update_response_inv x id f h :
  Inv x h ->
  (forall r, rs_state (f r) = rs_state r /\ rs_pushed (f r) = rs_pushed r
             /\ rs_push_promise_sent (f r) = rs_push_promise_sent r) ->
  wp (update_response id f) (fun _ => Inv x) h.
Proof.
  intros HI Hf. apply wp_update_response. intros s Hs. destruct (Hf (st_response s)) as (E1 & E2 & E3).
  eapply Inv_update; [done|apply stream_wf_response; [by eapply Inv_wf|done..]| |done].
  unfold started. cbn. by rewrite E1, E2, E3.
Qed.

Lemma wp_run_app_call x c h :
  Inv x h -> pending x = None -> wp (run_app_call c) (fun _ => Inv x) h.
Proof.
  intros HI Hp. destruct c; cbn [run_app_call].
  - eapply wp_mono; [by apply wp_write_head|]. by intros a h' [? _].
  - by apply wp_end.
  - unfold write_trailer. apply wp_bind, wp_the_stream. intros s Hs. unfold handler_submit_trailer.
    do 2 apply wp_bind. apply wp_lib. assert (Inv x (add_call (submit_trailer stream_id (header_nva h0)) h)) as HI'
      by (by apply Inv_neutral).
    case_if; [by do 2 apply wp_ret|]. apply wp_bind. eapply wp_signal_write; [done|].
    intros h1 HI1 _ _ _. by do 2 apply wp_ret.
  - by apply wp_update_response_inv.
  - by apply wp_update_request_inv.
  - unfold cancel. apply wp_bind, wp_the_stream. intros s Hs. eapply wp_stream_error; [done|]. by intros.
  - unfold response_resume. apply wp_bind, wp_the_stream. intros s Hs. eapply wp_resume; [done|]. by intros.
  - apply wp_bind. eapply wp_mono; [by apply wp_push_promise|]. intros a h' HI'. by apply wp_ret.
Qed.

(** A notification other than the close of a stream. *)
Lemma Inv_event x e h :
  (forall id, is_close_of id e = false) -> Inv x h -> Inv x (add_event e h).
Proof.
  intros He (I1 & I2 & I3 & I4). split; [done|]. split; [done|]. split; [done|].
  intros id. specialize (I4 id). cbn. unfold id_ok, closes in *. by rewrite count_cons, He.
Qed.

Lemma wp_reaction x e h :
  Inv x (add_event e h) -> pending x = None -> wp (react e) (fun _ => Inv x) h.
Proof.
  intros HI Hp. unfold react. apply wp_bind, wp_modify, wp_bind, wp_get.
  apply wp_forM; [done|]. intros c h' _ HI'. by apply wp_run_app_call.
Qed.

Lemma wp_request_call_on_data x id data h :
  Inv x h -> pending x = None -> wp (request_call_on_data id data) (fun _ => Inv x) h.
Proof.
  intros HI Hp. unfold request_call_on_data. apply wp_bind, wp_the_stream. intros s Hs.
  destruct (rq_on_data (st_request s)); [|by apply wp_ret]. apply wp_reaction; [by apply Inv_event|done].
Qed.

Lemma wp_run_response_call x id c h :
  Inv x h -> pending x = None -> wp (run_response_call id c) (fun _ => Inv x) h.
Proof.
  intros HI Hp. destruct c; cbn [run_response_call].
  - eapply wp_mono; [by apply wp_write_head|]. by intros a h' [? _].
  - by apply wp_end.
Qed.

Lemma wp_call_on_request x id h :
  Inv x h -> pending x = None -> wp (call_on_request mux_ id) (fun _ => Inv x) h.
Proof.
  intros HI Hp. unfold call_on_request. apply wp_bind, wp_the_stream. intros s Hs. cbv zeta.
  destruct (serve_mux.handler_total mux_
    {| serve_mux.method := rq_method (st_request s); serve_mux.uri := rq_uri (st_request s) |} Hmux)
    as (c & -> & Hc).
  destruct Hc as [[n ->]|[[u ->]| ->]].
  - apply wp_reaction; [by apply Inv_event|done].
  - destruct (serve_mux.own_handlers_total u (rq_method (st_request s))) as [(hd & body & ->) _].
    apply wp_forM; [done|]. intros c h' _ HI'. by apply wp_run_response_call.
  - destruct (serve_mux.own_handlers_total [] []) as [_ (hd & body & ->)].
    apply wp_forM; [done|]. intros c h' _ HI'. by apply wp_run_response_call.
Qed.

(** *** Callbacks of the session *)

(** The streams an event opens. *)
Definition begin_ids (e : session_event) : list Z :=
  match e with
  | on_begin_headers f => if is_request_headers f then [hd_stream_id f] else []
  | _ => []
  end.

(** Documented behaviour of the session: requests open odd streams, and a
    PUSH_PROMISE frame promises an even one. *)
Definition event_ok (e : session_event) : Prop :=
  Forall (fun id => Z.even id = false) (begin_ids e)
  /\ match e with
     | on_frame_send f => hd_type f = NGHTTP2_PUSH_PROMISE -> Z.even (promised_stream_id f) = true
     | _ => True
     end.

Definition opened (x : ctx) (ids : list Z) : ctx :=
  mk_ctx (begun x ∪ list_to_set ids) (closing x) (pending x) (ins x) (cbuf x) (cdata x).
Definition close_ctx (x : ctx) (id : Z) : ctx := mk_ctx (begun x) (Some id) (pending x) (ins x) (cbuf x) (cdata x).

Lemma Inv_mono x ids h : Inv x h -> Inv (opened x ids) h.
Proof.
  intros (I1 & I2 & I3 & I4). split; [done|]. split; [done|]. split; [done|].
  intros id. specialize (I4 id). unfold id_ok in *. cbn.
  assert (created x (calls h) id -> created (opened x ids) (calls h) id) as Hm.
  { unfold created. case_if; [done|]. cbn. rewrite elem_of_union. tauto. }
  by destruct (streams h !! id); tauto.
Qed.

Lemma opened_nil x : opened x [] = x.
Proof. unfold opened. cbn. rewrite union_empty_r_L. by destruct x. Qed.

Lemma opened_app x a b : opened (opened x a) b = opened x (a ++ b).
Proof. unfold opened. cbn. by rewrite list_to_set_app_L, assoc_L by apply _. Qed.

Lemma wp_opened_nil {A} (m : M A) x h : wp m (fun _ => Inv x) h -> wp m (fun _ => Inv (opened x [])) h.
Proof. by rewrite opened_nil. Qed.

(** A request opens its stream. *)
Lemma wp_begin_request x id h :
  Inv x h -> pending x = None -> Z.even id = false -> ~ (id ∈ begun x) ->
  wp (create_stream id) (fun _ => Inv (opened x [id])) h.
Proof.
  intros (I1 & I2 & I3 & I4) Hp Ho Hf.
  assert (~ created x (calls h) id) as Hnc by (unfold created; by rewrite Ho).
  pose proof (I4 id) as Iid. destruct (streams h !! id) as [s|] eqn:Es; [by destruct Iid|].
  destruct Iid as (_ & _ & Iid). destruct (Iid Hnc) as [Hr Hc].
  apply wp_create_stream; [done|]. split; [done|]. split; [done|]. split; [done|].
  intros id'. cbn. destruct (decide (id' = id)) as [->|Hn].
  - rewrite lookup_insert_eq. unfold id_ok. cbn [pending closing opened]. rewrite Hp, Hr, Hc.
    split; [unfold created; rewrite Ho; cbn; by apply elem_of_union_r, elem_of_union_l, elem_of_singleton|].
    split; [split; [cbn; unfold HEADER_LIMIT; lia|by rewrite Ho]|]. split; [done|]. by case_decide.
  - rewrite lookup_insert_ne by done. specialize (I4 id'). unfold id_ok in *. cbn.
    assert (created x (calls h) id' -> created (opened x [id]) (calls h) id') as Hm.
    { unfold created. case_if; [done|]. cbn. rewrite elem_of_union. tauto. }
    destruct (streams h !! id'); tauto.
Qed.

Lemma wp_add_header x id name val flags h : Inv x h -> wp (add_header id name val flags) (fun _ => Inv x) h.
Proof.
  intros HI. unfold add_header. apply wp_bind, wp_the_stream. intros s Hs. cbv zeta. case_if.
  - apply wp_bind, wp_lib, wp_ret. by apply Inv_neutral.
  - apply wp_update_request. intros s' Hs'. assert (s' = s) as -> by congruence.
    eapply Inv_update; [done| |done|done]. destruct (Inv_wf _ _ _ _ HI Hs) as [Hw1 Hw2].
    split; cbn; [lia|]. case_if; [done|]. destruct Hw2 as (? & ? & ->). rewrite header_size_emplace. auto.
Qed.

Lemma wp_on_header x f name val flags h : Inv x h -> wp (on_header_callback f name val flags) (fun _ => Inv x) h.
Proof.
  intros HI. unfold on_header_callback. cbv zeta. case_if; [by apply wp_ret|].
  apply wp_bind, wp_find_stream. destruct (streams h !! hd_stream_id f) as [s|]; [|by apply wp_ret].
  destruct (lookup_token name) as [[]|]; try (by apply wp_add_header); unfold update_uri;
    try (by apply wp_update_request_inv).
  apply wp_bind. case_if.
  - eapply wp_mono; [by apply wp_update_request_inv|]. intros a h' HI'. by apply wp_add_header.
  - apply wp_ret. by apply wp_add_header.
Qed.

Lemma wp_on_frame_recv x f h :
  Inv x h -> pending x = None -> wp (on_frame_recv_callback mux_ f) (fun _ => Inv x) h.
Proof.
  intros HI Hp. unfold on_frame_recv_callback. cbv zeta. apply wp_bind, wp_find_stream.
  destruct (hd_type f); try (by apply wp_ret); destruct (streams h !! hd_stream_id f); try (by apply wp_ret).
  - case_if; [by apply wp_request_call_on_data|by apply wp_ret].
  - case_if; [by apply wp_ret|]. apply wp_bind, wp_get, wp_bind.
    apply (wp_mono _ (fun _ => Inv x)); [by apply wp_update_request_inv|]. intros a0 h0 HI0. apply wp_bind. eapply wp_mono; [by apply wp_call_on_request|].
    intros a h' HI'. case_if; [by apply wp_request_call_on_data|by apply wp_ret].
Qed.

(** The close notification, and the removal of the stream. *)
Lemma Inv_delete x id h s :
  streams h !! id = Some s -> closing x = None -> pending x = None -> Inv (close_ctx x id) h ->
  Inv x (set_streams (delete id (streams h)) h).
Proof.
  intros Hs Hc Hp (I1 & I2 & I3 & I4). split; [done|]. split; [done|]. split; [done|].
  intros id'. cbn. specialize (I4 id'). unfold id_ok, created in *. cbn [pending closing close_ctx begun] in I4.
  destruct (decide (id' = id)) as [->|Hn].
  - rewrite lookup_delete_eq. rewrite Hs, Hp in I4. rewrite decide_False in I4 by done. rewrite decide_True in I4 by done.
    destruct I4 as (Hcr & _ & -> & ?). split; [by case_if|]. split; [done|]. done.
  - rewrite lookup_delete_ne by done. destruct (streams h !! id'); [|done].
    rewrite (decide_False (P := Some id = Some id')) in I4 by congruence.
    rewrite (decide_False (P := closing x = Some id')) by (by rewrite Hc). done.
Qed.

Lemma wp_on_stream_close x id code h :
  Inv x h -> pending x = None -> closing x = None ->
  wp (on_stream_close_callback id code) (fun _ => Inv x) h.
Proof.
  intros HI Hp Hc. unfold on_stream_close_callback. apply wp_bind, wp_find_stream.
  destruct (streams h !! id) as [s|] eqn:Es; [|by apply wp_ret].
  assert (forall h', Inv (close_ctx x id) h' -> wp (close_stream id) (fun _ => Inv x) h') as K.
  { intros h' HI'. apply wp_modify. destruct (streams h' !! id) as [s'|] eqn:Es'; [by eapply Inv_delete|].
    rewrite delete_id by done. destruct HI' as (J1 & J2 & J3 & J4). split; [done|]. split; [done|]. split; [done|].
    intros id'. specialize (J4 id'). cbn. unfold id_ok in *. cbn [pending closing close_ctx] in J4.
    destruct (streams h' !! id') as [t|] eqn:Et; [|done].
    rewrite (decide_False (P := Some id = Some id')) in J4 by congruence.
    rewrite (decide_False (P := closing x = Some id')) by (by rewrite Hc). done. }
  apply wp_bind. unfold response_call_on_close. apply wp_bind, wp_the_stream. intros s' Hs'.
  assert (s' = s) as -> by congruence. destruct HI as (I1 & I2 & I3 & I4).
  assert (forall e, (forall i, i <> id -> is_close_of i e = false) -> Inv (close_ctx x id) (add_event e h)) as He.
  { intros e He. split; [done|]. split; [done|]. split; [done|]. intros id'. specialize (I4 id'). cbn.
    unfold id_ok, closes in *. rewrite count_cons. cbn [pending closing close_ctx].
    destruct (decide (id' = id)) as [->|Hn].
    - rewrite Es in *. rewrite Hc in I4. rewrite (decide_False (P := None = Some id)) in I4 by done.
      rewrite (decide_True (P := Some id = Some id)) by done. destruct I4 as (? & ? & ? & ->).
      split; [done|]. split; [done|]. split; [done|]. by destruct (is_close_of id e).
    - rewrite He by done. destruct (streams h !! id'); [|done]. rewrite Hc in I4.
      rewrite (decide_False (P := None = Some id')) in I4 by done.
      by rewrite (decide_False (P := Some id = Some id')) by congruence. }
  destruct (rs_close_cb (st_response s)) as [cb|].
  - eapply wp_mono; [apply (wp_reaction (close_ctx x id))|].
    + apply He. intros i Hi. cbn. by apply Z.eqb_neq.
    + done.
    + intros a h' HI'. by apply K.
  - apply wp_ret, K. specialize (He (app_request 0 0) ltac:(done)).
    destruct He as (J1 & J2 & J3 & J4). split; [done|]. split; [done|]. split; [done|].
    intros id'. specialize (J4 id'). unfold id_ok, closes in *. cbn in J4. by rewrite count_cons in J4.
Qed.

(** No response is being submitted and no stream is closing. *)
Definition quiet (x : ctx) : Prop := pending x = None /\ closing x = None.

Lemma wp_call_read x id len flags h :
  Inv x h -> pending x = None -> wp (call_read id len flags) (fun _ => Inv x) h.
Proof.
  intros HI Hp. unfold call_read. apply wp_bind, wp_the_stream. intros s Hs.
  destruct (rs_generator (st_response s)); try (by apply wp_ret).
  - destruct (string_generator_call data remaining len flags) as [[r fl] rem].
    apply wp_bind. eapply wp_mono; [by apply wp_update_response_inv|]. intros a h' HI'. by apply wp_ret.
  - apply wp_bind, wp_get. destruct (app_gen (app_log h) id0 len) as [r fl]. apply wp_bind.
    eapply wp_mono; [apply wp_reaction; [by apply Inv_event|done]|]. intros a h' HI'. by apply wp_ret.
Qed.

Lemma wp_run_callback x e h :
  Inv x h -> quiet x -> event_ok e -> Forall (fun id => ~ (id ∈ begun x)) (begin_ids e) ->
  wp (run_callback mux_ e) (fun _ => Inv (opened x (begin_ids e))) h.
Proof.
  intros HI [Hp Hc] [He He2] Hf. destruct e; cbn [run_callback begin_ids] in *; try apply wp_opened_nil.
  - unfold on_begin_headers_callback. destruct (is_request_headers f); cbn [negb].
    + inversion_clear He. inversion_clear Hf. by apply wp_begin_request.
    + apply wp_ret. by rewrite opened_nil.
  - by apply wp_on_header.
  - by apply wp_on_frame_recv.
  - unfold on_data_chunk_recv_callback. apply wp_bind, wp_find_stream.
    destruct (streams h !! id); [by apply wp_request_call_on_data|by apply wp_ret].
  - by apply wp_on_stream_close.
  - unfold on_frame_send_callback. case_if; [by apply wp_ret|]. apply wp_bind, wp_find_stream.
    destruct (streams h !! promised_stream_id f); [|by apply wp_ret]. apply wp_push_promise_sent; auto.
  - unfold on_frame_not_send_callback. case_if; [by apply wp_ret|]. apply wp_bind, wp_lib, wp_ret.
    by apply Inv_neutral.
  - apply wp_bind. eapply wp_mono; [by apply wp_call_read|]. intros a h' HI'. by apply wp_ret.
Qed.

(** A list of ids the client opens, each once and none opened before. *)
Definition fresh_ids (x : ctx) (ids : list Z) : Prop := NoDup ids /\ Forall (fun id => ~ (id ∈ begun x)) ids.

Lemma fresh_ids_app x a b : fresh_ids x (a ++ b) -> fresh_ids x a /\ fresh_ids (opened x a) b.
Proof.
  intros [Hn Hf]. apply NoDup_app in Hn as (Ha & Hd & Hb). apply Forall_app in Hf as [Hfa Hfb].
  split; [done|]. split; [done|]. rewrite Forall_forall in *. intros id Hid. cbn.
  rewrite elem_of_union, elem_of_list_to_set. intros [?|?]; [by eapply Hfb|by eapply Hd].
Qed.

Lemma wp_callbacks x evs h :
  Inv x h -> quiet x -> Forall event_ok evs -> fresh_ids x (concat (map begin_ids evs)) ->
  wp (forM evs (run_callback mux_)) (fun _ => Inv (opened x (concat (map begin_ids evs)))) h.
Proof.
  intros HI Hq Hok. revert x h HI Hq. induction Hok as [|e evs He Hok IH]; intros x h HI Hq Hf; cbn [forM map concat] in *.
  - apply wp_ret. by rewrite opened_nil.
  - apply fresh_ids_app in Hf as [[_ Hf1] Hf2]. apply wp_bind.
    eapply wp_mono; [by apply wp_run_callback|]. intros a h' HI'. rewrite <- opened_app. by apply IH.
Qed.

Definition set_ins (x : ctx) (b : bool) : ctx := mk_ctx (begun x) (closing x) (pending x) b (cbuf x) (cdata x).

Lemma Inv_inside x b h : Inv x h -> Inv (set_ins x b) (set_inside b h).
Proof. intros (I1 & I2 & I3 & I4). done. Qed.

Lemma wp_enter x Q h :
  Inv x h -> ins x = false -> (forall h', Inv (set_ins x true) h' -> Q tt h') ->
  wp enter_callback Q h.
Proof.
  intros HI Hi HQ. unfold enter_callback. apply wp_bind, wp_get, wp_bind.
  rewrite (proj1 HI), Hi. apply wp_ret, wp_modify, HQ. by apply Inv_inside.
Qed.

Lemma wp_leave x Q h :
  Inv x h -> ins x = true -> (forall h', Inv (set_ins x false) h' -> Q tt h') -> wp leave_callback Q h.
Proof.
  intros HI Hi HQ. unfold leave_callback. apply wp_bind, wp_get, wp_bind.
  rewrite (proj1 HI), Hi. apply wp_ret, wp_modify, HQ. by apply Inv_inside.
Qed.

Lemma wp_on_read x evs rv h :
  Inv x h -> quiet x -> ins x = false -> Forall event_ok evs -> fresh_ids x (concat (map begin_ids evs)) ->
  wp (on_read mux_ evs rv) (fun _ => Inv (opened x (concat (map begin_ids evs)))) h.
Proof.
  intros HI Hq Hi Hok Hf. unfold on_read. apply wp_bind. eapply wp_enter; [done..|]. intros h1 HI1.
  apply wp_bind. eapply wp_mono; [by apply (wp_callbacks (set_ins x true))|]. intros a h2 HI2.
  apply wp_bind. eapply wp_leave; [exact HI2|done|]. intros h3 HI3. apply wp_ret.
  destruct x. cbn in Hi. by subst.
Qed.

(** A call of [nghttp2_session_mem_send] returns at most a buffer of bytes. *)
Definition send_ok (s : mem_send) : Prop :=
  Forall event_ok (send_events s) /\ match send_data s with Some d => (length d <= bufsize)%nat | None => True end.

Definition send_ids (s : mem_send) : list Z := concat (map begin_ids (send_events s)).

Definition set_out (x : ctx) (b : option nat) (d : str) : ctx :=
  mk_ctx (begun x) (closing x) (pending x) (ins x) b d.

Lemma Inv_out x b d h : Inv x h -> Inv (set_out x b d) (set_buf b (set_sendbuf d h)).
Proof. intros (I1 & I2 & I3 & I4). done. Qed.

(** Pending output fits the buffer. *)
Definition out_ok (x : ctx) : Prop :=
  match cbuf x with Some n => (n <= bufsize)%nat /\ length (cdata x) = n | None => True end.

(** The bytes that calls of [nghttp2_session_mem_send] return, and the bytes that
    are pending in the handler. *)
Definition sends_data (l : list mem_send) : str := concat (map (fun s => default [] (send_data s)) l).
Definition pending_bytes (h : http2_handler) : str :=
  match buf_ h with Some n => take n (sendbuf h) | None => [] end.

(** What [on_write] guarantees: the bytes it had and got are the bytes it put
    into the buffer and those it keeps. *)
Definition written (x : ctx) (sends : list mem_send) (out : str) (r : Z * str * list mem_send) (h' : http2_handler) : Prop :=
  (exists b d, let y := set_out (opened x (concat (map send_ids sends))) b d in Inv y h' /\ out_ok y)
  /\ exists used, sends = used ++ r.2 /\ out ++ sends_data used = r.1.2 ++ pending_bytes h'
                  /\ (length r.1.2 <= bufsize)%nat.

Lemma written_cons x s sends out d r h' :
  written (opened x (send_ids s)) sends (out ++ d) r h' -> send_data s = Some d -> written x (s :: sends) out r h'.
Proof.
  intros ((b & d' & HI & Ho) & used & -> & E & Hl) Hd. split.
  - exists b, d'. cbn [map concat]. rewrite <- opened_app. done.
  - exists (s :: used). split; [done|]. split; [|done]. unfold sends_data in *. cbn [map concat]. rewrite Hd. cbn.
    by rewrite app_assoc.
Qed.

Lemma wp_write_loop x sends out h :
  Inv x h -> cbuf x = None -> quiet x -> Forall send_ok sends -> fresh_ids x (concat (map send_ids sends)) ->
  (length out <= bufsize)%nat ->
  wp (write_loop mux_ bufsize sends out) (written x sends out) h.
Proof.
  intros HI Hb Hq Hok. revert x h out HI Hb Hq.
  induction Hok as [|s sends [Hev Hd] Hok IH]; intros x h out HI Hb Hq Hf Hl; cbn [write_loop map concat] in *.
  { apply wp_ret. split.
    - exists None, (cdata x). cbn. rewrite opened_nil. split; [destruct x; cbn in *; by subst|done].
    - exists []. destruct HI as (_ & _ & [HI _] & _). unfold pending_bytes. rewrite HI, Hb. by rewrite !app_nil_r. }
  apply fresh_ids_app in Hf as [Hf1 Hf2]. apply wp_bind.
  eapply wp_mono; [by apply wp_callbacks|]. intros a h' HI'. cbv beta in HI'.
  change (concat (map begin_ids (send_events s))) with (send_ids s) in *.
  assert (forall b d h2 rv data, match b with Some n => (n <= bufsize)%nat /\ length d = n | None => True end ->
            Inv (set_out (opened x (send_ids s)) b d) h2 -> default [] (send_data s) = data -> data = pending_bytes h2 ->
            written x (s :: sends) out (rv, out, sends) h2) as K.
  { intros b d h2 rv data Hbd HI2 Ed Ep. split.
    - exists b, d. cbn [map concat]. rewrite <- opened_app. split; [|done].
      by apply (Inv_mono _ (concat (map send_ids sends))) in HI2.
    - exists [s]. split; [done|]. split; [|done]. unfold sends_data. cbn [map concat]. by rewrite app_nil_r, Ed, Ep. }
  assert (forall d, Inv (set_out (opened x (send_ids s)) None d) (set_sendbuf d h')
                    /\ pending_bytes (set_sendbuf d h') = [] /\ pending_bytes h' = []) as Kd.
  { intros d. destruct HI' as (I1 & I2 & [I3 I3'] & I4). cbn in I3. unfold pending_bytes. cbn. rewrite I3, Hb.
    split; [|done]. split; [done|]. split; [done|]. split; [|done]. split; [cbn; congruence|done]. }
  destruct (send_data s) as [d|] eqn:Es.
  2:{ apply wp_ret. eapply (K None (cdata x)); [done| |done|by destruct (Kd []) as (_ & _ & ->)]. destruct x; cbn in *. by subst. }
  destruct (Kd d) as (K1 & K2 & _). apply wp_bind, wp_modify. case_if.
  { apply wp_ret, (K None d _ _ d); [done|done|done|]. rewrite K2. by apply nil_length_inv, Nat.eqb_eq. }
  case_if.
  - apply wp_bind, wp_modify, wp_ret. apply (K (Some (length d)) d _ _ d); [done| |done|].
    + by apply (Inv_out (opened x (send_ids s))).
    + unfold pending_bytes. cbn. by rewrite firstn_all.
  - eapply wp_mono; [apply (IH (set_out (opened x (send_ids s)) None d)); try done|].
    + rewrite length_app. by apply Nat.ltb_ge.
    + intros r h2 Hw. by eapply written_cons.
Qed.

Lemma wp_on_write x sends h :
  Inv x h -> out_ok x -> quiet x -> ins x = false -> Forall send_ok sends ->
  fresh_ids x (concat (map send_ids sends)) ->
  wp (on_write mux_ bufsize sends) (written x sends (pending_bytes h)) h.
Proof.
  intros HI Ho Hq Hi Hok Hf. unfold on_write. apply wp_bind. eapply wp_enter; [done..|]. intros h1 HI1.
  set (x1 := set_ins x true) in *.
  assert (forall h2, Inv (set_out x1 None (cdata x)) h2 -> (length (pending_bytes h) <= bufsize)%nat ->
    wp (r <- write_loop mux_ bufsize sends (pending_bytes h);; leave_callback;; ret r) (written x sends (pending_bytes h)) h2) as K.
  { intros h2 HI2 Hl. apply wp_bind. eapply wp_mono; [by apply (wp_write_loop (set_out x1 None (cdata x)))|].
    intros r h3 ((b & d & HI3 & Ho3) & Hw). unfold leave_callback. apply wp_bind, wp_bind, wp_get, wp_bind.
    rewrite (proj1 HI3). apply wp_ret, wp_modify, wp_ret. split; [|exact Hw].
    exists b, d. split; [|done]. apply (Inv_inside _ false) in HI3. destruct x; cbn in *. by subst. }
  pose proof HI as (_ & _ & [B1 B2] & _). destruct HI1 as (I1 & I2 & [I3 I3'] & I4).
  apply wp_bind. unfold copy_pending. apply wp_bind, wp_get.
  rewrite I3. unfold out_ok in Ho. change (cbuf x1) with (cbuf x).
  unfold pending_bytes in K |- *. rewrite B1, B2 in *. destruct (cbuf x) as [n|] eqn:Eb.
  - rewrite (proj2 (Nat.leb_le _ _)) by apply Ho. apply wp_bind, wp_ret, wp_bind, wp_modify, wp_ret.
    rewrite I3'. apply K; [by repeat split|]. rewrite length_take. lia.
  - apply wp_ret, K; [|cbn; lia]. repeat split; try done. etransitivity; [exact I3|exact Eb].
Qed.

(** ** Executions *)

(** One step of the world around a handler: bytes arrive, bytes can be sent, the
    application calls from outside any callback, a posted task runs, time
    passes. *)
Inductive event :=
  | ev_read (evs : list session_event) (rv : Z)
  | ev_write (sends : list mem_send)
  | ev_app (c : app_call)
  | ev_post
  | ev_clock (t : Z).

Definition run_event (e : event) : M unit :=
  match e with
  | ev_read evs rv => on_read mux_ evs rv;; ret tt
  | ev_write sends => on_write mux_ bufsize sends;; ret tt
  | ev_app c => run_app_call c
  | ev_post =>
    h <- get;;
    if (posts h =? 0)%nat then ret tt else modify (set_posts (Nat.pred (posts h)));; initiate_write
  | ev_clock t => modify (set_clock t)
  end.

Definition run (evs : list event) : M unit := forM evs run_event.

Definition ev_ids (e : event) : list Z :=
  match e with
  | ev_read evs _ => concat (map begin_ids evs)
  | ev_write sends => concat (map send_ids sends)
  | _ => []
  end.

Definition ev_ok (e : event) : Prop :=
  match e with
  | ev_read evs _ => Forall event_ok evs
  | ev_write sends => Forall send_ok sends
  | _ => True
  end.

(** The session behaves as documented: no stream is opened twice. *)
Definition trace_ok (evs : list event) : Prop := Forall ev_ok evs /\ NoDup (concat (map ev_ids evs)).

(** The invariant between two steps. *)
Definition Top (ids : list Z) (h : http2_handler) : Prop :=
  exists b d, let x := mk_ctx (list_to_set ids) None None false b d in Inv x h /\ out_ok x.

Lemma wp_run_event ids e h :
  Top ids h -> ev_ok e -> NoDup (ev_ids e) -> Forall (fun id => ~ (id ∈ ids)) (ev_ids e) ->
  wp (run_event e) (fun _ => Top (ids ++ ev_ids e)) h.
Proof.
  intros (b & d & HI & Ho) He Hn Hf. set (x := mk_ctx (list_to_set ids) None None false b d) in *.
  assert (fresh_ids x (ev_ids e)) as Hfr.
  { split; [done|]. eapply Forall_impl; [done|]. intros id. cbn. by rewrite elem_of_list_to_set. }
  assert (forall b' d' h', Inv (set_out (opened x (ev_ids e)) b' d') h' -> out_ok (set_out x b' d') -> Top (ids ++ ev_ids e) h') as K.
  { intros b' d' h' HI' Ho'. exists b', d'. split; [|done]. rewrite list_to_set_app_L. exact HI'. }
  assert (forall h', ev_ids e = [] -> Inv x h' -> Top (ids ++ ev_ids e) h') as K0.
  { intros h' E HI'. apply (K b d); [|done]. rewrite E, opened_nil. exact HI'. }
  destruct e; cbn [run_event ev_ids ev_ok] in *.
  - apply wp_bind. eapply wp_mono; [by apply (wp_on_read x)|]. intros r h' HI'. apply wp_ret. by apply (K b d).
  - apply wp_bind. eapply wp_mono; [by apply (wp_on_write x)|]. intros r h' ((b' & d' & HI' & Ho') & _). apply wp_ret. by apply (K b' d').
  - eapply wp_mono; [by apply (wp_run_app_call x)|]. intros a h' HI'. by apply K0.
  - apply wp_bind, wp_get. case_if; [by apply wp_ret, K0|]. unfold initiate_write.
    do 2 apply wp_bind, wp_modify. apply wp_modify, K0; [done|].
    destruct HI as (I1 & I2 & I3 & I4). split; [done|]. split; [|done]. cbn.
    destruct (write_signaled h); by rewrite I2 in *.
  - apply wp_modify, K0; [done|]. destruct HI as (I1 & I2 & I3 & I4). done.
Qed.

Lemma Top_run evs h ids :
  Top ids h -> Forall ev_ok evs -> NoDup (ids ++ concat (map ev_ids evs)) ->
  wp (run evs) (fun _ => Top (ids ++ concat (map ev_ids evs))) h.
Proof.
  intros HT Hok. revert ids h HT. induction Hok as [|e evs He Hok IH]; intros ids h HT Hn; cbn [map concat run forM] in *.
  - apply wp_ret. by rewrite app_nil_r.
  - apply wp_bind. pose proof Hn as Hn'. apply NoDup_app in Hn' as (_ & Hd & Hn2).
    apply NoDup_app in Hn2 as (Hn2 & _ & _). rewrite app_assoc in Hn |- *.
    eapply wp_mono; [apply (wp_run_event ids); [done..|]|].
    + apply Forall_forall. intros id Hid Hin. apply (Hd _ Hin), elem_of_app. by left.
    + intros a h' HT'. by apply IH.
Qed.

Lemma Top_new ep t date : Top [] (new_handler ep t date).
Proof.
  exists None, []. split; [|done]. split; [done|]. split; [done|]. split; [done|]. intros id.
  change (streams (new_handler ep t date)) with (∅ : gmap Z stream). rewrite lookup_empty. cbn. unfold responses, closes, count. cbn. lia.
Qed.

(** What every execution from a new handler satisfies. *)
Lemma run_top evs ep t date :
  trace_ok evs -> wp (run evs) (fun _ => Top (concat (map ev_ids evs))) (new_handler ep t date).
Proof. intros [H1 H2]. apply (Top_run evs _ []); [apply Top_new|done..]. Qed.

(** *** The destructor *)

Definition wants_close (o : option stream) : Z :=
  match o with
  | Some s => match rs_close_cb (st_response s) with Some _ => 1 | None => 0 end
  | None => 0
  end.

Definition destroy_one (id : Z) : M unit :=
  s <- the_stream id;;
  match rs_close_cb (st_response s) with
  | Some cb => modify (add_event (app_close cb id NGHTTP2_INTERNAL_ERROR))
  | None => ret tt
  end.

Lemma destroy_list l h :
  NoDup l -> Forall (fun id => streams h !! id <> None) l ->
  exists h', forM l destroy_one h = Done tt h' /\ streams h' = streams h
    /\ forall id, closes id (app_log h') = closes id (app_log h) + (if decide (id ∈ l) then wants_close (streams h !! id) else 0).
Proof.
  intros Hn. revert h. induction Hn as [|i l Hi Hn IH]; intros h Hl.
  { exists h. split; [done|]. split; [done|]. intros id. rewrite decide_False by (by intros ?%elem_of_nil). lia. }
  inversion_clear Hl as [|?? Hs Hl']. destruct (streams h !! i) as [s|] eqn:Es; [|done].
  set (h1 := match rs_close_cb (st_response s) with
             | Some cb => add_event (app_close cb i NGHTTP2_INTERNAL_ERROR) h | None => h end).
  assert (destroy_one i h = Done tt h1) as E1.
  { unfold destroy_one, the_stream, find_stream, bind, get, ret. rewrite Es. subst h1.
    by destruct (rs_close_cb (st_response s)). }
  assert (streams h1 = streams h) as Es1 by (subst h1; by destruct (rs_close_cb (st_response s))).
  destruct (IH h1) as (h' & E & Es' & Hc); [by rewrite Es1|].
  exists h'. cbn [forM]. unfold bind at 1. rewrite E1, E. split; [done|]. split; [congruence|].
  intros id. rewrite Hc, Es1. subst h1. unfold closes in *. destruct (decide (id = i)) as [->|Hne].
  - rewrite (decide_False (P := i ∈ l)) by done. rewrite decide_True by (by left). rewrite Es. cbn.
    destruct (rs_close_cb (st_response s)); [|lia]. cbn [app_log add_event]. rewrite count_cons. cbn. rewrite Z.eqb_refl. lia.
  - assert (count (is_close_of id) (app_log (match rs_close_cb (st_response s) with
             | Some cb => add_event (app_close cb i NGHTTP2_INTERNAL_ERROR) h | None => h end))
            = count (is_close_of id) (app_log h)) as ->.
    { destruct (rs_close_cb (st_response s)); [|done]. cbn [app_log add_event]. rewrite count_cons. cbn.
      rewrite (proj2 (Z.eqb_neq i id)) by done. lia. }
    destruct (decide (id ∈ l)) as [Hd|Hd], (decide (id ∈ i :: l)) as [Hd'|Hd']; try done.
    + exfalso. apply Hd'. by right.
    + exfalso. by apply elem_of_cons in Hd' as [?|?].
Qed.

Lemma destroy_spec h :
  exists h', destroy h = Done tt h'
    /\ forall id, closes id (app_log h') = closes id (app_log h) + wants_close (streams h !! id).
Proof.
  unfold destroy. change (forM ?l _) with (forM l destroy_one). unfold bind at 1, get.
  set (l := merge_sort Z.le (map_to_list (streams h)).*1).
  assert (l ≡ₚ (map_to_list (streams h)).*1) as Hp by apply merge_sort_Permutation.
  assert (forall id, id ∈ l <-> streams h !! id <> None) as Hl.
  { intros id. rewrite Hp, list_elem_of_fmap. split.
    - intros ([i s] & -> & Hi). apply elem_of_map_to_list in Hi. cbn. by rewrite Hi.
    - intros Hs. destruct (streams h !! id) as [s|] eqn:E; [|done]. exists (id, s).
      split; [done|]. by apply elem_of_map_to_list. }
  destruct (destroy_list l h) as (h' & E & _ & Hc).
  { rewrite Hp. apply NoDup_fst_map_to_list. }
  { apply Forall_forall. intros id. by rewrite Hl. }
  exists h'. split; [done|]. intros id. rewrite Hc. case_decide as Hd; [done|].
  rewrite Hl in Hd. destruct (streams h !! id) eqn:Es; [|done]. by exfalso; apply Hd.
Qed.

End props.

(** ** The properties *)

(** A small world for the examples: every library call succeeds, the application
    answers each request at once, pushes a stream and asks to be told of the
    close, and the router sends every path to it. *)
Definition demo_app : App := {|
  app_react := fun h e =>
    match e with
    | app_request _ id =>
      [call_on_close id 7; call_push id (lit "GET") (lit "/style.css") [];
       call_write_head id 200 []; call_end id (string_generator (lit "hello")); call_end id gen_empty;
       call_end 2 (string_generator (lit "css"))]
    | _ => []
    end;
  app_gen := fun _ _ _ => (GRead [], 0);
|}.

Definition demo_mux : serve_mux.mux := serve_mux.registered [(lit "/", Some (serve_mux.cb_user 1))].

Lemma demo_mux_ok : serve_mux.app_mux demo_mux.
Proof. eexists. split; [reflexivity|]. constructor; [by eexists|constructor]. Qed.

Definition request_frame (id flags : Z) : frame :=
  mk_frame NGHTTP2_HEADERS id flags NGHTTP2_HCAT_REQUEST 0.

(** A request on stream 1, answered; the promise for stream 2 is sent, then data
    is read, then the stream is closed. *)
Definition demo_trace : list event :=
  [ev_read [on_begin_headers (request_frame 1 1); on_header (request_frame 1 1) (lit ":method") (lit "GET") 0;
            on_header (request_frame 1 1) (lit ":path") (lit "/index.html") 0;
            on_header (request_frame 1 1) (lit "accept") (lit "*/*") 0;
            on_frame_recv (request_frame 1 1)] 9;
   ev_write [mk_send [on_frame_send (mk_frame NGHTTP2_PUSH_PROMISE 1 0 NGHTTP2_HCAT_HEADERS 2)] (Some (lit "frame"))];
   ev_write [mk_send [on_read_data 1 50 0] (Some (lit "hello"))];
   ev_read [on_stream_close 1 0] 0; ev_app (call_resume 2); ev_post].

Lemma demo_trace_ok : trace_ok 100 demo_trace.
Proof.
  split; [|vm_compute; repeat constructor; set_solver].
  repeat constructor; cbn; try done; lia.
Qed.

(** C1. Safety of the handler: whatever the peer sends, whatever the library
    returns within its documented behaviour, and whatever the application calls,
    no [assert] of the handler fails (streams are created once, callbacks are not
    nested), no output buffer overflows, no table or buffer of the callees is
    misused; an execution can only stop because a stream was used after its close
    notification, by the application or by the library reading its body.  Between
    events no callback is active. *)
Theorem server_handler_safe {Lib : Nghttp2} {Laws : Nghttp2Laws} {Ap : App} (mux_ : serve_mux.mux)
    (bufsize : nat) (evs : list event) (ep : tcp_endpoint) (t : Z) (date : str)
    (Hmux : serve_mux.app_mux mux_) (Hev : trace_ok bufsize evs) :
  match run mux_ bufsize evs (new_handler ep t date) with
  | Done _ h => inside_callback h = false
  | Failed e => e = dangling_stream
  end.
Proof.
  pose proof (run_top mux_ Hmux bufsize evs ep t date Hev) as H. unfold wp in H.
  destruct (run mux_ bufsize evs (new_handler ep t date)); [|done]. destruct H as (b & d & H & _). apply H.
Qed.

Lemma server_handler_safe_witness :
  exists h, @run counting_lib demo_mux demo_app 100 demo_trace (new_handler no_endpoint 0 []) = Done tt h
            /\ inside_callback h = false.
Proof.
  pose proof (@server_handler_safe counting_lib _ demo_app demo_mux 100 demo_trace no_endpoint 0 [] demo_mux_ok demo_trace_ok) as H.
  destruct (@run counting_lib demo_mux demo_app 100 demo_trace (new_handler no_endpoint 0 [])) as [[] h|e] eqn:E.
  - exists h. split; [reflexivity|exact H].
  - exfalso. revert E. vm_compute. discriminate.
Defined.

(** C6. One response per stream: in every execution, for every order of
    [write_head], [end], [push] and of the sending of a PUSH_PROMISE, at most one
    response is submitted for a stream; for a stream that is open it has been
    submitted exactly when the application has produced the head and, for a
    pushed stream, the promise has been sent. *)
Theorem response_submitted_once {Lib : Nghttp2} {Laws : Nghttp2Laws} {Ap : App} (mux_ : serve_mux.mux)
    (bufsize : nat) (evs : list event) (ep : tcp_endpoint) (t : Z) (date : str) (h : http2_handler)
    (Hmux : serve_mux.app_mux mux_) (Hev : trace_ok bufsize evs)
    (Hrun : run mux_ bufsize evs (new_handler ep t date) = Done tt h) :
  forall id, responses id (calls h) <= 1
    /\ forall s, streams h !! id = Some s ->
         responses id (calls h)
         = if negb (bool_decide (rs_state (st_response s) = INITIAL))
              && (negb (rs_pushed (st_response s)) || rs_push_promise_sent (st_response s))
           then 1 else 0.
Proof.
  intros id. pose proof (run_top mux_ Hmux bufsize evs ep t date Hev) as H. unfold wp in H. rewrite Hrun in H.
  destruct H as (b & d & (_ & _ & _ & HI) & _). specialize (HI id). unfold id_ok in HI. cbn [pending closing] in HI.
  destruct (streams h !! id) as [s|].
  - rewrite decide_False in HI by done. destruct HI as (_ & _ & HI & _). rewrite HI.
    split; [by case_if|]. by intros s' [= <-].
  - split; [apply HI|done].
Qed.

Lemma response_submitted_once_witness :
  exists h, @run counting_lib demo_mux demo_app 100 demo_trace (new_handler no_endpoint 0 []) = Done tt h
            /\ responses 1 (calls h) = 1 /\ responses 2 (calls h) = 1 /\ responses 2 (calls h) <= 1.
Proof.
  destruct (@run counting_lib demo_mux demo_app 100 demo_trace (new_handler no_endpoint 0 [])) as [[] h|e] eqn:E.
  2:{ exfalso. revert E. vm_compute. discriminate. }
  exists h. split; [reflexivity|]. pose proof E as E'. vm_compute in E'.
  split; [injection E' as <-; vm_compute; reflexivity|]. split; [injection E' as <-; vm_compute; reflexivity|].
  apply (response_submitted_once demo_mux 100 demo_trace no_endpoint 0 [] h demo_mux_ok demo_trace_ok E 2).
Defined.



(** The limit on header fields: for every open stream of a client the counter
    is the size of the names and values the request holds, and never exceeds 64
    KiB, however many fields the peer sends. *)
Theorem request_headers_bounded {Lib : Nghttp2} {Laws : Nghttp2Laws} {Ap : App} (mux_ : serve_mux.mux)
    (bufsize : nat) (evs : list event) (ep : tcp_endpoint) (t : Z) (date : str) (h : http2_handler)
    (Hmux : serve_mux.app_mux mux_) (Hev : trace_ok bufsize evs)
    (Hrun : run mux_ bufsize evs (new_handler ep t date) = Done tt h) :
  forall id s, streams h !! id = Some s -> Z.even id = false ->
    rq_header_buffer_size (st_request s) = header_size (rq_header (st_request s))
    /\ header_size (rq_header (st_request s)) <= 65536.
Proof.
  intros id s Hs Ho. pose proof (run_top mux_ Hmux bufsize evs ep t date Hev) as H. unfold wp in H. rewrite Hrun in H.
  destruct H as (b & d & HI & _). destruct (Inv_wf _ _ _ _ HI Hs) as [Hw1 Hw2]. rewrite Ho in Hw2.
  destruct Hw2 as (_ & _ & Hw2). rewrite <- Hw2. split; [done|]. unfold HEADER_LIMIT in Hw1. lia.
Qed.

Lemma request_headers_bounded_witness :
  exists h s, @run counting_lib demo_mux demo_app 100 (take 1 demo_trace) (new_handler no_endpoint 0 []) = Done tt h
            /\ streams h !! 1 = Some s /\ header_size (rq_header (st_request s)) <= 65536.
Proof.
  destruct (@run counting_lib demo_mux demo_app 100 (take 1 demo_trace) (new_handler no_endpoint 0 [])) as [[] h|e] eqn:E.
  2:{ exfalso. revert E. vm_compute. discriminate. }
  assert (exists s, streams h !! 1 = Some s) as [s Hs].
  { pose proof E as E'. vm_compute in E'. injection E' as <-. eexists. vm_compute. reflexivity. }
  exists h, s. split; [reflexivity|]. split; [exact Hs|].
  refine (proj2 (request_headers_bounded demo_mux 100 (take 1 demo_trace) no_endpoint 0 [] h demo_mux_ok _ E 1 s Hs eq_refl)).
  split; [|vm_compute; repeat constructor; set_solver].
  repeat constructor; cbn; done.
Defined.

(** Writes are posted one at a time: in every execution at most one
    [initiate_write] task is outstanding, and [write_signaled_] says whether one
    is. *)
Theorem one_posted_write {Lib : Nghttp2} {Laws : Nghttp2Laws} {Ap : App} (mux_ : serve_mux.mux)
    (bufsize : nat) (evs : list event) (ep : tcp_endpoint) (t : Z) (date : str) (h : http2_handler)
    (Hmux : serve_mux.app_mux mux_) (Hev : trace_ok bufsize evs)
    (Hrun : run mux_ bufsize evs (new_handler ep t date) = Done tt h) :
  posts h = (if write_signaled h then 1 else 0)%nat.
Proof.
  pose proof (run_top mux_ Hmux bufsize evs ep t date Hev) as H. unfold wp in H. rewrite Hrun in H.
  destruct H as (b & d & HI & _). apply HI.
Qed.

Lemma one_posted_write_witness :
  exists h, @run counting_lib demo_mux demo_app 100 demo_trace (new_handler no_endpoint 0 []) = Done tt h
            /\ posts h = (if write_signaled h then 1 else 0)%nat.
Proof.
  destruct (@run counting_lib demo_mux demo_app 100 demo_trace (new_handler no_endpoint 0 [])) as [[] h|e] eqn:E.
  2:{ exfalso. revert E. vm_compute. discriminate. }
  exists h. split; [reflexivity|].
  apply (one_posted_write demo_mux 100 demo_trace no_endpoint 0 [] h demo_mux_ok demo_trace_ok E).
Defined.

End server_props.
