(* ===== verification/ServerRequest.v ===== *)
(** * What the server makes of a request, and of a response

    Functional behaviour of the callbacks and of the response operations of
    ServerHandler: the request that a block of header fields builds, the calls on
    the session that answering it makes, and when a write is signalled. *)

From S2P Require Import Prelude Monad Util Http2 TimeGm Common ServeMux Nghttp2 ServerHandler ServerProps.

Module server_request.
Import monad http2 common nghttp2 server server_props.
Local Open Scope monad_scope.
Local Abbreviation M := (monad.M http2_handler).

(** ** Requests *)

(** Fields that are not one of the four pseudo header fields of a request. *)
Definition regular (f : field) : Prop :=
  match lookup_token f.1.1 with
  | Some HD__METHOD | Some HD__SCHEME | Some HD__AUTHORITY | Some HD__PATH => False
  | _ => True
  end.

Section request.
Context {Lib : Nghttp2}.

(** Running the header callback over a list of fields. *)
Definition run_headers (f : frame) (fs : list field) : M unit :=
  forM fs (fun x => on_header_callback f x.1.1 x.1.2 x.2).

(** The handler with the request of one stream replaced. *)
Definition with_request (h : http2_handler) (id : Z) (r : request_impl) (s : stream) : http2_handler :=
  set_streams (<[id := mk_stream r (st_response s)]> (streams h)) h.

Lemma update_request_run id f h s :
  streams h !! id = Some s -> update_request id f h = Done tt (with_request h id (f (st_request s)) s).
Proof. intros Hs. unfold update_request, the_stream, find_stream, bind, get, ret. by rewrite Hs. Qed.

Lemma update_request_with id f h r s :
  update_request id f (with_request h id r s) = Done tt (with_request h id (f r) s).
Proof.
  rewrite (update_request_run _ _ _ (mk_stream r (st_response s))) by (cbn; apply lookup_insert_eq).
  unfold with_request. cbn. by rewrite set_streams_twice, insert_insert_eq.
Qed.

Lemma the_stream_with id h r s :
  the_stream id (with_request h id r s) = Done (mk_stream r (st_response s)) (with_request h id r s).
Proof. unfold the_stream, find_stream, bind, get, ret. cbn. by rewrite lookup_insert_eq. Qed.

Lemma add_header_with id h r s name val flags :
  rq_header_buffer_size r + field_size (name, val, flags) <= HEADER_LIMIT ->
  add_header id name val flags (with_request h id r s)
  = Done tt (with_request h id
      (set_header (emplace (rq_header r) name (field_value (name, val, flags)))
         (rq_header_buffer_size r + field_size (name, val, flags)) r) s).
Proof.
  intros Hl. unfold add_header, bind. rewrite the_stream_with. cbn [st_request].
  unfold field_size in Hl |- *. cbn [fst snd] in *. rewrite (proj2 (Z.ltb_ge _ _)) by done.
  by rewrite update_request_with.
Qed.

(** One regular field. *)
Lemma on_header_regular f h r s x :
  is_request_headers f = true -> regular x -> host (rq_uri r) <> [] ->
  rq_header_buffer_size r + field_size x <= HEADER_LIMIT ->
  on_header_callback f x.1.1 x.1.2 x.2 (with_request h (hd_stream_id f) r s)
  = Done tt (with_request h (hd_stream_id f)
      (set_header (emplace (rq_header r) x.1.1 (field_value x)) (rq_header_buffer_size r + field_size x) r) s).
Proof.
  intros Hf Hx Hh Hl. destruct x as [[name val] flags]. cbn [fst snd] in *.
  pose proof (add_header_with (hd_stream_id f) h r s name val flags Hl) as Ha.
  unfold on_header_callback. rewrite Hf. cbn [negb]. unfold bind at 1, find_stream, bind at 1, get, ret.
  cbn [with_request streams set_streams]. rewrite lookup_insert_eq. cbn [st_request].
  unfold regular in Hx. cbn [fst] in Hx. destruct (lookup_token name) as [[]|]; try done.
  unfold bind. rewrite (proj2 (Nat.eqb_neq _ _)); [exact Ha|]. by destruct (host (rq_uri r)).
Qed.

Lemma run_headers_regular f h r s fs :
  is_request_headers f = true -> Forall regular fs -> host (rq_uri r) <> [] ->
  rq_header_buffer_size r + fields_size fs <= HEADER_LIMIT ->
  run_headers f fs (with_request h (hd_stream_id f) r s)
  = Done tt (with_request h (hd_stream_id f)
      (set_header (store_fields (rq_header r) fs) (rq_header_buffer_size r + fields_size fs) r) s).
Proof.
  intros Hf Hfs. revert r. induction Hfs as [|x fs Hx Hfs IH]; intros r Hh Hl.
  - unfold run_headers. cbn. unfold ret. by destruct r; cbn; rewrite Z.add_0_r.
  - unfold run_headers in *. cbn [forM fields_size fold_right store_fields fold_left] in *.
    fold (fields_size fs) in *. pose proof (fields_size_nonneg fs) as Hpos.
    unfold bind at 1. rewrite on_header_regular by (done || lia).
    rewrite IH; [|done|cbn; lia]. cbn [rq_header rq_header_buffer_size set_header rq_method rq_uri rq_on_data].
    unfold store_fields. by rewrite <- Z.add_assoc.
Qed.

(** The stream as [create_stream] makes it. *)
Lemma create_stream_run id h :
  streams h !! id = None -> create_stream id h = Done tt (with_request h id new_request new_stream).
Proof. intros Hn. unfold create_stream, find_stream, bind, get, ret. by rewrite Hn. Qed.

Lemma on_header_pseudo f h r s name val flags g :
  is_request_headers f = true ->
  match lookup_token name with
  | Some HD__METHOD => g = set_method val
  | Some HD__SCHEME => g = fun r => set_uri (set_scheme val (rq_uri r)) r
  | Some HD__AUTHORITY => g = fun r => set_uri (set_host val (rq_uri r)) r
  | Some HD__PATH => g = fun r => set_uri (split_path (rq_uri r) val) r
  | _ => False
  end ->
  on_header_callback f name val flags (with_request h (hd_stream_id f) r s)
  = Done tt (with_request h (hd_stream_id f) (g r) s).
Proof.
  intros Hf Hg. unfold on_header_callback. rewrite Hf. cbn [negb].
  unfold bind at 1, find_stream, bind at 1, get, ret. cbn [with_request streams set_streams]. rewrite lookup_insert_eq.
  destruct (lookup_token name) as [[]|]; try done; subst g; unfold update_uri; by rewrite update_request_with.
Qed.

End request.

(** C12. The request a header block builds: after the four pseudo header fields
    and any regular fields of at most 64 KiB in all (a [host] field included),
    the new stream's request has exactly that method, scheme and authority, the
    path and query split and decoded from the target, and the fields in the
    order in which they were received, each with its never-index flag; nothing
    else of the handler changes and the library is not called. *)
Theorem request_built {Lib : Nghttp2} (f : frame) (h : http2_handler) (m s a p : str) (fs : list field)
    (Hf : is_request_headers f = true) (Hn : streams h !! hd_stream_id f = None) (Ha : a <> [])
    (Hr : Forall regular fs) (Hl : fields_size fs <= 65536) :
  let u := split_path (mk_uri s a [] [] [] []) p in
  (on_begin_headers_callback f;;
   run_headers f ([(lit ":method", m, 0); (lit ":scheme", s, 0); (lit ":authority", a, 0); (lit ":path", p, 0)] ++ fs)) h
  = Done tt (set_streams
      (<[hd_stream_id f :=
           mk_stream {| rq_method := m; rq_uri := u; rq_header := store_fields [] fs;
                        rq_header_buffer_size := fields_size fs; rq_on_data := None; rq_remote_ep := no_endpoint |} new_response]>
         (streams h)) h).
Proof.
  cbv zeta. unfold on_begin_headers_callback. rewrite Hf. cbn [negb]. unfold bind at 1. rewrite create_stream_run by done.
  unfold run_headers. cbn [app forM fst snd].
  unfold bind at 1. rewrite (on_header_pseudo f _ _ _ (lit ":method") m _ (set_method m) Hf eq_refl).
  unfold bind at 1. rewrite (on_header_pseudo f _ _ _ (lit ":scheme") s _ (fun r => set_uri (set_scheme s (rq_uri r)) r) Hf eq_refl).
  unfold bind at 1. rewrite (on_header_pseudo f _ _ _ (lit ":authority") a _ (fun r => set_uri (set_host a (rq_uri r)) r) Hf eq_refl).
  unfold bind at 1. rewrite (on_header_pseudo f _ _ _ (lit ":path") p _ (fun r => set_uri (split_path (rq_uri r) p) r) Hf eq_refl).
  fold (run_headers f fs). rewrite run_headers_regular; [|done|done| |].
  - unfold with_request, split_path. cbn. destruct (find_char "?" p). reflexivity.
  - cbn. unfold split_path. by destruct (find_char "?" p).
  - cbn. unfold HEADER_LIMIT. lia.
Qed.

Lemma request_built_witness :
  let f := request_frame 1 5 in
  let h := new_handler no_endpoint 0 [] in
  exists h', (@on_begin_headers_callback f;;
      @run_headers counting_lib f ([(lit ":method", lit "GET", 0); (lit ":scheme", lit "https", 0);
        (lit ":authority", lit "a.org", 0); (lit ":path", lit "/x%20y?q", 0)] ++ [(lit "cookie", lit "k", 1)])) h = Done tt h'
    /\ exists s, streams h' !! 1 = Some s /\ path (rq_uri (st_request s)) = lit "/x y"
                 /\ rq_header (st_request s) = [(lit "cookie", {| value := lit "k"; sensitive := true |})].
Proof.
  intros f h. eexists. split.
  - apply (@request_built counting_lib f h (lit "GET") (lit "https") (lit "a.org") (lit "/x%20y?q") [(lit "cookie", lit "k", 1)]);
      [reflexivity|reflexivity|discriminate|apply Forall_singleton; exact I|vm_compute; discriminate].
  - eexists. split; [reflexivity|]. split; reflexivity.
Defined.

(** A header field that would take a request over 64 KiB is dropped and the
    stream is reset with an internal error, whatever the state of the handler;
    the request keeps what it has. *)
Theorem oversized_field_resets {Lib : Nghttp2} (h : http2_handler) (id : Z) (s : stream) (name val : str) (flags : Z)
    (Hs : streams h !! id = Some s)
    (Hl : 65536 < rq_header_buffer_size (st_request s) + Z.of_nat (length name) + Z.of_nat (length val)) :
  add_header id name val flags h = Done tt (add_call (submit_rst_stream id NGHTTP2_INTERNAL_ERROR) h).
Proof.
  unfold add_header, the_stream, find_stream, bind, get, ret. rewrite Hs.
  rewrite (proj2 (Z.ltb_lt _ _)) by (unfold HEADER_LIMIT; lia). done.
Qed.

Lemma oversized_field_resets_witness :
  let s := mk_stream (set_header [] 65530 new_request) new_response in
  let h := set_streams {[ 1 := s ]} (new_handler no_endpoint 0 []) in
  @add_header counting_lib 1 (lit "x-name") (lit "value") 0 h = Done tt (add_call (submit_rst_stream 1 2) h).
Proof. intros s h. apply (oversized_field_resets h 1 s); [reflexivity|cbn; lia]. Defined.

(** ** Responses *)

(** The date that the handler puts into a response. *)
Definition date_of (h : http2_handler) : option str :=
  if clock h =? tstamp_cached h then Some (formatted_date h) else timegm.http_date (clock h).

Section response.
Context {Lib : Nghttp2}.

Lemma http_date_run h d :
  date_of h = Some d ->
  exists h', http_date h = Done d h' /\ streams h' = streams h /\ calls h' = calls h
             /\ inside_callback h' = inside_callback h /\ write_signaled h' = write_signaled h.
Proof.
  unfold date_of, http_date, bind, get, ret. intros Hd. case_if_in Hd.
  - injection Hd as <-. by exists h.
  - rewrite Hd. eexists. split; [reflexivity|]. done.
Qed.

Lemma signal_write_run h :
  exists h', signal_write h = Done tt h' /\ streams h' = streams h /\ calls h' = calls h
             /\ inside_callback h' = inside_callback h
             /\ (inside_callback h = false -> write_signaled h' = true)
             /\ (write_signaled h = true -> write_signaled h' = true).
Proof.
  unfold signal_write, bind, get. destruct (negb (inside_callback h) && negb (write_signaled h)) eqn:E.
  - eexists. split; [reflexivity|]. done.
  - exists h. split; [done|]. split; [done|]. split; [done|]. split; [done|]. split; [|done].
    intros Hi. rewrite Hi in E. by destruct (write_signaled h).
Qed.

Lemma update_response_run id f h s :
  streams h !! id = Some s ->
  update_response id f h
  = Done tt (set_streams (<[id := mk_stream (st_request s) (f (st_response s))]> (streams h)) h).
Proof. intros Hs. unfold update_response, the_stream, find_stream, bind, get, ret. by rewrite Hs. Qed.

Lemma the_stream_run id h s : streams h !! id = Some s -> the_stream id h = Done s h.
Proof. intros Hs. unfold the_stream, find_stream, bind, get, ret. by rewrite Hs. Qed.

(** The header fields of a response. *)
Definition response_nva (status : Z) (date : str) (hd : header_map) : list nghttp2_nv :=
  make_nv_ls ":status" (util.utos status) :: make_nv_ls "date" date :: header_nva hd.

Lemma handler_start_response_run h id s d :
  streams h !! id = Some s -> date_of h = Some d ->
  let body := expect_response_body_for (rq_method (st_request s)) (rs_status_code (st_response s)) in
  let c := submit_response id (response_nva (rs_status_code (st_response s)) d (rs_header (st_response s))) body in
  lib_ret (calls h) c = 0 ->
  exists h', handler_start_response id h = Done 0 h' /\ streams h' = streams h /\ calls h' = c :: calls h
             /\ inside_callback h' = inside_callback h /\ (inside_callback h = false -> write_signaled h' = true).
Proof.
  intros Hs Hd body c Hr. unfold handler_start_response, bind at 1. rewrite (the_stream_run _ _ _ Hs).
  destruct (http_date_run h d Hd) as (h1 & E1 & S1 & C1 & I1 & _). unfold bind at 1. rewrite E1. cbv zeta.
  fold (response_nva (rs_status_code (st_response s)) d (rs_header (st_response s))). fold body. fold c.
  unfold bind at 1, lib. rewrite C1, Hr. cbn [Z.eqb negb].
  destruct (signal_write_run (add_call c h1)) as (h2 & E2 & S2 & C2 & I2 & W2 & _).
  unfold bind. rewrite E2. exists h2. split; [done|]. cbn in *. split; [congruence|]. split; [congruence|].
  split; [congruence|]. intros Hi. apply W2. congruence.
Qed.

End response.

Section answer.
Context {Lib : Nghttp2}.

(** A response object whose head can still be written. *)
Definition fresh_response (s : stream) : Prop :=
  rs_state (st_response s) = INITIAL /\ rs_pushed (st_response s) = false.

Lemma start_response_run h id s d :
  streams h !! id = Some s -> date_of h = Some d ->
  let body := expect_response_body_for (rq_method (st_request s)) (rs_status_code (st_response s)) in
  let c := submit_response id (response_nva (rs_status_code (st_response s)) d (rs_header (st_response s))) body in
  lib_ret (calls h) c = 0 ->
  exists h', start_response id h = Done tt h' /\ calls h' = c :: calls h
    /\ streams h' !! id = Some (if body then s else mk_stream (st_request s) (set_state BODY_STARTED (st_response s)))
    /\ inside_callback h' = inside_callback h /\ (inside_callback h = false -> write_signaled h' = true).
Proof.
  intros Hs Hd body c Hr. unfold start_response, bind at 1. rewrite (the_stream_run _ _ _ Hs). fold body.
  set (s1 := if body then s else mk_stream (st_request s) (set_state BODY_STARTED (st_response s))).
  assert (exists h1, (if negb body then update_response id (set_state BODY_STARTED) else ret tt) h = Done tt h1
            /\ streams h1 !! id = Some s1 /\ calls h1 = calls h /\ date_of h1 = date_of h
            /\ inside_callback h1 = inside_callback h) as (h1 & E1 & S1 & C1 & D1 & I1).
  { subst s1. destruct body; cbn [negb]; [by exists h|]. rewrite (update_response_run _ _ _ _ Hs). eexists.
    split; [reflexivity|]. cbn. rewrite lookup_insert_eq. done. }
  assert (st_request s1 = st_request s /\ rs_status_code (st_response s1) = rs_status_code (st_response s)
          /\ rs_header (st_response s1) = rs_header (st_response s)) as (F1 & F2 & F3)
    by (subst s1; by destruct body).
  unfold bind at 1. rewrite E1.
  destruct (handler_start_response_run h1 id s1 d) as (h2 & E2 & S2 & C2 & I2 & W2); [done|congruence| |].
  { rewrite C1, F1, F2, F3. exact Hr. }
  unfold bind. rewrite E2. exists h2. split; [done|]. rewrite S2, I2, C2, C1, F1, F2, F3.
  split; [done|]. split; [done|]. split; [done|].
  intros Hi. apply W2. congruence.
Qed.

Lemma write_head_run h id s d status hd :
  streams h !! id = Some s -> fresh_response s -> date_of h = Some d ->
  let body := expect_response_body_for (rq_method (st_request s)) status in
  let c := submit_response id (response_nva status d hd) body in
  lib_ret (calls h) c = 0 ->
  exists h', write_head id status hd h = Done tt h' /\ calls h' = c :: calls h
    /\ streams h' !! id = Some (mk_stream (st_request s)
         (if body then set_head status hd (st_response s)
          else set_state BODY_STARTED (set_head status hd (st_response s))))
    /\ inside_callback h' = inside_callback h /\ (inside_callback h = false -> write_signaled h' = true).
Proof.
  intros Hs [Hst Hp] Hd body c Hr. unfold write_head, bind at 1. rewrite (the_stream_run _ _ _ Hs). cbv zeta.
  rewrite bool_decide_eq_true_2 by done. cbn [negb]. unfold bind. rewrite (update_response_run _ _ _ _ Hs), Hp.
  cbn [andb]. set (s1 := mk_stream (st_request s) (set_head status hd (st_response s))). set (h1 := set_streams _ h).
  destruct (start_response_run h1 id s1 d) as (h2 & E2 & C2 & S2 & I2 & W2);
    [cbn; apply lookup_insert_eq|done|done|].
  exists h2. split; [done|]. split; [done|]. split; [|done]. rewrite S2. cbn. fold body. by destruct body.
Qed.

(** [end] with a string after the head of a response with a body. *)
Lemma end_after_head h id s data :
  streams h !! id = Some s -> rs_state (st_response s) = HEADER_DONE ->
  exists h', end_data id data h = Done tt h' /\ calls h' = session_resume_data id :: calls h
    /\ streams h' !! id = Some (mk_stream (st_request s)
         (set_state BODY_STARTED (set_generator (string_generator data) (st_response s))))
    /\ inside_callback h' = inside_callback h /\ (inside_callback h = false -> write_signaled h' = true).
Proof.
  intros Hs Hst. unfold end_data, end_, bind at 1. rewrite (the_stream_run _ _ _ Hs). cbv zeta. rewrite Hst.
  rewrite bool_decide_eq_false_2, bool_decide_eq_false_2 by done. unfold bind at 1.
  rewrite (update_response_run _ _ _ _ Hs). unfold bind at 1, resume, bind at 1, lib.
  set (h2 := add_call _ _). destruct (signal_write_run h2) as (h3 & E3 & S3 & C3 & I3 & W3 & _). rewrite E3.
  erewrite update_response_run by (rewrite S3; cbn; apply lookup_insert_eq).
  eexists. split; [reflexivity|]. cbn [calls set_streams streams inside_callback write_signaled].
  split; [by rewrite C3|]. split; [apply lookup_insert_eq|]. split; [by rewrite I3|]. exact W3.
Qed.

(** A response whose body has been given is not changed any more. *)
Lemma completed_unchanged h id s :
  streams h !! id = Some s -> rs_state (st_response s) = BODY_STARTED ->
  forall st2 hd2 g2, write_head id st2 hd2 h = Done tt h /\ end_ id g2 h = Done tt h.
Proof.
  intros Hs Hst st2 hd2 g2. split; [unfold write_head|unfold end_]; unfold bind at 1; rewrite (the_stream_run _ _ _ Hs);
    cbv zeta; by rewrite Hst.
Qed.

End answer.

(** C11. Answering a request: [write_head] and then [end] with a string, on a
    stream whose head has not been written, submit one response whose first
    fields are [:status], in decimal, and [date], followed by the given fields
    with their never-index flags; a data provider is given exactly when the
    method and the status allow a body, and then the stream's generator delivers
    the whole string; outside a callback a write is posted.  Afterwards the
    response is complete: further [write_head] and [end] calls change nothing. *)
Theorem answer_spec {Lib : Nghttp2} (h : http2_handler) (id : Z) (s : stream) (d : str)
    (status : Z) (hd : header_map) (data : str)
    (Hs : streams h !! id = Some s) (Hf : fresh_response s) (Hd : date_of h = Some d)
    (Hr : forall body, lib_ret (calls h) (submit_response id (response_nva status d hd) body) = 0) :
  let body := expect_response_body_for (rq_method (st_request s)) status in
  exists h' r', (write_head id status hd;; end_data id data) h = Done tt h'
    /\ calls h' = (if body then [session_resume_data id] else [])
                    ++ submit_response id (response_nva status d hd) body :: calls h
    /\ streams h' !! id = Some (mk_stream (st_request s) r')
    /\ rs_state r' = BODY_STARTED /\ rs_status_code r' = status /\ rs_header r' = hd
    /\ (body = true -> rs_generator r' = string_generator data)
    /\ (inside_callback h = false -> write_signaled h' = true)
    /\ (forall st2 hd2 g2, write_head id st2 hd2 h' = Done tt h' /\ end_ id g2 h' = Done tt h').
Proof.
  cbv zeta. set (body := expect_response_body_for (rq_method (st_request s)) status).
  destruct (write_head_run h id s d status hd Hs Hf Hd (Hr _)) as (h1 & E1 & C1 & S1 & I1 & W1).
  fold body in C1, S1. unfold bind at 1. rewrite E1.
  destruct body.
  - destruct (end_after_head h1 id _ data S1 eq_refl) as (h2 & E2 & C2 & S2 & _ & W2). exists h2. eexists. cbn [st_request st_response] in S2.
    split; [exact E2|]. split; [rewrite C2; by rewrite C1|]. split; [exact S2|]. do 4 (split; [done|]).
    split; [intros Hi; apply W2; congruence|]. by eapply completed_unchanged.
  - exists h1. eexists. destruct (completed_unchanged h1 id _ S1 eq_refl 0 [] (string_generator data)) as [_ Ke].
    split; [exact Ke|]. split; [done|]. split; [exact S1|]. do 3 (split; [done|]). split; [done|]. split; [done|].
    by eapply completed_unchanged.
Qed.

Lemma answer_spec_witness :
  let h := set_streams {[ 1 := mk_stream (set_method (lit "GET") new_request) new_response ]} (new_handler no_endpoint 0 (lit "now")) in
  exists h', (@write_head counting_lib 1 200 [];; @end_data counting_lib 1 (lit "hi")) h = Done tt h'
    /\ calls h' = [session_resume_data 1; submit_response 1 (response_nva 200 (lit "now") []) true].
Proof.
  intros h.
  destruct (@answer_spec counting_lib h 1 (mk_stream (set_method (lit "GET") new_request) new_response) (lit "now") 200 [] (lit "hi"))
    as (h' & r' & E & C & _); [reflexivity|split; reflexivity|reflexivity|reflexivity|].
  exists h'. split; [exact E|]. rewrite C. reflexivity.
Defined.

End server_request.
