(* ===== verification/ServerConnection.v ===== *)
(** * One connection of the server: lib/asio_server_connection.h

    The socket loop around an [http2_handler]: asynchronous reads and writes,
    the posted writes, the deadline timer and [stop].  An asynchronous operation
    is started by a step and completed by a later one; the bytes a completed or
    pending write took from the output buffer are recorded. *)

From S2P Require Import Prelude Monad Util Http2 Common ServeMux Nghttp2 ServerHandler ServerProps.

Module connection.
Import monad http2 common nghttp2 server server_props.
Local Open Scope monad_scope.
Local Abbreviation M := (monad.M http2_handler).

Definition OUTBUF_SIZE : nat := Z.to_nat (64 * 1024).

(** The members of [connection]; [deadline_] is [None] for positive infinity.
    Then the operations in progress: the waits on the timer whose handler has not
    run yet, the bytes of a pending [async_write] and the number of pending reads;
    how often the socket was closed; the bytes handed to
    [async_write] and the bytes the session has produced, in order. *)
Record connection := mk_conn {
  handler_ : http2_handler;
  writing_ : bool;
  stopped_ : bool;
  outbuf_ : str;
  deadline_ : option Z;
  waits : nat;
  in_flight : option str;
  reads : nat;
  socket_closed : nat;
  wire : str;
  produced : str;
}.

Definition set_handler (h : http2_handler) (c : connection) : connection :=
  mk_conn h (writing_ c) (stopped_ c) (outbuf_ c) (deadline_ c) (waits c) (in_flight c) (reads c) (socket_closed c) (wire c) (produced c).
Definition set_deadline (d : option Z) (c : connection) : connection :=
  mk_conn (handler_ c) (writing_ c) (stopped_ c) (outbuf_ c) d (waits c) (in_flight c) (reads c) (socket_closed c) (wire c) (produced c).
Definition set_waits (n : nat) (c : connection) : connection :=
  mk_conn (handler_ c) (writing_ c) (stopped_ c) (outbuf_ c) (deadline_ c) n (in_flight c) (reads c) (socket_closed c) (wire c) (produced c).
Definition set_reads (n : nat) (c : connection) : connection :=
  mk_conn (handler_ c) (writing_ c) (stopped_ c) (outbuf_ c) (deadline_ c) (waits c) (in_flight c) n (socket_closed c) (wire c) (produced c).
Definition set_write (w : bool) (f : option str) (c : connection) : connection :=
  mk_conn (handler_ c) w (stopped_ c) (outbuf_ c) (deadline_ c) (waits c) f (reads c) (socket_closed c) (wire c) (produced c).
Definition add_produced (d : str) (c : connection) : connection :=
  mk_conn (handler_ c) (writing_ c) (stopped_ c) (outbuf_ c) (deadline_ c) (waits c) (in_flight c) (reads c) (socket_closed c)
    (wire c) (produced c ++ d).
(** The bytes [on_write] left in the output buffer. *)
Definition set_outbuf (b : str) (c : connection) : connection :=
  mk_conn (handler_ c) (writing_ c) (stopped_ c) b (deadline_ c) (waits c) (in_flight c) (reads c) (socket_closed c) (wire c) (produced c).
(** [async_write] of the first bytes of the output buffer. *)
Definition start_write (b : str) (c : connection) : connection :=
  mk_conn (handler_ c) true (stopped_ c) (outbuf_ c) (deadline_ c) (waits c) (Some b) (reads c) (socket_closed c)
    (wire c ++ b) (produced c).

(** [stop]: [deadline_.cancel()] leaves the expiry time; the handlers of the waits
    that it cancels still run. *)
Definition stop (c : connection) : connection :=
  if stopped_ c then c
  else mk_conn (handler_ c) (writing_ c) true (outbuf_ c) (deadline_ c) (waits c) (in_flight c) (reads c) (S (socket_closed c))
         (wire c) (produced c).

Inductive cres := COk (c : connection) | CFail (e : failure).

Definition cbind (r : cres) (k : connection -> cres) : cres :=
  match r with COk c => k c | CFail e => CFail e end.

Section conn.
Context `{Nghttp2} (mux_ : serve_mux.mux) `{App} (tls_handshake_timeout_ read_timeout_ : Z).

(** An operation of the handler. *)
Definition on_handler {A} (m : M A) (c : connection) (k : A -> connection -> cres) : cres :=
  match m (handler_ c) with
  | Done a h => k a (set_handler h c)
  | Failed e => CFail e
  end.

(** [do_write]: what the session does in [on_write], what [should_stop] returns,
    and the time. *)
Definition do_write (sends : list mem_send) (should_stop : bool) (now : Z) (c : connection) : cres :=
  if writing_ c then COk c
  else
    on_handler (on_write mux_ OUTBUF_SIZE sends) c (fun '(rv, out, rest) c =>
    let c := set_outbuf out (add_produced (sends_data (take (length sends - length rest) sends)) c) in
    if negb (rv =? 0) then COk (stop c)
    else if (length out =? 0)%nat then COk (if should_stop then stop c else c)
    else COk (start_write out (set_deadline (Some (now + read_timeout_)) c))).

Definition do_read (now : Z) (c : connection) : cres :=
  COk (set_reads (S (reads c)) (set_deadline (Some (now + read_timeout_)) c)).

(** The completion of [async_read_some]: [stop1] and [stop2] are the results of
    [should_stop] in [do_write] and after it. *)
Definition read_handler (e : bool) (evs : list session_event) (rv : Z) (sends : list mem_send)
    (stop1 stop2 : bool) (now : Z) (c : connection) : cres :=
  if e then COk (stop c)
  else
    on_handler (on_read mux_ evs rv) c (fun r c =>
    if negb (r =? 0) then COk (stop c)
    else
      cbind (do_write sends stop1 now c) (fun c =>
      if negb (writing_ c) && stop2 then COk (stop c) else do_read now c)).

(** The completion of [async_write]. *)
Definition write_handler (e : bool) (sends : list mem_send) (should_stop : bool) (now : Z) (c : connection) : cres :=
  if e then COk (stop c)
  else do_write sends should_stop now (set_write false (in_flight c) c).

(** [handle_deadline], the handler of a wait that has expired or was cancelled by a
    change of the expiry time: it waits again unless the deadline has passed. *)
Definition handle_deadline (now : Z) (c : connection) : connection :=
  if stopped_ c then c
  else
    if (match deadline_ c with Some d => d <=? now | None => false end) then set_deadline None (stop c)
    else set_waits (S (waits c)) c.

Definition start_tls_handshake_deadline (now : Z) (c : connection) : connection :=
  let c := set_deadline (Some (now + tls_handshake_timeout_)) c in set_waits (S (waits c)) c.

Definition start_read_deadline (now : Z) (c : connection) : connection :=
  let c := set_deadline (Some (now + read_timeout_)) c in set_waits (S (waits c)) c.

(** [connection::start] makes the handler, with the second [t] and the text [date]
    of its clock. *)
Definition start_connection (rv1 rv2 now : Z) (ep : tcp_endpoint) (t : Z) (date : str) (c : connection) : cres :=
  on_handler (server.start rv1 rv2) (set_handler (new_handler ep t date) c) (fun r c =>
  if negb (r =? 0) then COk (stop c) else do_read now c).

(** The completion of the handshake, in the TLS variant of [server::start_accept]. *)
Definition handshake_handler (e : bool) (npn alpn : option str) (rv1 rv2 now : Z) (ep : tcp_endpoint) (t : Z) (date : str) (c : connection) : cres :=
  if e then COk (stop c)
  else if negb (tls_h2_negotiated npn alpn) then COk (stop c)
  else start_connection rv1 rv2 now ep t date c.

(** ** Executions *)

(** A pending read or write completes, a posted write runs, the application
    calls, the timer fires.  A completion without a pending operation, and a
    posted task that is not there, are no steps; nor is a timer on which nothing
    waits. *)
Inductive cevent :=
  | ce_read (e : bool) (evs : list session_event) (rv : Z) (sends : list mem_send) (stop1 stop2 : bool) (now : Z)
  | ce_write (e : bool) (sends : list mem_send) (should_stop : bool) (now : Z)
  | ce_post (sends : list mem_send) (should_stop : bool) (now : Z)
  | ce_app (a : app_call)
  | ce_timer (now : Z).

Definition run_cevent (e : cevent) (c : connection) : cres :=
  match e with
  | ce_read err evs rv sends stop1 stop2 now =>
    match reads c with
    | O => COk c
    | S n => read_handler err evs rv sends stop1 stop2 now (set_reads n c)
    end
  | ce_write err sends should_stop now =>
    match in_flight c with
    | None => COk c
    | Some _ => write_handler err sends should_stop now (set_write (writing_ c) None c)
    end
  | ce_post sends should_stop now =>
    if (posts (handler_ c) =? 0)%nat then COk c
    else on_handler (run_event mux_ OUTBUF_SIZE ev_post) c (fun _ c => do_write sends should_stop now c)
  | ce_app a => on_handler (run_app_call a) c (fun _ c => COk c)
  | ce_timer now =>
    match waits c with
    | O => COk c
    | S n => COk (handle_deadline now (set_waits n c))
    end
  end.

Fixpoint run_conn (evs : list cevent) (c : connection) : cres :=
  match evs with
  | [] => COk c
  | e :: evs => cbind (run_cevent e c) (run_conn evs)
  end.

End conn.

(** The constructor.  There is no handler before [start]; one without streams and
    posted tasks stands for it. *)
Definition new_connection : connection :=
  mk_conn (new_handler no_endpoint 0 []) false false [] None 0 None 0 0 [] [].

(** ** The invariant *)

Section cprops.
Context {Lib : Nghttp2} {Laws : Nghttp2Laws} (mux_ : serve_mux.mux) (Hmux : serve_mux.app_mux mux_)
  {Ap : App} (read_timeout_ : Z).

Local Abbreviation top := (Top OUTBUF_SIZE).

Record CInv (ids : list Z) (c : connection) : Prop := {
  ci_top : top ids (handler_ c);
  ci_bytes : stopped_ c = false -> wire c ++ pending_bytes (handler_ c) = produced c;
  ci_flight : forall b, in_flight c = Some b ->
    writing_ c = true /\ outbuf_ c = b /\ b <> [] /\ (length b <= OUTBUF_SIZE)%nat;
  ci_closed : socket_closed c = (if stopped_ c then 1 else 0)%nat;
  ci_reads : (reads c <= 1)%nat;
  ci_waits : (waits c <= 1)%nat /\ (stopped_ c = false -> waits c = 1%nat /\ is_Some (deadline_ c));
}.

Lemma Top_mono ids ids' h : top ids h -> top (ids ++ ids') h.
Proof.
  intros (b & d & HI & Ho). exists b, d. split; [|done]. apply (Inv_mono _ ids') in HI.
  unfold opened in HI. cbn in HI. by rewrite list_to_set_app_L.
Qed.

Lemma CInv_mono ids ids' c : CInv ids c -> CInv (ids ++ ids') c.
Proof. intros [H1 H2 H3 H4 H5 H6]. split; try assumption. by apply Top_mono. Qed.

Definition cwp (r : cres) (Q : connection -> Prop) : Prop :=
  match r with COk c => Q c | CFail e => e = dangling_stream end.

Lemma CInv_stop ids c : CInv ids c -> CInv ids (stop c).
Proof.
  intros HC. unfold stop. destruct (stopped_ c) eqn:E; [exact HC|]. destruct HC as [H1 H2 H3 H4 H5 H6].
  split; try assumption; cbn; [done|by rewrite H4, E|]. by split; [apply H6|].
Qed.

(** A connection that is stopped may have lost output. *)
Lemma CInv_stop_lost ids c :
  top ids (handler_ c) -> in_flight c = None -> socket_closed c = (if stopped_ c then 1 else 0)%nat ->
  (reads c <= 1)%nat -> (waits c <= 1)%nat -> CInv ids (stop c).
Proof.
  intros H1 H2 H3 H4 H5. unfold stop. destruct (stopped_ c) eqn:E.
  - split; [done|congruence|intros b Hb; congruence|by rewrite E|done|by split; [|congruence]].
  - split; cbn; [done|done|intros b Hb; congruence|by rewrite H3|done|done].
Qed.

Lemma stop_writing c : writing_ (stop c) = writing_ c /\ in_flight (stop c) = in_flight c /\ reads (stop c) = reads c.
Proof. unfold stop. by destruct (stopped_ c). Qed.

(** The streams opened are new. *)
Definition new_ids (ids l : list Z) : Prop := NoDup l /\ Forall (fun id => ~ (id ∈ ids)) l.

Lemma Top_fresh ids l b d : new_ids ids l -> fresh_ids (mk_ctx (list_to_set ids) None None false b d) l.
Proof.
  intros [H1 H2]. split; [done|]. eapply Forall_impl; [done|]. intros id. cbn. by rewrite elem_of_list_to_set.
Qed.

Lemma on_write_conn ids sends h :
  top ids h -> Forall (send_ok OUTBUF_SIZE) sends -> new_ids ids (concat (map send_ids sends)) ->
  wp (on_write mux_ OUTBUF_SIZE sends) (fun r h' =>
    top (ids ++ concat (map send_ids sends)) h'
    /\ pending_bytes h ++ sends_data (take (length sends - length r.2) sends) = r.1.2 ++ pending_bytes h'
    /\ (length r.1.2 <= OUTBUF_SIZE)%nat) h.
Proof.
  intros (b & d & HI & Ho) Hok Hn.
  eapply wp_mono; [apply (wp_on_write mux_ Hmux OUTBUF_SIZE _ sends h HI Ho); [done|done|done|by apply Top_fresh]|].
  intros r h' ((b' & d' & HI' & Ho') & used & Es & Eb & Hl). split; [|split; [|done]].
  - exists b', d'. split; [|done]. by rewrite list_to_set_app_L.
  - rewrite <- Eb. do 2 f_equal. rewrite Es, length_app. replace (length used + length r.2 - length r.2)%nat with (length used) by lia.
    apply take_app_length.
Qed.

Lemma do_write_inv ids sends b now c :
  CInv ids c -> Forall (send_ok OUTBUF_SIZE) sends -> new_ids ids (concat (map send_ids sends)) ->
  cwp (do_write mux_ read_timeout_ sends b now c)
    (fun c' => CInv (ids ++ concat (map send_ids sends)) c' /\ reads c' = reads c).
Proof.
  intros HC Hok Hn. unfold do_write. destruct (writing_ c) eqn:Ew; [split; [by apply CInv_mono|done]|].
  destruct HC as [H1 H2 H3 H4 H5 H6]. unfold on_handler.
  pose proof (on_write_conn ids sends (handler_ c) H1 Hok Hn) as Hw. unfold wp in Hw.
  destruct (on_write mux_ OUTBUF_SIZE sends (handler_ c)) as [[[rv out] rest] h'|e]; [|done].
  destruct Hw as (T & Eb & Hl). cbn [fst snd] in *.
  assert (in_flight c = None) as Hif.
  { destruct (in_flight c) as [x|]; [|done]. destruct (H3 x eq_refl). congruence. }
  set (c1 := set_outbuf out _).
  assert (stopped_ c = false -> wire c ++ out ++ pending_bytes h' = produced c1) as Kb.
  { intros Hs. cbn. rewrite <- (H2 Hs), <- !app_assoc. by rewrite Eb. }
  case_if.
  - split; [|by destruct (stop_writing c1) as (_ & _ & ->)]. apply CInv_stop_lost; try done. apply H6.
  - case_if.
    + apply Nat.eqb_eq, nil_length_inv in E0 as ->.
      assert (CInv (ids ++ concat (map send_ids sends)) c1) as C1.
      { split; cbn; [done|intros Hs; by apply Kb|intros x Hx; congruence|done|done|done]. }
      split; [|destruct b; [by destruct (stop_writing c1) as (_ & _ & ->)|done]]. destruct b; [by apply CInv_stop|done].
    + split; [|done]. apply Nat.eqb_neq in E0. split; cbn; [done| | |done|done|].
      * intros Hs. rewrite <- app_assoc. by apply Kb.
      * intros x [= <-]. split; [done|]. split; [done|]. split; [by intros ->|done].
      * split; [apply H6|]. intros Hs. by split; [apply H6|].
Qed.

(** A handler operation that leaves the pending output alone. *)
Lemma on_read_conn ids evs rv h :
  top ids h -> Forall event_ok evs -> new_ids ids (concat (map begin_ids evs)) ->
  wp (on_read mux_ evs rv) (fun _ h' => top (ids ++ concat (map begin_ids evs)) h' /\ pending_bytes h' = pending_bytes h) h.
Proof.
  intros (b & d & HI & Ho) Hok Hn.
  eapply wp_mono; [apply (wp_on_read mux_ Hmux _ evs rv h HI); [done|done|done|by apply Top_fresh]|].
  intros r h' HI'. split; [exists b, d; split; [by rewrite list_to_set_app_L|done]|].
  destruct HI as (_ & _ & [E1 E2] & _), HI' as (_ & _ & [E1' E2'] & _). unfold pending_bytes.
  rewrite E1, E2, E1', E2'. done.
Qed.

Lemma app_call_conn ids a h :
  top ids h -> wp (run_app_call a) (fun _ h' => top ids h' /\ pending_bytes h' = pending_bytes h) h.
Proof.
  intros (b & d & HI & Ho). eapply wp_mono; [by apply (wp_run_app_call _ a h HI)|].
  intros r h' HI'. split; [by exists b, d|].
  destruct HI as (_ & _ & [E1 E2] & _), HI' as (_ & _ & [E1' E2'] & _). unfold pending_bytes.
  rewrite E1, E2, E1', E2'. done.
Qed.

(** The handler replaced by one with the same pending output. *)
Lemma CInv_handler ids ids' c h :
  CInv ids c -> top ids' h -> pending_bytes h = pending_bytes (handler_ c) -> CInv ids' (set_handler h c).
Proof. intros [H1 H2 H3 H4 H5 H6] T E. split; try assumption. cbn. by rewrite E. Qed.

Lemma CInv_reads ids c n : CInv ids c -> (n <= 1)%nat -> CInv ids (set_reads n c).
Proof. intros [H1 H2 H3 H4 H5 H6] Hn. split; assumption. Qed.

Lemma CInv_deadline ids c d : CInv ids c -> stopped_ c = true \/ is_Some d -> CInv ids (set_deadline d c).
Proof.
  intros [H1 H2 H3 H4 H5 [H6 H7]] Hd. split; try assumption. split; [done|]. cbn. intros Hs. destruct Hd as [Hd|Hd]; [congruence|].
  by split; [apply H7|].
Qed.

(** The handler of a wait runs. *)
Lemma CInv_handle_deadline ids now c n :
  CInv ids c -> waits c = S n -> CInv ids (handle_deadline now (set_waits n c)).
Proof.
  intros HC Hw. destruct (ci_waits _ _ HC) as [H6 H7]. assert (n = 0%nat) as -> by lia.
  unfold handle_deadline. cbn [stopped_ deadline_ waits set_waits]. destruct (stopped_ c) eqn:Es.
  - destruct HC as [H1 H2 H3 H4 H5 _]. split; try assumption. cbn. rewrite Es. split; [lia|done].
  - case_match.
    + assert (CInv ids (set_deadline None (stop c))) as HC' by (apply CInv_deadline; [by apply CInv_stop|left; unfold stop; by rewrite Es]).
      unfold stop in *. cbn [stopped_ set_waits] in *. rewrite Es in *. destruct HC' as [H1 H2 H3 H4 H5 _]. split; try assumption. cbn. split; [lia|done].
    + destruct HC as [H1 H2 H3 H4 H5 _]. split; try assumption. cbn. split; [lia|]. intros _. split; [done|]. by apply H7.
Qed.

Definition cev_sends (e : cevent) : list mem_send :=
  match e with
  | ce_read _ _ _ sends _ _ _ => sends
  | ce_write _ sends _ _ => sends
  | ce_post sends _ _ => sends
  | _ => []
  end.

Definition cev_events (e : cevent) : list session_event :=
  match e with ce_read _ evs _ _ _ _ _ => evs | _ => [] end.

Definition cev_ids (e : cevent) : list Z :=
  concat (map begin_ids (cev_events e)) ++ concat (map send_ids (cev_sends e)).

(** The session behaves as documented, its chunks of output fit the buffer. *)
Definition cev_ok (e : cevent) : Prop :=
  Forall event_ok (cev_events e) /\ Forall (send_ok OUTBUF_SIZE) (cev_sends e).

Lemma new_ids_app ids a b : new_ids ids (a ++ b) -> new_ids ids a /\ new_ids (ids ++ a) b /\ new_ids ids b.
Proof.
  intros [Hn Hf]. apply NoDup_app in Hn as (Ha & Hd & Hb). apply Forall_app in Hf as [Hfa Hfb].
  split; [done|]. split; [|done]. split; [done|]. rewrite Forall_forall in *. intros id Hid.
  rewrite elem_of_app. intros [?|?]; [by eapply Hfb|by eapply Hd].
Qed.

Lemma read_handler_inv ids e evs rv sends s1 s2 now c :
  CInv ids c -> (reads c = 0)%nat -> Forall event_ok evs -> Forall (send_ok OUTBUF_SIZE) sends ->
  new_ids ids (concat (map begin_ids evs) ++ concat (map send_ids sends)) ->
  cwp (read_handler mux_ read_timeout_ e evs rv sends s1 s2 now c)
    (CInv (ids ++ concat (map begin_ids evs) ++ concat (map send_ids sends))).
Proof.
  intros HC Hr Hev Hs Hn. apply new_ids_app in Hn as (Hn1 & Hn2 & _). unfold read_handler.
  destruct e; [by apply CInv_mono, CInv_stop|]. unfold on_handler.
  pose proof (on_read_conn ids evs rv (handler_ c) (ci_top _ _ HC) Hev Hn1) as Hw. unfold wp in Hw.
  destruct (on_read mux_ evs rv (handler_ c)) as [r h'|]; [|done]. destruct Hw as [T Ep].
  assert (CInv (ids ++ concat (map begin_ids evs)) (set_handler h' c)) as C1 by (by eapply CInv_handler).
  rewrite app_assoc. case_if; [by apply CInv_mono, CInv_stop|].
  pose proof (do_write_inv _ sends s1 now _ C1 Hs Hn2) as Hd.
  destruct (do_write mux_ read_timeout_ sends s1 now (set_handler h' c)) as [c2|]; [|done].
  destruct Hd as [C2 R2]. cbn [cbind cwp]. case_if; [by apply CInv_stop|].
  apply CInv_reads; [by apply CInv_deadline; [|right]|]. cbn in *. rewrite R2. lia.
Qed.

Lemma run_cevent_inv ids e c :
  CInv ids c -> cev_ok e -> new_ids ids (cev_ids e) ->
  cwp (run_cevent mux_ read_timeout_ e c) (CInv (ids ++ cev_ids e)).
Proof.
  intros HC [Hev Hs] Hn. pose proof (proj2 (proj2 (new_ids_app _ _ _ Hn))) as Hn2.
  destruct e; cbn [run_cevent cev_sends cev_events cev_ids] in *; unfold cev_ids in *; cbn [cev_sends cev_events map concat app] in *.
  - destruct (reads c) as [|n] eqn:Er; [by apply CInv_mono|]. pose proof (ci_reads _ _ HC). assert (n = 0)%nat as -> by lia.
    apply read_handler_inv; [apply CInv_reads; [done|lia]|done..].
  - destruct (in_flight c) as [b|] eqn:Ef; [|by apply CInv_mono]. unfold write_handler.
    destruct HC as [H1 H2 H3 H4 H5 H6].
    destruct e.
    + apply CInv_mono, CInv_stop. split; try assumption. done.
    + pose proof (do_write_inv ids sends should_stop now (set_write false None c)) as Hd.
      unfold cwp in *. cbn [set_write in_flight]. change (set_write false None (set_write (writing_ c) None c)) with (set_write false None c).
      destruct (do_write _ _ _ _ _ (set_write false None c)) as [c'|]; [|apply Hd; [|done..]].
      * apply Hd; [|done..]. split; try assumption. done.
      * split; try assumption. done.
  - case_if; [by apply CInv_mono|]. unfold on_handler.
    pose proof (wp_run_event mux_ Hmux OUTBUF_SIZE ids ev_post (handler_ c) (ci_top _ _ HC) I) as Hw.
    specialize (Hw ltac:(constructor) ltac:(constructor)). unfold wp in Hw. cbn [run_event ev_ids] in *.
    unfold bind, get, initiate_write, modify in *. rewrite E in *. cbn [Nat.pred] in Hw. rewrite app_nil_r in Hw.
    assert (CInv ids (set_handler (add_write (set_signaled false (set_posts (Nat.pred (posts (handler_ c))) (handler_ c)))) c)) as C1.
    { by eapply CInv_handler. }
    pose proof (do_write_inv _ sends should_stop now _ C1 Hs Hn2) as Hd. unfold cwp in *.
    unfold bind. destruct (do_write _ _ _ _ _ _); [|done]. apply Hd.
  - unfold on_handler. pose proof (app_call_conn ids a (handler_ c) (ci_top _ _ HC)) as Hw. unfold wp in Hw.
    destruct (run_app_call a (handler_ c)); [|done]. rewrite app_nil_r. destruct Hw. by eapply CInv_handler.
  - rewrite app_nil_r. destruct (waits c) eqn:Ew; [done|]. by apply CInv_handle_deadline.
Qed.

Lemma run_conn_inv ids evs c :
  CInv ids c -> Forall cev_ok evs -> NoDup (ids ++ concat (map cev_ids evs)) ->
  cwp (run_conn mux_ read_timeout_ evs c) (CInv (ids ++ concat (map cev_ids evs))).
Proof.
  intros HC Hok. revert ids c HC. induction Hok as [|e evs He Hok IH]; intros ids c HC Hn; cbn [run_conn map concat] in *.
  { by rewrite app_nil_r. }
  pose proof Hn as Hn'. apply NoDup_app in Hn' as (_ & Hd & Hn2). apply NoDup_app in Hn2 as (Hn2 & _ & _).
  pose proof (run_cevent_inv ids e c HC He) as Hr. rewrite app_assoc in Hn |- *.
  destruct (run_cevent mux_ read_timeout_ e c) as [c'|]; cbn [cbind].
  - apply IH; [|done]. apply Hr. split; [done|]. apply Forall_forall. intros id Hid Hin.
    apply (Hd _ Hin), elem_of_app. by left.
  - apply Hr. split; [done|]. apply Forall_forall. intros id Hid Hin. apply (Hd _ Hin), elem_of_app. by left.
Qed.

(** A connection on which nothing has happened but the timer. *)
Record waiting (c : connection) : Prop := {
  wt_inv : CInv [] c;
  wt_handler : handler_ c = new_handler no_endpoint 0 [];
  wt_reads : reads c = 0%nat;
  wt_flight : in_flight c = None;
}.

Lemma waiting_new d : waiting (set_waits 1 (set_deadline (Some d) new_connection)).
Proof. split; [|done|done|done]. split; [apply Top_new|done|done|done|cbn; lia|]. by split. Qed.

Lemma waiting_timer c now n : waiting c -> waits c = S n -> waiting (handle_deadline now (set_waits n c)).
Proof.
  intros [HC Hh Hr Hf] Hw. split; [by apply CInv_handle_deadline|..];
    unfold handle_deadline, stop; cbn [stopped_ set_waits deadline_]; destruct (stopped_ c); try done; by case_match.
Qed.

Lemma start_inv rv1 rv2 now ep t date c :
  waiting c -> cwp (start_connection read_timeout_ rv1 rv2 now ep t date c) (CInv []).
Proof.
  intros [HC Hh Hr _]. unfold start_connection, on_handler, server.start. cbn [handler_ set_handler].
  assert (forall h, top [] h -> pending_bytes h = [] -> CInv [] (set_handler h c)) as Hset.
  { intros h Hh' Hp. eapply CInv_handler; [exact HC|done|]. by rewrite Hh, Hp. }
  destruct (negb (rv1 =? 0)); [apply CInv_stop, (Hset (new_handler ep t date)); [apply Top_new|done]|].
  destruct (negb (rv2 =? 0)); [apply CInv_stop, (Hset (new_handler ep t date)); [apply Top_new|done]|].
  unfold bind, lib, ret. cbn [Z.eqb negb]. apply CInv_reads; [|cbn; lia]. apply CInv_deadline; [|by right].
  destruct (Top_new OUTBUF_SIZE ep t date) as (b & d & HI & Ho). eapply (Hset _); [|done]. exists b, d. split; [|done]. by apply Inv_neutral.
Qed.

Lemma handshake_inv e npn alpn rv1 rv2 now ep t date c :
  waiting c -> cwp (handshake_handler read_timeout_ e npn alpn rv1 rv2 now ep t date c) (CInv []).
Proof.
  intros Hw. unfold handshake_handler. destruct e; [apply CInv_stop, Hw|].
  case_match; [apply CInv_stop, Hw|by apply start_inv].
Qed.

End cprops.

(** ** The properties *)

(** How an accepted connection begins: at once, or when the handshake completes
    with a result and the protocols it negotiated, after handlers of the timer have
    run at the times [ticks]. *)
Inductive transport :=
  | tcp
  | tls (ticks : list Z) (e : bool) (npn alpn : option str) (at_ : Z).

Definition tick (c : connection) (now : Z) : connection :=
  match waits c with O => c | S n => handle_deadline now (set_waits n c) end.

(** What the handler of [async_accept] does with the new connection. *)
Definition begin_connection `{Nghttp2} (tls_handshake_timeout_ read_timeout_ rv1 rv2 now : Z) (ep : tcp_endpoint) (t : Z) (date : str) (tr : transport) : cres :=
  match tr with
  | tcp => start_connection read_timeout_ rv1 rv2 now ep t date (start_read_deadline read_timeout_ now new_connection)
  | tls ticks e npn alpn at_ =>
    handshake_handler read_timeout_ e npn alpn rv1 rv2 at_ ep t date
      (fold_left tick ticks (start_tls_handshake_deadline tls_handshake_timeout_ now new_connection))
  end.

(** A connection from its start, and then the events. *)
Definition run_from_start `{Nghttp2} (mux_ : serve_mux.mux) `{App} (tls_handshake_timeout_ read_timeout_ rv1 rv2 now : Z) (ep : tcp_endpoint) (t : Z)
    (date : str) (tr : transport) (evs : list cevent) : cres :=
  cbind (begin_connection tls_handshake_timeout_ read_timeout_ rv1 rv2 now ep t date tr) (run_conn mux_ read_timeout_ evs).

Definition conn_trace_ok (evs : list cevent) : Prop :=
  Forall cev_ok evs /\ NoDup (concat (map cev_ids evs)).

Lemma tick_waiting {Lib : Nghttp2} {Laws : Nghttp2Laws} ticks c : waiting c -> waiting (fold_left tick ticks c).
Proof.
  revert c. induction ticks as [|now ticks IH]; intros c Hc; cbn [fold_left]; [done|]. apply IH. unfold tick.
  destruct (waits c) eqn:Ew; [done|by apply waiting_timer].
Qed.

Lemma begin_inv {Lib : Nghttp2} {Laws : Nghttp2Laws} tls_handshake_timeout_ read_timeout_ rv1 rv2 now ep t date tr :
  cwp (begin_connection tls_handshake_timeout_ read_timeout_ rv1 rv2 now ep t date tr) (CInv []).
Proof. destruct tr; [apply start_inv, waiting_new|]. apply handshake_inv, tick_waiting, waiting_new. Qed.

Lemma run_from_start_inv {Lib : Nghttp2} {Laws : Nghttp2Laws} {Ap : App} mux_ hs_timeout read_timeout_ rv1 rv2 now ep t date tr evs :
  serve_mux.app_mux mux_ -> conn_trace_ok evs ->
  cwp (run_from_start mux_ hs_timeout read_timeout_ rv1 rv2 now ep t date tr evs) (CInv (concat (map cev_ids evs))).
Proof.
  intros Hmux [H1 H2]. unfold run_from_start. pose proof (begin_inv hs_timeout read_timeout_ rv1 rv2 now ep t date tr) as Hs.
  destruct (begin_connection _ _ _ _ _ _ _ _) as [c|]; [|done]. cbn [cbind cwp] in *.
  by apply (run_conn_inv mux_ Hmux read_timeout_ []).
Qed.

(** A write that fills the pending buffer twice. *)
Definition demo_conn_trace : list cevent :=
  [ce_read false [on_begin_headers (request_frame 1 1); on_header (request_frame 1 1) (lit ":method") (lit "GET") 0;
                  on_header (request_frame 1 1) (lit ":path") (lit "/") 0; on_frame_recv (request_frame 1 1)] 9
     [mk_send [] (Some (replicate 9 "a"%char)); mk_send [] (Some (lit "head"))] false false 1;
   ce_write false [mk_send [on_read_data 1 100 0] (Some (lit "hello"))] false 2;
   ce_app (call_resume 1); ce_post [] false 3; ce_write false [] false 4; ce_timer 5].

(** A handshake that selects h2, after the timer's handler ran once. *)
Definition h2_handshake : transport := tls [3] false None (Some (lit "h2")) 5.

Lemma small_send evs d :
  Forall event_ok evs -> (Z.of_nat (length d) <=? 65536) = true -> send_ok OUTBUF_SIZE (mk_send evs (Some d)).
Proof. intros He Hd. split; [done|]. cbn. unfold OUTBUF_SIZE. lia. Qed.

(** Concrete sequences of events. *)
Ltac trace_solver :=
  repeat match goal with
  | |- Forall _ [] => apply Forall_nil_2
  | |- Forall _ (_ :: _) => apply Forall_cons_2
  | |- cev_ok _ => split; cbn [cev_events cev_sends]
  | |- event_ok _ => split; cbn [begin_ids is_request_headers request_frame]
  | |- send_ok _ _ => apply small_send
  end; try reflexivity; try done; try (vm_compute; by repeat constructor).

Lemma demo_conn_trace_ok : conn_trace_ok demo_conn_trace.
Proof.
  split; [|vm_compute; repeat constructor; set_solver]. unfold demo_conn_trace. trace_solver.
Qed.



(** C8. The output buffer is not touched while a write is pending: at most one
    [async_write] is in flight, and as long as it is, [outbuf_] still holds the
    bytes it was given, a non-empty run of at most 64 KiB; at most one read is
    pending; and the socket is closed at most once, exactly when [stopped_]. *)
Theorem async_operations_disciplined {Lib : Nghttp2} {Laws : Nghttp2Laws} {Ap : App} (mux_ : serve_mux.mux)
    (tls_handshake_timeout_ read_timeout_ rv1 rv2 now : Z) (ep : tcp_endpoint) (t : Z) (date : str) (tr : transport) (evs : list cevent) (c : connection)
    (Hmux : serve_mux.app_mux mux_) (Hev : conn_trace_ok evs)
    (Hrun : run_from_start mux_ tls_handshake_timeout_ read_timeout_ rv1 rv2 now ep t date tr evs = COk c) :
  (forall b, in_flight c = Some b ->
     writing_ c = true /\ outbuf_ c = b /\ b <> [] /\ Z.of_nat (length b) <= 65536)
  /\ (reads c <= 1)%nat
  /\ socket_closed c = (if stopped_ c then 1 else 0)%nat.
Proof.
  pose proof (run_from_start_inv mux_ tls_handshake_timeout_ read_timeout_ rv1 rv2 now ep t date tr evs Hmux Hev) as H. rewrite Hrun in H.
  destruct H as [_ _ H3 H4 H5 _]. split; [|done]. intros b Hb. destruct (H3 b Hb) as (? & ? & ? & Hl).
  repeat split; try done. unfold OUTBUF_SIZE in Hl. lia.
Qed.

Lemma async_operations_disciplined_witness :
  exists c, @run_from_start counting_lib demo_mux demo_app 10 60 0 0 0 no_endpoint 0 [] h2_handshake (take 1 demo_conn_trace) = COk c
            /\ in_flight c = Some (outbuf_ c) /\ writing_ c = true.
Proof.
  destruct (@run_from_start counting_lib demo_mux demo_app 10 60 0 0 0 no_endpoint 0 [] h2_handshake (take 1 demo_conn_trace)) as [c|] eqn:E.
  2:{ exfalso. revert E. vm_compute. discriminate. }
  assert (exists b, in_flight c = Some b) as [b Hb].
  { revert E. vm_compute. intros [= <-]. eexists. reflexivity. }
  assert (conn_trace_ok (take 1 demo_conn_trace)) as Hok.
  { destruct demo_conn_trace_ok as [H1 _]. split; [by apply Forall_take|]. vm_compute; repeat constructor; set_solver. }
  destruct (async_operations_disciplined demo_mux 10 60 0 0 0 no_endpoint 0 [] h2_handshake _ c demo_mux_ok Hok E) as (H & _).
  destruct (H b Hb) as (H1 & H2 & _). exists c. split; [reflexivity|]. split; [rewrite H2; exact Hb|exact H1].
Defined.

(** ** Timeouts *)

(** The time at which an event happens; calls of the application have none. *)
Definition cev_time (e : cevent) : option Z :=
  match e with
  | ce_read _ _ _ _ _ _ now | ce_write _ _ _ now | ce_post _ _ now | ce_timer now => Some now
  | ce_app _ => None
  end.

(** Nothing happens after [T]. *)
Definition until (T : Z) (e : cevent) : Prop := forall now, cev_time e = Some now -> now <= T.

Section timeouts.
Context {Lib : Nghttp2} (mux_ : serve_mux.mux) {Ap : App} (read_timeout_ T : Z).

Definition due (c : connection) : Prop := stopped_ c = false -> exists d, deadline_ c = Some d /\ d <= T + read_timeout_.

Lemma due_stop c : due (stop c).
Proof. unfold due, stop. destruct (stopped_ c) eqn:E; [congruence|done]. Qed.

Lemma due_now c now : now <= T -> due (set_deadline (Some (now + read_timeout_)) c).
Proof. intros Hn _. eexists. split; [done|]. lia. Qed.

Lemma due_do_write sends b now c :
  due c -> now <= T -> match do_write mux_ read_timeout_ sends b now c with COk c => due c | CFail _ => True end.
Proof.
  intros Hc Hn. unfold do_write. destruct (writing_ c); [done|]. unfold on_handler.
  destruct (on_write mux_ OUTBUF_SIZE sends (handler_ c)) as [[[rv out] rest] h'|e]; [|done].
  case_if; [by apply due_stop|]. case_if; [destruct b; [by apply due_stop|done]|]. by apply due_now.
Qed.

Lemma due_handle_deadline now c n : due c -> due (handle_deadline now (set_waits n c)).
Proof.
  intros Hc. unfold handle_deadline, stop, due in *. cbn [stopped_ deadline_ set_waits] in *.
  destruct (stopped_ c) eqn:E; [cbn; congruence|]. destruct (match deadline_ c with Some d => d <=? now | None => false end); [done|].
  intros _. by apply Hc.
Qed.

Lemma due_step e c :
  due c -> until T e -> match run_cevent mux_ read_timeout_ e c with COk c => due c | CFail _ => True end.
Proof.
  intros Hc He. destruct e as [err evs rv sends s1 s2 now|err sends b now|sends b now|a|now]; cbn [run_cevent];
    try specialize (He _ eq_refl).
  - destruct (reads c); [done|]. unfold read_handler. destruct err; [by apply due_stop|]. unfold on_handler.
    destruct (on_read mux_ evs rv _) as [r h'|]; [|done]. case_if; [by apply due_stop|].
    pose proof (due_do_write sends s1 now (set_handler h' (set_reads n c)) Hc He) as Hw.
    destruct (do_write _ _ _ _ _ _); [|done]. cbn [cbind]. case_if; [by apply due_stop|]. by apply (due_now _ now).
  - destruct (in_flight c); [|done]. unfold write_handler. destruct err; [by apply due_stop|]. by apply due_do_write.
  - case_if; [done|]. unfold on_handler. destruct (run_event _ _ _ _); [|done]. by apply due_do_write.
  - unfold on_handler. by destruct (run_app_call a (handler_ c)).
  - destruct (waits c); [done|by apply due_handle_deadline].
Qed.

Lemma due_run evs c :
  due c -> Forall (until T) evs -> match run_conn mux_ read_timeout_ evs c with COk c => due c | CFail _ => True end.
Proof.
  intros Hc He. revert c Hc. induction He as [|e evs He _ IH]; intros c Hc; cbn [run_conn]; [done|].
  pose proof (due_step e c Hc He). destruct (run_cevent mux_ read_timeout_ e c); [by apply IH|done].
Qed.

End timeouts.

(** The time at which [start] is called. *)
Definition start_time (tr : transport) (now : Z) : Z := match tr with tcp => now | tls _ _ _ _ at_ => at_ end.

Lemma due_begin {Lib : Nghttp2} hs_timeout read_timeout_ T rv1 rv2 now ep t date tr :
  start_time tr now <= T ->
  match begin_connection hs_timeout read_timeout_ rv1 rv2 now ep t date tr with COk c => due read_timeout_ T c | CFail _ => True end.
Proof.
  intros Ht. assert (forall now c, now <= T ->
    match start_connection read_timeout_ rv1 rv2 now ep t date c with COk c => due read_timeout_ T c | CFail _ => True end) as Hstart.
  { intros now' c Hn. unfold start_connection, on_handler. destruct (server.start _ _ _); [|done].
    case_if; [by apply due_stop|]. by apply (due_now _ _ _ now'). }
  destruct tr; cbn [begin_connection start_time] in *; [by apply Hstart|]. unfold handshake_handler. destruct e; [by apply due_stop|].
  case_if; [by apply due_stop|]. by apply Hstart.
Qed.

(** The timer closes the socket, and the pending operations end. *)
Lemma close_idle {Lib : Nghttp2} mux_ {Ap : App} read_timeout_ c d later evs1 rv s1 s2 sends1 sends2 b :
  stopped_ c = false -> deadline_ c = Some d -> d <= later -> waits c = 1%nat -> (reads c <= 1)%nat ->
  run_conn mux_ read_timeout_ [ce_timer later; ce_read true evs1 rv sends1 s1 s2 later; ce_write true sends2 b later] c
  = COk (mk_conn (handler_ c) (writing_ c) true (outbuf_ c) None 0 None 0 (S (socket_closed c)) (wire c) (produced c)).
Proof.
  intros Hs Hd Hl Hw Hr. destruct c as [h w st ob dl wa fl rd cl wi pr]. cbn in *. subst.
  assert ((d <=? later) = true) as E by (by apply Z.leb_le). unfold handle_deadline. cbn. rewrite E. cbn.
  destruct rd as [|[|]]; [..|lia]; cbn; by destruct fl.
Qed.

(** C20. An idle connection is closed, and then nothing keeps it alive.  While a
    connection is running, exactly one handler waits on its timer.  If nothing
    happens after [T], then this handler closes the socket when it runs at
    [T + read_timeout_] or later, whatever happened before; and once the operations
    on the closed socket have failed, no operation is pending, so that the last
    reference to the connection is gone. *)
Theorem idle_connection_times_out {Lib : Nghttp2} {Laws : Nghttp2Laws} {Ap : App} (mux_ : serve_mux.mux)
    (tls_handshake_timeout_ read_timeout_ rv1 rv2 now : Z) (ep : tcp_endpoint) (t : Z) (date : str) (tr : transport) (evs : list cevent) (T : Z) (c : connection)
    (Hmux : serve_mux.app_mux mux_) (Hev : conn_trace_ok evs) (Hstart : start_time tr now <= T) (Huntil : Forall (until T) evs)
    (Hrun : run_from_start mux_ tls_handshake_timeout_ read_timeout_ rv1 rv2 now ep t date tr evs = COk c)
    (Hopen : stopped_ c = false) :
  waits c = 1%nat
  /\ forall later evs1 rv s1 s2 sends1 sends2 b, T + read_timeout_ <= later ->
     exists c', run_conn mux_ read_timeout_
                  [ce_timer later; ce_read true evs1 rv sends1 s1 s2 later; ce_write true sends2 b later] c = COk c'
                /\ stopped_ c' = true /\ socket_closed c' = 1%nat
                /\ waits c' = 0%nat /\ reads c' = 0%nat /\ in_flight c' = None.
Proof.
  pose proof (run_from_start_inv mux_ tls_handshake_timeout_ read_timeout_ rv1 rv2 now ep t date tr evs Hmux Hev) as HC. rewrite Hrun in HC.
  destruct HC as [_ _ _ H4 H5 [_ H6]]. destruct (H6 Hopen) as [Hw _]. split; [done|]. intros later evs1 rv s1 s2 sends1 sends2 b Hl.
  assert (due read_timeout_ T c) as Hdue.
  { unfold run_from_start in Hrun. pose proof (due_begin tls_handshake_timeout_ read_timeout_ T rv1 rv2 now ep t date tr Hstart) as Hd.
    destruct (begin_connection _ _ _ _ _ _ _ _) as [c0|]; [|done]. cbn [cbind] in Hrun.
    pose proof (due_run mux_ read_timeout_ T evs c0 Hd Huntil) as Hd'. by rewrite Hrun in Hd'. }
  destruct (Hdue Hopen) as (d & Ed & Hd). rewrite Hopen in H4.
  eexists. split; [apply (close_idle mux_ read_timeout_ c d); [done|done|lia|done|done]|]. cbn. by rewrite H4.
Qed.

Lemma idle_connection_times_out_witness :
  exists c, @run_from_start counting_lib demo_mux demo_app 10 60 0 0 0 no_endpoint 0 [] h2_handshake demo_conn_trace = COk c
            /\ waits c = 1%nat
            /\ exists c', @run_conn counting_lib demo_mux demo_app 60
                            [ce_timer 65; ce_read true [] 0 [] false false 65; ce_write true [] false 65] c = COk c'
                          /\ stopped_ c' = true /\ socket_closed c' = 1%nat
                          /\ waits c' = 0%nat /\ reads c' = 0%nat /\ in_flight c' = None.
Proof.
  destruct (@run_from_start counting_lib demo_mux demo_app 10 60 0 0 0 no_endpoint 0 [] h2_handshake demo_conn_trace) as [c|] eqn:E.
  2:{ exfalso. revert E. vm_compute. discriminate. }
  assert (stopped_ c = false) as Hs by (revert E; vm_compute; intros [= <-]; reflexivity).
  destruct (@idle_connection_times_out counting_lib _ demo_app demo_mux 10 60 0 0 0 no_endpoint 0 [] h2_handshake demo_conn_trace 5 c demo_mux_ok demo_conn_trace_ok)
    as [Hw H]; [cbn; lia|unfold demo_conn_trace; repeat (apply Forall_cons_2 || apply Forall_nil_2); intros now; cbn; intros [= <-]; lia|exact E|exact Hs|].
  exists c. split; [reflexivity|]. split; [exact Hw|]. apply (H 65). lia.
Defined.

End connection.
