(* ===== verification/Server.v ===== *)
(** * The acceptors: lib/asio_server.cc and asio_server_http2_impl.cc

    The server listens on the addresses it resolved, accepts connections, gives
    each a service of the pool and starts it, after a handshake with TLS.  The
    results of the resolver and of the socket operations are arguments; an
    execution is a list of completions.  An exception that leaves the handler of an
    [async_accept] ends the thread of a service, after which nothing runs on it. *)

From S2P Require Import Prelude Monad Util Http2 Common ServeMux Nghttp2 IoServicePool ServerHandler ServerProps ServerConnection.

Module asio_server.
Import monad http2 common nghttp2 server server_props connection.

(** ** State *)

(** A connection of [make_shared]: it waits for its [async_accept], for its
    handshake, or runs. *)
Inductive phase := accepting | handshaking (c : connection) | running (c : connection).

Record sconn := mk_sconn { sc_service : nat; sc_phase : phase }.

(** An acceptor: its service, whether it is open, its port and backlog, and the
    connections for which an [async_accept] is pending. *)
Record acceptor := mk_acceptor {
  ac_service : nat;
  ac_open : bool;
  ac_port : Z;
  ac_backlog : Z;
  ac_accepts : list nat;
}.

Record server := mk_server {
  io_service_pool_ : io_service_pool.pool;
  acceptors_ : list acceptor;
  tls_handshake_timeout_ : Z;
  read_timeout_ : Z;
  conns : list sconn;
  dead : list nat;
}.

Definition set_pool (p : io_service_pool.pool) (s : server) : server :=
  mk_server p (acceptors_ s) (tls_handshake_timeout_ s) (read_timeout_ s) (conns s) (dead s).
Definition set_acceptors (l : list acceptor) (s : server) : server :=
  mk_server (io_service_pool_ s) l (tls_handshake_timeout_ s) (read_timeout_ s) (conns s) (dead s).
Definition set_conns (l : list sconn) (s : server) : server :=
  mk_server (io_service_pool_ s) (acceptors_ s) (tls_handshake_timeout_ s) (read_timeout_ s) l (dead s).
(** An exception leaves a handler and the [run] of service [i]. *)
Definition kill (i : nat) (s : server) : server :=
  mk_server (io_service_pool_ s) (acceptors_ s) (tls_handshake_timeout_ s) (read_timeout_ s) (conns s) (i :: dead s).
Definition set_accepts (l : list nat) (a : acceptor) : acceptor :=
  mk_acceptor (ac_service a) (ac_open a) (ac_port a) (ac_backlog a) l.
Definition close (a : acceptor) : acceptor :=
  mk_acceptor (ac_service a) false (ac_port a) (ac_backlog a) (ac_accepts a).

(** A result, or the failure of an operation. *)
Inductive sres (A : Type) := SOk (a : A) | SFail (e : failure).
Arguments SOk {A} a.
Arguments SFail {A} e.

#[export] Instance sres_bind : MBind sres := fun A B k r => match r with SOk a => k a | SFail e => SFail e end.

(** The constructor; [None] when the pool cannot be made. *)
Definition new_server (io_service_pool_size : nat) (tls_handshake_timeout read_timeout : Z) : option server :=
  p ← io_service_pool.new_pool io_service_pool_size; Some (mk_server p [] tls_handshake_timeout read_timeout [] []).

(** [io_service_pool_.get_io_service()] *)
Definition get_io_service (s : server) : sres (nat * server) :=
  match io_service_pool.get_io_service (io_service_pool_ s) with
  | Some (i, p) => SOk (i, set_pool p s)
  | None => SFail memory_error
  end.

(** ** Listening *)

(** What [open], [set_option], [bind] and [listen] return for an endpoint, 0 for
    success, and the port it gets.  The error of [set_option] is thrown. *)
Record endpoint := mk_endpoint { ep_open : Z; ep_option : Z; ep_bind : Z; ep_listen : Z; ep_port : Z }.

Section listening.
Context (max_connections : Z).

(** The body of the loop of [bind_and_listen]: the error code it leaves. *)
Definition try_endpoint (backlog : Z) (ep : endpoint) (s : server) : sres (Z * server) :=
  '(i, s) ← get_io_service s;
  if negb (ep_open ep =? 0) then SOk (ep_open ep, s)
  else if negb (ep_option ep =? 0) then SFail socket_exception
  else if negb (ep_bind ep =? 0) then SOk (ep_bind ep, s)
  else if negb (ep_listen ep =? 0) then SOk (ep_listen ep, s)
  else
    let b := if backlog =? -1 then max_connections else backlog in
    SOk (0, set_acceptors (acceptors_ s ++ [mk_acceptor i true (ep_port ep) b []]) s).

Fixpoint try_endpoints (backlog : Z) (eps : list endpoint) (ec : Z) (s : server) : sres (Z * server) :=
  match eps with
  | [] => SOk (ec, s)
  | ep :: eps => '(ec, s) ← try_endpoint backlog ep s; try_endpoints backlog eps ec s
  end.

(** [bind_and_listen], given the result of the resolver. *)
Definition bind_and_listen (backlog : Z) (resolved : Z * list endpoint) (s : server) : sres (Z * server) :=
  '(_, s) ← get_io_service s;
  if negb (resolved.1 =? 0) then SOk (resolved.1, s)
  else
    '(ec, s) ← try_endpoints backlog resolved.2 0 s;
    if (length (acceptors_ s) =? 0)%nat then SOk (ec, s) else SOk (0, s).

(** ** Accepting *)

(** Both variants of [start_accept], up to the handler of [async_accept]. *)
Definition start_accept (i : nat) (s : server) : sres server :=
  match acceptors_ s !! i with
  | None => SFail memory_error
  | Some a =>
    if negb (ac_open a) then SOk s
    else
      '(svc, s) ← get_io_service s;
      let k := length (conns s) in
      SOk (set_acceptors (<[i := set_accepts (ac_accepts a ++ [k]) a]> (acceptors_ s))
             (set_conns (conns s ++ [mk_sconn svc accepting]) s))
  end.

Fixpoint start_accepts (n i : nat) (s : server) : sres server :=
  match n with
  | O => SOk s
  | S n => s ← start_accept i s; start_accepts n (S i) s
  end.

(** [listen_and_serve], up to the [join] of the synchronous variant: the error code
    and the server. *)
Definition listen_and_serve (backlog : Z) (resolved : Z * list endpoint) (s : server) : sres (Z * server) :=
  '(ec, s) ← bind_and_listen backlog resolved s;
  if negb (ec =? 0) then SOk (ec, s)
  else
    s ← start_accepts (length (acceptors_ s)) 0 s;
    SOk (0, set_pool (io_service_pool.run (io_service_pool_ s)) s).

End listening.

Definition set_phase (k : nat) (ph : phase) (s : server) : server :=
  set_conns (alter (fun c => mk_sconn (sc_service c) ph) k (conns s)) s.

Section serving.
Context `{Nghttp2} (mux_ : serve_mux.mux) `{App}.

(** A connection operation. *)
Definition on_conn (k : nat) (r : cres) (s : server) : sres server :=
  match r with COk c => SOk (set_phase k (running c) s) | CFail e => SFail e end.

(** The handler of [async_accept] for acceptor [i] and connection [k], over TCP and
    over TLS; [no_delay] is the error of [set_option], which it throws: the exception ends
    the thread of the acceptor's service. *)
Definition accept_handler (is_tls : bool) (i k : nat) (e : bool) (no_delay now rv1 rv2 : Z) (ep : tcp_endpoint) (t : Z) (date : str) (s : server) : sres server :=
  if negb e && negb (no_delay =? 0) then
    match acceptors_ s !! i with Some a => SOk (kill (ac_service a) s) | None => SFail memory_error end
  else if is_tls then
    let s := if e then s else set_phase k (handshaking (start_tls_handshake_deadline (tls_handshake_timeout_ s) now new_connection)) s in
    start_accept i s
  else
    s ← (if e then SOk s
         else on_conn k (start_connection (read_timeout_ s) rv1 rv2 now ep t date (start_read_deadline (read_timeout_ s) now new_connection)) s);
    match acceptors_ s !! i with
    | None => SFail memory_error
    | Some a => if ac_open a then start_accept i s else SOk s
    end.

(** The loop of [server::stop].  A close of an open acceptor may fail: it is closed all the
    same, and the error is thrown. *)
Fixpoint close_acceptors (errs : list Z) (l : list acceptor) : option Z * list acceptor :=
  match l with
  | [] => (None, [])
  | a :: l =>
    let e := if ac_open a then default 0 (head errs) else 0 in
    if negb (e =? 0) then (Some e, close a :: l)
    else let '(r, l) := close_acceptors (tail errs) l in (r, close a :: l)
  end.

(** [server::stop], with the exception that it throws; the connections go on. *)
Definition stop (errs : list Z) (s : server) : option Z * server :=
  match close_acceptors errs (acceptors_ s) with
  | (Some e, l) => (Some e, set_acceptors l s)
  | (None, l) => (None, set_pool (io_service_pool.stop (io_service_pool_ s)) (set_acceptors l s))
  end.

(** [server::ports]: [local_endpoint] throws on a closed acceptor. *)
Definition ports (s : server) : option (list Z) :=
  mapM (fun a => if ac_open a then Some (ac_port a) else None) (acceptors_ s).

(** ** Executions *)

(** The pending [async_accept] of an acceptor completes, a handshake completes, an
    event of a connection, a call of [stop].  What is not pending is no step, nor is
    what a service has to run whose thread has ended; before the handshake is complete,
    a connection has only its timer. *)
Inductive sevent :=
  | se_accept (i : nat) (e : bool) (no_delay now rv1 rv2 : Z) (ep : tcp_endpoint) (t : Z) (date : str)
  | se_handshake (k : nat) (e : bool) (npn alpn : option str) (rv1 rv2 now : Z) (ep : tcp_endpoint) (t : Z) (date : str)
  | se_conn (k : nat) (e : cevent)
  | se_stop (errs : list Z).

Definition alive (s : server) (i : nat) : bool := bool_decide (i ∉ dead s).

Definition run_sevent (is_tls : bool) (e : sevent) (s : server) : sres server :=
  match e with
  | se_accept i e no_delay now rv1 rv2 ep t date =>
    match acceptors_ s !! i with
    | Some a =>
      match ac_accepts a with
      | k :: ks =>
        if alive s (ac_service a) then
          accept_handler is_tls i k e no_delay now rv1 rv2 ep t date
            (set_acceptors (<[i := set_accepts ks a]> (acceptors_ s)) s)
        else SOk s
      | [] => SOk s
      end
    | None => SOk s
    end
  | se_handshake k e npn alpn rv1 rv2 now ep t date =>
    match conns s !! k with
    | Some (mk_sconn svc (handshaking c)) =>
      if alive s svc then on_conn k (handshake_handler (read_timeout_ s) e npn alpn rv1 rv2 now ep t date c) s else SOk s
    | _ => SOk s
    end
  | se_conn k e =>
    match conns s !! k with
    | Some (mk_sconn svc (running c)) => if alive s svc then on_conn k (run_cevent mux_ (read_timeout_ s) e c) s else SOk s
    | Some (mk_sconn svc (handshaking c)) =>
      match e with
      | ce_timer now => if alive s svc then SOk (set_phase k (handshaking (tick c now)) s) else SOk s
      | _ => SOk s
      end
    | _ => SOk s
    end
  | se_stop errs => SOk (stop errs s).2
  end.

Fixpoint run_server (is_tls : bool) (evs : list sevent) (s : server) : sres server :=
  match evs with
  | [] => SOk s
  | e :: evs => s ← run_sevent is_tls e s; run_server is_tls evs s
  end.

End serving.

(** The operations in progress of a connection, and whether the handlers of a
    service have all run. *)
Definition conn_ops (c : connection) : nat :=
  (waits c + reads c + (match in_flight c with Some _ => 1 | None => 0 end) + posts (handler_ c))%nat.

Definition phase_idle (ph : phase) : bool :=
  match ph with
  | accepting => true
  | handshaking _ => false
  | running c => (conn_ops c =? 0)%nat
  end.

Definition idle (s : server) (i : nat) : bool :=
  forallb (fun a => negb (ac_service a =? i)%nat || (length (ac_accepts a) =? 0)%nat) (acceptors_ s)
  && forallb (fun c => negb (sc_service c =? i)%nat || phase_idle (sc_phase c)) (conns s).

(** [server::join] *)
Definition join (s : server) : io_service_pool.join_result :=
  io_service_pool.join (io_service_pool_ s) (idle s) (fun i => negb (alive s i)).

(** The destructor.  [acceptors_] goes first: the handler of a pending [async_accept] of a
    service that runs is left with a reference to an acceptor that is gone.  Then the pool
    waits for its threads. *)
Inductive destroy_result := destroyed | destroy_blocked | destroy_dangling.

Definition destroy (s : server) : destroy_result :=
  if existsb (fun a => alive s (ac_service a) && negb (length (ac_accepts a) =? 0)%nat) (acceptors_ s) then destroy_dangling
  else if io_service_pool.destroy (io_service_pool_ s) (idle s) (fun i => negb (alive s i)) then destroyed
  else destroy_blocked.

(** ** Listening: properties *)

Definition endpoint_throws (ep : endpoint) : Prop := ep_open ep = 0 /\ ep_option ep <> 0.

#[export] Instance endpoint_throws_dec ep : Decision (endpoint_throws ep).
Proof. unfold endpoint_throws. solve_decision. Defined.

Definition endpoint_error (ep : endpoint) : Z :=
  if ep_open ep =? 0 then if ep_bind ep =? 0 then ep_listen ep else ep_bind ep else ep_open ep.

Definition nservices (s : server) : nat := length (io_service_pool.io_services_ (io_service_pool_ s)).

(** What a call of [get_io_service] leaves. *)
Lemma get_io_service_ok s : io_service_pool.pool_ok (io_service_pool_ s) ->
  exists p, get_io_service s = SOk (io_service_pool.next_io_service_ (io_service_pool_ s), set_pool p s)
    /\ io_service_pool.pool_ok p /\ io_service_pool.io_services_ p = io_service_pool.io_services_ (io_service_pool_ s)
    /\ io_service_pool.work_ p = io_service_pool.work_ (io_service_pool_ s)
    /\ io_service_pool.futures_ p = io_service_pool.futures_ (io_service_pool_ s).
Proof.
  intros Hp. unfold get_io_service. destruct (io_service_pool.get_io_service_spec _ Hp) as (p & -> & Es & Ew & Ef & En).
  exists p. split; [done|]. unfold io_service_pool.pool_ok in *. rewrite En, Es. split; [apply Nat.mod_upper_bound; lia|done].
Qed.

(** The part of a server that listening does not touch. *)
Definition same_base (s s' : server) : Prop :=
  io_service_pool.pool_ok (io_service_pool_ s') /\ conns s' = conns s /\ dead s' = dead s
  /\ io_service_pool.io_services_ (io_service_pool_ s') = io_service_pool.io_services_ (io_service_pool_ s)
  /\ io_service_pool.work_ (io_service_pool_ s') = io_service_pool.work_ (io_service_pool_ s)
  /\ io_service_pool.futures_ (io_service_pool_ s') = io_service_pool.futures_ (io_service_pool_ s).

Section listening_props.
Context (max_connections backlog : Z).

(** The acceptor made for an endpoint. *)
Definition accepts_endpoint (n : nat) (ep : endpoint) (a : acceptor) : Prop :=
  (ac_service a < n)%nat /\ ac_open a = true /\ ac_port a = ep_port ep
  /\ ac_backlog a = (if backlog =? -1 then max_connections else backlog) /\ ac_accepts a = [].

Lemma try_endpoint_throws ep s : io_service_pool.pool_ok (io_service_pool_ s) -> endpoint_throws ep ->
  try_endpoint max_connections backlog ep s = SFail socket_exception.
Proof.
  intros Hp [E1 E2]. unfold try_endpoint. destruct (get_io_service_ok s Hp) as (p & -> & _). cbn [mbind sres_bind]. rewrite E1.
  by destruct (Z.eqb_spec (ep_option ep) 0).
Qed.

Lemma try_endpoint_spec ep s : io_service_pool.pool_ok (io_service_pool_ s) -> ~ endpoint_throws ep ->
  exists s', try_endpoint max_connections backlog ep s = SOk (endpoint_error ep, s') /\ same_base s s'
  /\ exists l, acceptors_ s' = acceptors_ s ++ l
     /\ Forall2 (accepts_endpoint (nservices s)) (filter (fun ep => endpoint_error ep = 0) [ep]) l.
Proof.
  intros Hp Ht. unfold try_endpoint, endpoint_error.
  destruct (get_io_service_ok s Hp) as (p & -> & Hp' & Es & Ew & Ef). cbn [mbind sres_bind].
  assert (forall l, same_base s (set_acceptors l (set_pool p s))) as Hb by (intros l; by repeat split).
  assert (same_base s (set_pool p s)) as Hb0 by (by repeat split). unfold filter. cbn [list_filter].
  destruct (Z.eqb_spec (ep_open ep) 0) as [E1|E1]; cbn [negb].
  2:{ rewrite decide_False by done. eexists. split; [done|split; [done|]]. exists []. by rewrite app_nil_r. }
  destruct (Z.eqb_spec (ep_option ep) 0) as [E0|E0]; cbn [negb]; [|by destruct Ht].
  destruct (Z.eqb_spec (ep_bind ep) 0) as [E2|E2]; cbn [negb].
  2:{ rewrite decide_False by done. eexists. split; [done|split; [done|]]. exists []. by rewrite app_nil_r. }
  destruct (Z.eqb_spec (ep_listen ep) 0) as [E3|E3]; cbn [negb].
  2:{ rewrite decide_False by done. eexists. split; [done|split; [done|]]. exists []. by rewrite app_nil_r. }
  rewrite decide_True by done. rewrite E3. eexists. split; [done|split; [done|]]. eexists. split; [done|].
  apply Forall2_cons_2; [|by apply Forall2_nil_2]. by repeat split.
Qed.

Lemma same_base_trans s1 s2 s3 : same_base s1 s2 -> same_base s2 s3 -> same_base s1 s3.
Proof. intros (? & ? & ? & ? & ? & ?) (? & ? & ? & ? & ? & ?). repeat split; congruence. Qed.

Lemma try_endpoints_throws eps ec s : io_service_pool.pool_ok (io_service_pool_ s) -> Exists endpoint_throws eps ->
  try_endpoints max_connections backlog eps ec s = SFail socket_exception.
Proof.
  revert ec s. induction eps as [|ep eps IH]; intros ec s Hp He; [by inversion He|]. cbn [try_endpoints].
  destruct (decide (endpoint_throws ep)) as [Ht|Ht]; [by rewrite try_endpoint_throws|].
  destruct (try_endpoint_spec ep s Hp Ht) as (s1 & -> & Hb1 & _). cbn [mbind sres_bind]. apply IH; [apply Hb1|].
  by apply Exists_cons in He as [?|?].
Qed.

Lemma try_endpoints_spec eps ec s : io_service_pool.pool_ok (io_service_pool_ s) -> Forall (fun ep => ~ endpoint_throws ep) eps ->
  exists s', try_endpoints max_connections backlog eps ec s = SOk (default ec (last (map endpoint_error eps)), s') /\ same_base s s'
  /\ exists l, acceptors_ s' = acceptors_ s ++ l
     /\ Forall2 (accepts_endpoint (nservices s)) (filter (fun ep => endpoint_error ep = 0) eps) l.
Proof.
  revert ec s. induction eps as [|ep eps IH]; intros ec s Hp Ht; cbn [try_endpoints].
  { exists s. split; [done|split; [by repeat split|]]. exists []. rewrite app_nil_r. split; [done|by apply Forall2_nil_2]. }
  apply Forall_cons in Ht as [Ht0 Ht]. destruct (try_endpoint_spec ep s Hp Ht0) as (s1 & -> & Hb1 & l1 & Ea1 & Hl1). cbn [mbind sres_bind].
  destruct (IH (endpoint_error ep) s1 (proj1 Hb1) Ht) as (s2 & -> & Hb2 & l2 & Ea2 & Hl2). exists s2. split; [|split; [by eapply same_base_trans|]].
  - cbn [map]. rewrite last_cons. by destruct (last (map endpoint_error eps)).
  - exists (l1 ++ l2). rewrite Ea2, Ea1, app_assoc. split; [done|].
    change (ep :: eps) with ([ep] ++ eps). rewrite filter_app. apply Forall2_app; [done|].
    unfold nservices in *. destruct Hb1 as (_ & _ & _ & E & _). by rewrite E in Hl2.
Qed.

(** What [bind_and_listen] returns, for a server that does not listen yet: the
    error of the resolver; otherwise an exception when the option of one of the
    opened endpoints cannot be set; otherwise success when at least one of the
    endpoints could be opened, bound and listened on, and the error of the last
    endpoint when none could.  There is one open acceptor per endpoint that worked,
    in order, with its port, the backlog asked for ([-1] stands for the maximum) and
    a service of the pool. *)
Theorem bind_and_listen_spec (rec : Z) (eps : list endpoint) (s : server)
    (Hpool : io_service_pool.pool_ok (io_service_pool_ s)) (Hnew : acceptors_ s = []) :
  let good := filter (fun ep => endpoint_error ep = 0) eps in
  match bind_and_listen max_connections backlog (rec, eps) s with
  | SFail e => e = socket_exception /\ rec = 0 /\ Exists endpoint_throws eps
  | SOk (ec, s') =>
    ec = (if rec =? 0 then if (length good =? 0)%nat then default 0 (last (map endpoint_error eps)) else 0 else rec)
    /\ (rec = 0 -> Forall (fun ep => ~ endpoint_throws ep) eps)
    /\ same_base s s' /\ Forall2 (accepts_endpoint (nservices s)) (if rec =? 0 then good else []) (acceptors_ s')
  end.
Proof.
  intros good. unfold bind_and_listen. destruct (get_io_service_ok s Hpool) as (p & -> & Hp' & Es & Ew & Ef). cbn [mbind sres_bind fst snd].
  assert (same_base s (set_pool p s)) as Hb0 by (by repeat split).
  destruct (Z.eqb_spec rec 0) as [Hrec|Hrec]; cbn [negb].
  2:{ split; [done|split; [done|split; [done|]]]. cbn. rewrite Hnew. by apply Forall2_nil_2. }
  destruct (decide (Exists endpoint_throws eps)) as [He|He].
  { by rewrite (try_endpoints_throws eps 0 (set_pool p s) Hp' He). }
  apply not_Exists_Forall in He; [|intros ep; apply _].
  destruct (try_endpoints_spec eps 0 (set_pool p s) Hp' He) as (s' & -> & Hb & l & El & Hl). cbn [mbind sres_bind].
  cbn [acceptors_ set_pool] in El. rewrite Hnew in El. cbn [app] in El. rewrite El.
  unfold nservices in Hl. cbn [io_service_pool_ set_pool] in Hl. rewrite Es in Hl.
  rewrite <- (Forall2_length _ _ _ Hl). fold good.
  destruct (length good =? 0)%nat; (split; [done|split; [done|rewrite El; split; [by eapply same_base_trans|done]]]).
Qed.

End listening_props.

Lemma bind_and_listen_spec_witness :
  exists s s', new_server 2 10 60 = Some s
    /\ bind_and_listen 4096 (-1) (0, [mk_endpoint 97 0 0 0 0; mk_endpoint 0 0 0 0 80; mk_endpoint 0 0 98 0 0]) s = SOk (0, s')
    /\ same_base s s' /\ Forall2 (accepts_endpoint 4096 (-1) 2) [mk_endpoint 0 0 0 0 80] (acceptors_ s').
Proof.
  set (s0 := mk_server (io_service_pool.mk_pool [false; false] [0; 1]%nat 0 []) [] 10 60 [] []).
  pose proof (bind_and_listen_spec 4096 (-1) 0 [mk_endpoint 97 0 0 0 0; mk_endpoint 0 0 0 0 80; mk_endpoint 0 0 98 0 0] s0
    ltac:(unfold io_service_pool.pool_ok; cbn; lia) eq_refl) as H.
  cbv beta zeta in H. destruct (bind_and_listen 4096 (-1) (0, [mk_endpoint 97 0 0 0 0; mk_endpoint 0 0 0 0 80; mk_endpoint 0 0 98 0 0]) s0)
    as [[ec s']|e] eqn:E; [|vm_compute in E; discriminate].
  destruct H as (Eec & _ & Hb & Hf).
  exists s0, s'. split; [reflexivity|]. split; [rewrite E, Eec; reflexivity|]. split; [exact Hb|exact Hf].
Defined.

(** ** What the steps leave alone *)

Definition kept (s s' : server) : Prop :=
  io_service_pool.io_services_ (io_service_pool_ s') = io_service_pool.io_services_ (io_service_pool_ s)
  /\ io_service_pool.futures_ (io_service_pool_ s') = io_service_pool.futures_ (io_service_pool_ s)
  /\ length (acceptors_ s') = length (acceptors_ s).

Lemma kept_trans s1 s2 s3 : kept s1 s2 -> kept s2 s3 -> kept s1 s3.
Proof. intros (? & ? & ?) (? & ? & ?). repeat split; congruence. Qed.

Lemma start_accept_kept i s : io_service_pool.pool_ok (io_service_pool_ s) -> forall s', start_accept i s = SOk s' -> kept s s'.
Proof.
  intros Hp s'. unfold start_accept. destruct (acceptors_ s !! i) as [a|]; [|done]. case_match; [by intros [= <-]|].
  destruct (get_io_service_ok s Hp) as (p & -> & _ & Es & _ & Ef). cbn. intros [= <-]. repeat split; cbn; [done|done|].
  by rewrite length_insert.
Qed.

(** Only [stop] takes the work of the pool away. *)
Definition same_work (s s' : server) : Prop := io_service_pool.work_ (io_service_pool_ s') = io_service_pool.work_ (io_service_pool_ s).

Lemma start_accept_work i s s' : io_service_pool.pool_ok (io_service_pool_ s) -> start_accept i s = SOk s' -> same_work s s'.
Proof.
  intros Hp. unfold start_accept. destruct (acceptors_ s !! i) as [a|]; [|done]. case_match; [by intros [= <-]|].
  destruct (get_io_service_ok s Hp) as (p & -> & _ & _ & Ew & _). cbn. by intros [= <-].
Qed.

(** [stop] closes acceptors and leaves the rest of them alone. *)
Definition maybe_closed (a b : acceptor) : Prop :=
  ac_service b = ac_service a /\ ac_accepts b = ac_accepts a /\ (ac_open b = true -> ac_open a = true).

Lemma close_acceptors_spec errs l :
  Forall2 maybe_closed l (close_acceptors errs l).2
  /\ (Forall (fun e => e = 0) errs -> close_acceptors errs l = (None, map close l)).
Proof.
  assert (forall a, maybe_closed a (close a)) as Hcl by (by intros a).
  assert (forall l, Forall2 maybe_closed l l) as Hrefl by (intros l'; apply Forall_Forall2_diag, Forall_true; by intros a).
  revert errs. induction l as [|a l IH]; intros errs; cbn [close_acceptors]; [by split; [constructor|]|].
  destruct (IH (tail errs)) as [IH1 IH2].
  set (e := if ac_open a then default 0 (head errs) else 0). destruct (Z.eqb_spec e 0) as [E|E]; cbn [negb].
  - destruct (close_acceptors (tail errs) l) as [r l'] eqn:El. cbn [snd] in *. split; [by constructor|]. intros He.
    assert (Forall (fun e => e = 0) (tail errs)) as He' by (destruct He; [by constructor|done]).
    specialize (IH2 He'). by injection IH2 as -> ->.
  - split; [by constructor|]. intros He. destruct E. unfold e. destruct (ac_open a); [|done]. by destruct He.
Qed.

(** ** The invariant *)

(** The events of connection [k], and the streams they open. *)
Definition conn_events (k : nat) (evs : list sevent) : list cevent :=
  omap (fun e => match e with se_conn k' e => if (k' =? k)%nat then Some e else None | _ => None end) evs.

Definition conn_ids (k : nat) (evs : list sevent) : list Z := concat (map cev_ids (conn_events k evs)).

Definition strace_ok (evs : list sevent) : Prop := forall k, conn_trace_ok (conn_events k evs).

(** An accepted connection whose option cannot be set. *)
Definition accept_throws (e : sevent) : Prop :=
  match e with se_accept _ false no_delay _ _ _ _ _ _ => no_delay <> 0 | _ => False end.

Section sprops.
Context {Lib : Nghttp2} {Laws : Nghttp2Laws} (mux_ : serve_mux.mux) (Hmux : serve_mux.app_mux mux_) {Ap : App}.

Definition phase_ok (ids : list Z) (ph : phase) : Prop :=
  match ph with accepting => True | handshaking c => waiting c | running c => CInv ids c end.

(** [todo] are the acceptors whose next [async_accept] is still to be started. *)
Record SInv (past : list sevent) (todo : list nat) (s : server) : Prop := {
  si_pool : io_service_pool.pool_ok (io_service_pool_ s);
  si_services : Forall (fun a => ac_service a < nservices s)%nat (acceptors_ s)
    /\ Forall (fun c => sc_service c < nservices s)%nat (conns s);
  si_accepts : forall i a, acceptors_ s !! i = Some a ->
    if decide (i ∈ todo) then ac_accepts a = []
    else (length (ac_accepts a) <= 1)%nat /\ (ac_open a = true -> ac_service a ∉ dead s -> length (ac_accepts a) = 1)%nat;
  si_accepting : forall i a k, acceptors_ s !! i = Some a -> k ∈ ac_accepts a -> sc_phase <$> conns s !! k = Some accepting;
  si_distinct : forall i j a b k, acceptors_ s !! i = Some a -> acceptors_ s !! j = Some b ->
    k ∈ ac_accepts a -> k ∈ ac_accepts b -> i = j;
  si_conns : forall k c, conns s !! k = Some c -> phase_ok (conn_ids k past) (sc_phase c);
  si_dead : Forall (fun i => i < nservices s)%nat (dead s) /\ (dead s <> [] -> Exists accept_throws past);
}.

Definition swp (r : sres server) (Q : server -> Prop) : Prop :=
  match r with SOk s => Q s | SFail e => e = dangling_stream end.

Lemma swp_bind m k Q : swp m (fun s => swp (k s) Q) -> swp (m ≫= k) Q.
Proof. by destruct m. Qed.

Lemma swp_mono m (Q R : server -> Prop) : swp m Q -> (forall s, Q s -> R s) -> swp m R.
Proof. destruct m; cbn; auto. Qed.

Lemma phase_ok_mono ids ids' ph : phase_ok ids ph -> phase_ok (ids ++ ids') ph.
Proof. destruct ph; cbn; [done..|]. apply CInv_mono. Qed.

Lemma accept_in s i a k : acceptors_ s !! i = Some a -> k ∈ ac_accepts a ->
  (forall i a k, acceptors_ s !! i = Some a -> k ∈ ac_accepts a -> sc_phase <$> conns s !! k = Some accepting) ->
  (k < length (conns s))%nat.
Proof.
  intros Ha Hk H. specialize (H i a k Ha Hk). destruct (conns s !! k) eqn:E; [|done]. by eapply lookup_lt_Some.
Qed.

(** The next [async_accept] of an open acceptor. *)
Lemma start_accept_inv past i todo s :
  SInv past (i :: todo) s -> i ∉ todo -> (i < length (acceptors_ s))%nat -> swp (start_accept i s) (SInv past todo).
Proof.
  intros [Hp [Hs1 Hs2] Ha Hk Hd Hc Hx] Hi Hlt. unfold start_accept. destruct (lookup_lt_is_Some_2 _ _ Hlt) as [a Ea]. rewrite Ea.
  pose proof (Ha _ _ Ea) as Hai. rewrite decide_True in Hai by by left.
  destruct (ac_open a) eqn:Eo; cbn [negb].
  2:{ split; try done. intros j b Eb. specialize (Ha _ _ Eb). destruct (decide (j = i)) as [->|Hne].
      - assert (b = a) as -> by congruence. rewrite Hai, Eo. rewrite decide_False by done. by cbn; split; [lia|].
      - destruct (decide (j ∈ todo)) as [Hin|Hin]; [by rewrite decide_True in Ha by by right|].
        by rewrite decide_False in Ha by (by intros [?|?]%elem_of_cons). }
  destruct (get_io_service_ok s Hp) as (p & -> & Hp' & Es & _). cbn [mbind sres_bind swp].
  assert (Hn : forall s', io_service_pool_ s' = p -> nservices s' = nservices s) by (intros s' <-; unfold nservices; by rewrite Es).
  rewrite Hai. cbn [app]. split; cbn [io_service_pool_ acceptors_ conns set_acceptors set_conns set_pool].
  - done.
  - rewrite !Hn by done. split; [apply Forall_insert; [done|]|apply Forall_app; split; [done|]].
    + rewrite Forall_lookup in Hs1. exact (Hs1 i a Ea).
    + by apply Forall_cons_2; [exact Hp|constructor].
  - intros j b [[<- [<- _]]|[Hne Eb]]%list_lookup_insert_Some.
    + rewrite decide_False by done. by cbn; split; [lia|].
    + specialize (Ha _ _ Eb). destruct (decide (j ∈ todo)) as [Hin|Hin]; [by rewrite decide_True in Ha by by right|].
      by rewrite decide_False in Ha by (by intros [?|?]%elem_of_cons).
  - intros j b k [[<- [<- _]]|[Hne Eb]]%list_lookup_insert_Some Hkb.
    + cbn in Hkb. apply list_elem_of_singleton in Hkb as ->. by rewrite lookup_app_r, Nat.sub_diag by lia.
    + pose proof (accept_in s j b k Eb Hkb Hk) as Hlk. rewrite lookup_app_l by done. by eapply Hk.
  - intros j j' b b' k Ej Ej' Hkb Hkb'.
    assert (Hnew : forall j b k, acceptors_ s !! j = Some b -> k ∈ ac_accepts b -> k <> length (conns s)).
    { intros j0 b0 k0 E0 H0 ->. pose proof (accept_in s _ _ _ E0 H0 Hk). lia. }
    apply list_lookup_insert_Some in Ej as [[<- [<- _]]|[Hne Ej]], Ej' as [[<- [<- _]]|[Hne' Ej']]; [done| | |by eapply Hd].
    + cbn in Hkb. apply list_elem_of_singleton in Hkb as ->. by destruct (Hnew _ _ _ Ej' Hkb').
    + cbn in Hkb'. apply list_elem_of_singleton in Hkb' as ->. by destruct (Hnew _ _ _ Ej Hkb).
  - intros k c [E|[Hk' E]]%lookup_app_Some; [by apply Hc|]. apply list_lookup_singleton_Some in E as [_ <-]. done.
  - rewrite Hn by done. exact Hx.
Qed.

(** A connection that no acceptor waits for changes its phase. *)
Lemma set_phase_inv past todo s k c0 ph :
  SInv past todo s -> conns s !! k = Some c0 -> (forall i a, acceptors_ s !! i = Some a -> k ∉ ac_accepts a) ->
  phase_ok (conn_ids k past) ph -> SInv past todo (set_phase k ph s).
Proof.
  intros [Hp [Hs1 Hs2] Ha Hk Hd Hc Hx] E Hno Hph. split; cbn [io_service_pool_ acceptors_ conns set_conns set_phase]; try done.
  - split; [done|]. apply Forall_lookup. intros j c Ej. rewrite Forall_lookup in Hs2.
    destruct (decide (j = k)) as [->|Hne].
    + rewrite list_lookup_alter_eq, E in Ej. injection Ej as <-. exact (Hs2 k c0 E).
    + rewrite list_lookup_alter_ne in Ej by done. by apply (Hs2 j).
  - intros i a j Ea Hj. rewrite list_lookup_alter_ne by (intros ->; by eapply Hno). by eapply Hk.
  - intros j c Ej. destruct (decide (j = k)) as [->|Hne].
    + rewrite list_lookup_alter_eq, E in Ej. injection Ej as <-. done.
    + rewrite list_lookup_alter_ne in Ej by done. by apply Hc.
Qed.

Lemma conn_ids_app k l1 l2 : conn_ids k (l1 ++ l2) = conn_ids k l1 ++ conn_ids k l2.
Proof. unfold conn_ids, conn_events. by rewrite omap_app, map_app, concat_app. Qed.

Lemma SInv_mono past l todo s : SInv past todo s -> SInv (past ++ l) todo s.
Proof.
  intros [Hp Hs Ha Hk Hd Hc [Hx1 Hx2]]. split; try done.
  - intros k c E. rewrite conn_ids_app. apply phase_ok_mono. by apply Hc.
  - split; [done|]. intros Hne. apply Exists_app. left. by apply Hx2.
Qed.

(** The handler of a pending [async_accept] begins. *)
Lemma accept_taken past s i a k ks :
  SInv past [] s -> acceptors_ s !! i = Some a -> ac_accepts a = k :: ks ->
  let s1 := set_acceptors (<[i := set_accepts ks a]> (acceptors_ s)) s in
  SInv past [i] s1 /\ (forall j b, acceptors_ s1 !! j = Some b -> k ∉ ac_accepts b) /\ is_Some (conns s !! k).
Proof.
  intros [Hp [Hs1 Hs2] Ha Hk Hd Hc Hx] Ea Ek s1. pose proof (Ha _ _ Ea) as [Hl _]. rewrite Ek in Hl.
  destruct ks; [|cbn in Hl; lia]. assert (Hin : k ∈ ac_accepts a) by (rewrite Ek; by left).
  assert (Hsub : forall j b, acceptors_ s1 !! j = Some b ->
    (j = i /\ b = set_accepts [] a) \/ (j <> i /\ acceptors_ s !! j = Some b)).
  { intros j b [[<- [<- _]]|[Hne E]]%list_lookup_insert_Some; [by left|right]. by split. }
  split; [|split].
  - split; try done.
    + split; [apply Forall_insert; [done|]|done]. rewrite Forall_lookup in Hs1. exact (Hs1 i a Ea).
    + intros j b [[-> ->]|[Hne E]]%Hsub; [by rewrite decide_True by by left|].
      rewrite decide_False by (by intros ->%list_elem_of_singleton). by apply (Ha j).
    + intros j b k' [[-> ->]|[Hne E]]%Hsub Hk'; [by apply elem_of_nil in Hk'|]. by eapply Hk.
    + intros j j' b b' k' [[-> ->]|[Hne E]]%Hsub [[-> ->]|[Hne' E']]%Hsub Hb Hb';
        try (by apply elem_of_nil in Hb); try (by apply elem_of_nil in Hb'). by eapply Hd.
  - intros j b [[-> ->]|[Hne E]]%Hsub Hb; [by apply elem_of_nil in Hb|]. apply Hne. by eapply Hd.
  - specialize (Hk _ _ _ Ea Hin). by destruct (conns s !! k).
Qed.

Lemma on_conn_inv past todo s k c0 r :
  SInv past todo s -> conns s !! k = Some c0 -> (forall i a, acceptors_ s !! i = Some a -> k ∉ ac_accepts a) ->
  cwp r (CInv (conn_ids k past)) ->
  swp (on_conn k r s) (fun s' => SInv past todo s' /\ acceptors_ s' = acceptors_ s).
Proof.
  intros HS E Hno Hr. destruct r as [c|e]; [|done]. cbn. split; [|done]. by eapply set_phase_inv.
Qed.

(** An exception in the handler of an acceptor, before the next [async_accept]. *)
Lemma kill_inv past i a s :
  SInv past [i] s -> acceptors_ s !! i = Some a -> Exists accept_throws past -> SInv past [] (kill (ac_service a) s).
Proof.
  intros [Hp [Hs1 Hs2] Ha Hk Hd Hc [Hx1 _]] Ea Hth. split; try done.
  - intros j b Eb. rewrite decide_False by (by intros ?%elem_of_nil). specialize (Ha j b Eb). cbn [dead kill].
    destruct (decide (j = i)) as [->|Hne].
    + rewrite decide_True in Ha by by left. rewrite Ha. split; [cbn; lia|]. intros _ Hn. destruct Hn.
      assert (b = a) as -> by (cbn in Eb; congruence). by left.
    + rewrite decide_False in Ha by (by intros ->%list_elem_of_singleton). split; [apply Ha|]. intros Ho Hn.
      apply Ha; [done|]. intros Hin. apply Hn. by right.
  - split; [|done]. apply Forall_cons. split; [|done]. rewrite Forall_lookup in Hs1. exact (Hs1 i a Ea).
Qed.

Lemma accept_handler_inv past is_tls i k e no_delay now rv1 rv2 ep t date s :
  SInv past [i] s -> (i < length (acceptors_ s))%nat ->
  (forall j b, acceptors_ s !! j = Some b -> k ∉ ac_accepts b) -> is_Some (conns s !! k) ->
  (e = false -> no_delay <> 0 -> Exists accept_throws past) ->
  swp (accept_handler is_tls i k e no_delay now rv1 rv2 ep t date s) (SInv past []).
Proof.
  intros HS Hi Hno [c0 E] Hth. assert (Hstart : forall s', SInv past [i] s' -> acceptors_ s' = acceptors_ s -> swp (start_accept i s') (SInv past [])).
  { intros s' HS' Es. apply start_accept_inv; [done|by intros ?%elem_of_nil|by rewrite Es]. }
  unfold accept_handler. destruct (negb e && negb (no_delay =? 0)) eqn:Eth.
  { apply andb_true_iff in Eth as [->%negb_true_iff Hn%negb_true_iff%Z.eqb_neq]. destruct (lookup_lt_is_Some_2 _ _ Hi) as [a Ea]. rewrite Ea.
    eapply kill_inv; [done|done|]. by apply Hth. }
  destruct is_tls.
  - destruct e; [by apply Hstart|]. apply Hstart; [|done]. eapply set_phase_inv; [done|done|done|]. apply waiting_new.
  - apply swp_bind. eapply swp_mono with (Q := fun s' => SInv past [i] s' /\ acceptors_ s' = acceptors_ s).
    + destruct e; [done|]. eapply on_conn_inv; [done|done|done|].
      pose proof (start_inv (read_timeout_ s) rv1 rv2 now ep t date _ (waiting_new (now + read_timeout_ s))) as Hs.
      unfold cwp in *. unfold start_read_deadline. cbn [set_deadline waits new_connection] in *.
      destruct (start_connection _ _ _ _ _ _ _); [|done]. by apply (CInv_mono []).
    + intros s' [HS' Es]. rewrite Es. destruct (lookup_lt_is_Some_2 _ _ Hi) as [a Ea]. rewrite Ea.
      destruct (ac_open a) eqn:Eo; [by apply Hstart|]. specialize (Hstart s' HS' Es). unfold start_accept in Hstart.
      by rewrite Es, Ea, Eo in Hstart.
Qed.

(** A connection past its acceptance is in no queue. *)
Lemma not_accepting past s k c : SInv past [] s -> conns s !! k = Some c -> sc_phase c <> accepting ->
  forall i a, acceptors_ s !! i = Some a -> k ∉ ac_accepts a.
Proof. intros HS E Hne i a Ea Hk. pose proof (si_accepting _ _ _ HS _ _ _ Ea Hk) as H. rewrite E in H. by injection H. Qed.

(** What [stop] does to the acceptors. *)
Lemma closes_inv past errs s :
  SInv past [] s -> SInv past [] (set_acceptors (close_acceptors errs (acceptors_ s)).2 s).
Proof.
  intros [Hp [Hs1 Hs2] Ha Hk Hd Hc Hx]. pose proof (close_acceptors_spec errs (acceptors_ s)) as [Hl _].
  set (l := (close_acceptors errs (acceptors_ s)).2) in *.
  assert (forall i b, l !! i = Some b -> exists a, acceptors_ s !! i = Some a /\ maybe_closed a b) as Hof.
  { intros i b Eb. by destruct (Forall2_lookup_r _ _ _ _ _ Hl Eb) as (a & ? & ?); exists a. }
  split; cbn [io_service_pool_ acceptors_ conns dead set_acceptors]; try done.
  - split; [|done]. apply Forall_lookup. intros i b (a & Ea & (-> & _))%Hof. rewrite Forall_lookup in Hs1. exact (Hs1 i a Ea).
  - intros i b (a & Ea & (Es & Eacc & Ho))%Hof. specialize (Ha i a Ea). rewrite decide_False in Ha |- * by (by intros ?%elem_of_nil).
    rewrite Es, Eacc. split; [apply Ha|]. intros ?%Ho. by apply Ha.
  - intros i b k (a & Ea & (_ & Eacc & _))%Hof. rewrite Eacc. by apply (Hk i a k).
  - intros i j b b' k (a & Ea & (_ & Eacc & _))%Hof (a' & Ea' & (_ & Eacc' & _))%Hof. rewrite Eacc, Eacc'. by apply (Hd i j a a' k).
Qed.

Lemma set_pool_inv past todo s : SInv past todo s -> SInv past todo (set_pool (io_service_pool.stop (io_service_pool_ s)) s).
Proof. intros [Hp Hs Ha Hk Hd Hc Hx]. by split. Qed.

(** The event is acceptable to the connection it is about. *)
Definition sev_ok (past : list sevent) (e : sevent) : Prop :=
  forall k, Forall cev_ok (conn_events k [e]) /\ new_ids (conn_ids k past) (conn_ids k [e]).

Lemma run_sevent_inv past is_tls e s :
  SInv past [] s -> sev_ok past e -> swp (run_sevent mux_ is_tls e s) (SInv (past ++ [e]) []).
Proof.
  intros HS He. pose proof (SInv_mono past [e] [] s HS) as HS'.
  destruct e as [i e no_delay now rv1 rv2 ep t date|k e npn alpn rv1 rv2 now ep t date|k e|errs]; cbn [run_sevent].
  - destruct (acceptors_ s !! i) as [a|] eqn:Ea; [|done]. destruct (ac_accepts a) as [|k ks] eqn:Ek; [done|].
    case_match; [|done]. destruct (accept_taken _ s i a k ks HS' Ea Ek) as (H1 & H2 & H3).
    apply accept_handler_inv; [done| |done|done|intros -> Hn; apply Exists_app; right; by apply Exists_cons_hd].
    cbn. rewrite length_insert. by eapply lookup_lt_Some.
  - destruct (conns s !! k) as [[svc ph]|] eqn:E; [|done]. destruct ph as [|c'|c'] eqn:Ep; try done. case_match; [|done].
    eapply swp_mono; [eapply on_conn_inv; [exact HS'|done|by eapply (not_accepting _ _ k _ HS')|]|by intros s' [? _]].
    pose proof (si_conns _ _ _ HS _ _ E) as Hc. cbn in Hc.
    pose proof (handshake_inv (read_timeout_ s) e npn alpn rv1 rv2 now ep t date c' Hc) as Hh. unfold cwp in *.
    destruct (handshake_handler _ _ _ _ _ _ _ _ _ _); [|done]. by apply (CInv_mono []).
  - destruct (conns s !! k) as [[svc ph]|] eqn:E; [|done]. pose proof (si_conns _ _ _ HS _ _ E) as Hc. cbn in Hc.
    destruct ph as [|c'|c'] eqn:Ep; [done| |].
    + destruct e; try done. case_match; [|done]. eapply set_phase_inv; [exact HS'|done|by eapply (not_accepting _ _ k _ HS')|].
      apply (tick_waiting [now]). exact Hc.
    + case_match; [|done].
      eapply swp_mono; [eapply on_conn_inv; [exact HS'|done|by eapply (not_accepting _ _ k _ HS')|]|by intros s' [? _]].
      destruct (He k) as [He1 He2]. rewrite conn_ids_app. unfold conn_ids, conn_events in He1, He2 |- *. cbn [omap list_omap] in He1, He2 |- *.
      rewrite Nat.eqb_refl in *. cbn [map concat] in *. rewrite app_nil_r in *. apply Forall_cons in He1 as [He1 _].
      by apply run_cevent_inv.
  - cbn. unfold stop. destruct (close_acceptors errs (acceptors_ s)) as [[e|] l] eqn:El; cbn [snd];
      pose proof (closes_inv _ errs _ HS') as HS1; rewrite El in HS1; [done|]. exact (set_pool_inv _ _ _ HS1).
Qed.

Lemma run_server_inv past is_tls evs s :
  SInv past [] s -> strace_ok (past ++ evs) -> swp (run_server mux_ is_tls evs s) (SInv (past ++ evs) []).
Proof.
  revert past s. induction evs as [|e evs IH]; intros past s HS Ht; cbn [run_server]; [by rewrite app_nil_r|].
  apply swp_bind. eapply swp_mono; [apply (run_sevent_inv past); [done|]|].
  - intros k. destruct (Ht k) as [H1 H2]. unfold conn_events in H1, H2. fold (conn_ids k (past ++ e :: evs)) in H2.
    change (e :: evs) with ([e] ++ evs) in *. rewrite !omap_app in H1. apply Forall_app in H1 as [_ H1]. apply Forall_app in H1 as [H1 _].
    split; [done|]. change (concat _) with (conn_ids k (past ++ [e] ++ evs)) in H2. rewrite !conn_ids_app in H2.
    apply NoDup_app in H2 as (_ & Hd & H2). apply NoDup_app in H2 as (H2 & _ & _). split; [done|].
    apply Forall_forall. intros id Hid Hin. apply (Hd _ Hin), elem_of_app. by left.
  - intros s' HS'. rewrite cons_middle, app_assoc. apply IH; [done|by rewrite <- app_assoc].
Qed.

(** ** From the constructor *)

Lemma start_accepts_inv n i s :
  SInv [] (seq i n) s -> (i + n <= length (acceptors_ s))%nat ->
  swp (start_accepts n i s) (fun s' => SInv [] [] s' /\ kept s s' /\ same_work s s').
Proof.
  revert i s. induction n as [|n IH]; intros i s HS Hl; cbn [start_accepts seq] in *; [done|].
  apply swp_bind. pose proof (start_accept_inv [] i (seq (S i) n) s HS) as H1.
  pose proof (start_accept_kept i s) as H2. pose proof (start_accept_work i s) as H3. destruct (start_accept i s) as [s'|e].
  - cbn in *. specialize (H2 (si_pool _ _ _ HS) s' eq_refl). specialize (H3 s' (si_pool _ _ _ HS) eq_refl). eapply swp_mono; [apply IH|].
    + apply H1; [|lia]. rewrite elem_of_seq. lia.
    + destruct H2 as (_ & _ & ->). lia.
    + intros s'' (HS'' & Hk & Hw). split; [done|]. split; [by eapply kept_trans|]. unfold same_work in *. congruence.
  - apply H1; [|lia]. rewrite elem_of_seq. lia.
Qed.

(** After a successful [listen_and_serve], every acceptor waits for a connection. *)
Lemma listen_inv max_connections n ht rt backlog resolved s0 s :
  new_server n ht rt = Some s0 -> listen_and_serve max_connections backlog resolved s0 = SOk (0, s) ->
  SInv [] [] s /\ nservices s = n
  /\ io_service_pool.futures_ (io_service_pool_ s) = map Some (seq 0 n)
  /\ io_service_pool.work_ (io_service_pool_ s) = seq 0 n /\ io_service_pool.io_services_ (io_service_pool_ s) = replicate n false.
Proof.
  unfold new_server, io_service_pool.new_pool. destruct (Nat.eqb_spec n 0) as [|Hn]; [done|]. intros [= <-].
  set (s0 := mk_server _ _ _ _ _ _). assert (io_service_pool.pool_ok (io_service_pool_ s0)) as Hp0.
  { unfold io_service_pool.pool_ok. cbn. rewrite length_replicate. lia. }
  assert (nservices s0 = n) as En by (unfold nservices; cbn; by rewrite length_replicate).
  destruct resolved as [rec eps]. unfold listen_and_serve.
  pose proof (bind_and_listen_spec max_connections backlog rec eps s0 Hp0 eq_refl) as Hb. cbv zeta in Hb.
  destruct (bind_and_listen _ _ _ s0) as [[ec s1]|]; [|done]. destruct Hb as (_ & _ & (Hp1 & Hc1 & Hd1 & Es1 & Ew1 & Ef1) & Hf).
  cbn [mbind sres_bind]. destruct (Z.eqb_spec ec 0) as [Eec|Eec]; cbn [negb]; [|by intros [= ? ?]].
  assert (nservices s1 = n) as En1 by (unfold nservices; by rewrite Es1).
  assert (SInv [] (seq 0 (length (acceptors_ s1))) s1) as HS1.
  { assert (forall i a, acceptors_ s1 !! i = Some a -> (ac_service a < n)%nat /\ ac_accepts a = []) as Hac.
    { intros i a Ea. destruct (Forall2_lookup_r _ _ _ _ _ Hf Ea) as (ep & _ & H1 & _ & _ & _ & H2). by rewrite En in H1. }
    split; try done.
    - rewrite En1, Hc1. split; [|constructor]. apply Forall_lookup. intros i a Ea. by eapply Hac.
    - intros i a Ea. rewrite decide_True by (rewrite elem_of_seq; apply lookup_lt_Some in Ea; lia). by eapply Hac.
    - intros i a k Ea. destruct (Hac _ _ Ea) as [_ ->]. by intros ?%elem_of_nil.
    - intros i j a b k Ea _ Hk. destruct (Hac _ _ Ea) as [_ E]. rewrite E in Hk. by apply elem_of_nil in Hk.
    - rewrite Hc1. intros k c Ek. cbn in Ek. by rewrite lookup_nil in Ek.
    - rewrite Hd1. by split. }
  pose proof (start_accepts_inv (length (acceptors_ s1)) 0 s1 HS1 (le_n _)) as Hst.
  destruct (start_accepts _ _ s1) as [s2|]; [|done]. cbn [mbind sres_bind swp] in *. intros [= <-].
  destruct Hst as ([Hp2 Hs2 Ha2 Hk2 Hd2 Hc2 Hx2] & (E1 & E2 & _) & Ew2).
  unfold nservices, same_work in *. split; [by split|]. cbn. rewrite E2, E1, Ef1, Ew2, Ew1, Es1. cbn. rewrite length_replicate. by repeat split.
Qed.

End sprops.

(** ** Stopping *)

(** The completions with which everything that is pending for a connection ends
    once its deadline has passed: the timer closes the socket, the handshake and the
    reads and writes on it fail, a posted write runs. *)
Definition closing_events (later : Z) : list cevent :=
  [ce_timer later; ce_read true [] 0 [] false false later; ce_write true [] false later; ce_post [] false later;
   ce_write true [] false later].

Definition closing_conn (later : Z) (k : nat) : list sevent :=
  se_conn k (ce_timer later) :: se_handshake k true None None 0 0 later no_endpoint 0 [] :: map (se_conn k) (closing_events later).

(** Of the whole server: the pending [async_accept]s fail, too. *)
Definition closing_server (later : Z) (s : server) : list sevent :=
  map (fun i => se_accept i true 0 later 0 0 no_endpoint 0 []) (seq 0 (length (acceptors_ s)))
  ++ concat (map (closing_conn later) (seq 0 (length (conns s)))).

Definition expired (later : Z) (c : connection) : Prop :=
  stopped_ c = false -> forall d, deadline_ c = Some d -> d <= later.

Definition phase_expired (later : Z) (ph : phase) : Prop :=
  match ph with accepting => True | handshaking c | running c => expired later c end.

Section closing.
Context {Lib : Nghttp2} {Laws : Nghttp2Laws} (mux_ : serve_mux.mux) {Ap : App}.

(** With nothing to send, [on_write] copies what is pending. *)
Lemma on_write_nil ids h : Top OUTBUF_SIZE ids h ->
  exists out h', on_write mux_ OUTBUF_SIZE [] h = Done (0, out, []) h' /\ posts h' = posts h.
Proof.
  intros (b & d & (Hi & _ & (Hb & Hd) & _) & Ho). cbn in Hi, Hb, Hd.
  unfold on_write, enter_callback, leave_callback, copy_pending, bind, get, assert_, modify, ret, write_loop. rewrite Hi. cbn -[OUTBUF_SIZE].
  rewrite Hb. destruct b as [n|]; cbn -[OUTBUF_SIZE].
  - cbn -[OUTBUF_SIZE] in Ho. destruct (Nat.leb_spec n OUTBUF_SIZE); [|lia]. cbn. eexists _, _. by split.
  - eexists _, _. by split.
Qed.

Lemma posts_top ids h : Top OUTBUF_SIZE ids h -> (posts h <= 1)%nat.
Proof. intros (b & d & (_ & Hp & _) & _). rewrite Hp. destruct (write_signaled h); lia. Qed.

(** The timer of a connection whose deadline has passed. *)
Lemma tick_expired ids c later : CInv ids c -> expired later c ->
  exists c', tick c later = c' /\ CInv ids c' /\ stopped_ c' = true /\ waits c' = 0%nat /\ handler_ c' = handler_ c
    /\ reads c' = reads c /\ in_flight c' = in_flight c.
Proof.
  intros HC He. destruct (ci_waits _ _ HC) as [Hw1 Hw2]. eexists. split; [done|]. unfold tick.
  destruct (stopped_ c) eqn:Es.
  - destruct (waits c) as [|[|]] eqn:Ew; [done| |lia]. pose proof (CInv_handle_deadline ids later c 0 HC Ew) as HC'.
    unfold handle_deadline in *. cbn [stopped_ set_waits] in *. by rewrite Es in *.
  - destruct (Hw2 eq_refl) as [Ew [d Ed]]. rewrite Ew. pose proof (CInv_handle_deadline ids later c 0 HC Ew) as HC'.
    unfold handle_deadline, connection.stop in *. cbn [stopped_ deadline_ set_waits] in *. rewrite Es, Ed in *.
    specialize (He Es d Ed). destruct (Z.leb_spec d later); [|lia]. done.
Qed.

(** A posted write of a stopped connection, and the failure of what it writes. *)
Lemma closing_post rt ids h w ob dl cl wi pr later : Top OUTBUF_SIZE ids h ->
  exists c', run_conn mux_ rt [ce_post [] false later; ce_write true [] false later] (mk_conn h w true ob dl 0 None 0 cl wi pr) = COk c'
    /\ conn_ops c' = 0%nat.
Proof.
  intros Htop. pose proof (posts_top _ _ Htop) as Hposts. cbn [run_conn run_cevent handler_].
  destruct (Nat.eqb_spec (posts h) 0) as [Ep|Ep].
  { cbn. eexists. split; [done|]. unfold conn_ops. cbn. by rewrite Ep. }
  set (h1 := add_write (set_signaled false (set_posts (Nat.pred (posts h)) h))).
  assert (on_handler (run_event mux_ OUTBUF_SIZE ev_post) (mk_conn h w true ob dl 0 None 0 cl wi pr)
            (fun _ c => do_write mux_ rt [] false later c) = do_write mux_ rt [] false later (mk_conn h1 w true ob dl 0 None 0 cl wi pr)) as ->.
  { unfold on_handler, run_event, bind, get, initiate_write, bind, modify. cbn [handler_].
    by destruct (Nat.eqb_spec (posts h) 0). }
  assert (posts h1 = 0%nat) as Hp1 by (cbn; lia). unfold do_write. cbn [writing_]. destruct w.
  { cbn. eexists. split; [done|]. unfold conn_ops. cbn in *. lia. }
  assert (Top OUTBUF_SIZE ids h1) as Htop1.
  { destruct Htop as (b & d & (I1 & I2 & I3 & I4) & Ho). exists b, d. by repeat split; try apply I3. }
  unfold on_handler. cbn [handler_]. destruct (on_write_nil ids h1 Htop1) as (out & h2 & -> & Hp2). cbn [Z.eqb negb].
  rewrite Hp1 in Hp2. destruct (length out =? 0)%nat; cbn; eexists; (split; [done|]); unfold conn_ops; cbn; by rewrite Hp2.
Qed.

(** The completions leave nothing pending. *)
Lemma closing_events_spec rt ids c later : CInv ids c -> expired later c ->
  exists c', run_conn mux_ rt (closing_events later) c = COk c' /\ conn_ops c' = 0%nat.
Proof.
  intros HC He. destruct (tick_expired ids c later HC He) as (c1 & E1 & HC1 & Hs1 & Hw1 & Hh1 & Hr1 & Hf1).
  assert (Et : run_cevent mux_ rt (ce_timer later) c = COk c1) by (rewrite <- E1; unfold tick; cbn; by destruct (waits c)).
  pose proof (ci_reads _ _ HC1) as Hrd. pose proof (ci_top _ _ HC1) as Htop.
  unfold closing_events. cbn [run_conn]. rewrite Et. cbn [cbind].
  destruct c1 as [h w st ob dl wa fl rd cl wi pr]. cbn [stopped_ waits reads handler_] in *. subst st wa.
  assert (run_cevent mux_ rt (ce_read true [] 0 [] false false later) (mk_conn h w true ob dl 0 fl rd cl wi pr)
          = COk (mk_conn h w true ob dl 0 fl 0 cl wi pr)) as -> by (destruct rd as [|[|]]; [done|done|lia]).
  cbn [cbind]. assert (run_cevent mux_ rt (ce_write true [] false later) (mk_conn h w true ob dl 0 fl 0 cl wi pr)
          = COk (mk_conn h w true ob dl 0 None 0 cl wi pr)) as -> by (by destruct fl).
  cbn [cbind]. apply (closing_post rt ids). done.
Qed.

Lemma run_server_app is_tls l1 l2 s :
  run_server mux_ is_tls (l1 ++ l2) s = (s' ← run_server mux_ is_tls l1 s; run_server mux_ is_tls l2 s').
Proof.
  revert s. induction l1 as [|e l1 IH]; intros s; [done|]. cbn [app run_server]. unfold mbind, sres_bind.
  destruct (run_sevent mux_ is_tls e s); [apply IH|done].
Qed.

Lemma run_server_noop is_tls l s : Forall (fun e => run_sevent mux_ is_tls e s = SOk s) l -> run_server mux_ is_tls l s = SOk s.
Proof. induction 1 as [|e l He _ IH]; [done|]. cbn [run_server]. rewrite He. exact IH. Qed.

Lemma alter_same {A} (f : A -> A) k (l : list A) : (forall x, l !! k = Some x -> f x = x) -> alter f k l = l.
Proof.
  revert k. induction l as [|x l IH]; intros [|k] Hf; cbn; [done|done|by rewrite Hf|]. f_equal. by apply IH.
Qed.

Lemma alter_twice {A} (f g : A -> A) k (l : list A) : alter f k (alter g k l) = alter (fun x => f (g x)) k l.
Proof. revert k. induction l as [|x l IH]; intros [|k]; cbn; [done..|]. f_equal. apply IH. Qed.

Lemma set_phase_same k sc s : conns s !! k = Some sc -> set_phase k (sc_phase sc) s = s.
Proof.
  intros E. destruct s as [p a t r c]. unfold set_phase, set_conns. cbn in *. f_equal. apply alter_same. intros x Ex.
  assert (x = sc) as -> by congruence. by destruct sc.
Qed.

Lemma set_phase_twice k ph ph' s : set_phase k ph' (set_phase k ph s) = set_phase k ph' s.
Proof.
  unfold set_phase, set_conns. cbn. f_equal. by rewrite alter_twice.
Qed.

Lemma set_phase_at k ph sc s : conns s !! k = Some sc -> conns (set_phase k ph s) !! k = Some (mk_sconn (sc_service sc) ph).
Proof. intros E. cbn. by rewrite list_lookup_alter_eq, E. Qed.

(** A connection of a service whose thread has ended has no events. *)
Lemma dead_conn_event is_tls k sc e s : conns s !! k = Some sc -> sc_service sc ∈ dead s ->
  run_sevent mux_ is_tls (se_conn k e) s = SOk s.
Proof.
  intros E Hd. cbn [run_sevent]. rewrite E. destruct sc as [svc ph]. cbn in Hd. unfold alive. rewrite bool_decide_false by (by intros H).
  by destruct ph; [|destruct e|].
Qed.

Lemma dead_handshake is_tls k sc e npn alpn rv1 rv2 now ep t date s : conns s !! k = Some sc -> sc_service sc ∈ dead s ->
  run_sevent mux_ is_tls (se_handshake k e npn alpn rv1 rv2 now ep t date) s = SOk s.
Proof.
  intros E Hd. cbn [run_sevent]. rewrite E. destruct sc as [svc ph]. cbn in Hd. unfold alive. rewrite bool_decide_false by (by intros H).
  by destruct ph.
Qed.

(** The events of a running connection. *)
Lemma run_conn_server is_tls k sc c es c' s :
  conns s !! k = Some sc -> alive s (sc_service sc) = true -> sc_phase sc = running c -> run_conn mux_ (read_timeout_ s) es c = COk c' ->
  run_server mux_ is_tls (map (se_conn k) es) s = SOk (set_phase k (running c') s).
Proof.
  revert sc c s. induction es as [|e es IH]; intros sc c s E Hal Ep Hr; cbn [map run_server run_conn] in *.
  - injection Hr as <-. rewrite <- Ep. by rewrite (set_phase_same _ sc).
  - cbn [run_sevent]. rewrite E. destruct sc as [svc ph]. cbn [sc_phase sc_service] in *. subst ph. rewrite Hal.
    destruct (run_cevent mux_ (read_timeout_ s) e c) as [c1|]; [|done]. cbn [cbind on_conn mbind sres_bind] in *.
    rewrite (IH (mk_sconn svc (running c1)) c1 (set_phase k (running c1) s)); [by rewrite set_phase_twice|by eapply (set_phase_at _ _ (mk_sconn svc _))|done..].
Qed.

Lemma closing_running is_tls later k sc ids c s :
  conns s !! k = Some sc -> alive s (sc_service sc) = true -> sc_phase sc = running c -> CInv ids c -> stopped_ c = true ->
  exists ph, run_server mux_ is_tls (map (se_conn k) (closing_events later)) s = SOk (set_phase k ph s) /\ phase_idle ph = true.
Proof.
  intros E Hal Ep HC Hs. destruct (closing_events_spec (read_timeout_ s) ids c later HC) as (c' & E' & H'); [unfold expired; congruence|].
  exists (running c'). split; [by eapply run_conn_server|]. cbn. by rewrite H'.
Qed.

(** Everything that is pending for a connection of a running service ends. *)
Lemma closing_alive_conn is_tls later k sc ids s :
  conns s !! k = Some sc -> alive s (sc_service sc) = true -> phase_ok ids (sc_phase sc) -> phase_expired later (sc_phase sc) ->
  exists ph, run_server mux_ is_tls (closing_conn later k) s = SOk (set_phase k ph s) /\ phase_idle ph = true.
Proof.
  intros E Hal Hok Hex. unfold closing_conn. set (l := map (se_conn k) (closing_events later)).
  assert (Hend : forall c ids', CInv ids' c -> stopped_ c = true -> exists ph,
    run_server mux_ is_tls l (set_phase k (running c) s) = SOk (set_phase k ph s) /\ phase_idle ph = true).
  { intros c ids' HC Hs. destruct (closing_running is_tls later k _ ids' c (set_phase k (running c) s) (set_phase_at _ _ _ _ E) Hal eq_refl HC Hs)
      as (ph & Eph & Hi). exists ph. split; [|done]. unfold l. by rewrite Eph, set_phase_twice. }
  destruct sc as [svc [|c|c]]; cbn [phase_ok phase_expired sc_phase sc_service] in *.
  - exists accepting. split; [|done]. rewrite (set_phase_same k (mk_sconn svc accepting)) by done. apply run_server_noop.
    unfold l, closing_events. cbn [map]. repeat apply Forall_cons_2; try apply Forall_nil_2; cbn; by rewrite E.
  - destruct (tick_expired [] c later (wt_inv _ Hok) Hex) as (c1 & E1 & HC1 & Hs1 & _).
    cbn [run_server run_sevent mbind sres_bind]. rewrite E, Hal, E1. cbn [mbind sres_bind].
    rewrite (set_phase_at _ _ _ _ E). change (alive (set_phase _ _ _) ?i) with (alive s i). cbn [sc_service]. rewrite Hal.
    cbn [handshake_handler on_conn mbind sres_bind]. rewrite set_phase_twice.
    unfold connection.stop. rewrite Hs1. by eapply Hend.
  - destruct (tick_expired ids c later Hok Hex) as (c1 & E1 & HC1 & Hs1 & _).
    cbn [run_server run_sevent mbind sres_bind]. rewrite E, Hal.
    assert (run_cevent mux_ (read_timeout_ s) (ce_timer later) c = COk c1) as -> by (rewrite <- E1; unfold tick; cbn; by destruct (waits c)).
    cbn [on_conn mbind sres_bind]. rewrite (set_phase_at _ _ _ _ E). cbn [mbind sres_bind]. by eapply Hend.
Qed.

(** Everything that is pending for a connection ends. *)
Lemma closing_conn_spec is_tls later k sc ids s :
  conns s !! k = Some sc -> phase_ok ids (sc_phase sc) -> phase_expired later (sc_phase sc) ->
  exists ph, run_server mux_ is_tls (closing_conn later k) s = SOk (set_phase k ph s)
    /\ (phase_idle ph = true \/ sc_service sc ∈ dead s).
Proof.
  intros E Hok Hex. destruct (decide (sc_service sc ∈ dead s)) as [Hd|Hd].
  { exists (sc_phase sc). split; [|by right]. rewrite (set_phase_same k sc) by done. apply run_server_noop.
    unfold closing_conn, closing_events. cbn [map].
    repeat apply Forall_cons_2; try apply Forall_nil_2; by first [eapply dead_conn_event|eapply dead_handshake]. }
  assert (alive s (sc_service sc) = true) as Hal by (by apply bool_decide_true).
  cut (exists ph, run_server mux_ is_tls (closing_conn later k) s = SOk (set_phase k ph s) /\ phase_idle ph = true).
  { intros (ph & ? & ?). exists ph. split; [done|by left]. }
  by eapply closing_alive_conn.
Qed.

(** Nothing is pending for the connection, or its service has ended. *)
Definition settled (s : server) (sc : sconn) : Prop := phase_idle (sc_phase sc) = true \/ sc_service sc ∈ dead s.

(** Connections before [i] are done, the others can end. *)
Definition conns_from (later : Z) (i : nat) (s : server) : Prop :=
  forall k sc, conns s !! k = Some sc ->
    if decide (k < i)%nat then settled s sc
    else (exists ids, phase_ok ids (sc_phase sc)) /\ phase_expired later (sc_phase sc).

Lemma closing_conns_spec is_tls later n i s :
  conns_from later i s -> (i + n = length (conns s))%nat ->
  exists s', run_server mux_ is_tls (concat (map (closing_conn later) (seq i n))) s = SOk s'
    /\ io_service_pool_ s' = io_service_pool_ s /\ acceptors_ s' = acceptors_ s /\ dead s' = dead s
    /\ Forall (settled s) (conns s').
Proof.
  revert i s. induction n as [|n IH]; intros i s Hc Hl; cbn [seq map concat].
  - exists s. repeat split. apply Forall_lookup. intros k sc E. specialize (Hc k sc E). rewrite decide_True in Hc; [done|].
    apply lookup_lt_Some in E. lia.
  - destruct (lookup_lt_is_Some_2 (conns s) i) as [sc E]; [lia|]. pose proof (Hc i sc E) as Hi. rewrite decide_False in Hi by lia.
    destruct Hi as [[ids Hok] Hex]. destruct (closing_conn_spec is_tls later i sc ids s E Hok Hex) as (ph & Er & Hid).
    rewrite run_server_app, Er. cbn [mbind sres_bind]. apply (IH (S i) (set_phase i ph s)); [|cbn; rewrite length_alter; lia].
    intros k sc' Ek. destruct (decide (k = i)) as [->|Hne].
    + rewrite (set_phase_at _ _ sc) in Ek by done. injection Ek as <-. by rewrite decide_True by lia.
    + cbn in Ek. rewrite list_lookup_alter_ne in Ek by done. specialize (Hc k sc' Ek).
      destruct (decide (k < i)%nat); [by rewrite decide_True by lia|by rewrite decide_False by lia].
Qed.

(** The acceptor waits for nothing, or its service has ended. *)
Definition deaf (d : list nat) (a : acceptor) : Prop := ac_accepts a = [] \/ ac_service a ∈ d.

(** Acceptors before [i] wait for nothing. *)
Definition accepts_from (i : nat) (d : list nat) (l : list acceptor) : Prop :=
  forall j a, l !! j = Some a -> ac_open a = false /\ (length (ac_accepts a) <= 1)%nat /\ ((j < i)%nat -> deaf d a).

Lemma closing_accept is_tls later i a s : acceptors_ s !! i = Some a -> accepts_from i (dead s) (acceptors_ s) ->
  exists b, run_sevent mux_ is_tls (se_accept i true 0 later 0 0 no_endpoint 0 []) s = SOk (set_acceptors (<[i := b]> (acceptors_ s)) s)
    /\ ac_open b = false /\ (length (ac_accepts b) <= 1)%nat /\ deaf (dead s) b.
Proof.
  intros E Hacc. destruct (Hacc i a E) as (Ho & Hl & _). cbn [run_sevent]. rewrite E.
  assert (SOk s = SOk (set_acceptors (<[i := a]> (acceptors_ s)) s)) as Hsame by (rewrite list_insert_id by done; by destruct s).
  destruct a as [sv op po bl [|k [|]]]; cbn [ac_accepts length ac_open ac_service] in *; [|subst op|lia].
  { eexists. split; [exact Hsame|]. split; [done|split; [done|by left]]. }
  unfold alive. destruct (decide (sv ∈ dead s)) as [Hd|Hd].
  { rewrite bool_decide_false by (by intros H). eexists. split; [exact Hsame|]. split; [done|split; [done|by right]]. }
  rewrite bool_decide_true by done. exists (mk_acceptor sv false po bl []). split; [|split; [done|split; [cbn; lia|by left]]].
  set (s1 := set_acceptors _ s). assert (acceptors_ s1 !! i = Some (set_accepts [] (mk_acceptor sv false po bl [k]))) as E1.
  { cbn. rewrite list_lookup_insert_eq; [done|]. by eapply lookup_lt_Some. }
  unfold accept_handler. destruct is_tls; [unfold start_accept|cbn [mbind sres_bind negb andb]]; rewrite E1; done.
Qed.

Lemma closing_accepts_spec is_tls later n i s :
  accepts_from i (dead s) (acceptors_ s) -> (i + n = length (acceptors_ s))%nat ->
  exists l, run_server mux_ is_tls (map (fun i => se_accept i true 0 later 0 0 no_endpoint 0 []) (seq i n)) s = SOk (set_acceptors l s)
    /\ Forall (deaf (dead s)) l.
Proof.
  revert i s. induction n as [|n IH]; intros i s Hacc Hl; cbn [seq map run_server].
  - exists (acceptors_ s). split; [by destruct s|]. apply Forall_lookup. intros j a E. apply (Hacc j a E). apply lookup_lt_Some in E. lia.
  - destruct (lookup_lt_is_Some_2 (acceptors_ s) i) as [a E]; [lia|]. destruct (closing_accept is_tls later i a s E Hacc) as (b & -> & Hb1 & Hb2 & Hb3).
    cbn [mbind sres_bind]. destruct (IH (S i) (set_acceptors (<[i := b]> (acceptors_ s)) s)) as (l & Er & Hf).
    + intros j b' [[<- [<- _]]|[Hne Eb]]%list_lookup_insert_Some; [done|].
      destruct (Hacc _ _ Eb) as (? & ? & Hj). split; [done|split; [done|]]. intros. apply Hj. lia.
    + cbn. rewrite length_insert. lia.
    + exists l. split; [by rewrite Er|done].
Qed.

Lemma settled_returns s i :
  io_service_pool.work_ (io_service_pool_ s) = [] -> Forall (deaf (dead s)) (acceptors_ s) -> Forall (settled s) (conns s) ->
  i ∉ dead s -> io_service_pool.run_returns (io_service_pool_ s) (idle s) i = true.
Proof.
  intros Hw Ha Hc Hi. unfold io_service_pool.run_returns. rewrite Hw, bool_decide_true by (by intros ?%elem_of_nil).
  apply orb_true_iff. right. cbn. unfold idle. apply andb_true_iff. split; apply forallb_forall.
  - intros a Hin%list_elem_of_In. rewrite Forall_forall in Ha. destruct (Ha a Hin) as [->|Hx]; [apply orb_true_r|].
    destruct (Nat.eqb_spec (ac_service a) i) as [<-|]; [done|by apply orb_true_l].
  - intros sc Hin%list_elem_of_In. rewrite Forall_forall in Hc. destruct (Hc sc Hin) as [->|Hx]; [apply orb_true_r|].
    destruct (Nat.eqb_spec (sc_service sc) i) as [<-|]; [done|by apply orb_true_l].
Qed.

(** When nothing is pending and the work is gone, [join] returns; when the thread of a
    service has ended with an exception, [join] throws it.  The server can be destroyed. *)
Lemma join_idle s n :
  io_service_pool.work_ (io_service_pool_ s) = [] -> io_service_pool.futures_ (io_service_pool_ s) = map Some (seq 0 n) ->
  Forall (fun i => i < n)%nat (dead s) ->
  Forall (deaf (dead s)) (acceptors_ s) -> Forall (settled s) (conns s) ->
  destroy s = destroyed
  /\ exists p, join s = if decide (dead s = []) then io_service_pool.joined p else io_service_pool.rethrown p.
Proof.
  intros Hw Hf Hd Ha Hc. assert (forall i, negb (alive s i) = false -> i ∉ dead s) as Hal by (by intros i ?%negb_false_iff%bool_decide_eq_true).
  split.
  { unfold destroy. rewrite (not_true_is_false (existsb _ _)).
    - rewrite io_service_pool.destroy_ended; [done|]. rewrite Hf. apply Forall_map, Forall_true. intros i. right. exists i.
      split; [done|]. intros Hi. by apply settled_returns; [..|apply Hal].
    - rewrite existsb_exists. intros (a & Hin%list_elem_of_In & [Hl Hn]%andb_true_iff). rewrite Forall_forall in Ha.
      unfold alive in Hl. apply bool_decide_eq_true in Hl. by destruct (Ha a Hin) as [E|?]; [rewrite E in Hn|]. }
  unfold join, io_service_pool.join. rewrite io_service_pool.join_futures_ended; rewrite Hf.
  - destruct (list_find _ _) as [[k f]|] eqn:El.
    + apply list_find_Some in El as (Ek & Hk & _). eexists; rewrite decide_False; [done|]. intros E.
      destruct f as [i|]; [|done]. cbn in Hk. unfold alive in Hk. by rewrite E, bool_decide_true in Hk by (by intros ?%elem_of_nil).
    + eexists; rewrite decide_True; [done|]. destruct (dead s) as [|i d] eqn:E; [done|]. exfalso. apply list_find_None in El.
      apply Forall_cons in Hd as [Hi _]. rewrite Forall_map, Forall_forall in El. apply (El i); [apply elem_of_seq; lia|].
      cbn. unfold alive. rewrite E, bool_decide_false; [done|]. intros H. apply H. by left.
  - apply Forall_map, Forall_true. intros i. exists i. split; [done|]. intros Hi. by apply settled_returns; [..|apply Hal].
Qed.

End closing.

(** When the close of an open acceptor fails, [stop] throws: the later acceptors stay open,
    the work of the pool stays, and with it [join] waits for ever. *)
Lemma stop_failure l1 a l2 e rest n s :
  acceptors_ s = l1 ++ a :: l2 -> ac_open a = true -> e <> 0 -> dead s = [] -> (0 < n)%nat ->
  io_service_pool.io_services_ (io_service_pool_ s) = replicate n false ->
  io_service_pool.work_ (io_service_pool_ s) = seq 0 n -> io_service_pool.futures_ (io_service_pool_ s) = map Some (seq 0 n) ->
  let '(r, s') := stop (map (fun _ => 0) l1 ++ e :: rest) s in
  r = Some e /\ acceptors_ s' = map close l1 ++ close a :: l2 /\ join s' = io_service_pool.blocked.
Proof.
  intros Ea Ho He Hd Hn Es Ew Ef. unfold stop. rewrite Ea.
  assert (forall l1, close_acceptors (map (fun _ => 0) l1 ++ e :: rest) (l1 ++ a :: l2) = (Some e, map close l1 ++ close a :: l2)) as ->.
  { clear -Ho He. induction l1 as [|b l1 IH]; cbn [map app close_acceptors head tail default].
    - rewrite Ho. cbn. by rewrite (proj2 (Z.eqb_neq _ _) He).
    - rewrite IH. by destruct (ac_open b). }
  split; [done|split; [done|]]. unfold join, io_service_pool.join. cbn [io_service_pool_ set_acceptors]. rewrite Ef.
  destruct n as [|n]; [lia|]. cbn [seq map io_service_pool.join_futures]. unfold alive. cbn [dead set_acceptors].
  rewrite Hd, bool_decide_true by (by intros ?%elem_of_nil). cbn [negb].
  unfold io_service_pool.run_returns. rewrite Es, Ew. cbn. done.
Qed.

(** ** The properties *)

Section server_properties.
Context {Lib : Nghttp2} {Laws : Nghttp2Laws} (mux_ : serve_mux.mux) (Hmux : serve_mux.app_mux mux_) {Ap : App}.

Lemma on_conn_kept k r s s' : on_conn k r s = SOk s' -> io_service_pool_ s' = io_service_pool_ s /\ kept s s'.
Proof. destruct r; [|done]. cbn. by intros [= <-]. Qed.

Lemma accept_handler_kept is_tls i k e no_delay now rv1 rv2 ep t date s s' :
  io_service_pool.pool_ok (io_service_pool_ s) -> accept_handler is_tls i k e no_delay now rv1 rv2 ep t date s = SOk s' -> kept s s'.
Proof.
  intros Hp. unfold accept_handler. destruct (negb e && negb (no_delay =? 0)).
  { destruct (acceptors_ s !! i); [|done]. by intros [= <-]. }
  destruct is_tls.
  - destruct e; intros Hs; apply start_accept_kept in Hs; done.
  - destruct (if e then _ else _) as [s1|] eqn:E1; [|done]. cbn [mbind sres_bind].
    assert (io_service_pool_ s1 = io_service_pool_ s /\ kept s s1) as [Ep Hk].
    { destruct e; [by injection E1 as <-|by eapply on_conn_kept]. }
    destruct (acceptors_ s1 !! i) as [a|]; [|done]. destruct (ac_open a); [|by intros [= <-]]. intros Hs. eapply kept_trans; [done|].
    eapply start_accept_kept; [by rewrite Ep|done].
Qed.

Lemma run_sevent_kept is_tls e s s' :
  io_service_pool.pool_ok (io_service_pool_ s) -> run_sevent mux_ is_tls e s = SOk s' -> kept s s'.
Proof.
  intros Hp. destruct e as [i e no_delay now rv1 rv2 ep t date|k e npn alpn rv1 rv2 now ep t date|k e|errs]; cbn [run_sevent].
  - destruct (acceptors_ s !! i) as [a|]; [|by intros [= <-]]. destruct (ac_accepts a); [by intros [= <-]|].
    destruct (alive s _); [|by intros [= <-]]. intros Hs.
    apply accept_handler_kept in Hs; [|done]. eapply kept_trans; [|exact Hs]. repeat split. cbn. by rewrite length_insert.
  - destruct (conns s !! k) as [[svc [|c|c]]|]; try by intros [= <-]. destruct (alive s _); [by intros [_ ?]%on_conn_kept|by intros [= <-]].
  - destruct (conns s !! k) as [[svc [|c|c]]|]; [by intros [= <-]| | |by intros [= <-]].
    + destruct e; try by intros [= <-]. by destruct (alive s _); intros [= <-].
    + destruct (alive s _); [by intros [_ ?]%on_conn_kept|by intros [= <-]].
  - intros [= <-]. pose proof (close_acceptors_spec errs (acceptors_ s)) as [Hl%Forall2_length _]. unfold stop.
    by destruct (close_acceptors errs (acceptors_ s)) as [[e|] l].
Qed.

Lemma accept_handler_work is_tls i k e no_delay now rv1 rv2 ep t date s s' :
  io_service_pool.pool_ok (io_service_pool_ s) -> accept_handler is_tls i k e no_delay now rv1 rv2 ep t date s = SOk s' -> same_work s s'.
Proof.
  intros Hp. unfold accept_handler. destruct (negb e && negb (no_delay =? 0)).
  { destruct (acceptors_ s !! i); [|done]. by intros [= <-]. }
  destruct is_tls; [destruct e; intros Hs; by apply start_accept_work in Hs|].
  destruct (if e then _ else _) as [s1|] eqn:E1; [|done]. cbn [mbind sres_bind].
  assert (io_service_pool_ s1 = io_service_pool_ s) as Ep by (destruct e; [by injection E1 as <-|by apply on_conn_kept in E1 as [? _]]).
  destruct (acceptors_ s1 !! i) as [a|]; [|done]. unfold same_work. rewrite <- Ep. destruct (ac_open a); [|by intros [= <-]].
  intros Hs. apply start_accept_work in Hs; [done|by rewrite Ep].
Qed.

Definition not_stop (e : sevent) : Prop := match e with se_stop _ => False | _ => True end.

Lemma run_sevent_work is_tls e s s' :
  io_service_pool.pool_ok (io_service_pool_ s) -> not_stop e -> run_sevent mux_ is_tls e s = SOk s' -> same_work s s'.
Proof.
  intros Hp He. assert (forall k r, on_conn k r s = SOk s' -> same_work s s') as Hon.
  { intros k r [E _]%on_conn_kept. unfold same_work. by rewrite E. }
  destruct e as [i e no_delay now rv1 rv2 ep t date|k e npn alpn rv1 rv2 now ep t date|k e|errs]; [| | |done]; cbn [run_sevent].
  - destruct (acceptors_ s !! i) as [a|]; [|by intros [= <-]]. destruct (ac_accepts a); [by intros [= <-]|].
    destruct (alive s _); [|by intros [= <-]]. intros Hs. by apply accept_handler_work in Hs.
  - destruct (conns s !! k) as [[svc [|c|c]]|]; try by intros [= <-]. destruct (alive s _); [by apply Hon|by intros [= <-]].
  - destruct (conns s !! k) as [[svc [|c|c]]|]; [by intros [= <-]| | |by intros [= <-]].
    + destruct e; try by intros [= <-]. by destruct (alive s _); intros [= <-].
    + destruct (alive s _); [by apply Hon|by intros [= <-]].
Qed.

Lemma strace_ok_app l1 l2 : strace_ok (l1 ++ l2) -> strace_ok l1.
Proof.
  intros Ht k. destruct (Ht k) as [H1 H2]. unfold conn_events in *. rewrite omap_app in H1, H2.
  rewrite map_app, concat_app in H2. apply Forall_app in H1 as [H1 _]. apply NoDup_app in H2 as [H2 _]. by split.
Qed.

Lemma run_server_kept past is_tls evs s s' :
  SInv past [] s -> strace_ok (past ++ evs) -> run_server mux_ is_tls evs s = SOk s' -> kept s s'.
Proof.
  revert past s. induction evs as [|e evs IH]; intros past s HS Ht; cbn [run_server]; [by intros [= <-]|].
  rewrite cons_middle, app_assoc in Ht. pose proof (run_server_inv mux_ Hmux past is_tls [e] s HS (strace_ok_app _ _ Ht)) as HS1. cbn [run_server] in HS1.
  destruct (run_sevent mux_ is_tls e s) as [s1|] eqn:E1; [|done]. cbn in HS1 |- *. intros Hr.
  eapply kept_trans; [eapply run_sevent_kept; [apply HS|done]|]. by eapply (IH (past ++ [e])).
Qed.

(** ** A service whose thread has ended *)

(** What runs on the services of the others leaves alone: the acceptors and the
    connections of a service whose thread has ended. *)
Definition stays (s s' : server) : Prop :=
  dead s ⊆ dead s'
  /\ (forall i a, acceptors_ s !! i = Some a -> ac_service a ∈ dead s ->
        exists a', acceptors_ s' !! i = Some a' /\ ac_service a' = ac_service a /\ ac_accepts a' = ac_accepts a)
  /\ (forall k sc, conns s !! k = Some sc -> sc_service sc ∈ dead s -> sc_phase sc <> accepting -> conns s' !! k = Some sc).

Lemma stays_refl s : stays s s.
Proof. split; [done|split; [|done]]. intros i a Ea _. by exists a. Qed.

Lemma stays_trans s1 s2 s3 : stays s1 s2 -> stays s2 s3 -> stays s1 s3.
Proof.
  intros (Hd & Ha & Hc) (Hd' & Ha' & Hc'). split; [set_solver|split].
  - intros i a Ea Hin. destruct (Ha i a Ea Hin) as (b & Eb & Es & Eb'). destruct (Ha' i b Eb) as (c & Ec & Es' & Ec').
    { rewrite Es. by apply Hd. }
    exists c. split; [done|]. split; congruence.
  - intros k sc Ek Hin Hne. apply Hc'; [by apply Hc|by apply Hd|done].
Qed.

Lemma set_phase_stays k ph sc s : conns s !! k = Some sc -> sc_phase sc = accepting \/ sc_service sc ∉ dead s -> stays s (set_phase k ph s).
Proof.
  intros E Hor. split; [done|split; [intros i a Ea _; by exists a|]]. intros j c Ej Hin Hne. cbn.
  rewrite list_lookup_alter_ne; [done|]. intros ->. assert (c = sc) as -> by congruence. by destruct Hor.
Qed.

Lemma set_accepts_stays i ks a s : acceptors_ s !! i = Some a -> ac_service a ∉ dead s ->
  stays s (set_acceptors (<[i := set_accepts ks a]> (acceptors_ s)) s).
Proof.
  intros Ea Hn. split; [done|split; [|done]]. intros j b Eb Hin. exists b. split; [|done]. cbn.
  rewrite list_lookup_insert_ne; [done|]. intros ->. assert (a = b) as -> by congruence. done.
Qed.

Lemma start_accept_stays i a s s' : io_service_pool.pool_ok (io_service_pool_ s) ->
  acceptors_ s !! i = Some a -> ac_service a ∉ dead s -> start_accept i s = SOk s' -> stays s s'.
Proof.
  intros Hp Ea Hn. unfold start_accept. rewrite Ea. destruct (ac_open a); cbn [negb]; [|intros [= <-]; apply stays_refl].
  destruct (get_io_service_ok s Hp) as (p & -> & _). cbn. intros [= <-].
  destruct (set_accepts_stays i (ac_accepts a ++ [length (conns s)]) a s Ea Hn) as (_ & Ha & _).
  split; [done|split; [exact Ha|]]. intros k sc Ek _ _. cbn. by apply lookup_app_l_Some.
Qed.

Lemma on_conn_stays k r sc s s' : conns s !! k = Some sc -> sc_phase sc = accepting \/ sc_service sc ∉ dead s ->
  on_conn k r s = SOk s' -> stays s s' /\ io_service_pool_ s' = io_service_pool_ s /\ acceptors_ s' = acceptors_ s /\ dead s' = dead s.
Proof. intros E Hor. destruct r; [|done]. cbn. intros [= <-]. split; [by eapply set_phase_stays|done]. Qed.

Lemma accept_handler_stays is_tls i k e no_delay now rv1 rv2 ep t date a s s' :
  io_service_pool.pool_ok (io_service_pool_ s) -> acceptors_ s !! i = Some a -> ac_service a ∉ dead s ->
  sc_phase <$> conns s !! k = Some accepting ->
  accept_handler is_tls i k e no_delay now rv1 rv2 ep t date s = SOk s' -> stays s s'.
Proof.
  intros Hp Ea Hn Hk. destruct (conns s !! k) as [sc|] eqn:Ek; [|done]. injection Hk as Hph. unfold accept_handler. rewrite Ea.
  destruct (negb e && negb (no_delay =? 0)).
  { intros [= <-]. split; [cbn; set_solver|split; [|done]]. intros j b Eb _. by exists b. }
  destruct is_tls.
  - destruct e; [by apply (start_accept_stays _ a)|]. intros Hs. eapply stays_trans; [eapply set_phase_stays; [done|by left]|].
    by eapply (start_accept_stays i a) in Hs.
  - destruct e.
    + cbn [mbind sres_bind]. rewrite Ea. destruct (ac_open a); [by apply (start_accept_stays _ a)|]. intros [= <-]. apply stays_refl.
    + destruct (on_conn k _ s) as [s1|] eqn:E1; [|done]. cbn [mbind sres_bind].
      destruct (on_conn_stays _ _ _ _ _ Ek (or_introl Hph) E1) as (H1 & Ep & Eacc & Ed). rewrite Eacc, Ea.
      destruct (ac_open a); [|by intros [= <-]]. intros Hs. eapply stays_trans; [exact H1|].
      apply (start_accept_stays i a) in Hs; [done|by rewrite Ep|by rewrite Eacc|by rewrite Ed].
Qed.

Lemma close_acceptors_stays errs s : stays s (set_acceptors (close_acceptors errs (acceptors_ s)).2 s).
Proof.
  pose proof (close_acceptors_spec errs (acceptors_ s)) as [Hl _]. split; [done|split; [|done]]. intros i a Ea _.
  destruct (Forall2_lookup_l _ _ _ _ _ Hl Ea) as (b & Eb & (E1 & E2 & _)). by exists b.
Qed.

Lemma alive_iff s i : alive s i = true <-> i ∉ dead s.
Proof. apply bool_decide_eq_true. Qed.

Lemma run_sevent_stays past is_tls e s s' : SInv past [] s -> run_sevent mux_ is_tls e s = SOk s' -> stays s s'.
Proof.
  intros HS. assert (forall s0 s0', SOk s0 = SOk s0' -> stays s0 s0') as Hsame by (intros ? ? [= <-]; apply stays_refl).
  destruct e as [i e no_delay now rv1 rv2 ep t date|k e npn alpn rv1 rv2 now ep t date|k e|errs]; cbn [run_sevent].
  - destruct (acceptors_ s !! i) as [a|] eqn:Ea; [|apply Hsame]. destruct (ac_accepts a) as [|k ks] eqn:Ek; [apply Hsame|].
    destruct (alive s _) eqn:Hal; [|apply Hsame]. apply alive_iff in Hal. intros Hr.
    eapply stays_trans; [by eapply (set_accepts_stays i ks)|]. eapply (accept_handler_stays _ _ _ _ _ _ _ _ _ _ _ (set_accepts ks a)); [apply HS| |exact Hal| |exact Hr].
    + cbn. rewrite list_lookup_insert_eq; [done|by eapply lookup_lt_Some].
    + eapply (si_accepting _ _ _ HS); [done|]. rewrite Ek. by left.
  - destruct (conns s !! k) as [[svc [|c|c]]|] eqn:Ek; try apply Hsame. destruct (alive s _) eqn:Hal; [|apply Hsame]. apply alive_iff in Hal.
    intros Hr. by eapply on_conn_stays in Hr as [? _]; [|done|right].
  - destruct (conns s !! k) as [[svc [|c|c]]|] eqn:Ek; try apply Hsame.
    + destruct e; try apply Hsame. destruct (alive s _) eqn:Hal; [|apply Hsame]. apply alive_iff in Hal. intros [= <-].
      eapply set_phase_stays; [done|by right].
    + destruct (alive s _) eqn:Hal; [|apply Hsame]. apply alive_iff in Hal. intros Hr. by eapply on_conn_stays in Hr as [? _]; [|done|right].
  - intros [= <-]. pose proof (close_acceptors_stays errs s) as Hc. unfold stop.
    by destruct (close_acceptors errs (acceptors_ s)) as [[e|] l].
Qed.

Lemma run_server_stays past is_tls evs s s' :
  SInv past [] s -> strace_ok (past ++ evs) -> run_server mux_ is_tls evs s = SOk s' -> stays s s'.
Proof.
  revert past s. induction evs as [|e evs IH]; intros past s HS Ht; cbn [run_server]; [intros [= <-]; apply stays_refl|].
  rewrite cons_middle, app_assoc in Ht. pose proof (run_server_inv mux_ Hmux past is_tls [e] s HS (strace_ok_app _ _ Ht)) as HS1.
  cbn [run_server] in HS1. destruct (run_sevent mux_ is_tls e s) as [s1|] eqn:E1; [|done]. cbn in HS1 |- *. intros Hr.
  eapply stays_trans; [by eapply run_sevent_stays|]. by eapply (IH (past ++ [e])).
Qed.

Lemma run_server_work past is_tls evs s s' :
  SInv past [] s -> strace_ok (past ++ evs) -> Forall not_stop evs -> run_server mux_ is_tls evs s = SOk s' -> same_work s s'.
Proof.
  revert past s. induction evs as [|e evs IH]; intros past s HS Ht Hn; cbn [run_server]; [by intros [= <-]|].
  apply Forall_cons in Hn as [He Hn]. rewrite cons_middle, app_assoc in Ht.
  pose proof (run_server_inv mux_ Hmux past is_tls [e] s HS (strace_ok_app _ _ Ht)) as HS1.
  cbn [run_server] in HS1. destruct (run_sevent mux_ is_tls e s) as [s1|] eqn:E1; [|done]. cbn in HS1 |- *. intros Hr.
  pose proof (run_sevent_work is_tls e s s1 (si_pool _ _ _ HS) He E1) as Hw.
  unfold same_work in *. rewrite <- Hw. by apply (IH (past ++ [e])).
Qed.

(** What a connection satisfies in every phase. *)
Definition conn_good (c : connection) : Prop :=
  (forall b, in_flight c = Some b -> writing_ c = true /\ outbuf_ c = b)
  /\ (reads c <= 1)%nat /\ (waits c <= 1)%nat /\ socket_closed c = (if stopped_ c then 1 else 0)%nat
  /\ (stopped_ c = false -> waits c = 1%nat /\ wire c ++ pending_bytes (handler_ c) = produced c).

Lemma CInv_good ids c : CInv ids c -> conn_good c.
Proof.
  intros [H1 H2 H3 H4 H5 [H6 H7]]. split; [intros b Hb; by destruct (H3 b Hb) as (? & ? & _)|].
  split; [done|split; [done|split; [done|]]]. intros Hs. split; [by apply H7|by apply H2].
Qed.

(** Every open acceptor of a running service waits for exactly one connection, any other
    acceptor for at most one; each connection belongs to a service of the pool. *)
Definition server_good (n : nat) (s : server) : Prop :=
  (forall i a, acceptors_ s !! i = Some a ->
     (ac_service a < n)%nat /\ (length (ac_accepts a) <= 1)%nat
     /\ (ac_open a = true -> ac_service a ∉ dead s -> length (ac_accepts a) = 1%nat))
  /\ (forall k sc, conns s !! k = Some sc ->
     (sc_service sc < n)%nat
     /\ match sc_phase sc with accepting => True | handshaking c => conn_good c /\ reads c = 0%nat | running c => conn_good c end)
  /\ Forall (fun i => i < n)%nat (dead s).

(** A listening server, whatever it accepts and whenever it is stopped: every
    open acceptor of a running service waits for exactly one connection (so that none
    is ever deaf, and none has two pending accepts), the others for at most one; each
    connection belongs to a service of the pool and keeps the discipline of its
    asynchronous operations and the bytes of its session, after a handshake as without;
    a service ends with an exception only when the option of an accepted connection
    cannot be set; the only failure is the use of a closed stream by the application. *)
Lemma server_safe (max_connections ht rt backlog : Z) (n : nat) (resolved : Z * list endpoint) (is_tls : bool)
    (evs : list sevent) (s0 s1 : server)
    (Hnew : new_server n ht rt = Some s0)
    (Hlisten : listen_and_serve max_connections backlog resolved s0 = SOk (0, s1)) (Hevs : strace_ok evs) :
  match run_server mux_ is_tls evs s1 with
  | SOk s => server_good n s /\ (dead s <> [] -> Exists accept_throws evs)
  | SFail e => e = dangling_stream
  end.
Proof.
  destruct (listen_inv _ _ _ _ _ _ _ _ Hnew Hlisten) as (HS & En & _).
  pose proof (run_server_inv mux_ Hmux [] is_tls evs s1 HS Hevs) as Hr.
  destruct (run_server mux_ is_tls evs s1) as [s|] eqn:Er; [|done].
  destruct (run_server_kept [] is_tls evs s1 s HS Hevs Er) as (Es & _). destruct Hr as [_ [Hs1 Hs2] Ha _ _ Hc [Hd Hx]].
  assert (nservices s = n) as En' by (rewrite <- En; unfold nservices; by rewrite Es). rewrite En' in Hs1, Hs2, Hd. rewrite Forall_lookup in Hs1. rewrite Forall_lookup in Hs2.
  split; [|done]. split; [|split; [|done]].
  - intros i a Ea. split; [by eapply Hs1|]. specialize (Ha i a Ea). by rewrite decide_False in Ha by (by intros ?%elem_of_nil).
  - intros k sc Ek. split; [by eapply Hs2|]. specialize (Hc k sc Ek). destruct (sc_phase sc); cbn in Hc; [done| |by eapply CInv_good].
    destruct Hc as [HC _ Hr _]. split; [by eapply CInv_good|done].
Qed.


(** C39. When the option of an accepted connection cannot be set, the exception leaves
    the handler and ends the thread of the acceptor's service: the acceptor is still
    open and waits for no connection.  Whatever happens later on the other services, it
    never waits for one again, the connections that the service was running stay as they
    are, with no event, and [join] never returns normally. *)
Theorem accept_option_kills_service (max_connections ht rt backlog : Z) (n : nat) (resolved : Z * list endpoint) (is_tls : bool)
    (evs later : list sevent) (i k : nat) (a : acceptor) (no_delay now rv1 rv2 : Z) (ep : tcp_endpoint) (t : Z) (date : str)
    (s0 s1 s s' : server)
    (Hnew : new_server n ht rt = Some s0)
    (Hlisten : listen_and_serve max_connections backlog resolved s0 = SOk (0, s1))
    (Hrun : run_server mux_ is_tls evs s1 = SOk s)
    (Ha : acceptors_ s !! i = Some a) (Hk : ac_accepts a = [k]) (Hal : ac_service a ∉ dead s) (Hthrows : no_delay <> 0) :
  let e := se_accept i false no_delay now rv1 rv2 ep t date in
  forall (Hevs : strace_ok (evs ++ e :: later)) (Hlater : run_server mux_ is_tls (e :: later) s = SOk s'),
  (exists s2 a2, run_sevent mux_ is_tls e s = SOk s2 /\ acceptors_ s2 !! i = Some a2 /\ ac_open a2 = ac_open a /\ ac_accepts a2 = [])
  /\ (exists a', acceptors_ s' !! i = Some a' /\ ac_service a' = ac_service a /\ ac_accepts a' = [])
  /\ (forall j c, conns s !! j = Some c -> sc_service c = ac_service a -> sc_phase c <> accepting -> conns s' !! j = Some c)
  /\ (forall p, join s' <> io_service_pool.joined p).
Proof.
  intros e Hevs Hlater. destruct (listen_inv _ _ _ _ _ _ _ _ Hnew Hlisten) as (HS & En & Ef & _).
  pose proof (run_server_inv mux_ Hmux [] is_tls evs s1 HS (strace_ok_app _ _ Hevs)) as HS'. rewrite Hrun in HS'. cbn in HS'.
  destruct (run_server_kept [] is_tls evs s1 s HS (strace_ok_app _ _ Hevs) Hrun) as (Es1 & Ef1 & _).
  set (b := set_accepts [] a). set (s2 := kill (ac_service a) (set_acceptors (<[i := b]> (acceptors_ s)) s)).
  assert (acceptors_ s2 !! i = Some b) as Eb by (cbn; by rewrite list_lookup_insert_eq by (by eapply lookup_lt_Some)).
  assert (run_sevent mux_ is_tls e s = SOk s2) as E2.
  { unfold e. cbn [run_sevent]. rewrite Ha, Hk, (proj2 (alive_iff _ _) Hal). unfold accept_handler.
    rewrite (proj2 (Z.eqb_neq _ _) Hthrows). cbn [negb andb]. fold b. change (acceptors_ (set_acceptors (<[i := b]> (acceptors_ s)) s) !! i = Some b) in Eb. by rewrite Eb. }
  rewrite cons_middle, app_assoc in Hevs. cbn [run_server] in Hlater. rewrite E2 in Hlater. cbn [mbind sres_bind] in Hlater.
  pose proof (run_server_inv mux_ Hmux evs is_tls [e] s HS' (strace_ok_app _ _ Hevs)) as HS2. cbn [run_server] in HS2. rewrite E2 in HS2. cbn in HS2.
  destruct (run_server_stays (evs ++ [e]) is_tls later s2 s' HS2 Hevs Hlater) as (Hd & Hsa & Hsc).
  destruct (run_server_kept (evs ++ [e]) is_tls later s2 s' HS2 Hevs Hlater) as (_ & Ef2 & _).
  assert (ac_service a ∈ dead s2) as Hin by (cbn; by left).
  split; [by exists s2, b|]. split; [|split].
  - by apply (Hsa i b).
  - intros j c Ej Esv Hne. apply Hsc; [done|by rewrite Esv|done].
  - intros p. unfold join, io_service_pool.join. eapply io_service_pool.join_futures_threw with (i := ac_service a).
    + rewrite Ef2. cbn. rewrite Ef1, Ef. apply list_elem_of_fmap. exists (ac_service a). split; [done|]. apply elem_of_seq.
      destruct (si_services _ _ _ HS') as [Hlt _]. rewrite Forall_lookup in Hlt. specialize (Hlt i a Ha). unfold nservices in *. rewrite Es1 in Hlt. lia.
    + unfold alive. rewrite bool_decide_false; [done|]. intros Hn. by apply Hn, Hd.
Qed.

(** A server that listens and has not been stopped cannot be destroyed, as long as the
    thread of one of its services runs: the destructor leaves the handler of a pending
    accept with a reference to an acceptor that is gone, or waits for ever. *)
Lemma running_not_destroyed max_connections ht rt backlog n resolved is_tls evs s0 s1 s i :
  new_server n ht rt = Some s0 -> listen_and_serve max_connections backlog resolved s0 = SOk (0, s1) ->
  strace_ok evs -> Forall not_stop evs -> run_server mux_ is_tls evs s1 = SOk s -> (i < n)%nat -> i ∉ dead s -> destroy s <> destroyed.
Proof.
  intros Hnew Hlisten Hevs Hns Hrun Hi Hd. destruct (listen_inv _ _ _ _ _ _ _ _ Hnew Hlisten) as (HS & En & Ef & Ew & Es).
  destruct (run_server_kept [] is_tls evs s1 s HS Hevs Hrun) as (Es1 & Ef1 & _).
  pose proof (run_server_work [] is_tls evs s1 s HS Hevs Hns Hrun) as Ew1. unfold same_work in Ew1.
  unfold destroy. destruct (existsb _ _); [done|]. rewrite (io_service_pool.destroy_waits _ _ _ i); [done|..].
  - rewrite Ef1, Ef. apply list_elem_of_fmap. exists i. split; [done|]. apply elem_of_seq. lia.
  - unfold alive. by rewrite bool_decide_true.
  - rewrite Es1, Es. by apply lookup_replicate_2.
  - rewrite Ew1, Ew. apply elem_of_seq. lia.
Qed.

End server_properties.

(** ** Witnesses *)

(** A server with two services that listens on two of three endpoints, accepts a
    connection that serves a request, and another one. *)
Definition demo_endpoints : Z * list endpoint := (0, [mk_endpoint 97 0 0 0 0; mk_endpoint 0 0 0 0 80; mk_endpoint 0 0 0 0 81]).

Definition demo_server_trace : list sevent :=
  se_accept 0 false 0 0 0 0 no_endpoint 0 [] :: map (se_conn 0) demo_conn_trace ++ [se_accept 1 false 0 7 0 0 no_endpoint 0 []].

Lemma demo_server_trace_ok : strace_ok demo_server_trace.
Proof.
  intros [|k]; [exact demo_conn_trace_ok|]. unfold conn_events, demo_server_trace, demo_conn_trace. cbn. split; constructor.
Qed.

Definition demo_new : server := mk_server (io_service_pool.mk_pool [false; false] [0; 1]%nat 0 []) [] 10 60 [] [].
Definition demo_listening : server :=
  match listen_and_serve 4096 (-1) demo_endpoints demo_new with SOk (_, s) => s | SFail _ => demo_new end.

Lemma demo_listens : listen_and_serve 4096 (-1) demo_endpoints demo_new = SOk (0, demo_listening).
Proof. vm_compute. reflexivity. Qed.


(** The second connection's option cannot be set. *)
Definition demo_failed_accept : sevent := se_accept 1 false 22 7 0 0 no_endpoint 0 [].
Definition demo_after_accept : server :=
  match @run_server counting_lib demo_mux demo_app false [demo_failed_accept] demo_listening with SOk s => s | SFail _ => demo_new end.

Lemma accept_option_kills_service_witness :
  @run_server counting_lib demo_mux demo_app false [demo_failed_accept] demo_listening = SOk demo_after_accept
  /\ (exists a', acceptors_ demo_after_accept !! 1%nat = Some a' /\ ac_accepts a' = [])
  /\ forall p, join demo_after_accept <> io_service_pool.joined p.
Proof.
  destruct (acceptors_ demo_listening !! 1%nat) as [a|] eqn:Ea; [|vm_compute in Ea; discriminate].
  assert (Er : @run_server counting_lib demo_mux demo_app false [demo_failed_accept] demo_listening = SOk demo_after_accept)
    by (vm_compute; reflexivity).
  assert (Ek : exists k, ac_accepts a = [k]) by (vm_compute in Ea; injection Ea as <-; by eexists).
  assert (Hd : dead demo_listening = []) by (vm_compute; reflexivity).
  destruct Ek as [k Ek].
  assert (Hok : strace_ok [demo_failed_accept]) by (intros j; split; constructor).
  destruct (@accept_option_kills_service counting_lib _ demo_mux demo_mux_ok demo_app 4096 10 60 (-1) 2 demo_endpoints false [] []
              1 k a 22 7 0 0 no_endpoint 0 [] demo_new demo_listening demo_listening demo_after_accept eq_refl demo_listens eq_refl
              Ea Ek ltac:(rewrite Hd; apply not_elem_of_nil) ltac:(discriminate) Hok Er) as (_ & (a' & H1 & _ & H2) & _ & H3).
  split; [exact Er|]. split; [by exists a'|exact H3].
Defined.

End asio_server.
