(* ===== verification/ClientSession.v ===== *)
(** * The client side of a connection: lib/asio_client_session_impl.{cc,h},
    asio_client_request_impl.cc, asio_client_response_impl.cc,
    asio_client_stream.cc and the two transports asio_client_session_tcp_impl.cc
    and asio_client_session_tls_impl.cc

    One [session_impl] with its streams and its socket.  The operations are
    functions on its state in the monad of Monad.  The application is represented
    by the programs it runs when one of its callbacks is invoked, which call the
    session and its requests and look at the results; the library by the return
    values of its functions, the callbacks it invokes and the bytes it produces. *)

From S2P Require Import Prelude Monad Util Http2 UrlParser Common Nghttp2.

Module client.
Import monad http2 common nghttp2.
Local Open Scope monad_scope.

(** ** State *)

(** Callbacks of the application are numbers that identify them. *)
Record request_impl := mk_req {
  rq_header : header_map;
  rq_on_response : option nat;
  rq_on_push : option nat;
  rq_on_close : option nat;
  rq_generator : generator;
  rq_uri : uri_ref;
  rq_method : str;
  rq_header_buffer_size : Z;
}.

Record response_impl := mk_res {
  rs_on_data : option nat;
  rs_header : header_map;
  rs_content_length : Z;
  rs_header_buffer_size : Z;
  rs_status_code : Z;
}.

Record stream := mk_stream { st_request : request_impl; st_response : response_impl; st_id : Z }.

Definition new_request : request_impl := mk_req [] None None None gen_empty empty_uri [] 0.

Definition new_response : response_impl := mk_res None [] (-1) 0 0.

Definition new_stream : stream := {| st_request := new_request; st_response := new_response; st_id := 0 |}.

(** The callbacks of the application that the session invokes, and an exception
    that leaves one of its handlers.  Requests and responses are referred to by the
    id of their stream. *)
Inductive app_event :=
  | app_connect (cb : nat)
  | app_error (cb : nat) (ec : error_code)
  | app_response (cb : nat) (stream_id : Z)
  | app_push (cb : nat) (stream_id promised_id : Z)
  | app_data (cb : nat) (stream_id : Z) (data : str)
  | app_close (cb : nat) (stream_id : Z) (error_code : Z)
  | app_generate (cb : nat) (stream_id : Z) (len : nat)
  | app_exception (error : Z).

(** [priority_spec::get]: a null pointer, or the stream, weight and exclusive
    flag. *)
Definition priority_spec := option (Z * Z * bool).

(** The calls the application makes. *)
Inductive app_call :=
  | call_submit (method uri : str) (g : generator) (h : header_map) (prio : priority_spec)
  | call_write_trailer (stream_id : Z) (h : header_map)
  | call_cancel (stream_id error_code : Z)
  | call_resume (stream_id : Z)
  | call_on_response (stream_id : Z) (cb : nat)
  | call_on_push (stream_id : Z) (cb : nat)
  | call_on_close (stream_id : Z) (cb : nat)
  | call_on_data (stream_id : Z) (cb : nat)
  | call_on_connect (cb : nat)
  | call_on_error (cb : nat)
  | call_read_timeout (t : Z)
  | call_shutdown.

(** A program of the application: the next call depends on the results of the
    calls before it, which for [submit] are the error code and the request. *)
Inductive app_prog :=
  | app_done
  | app_do (c : app_call) (k : error_code * option Z -> app_prog).

(** What the session invokes: a callback, or the read callback of a data
    provider. *)
Inductive session_event :=
  | on_begin_headers (f : frame)
  | on_header (f : frame) (name val : str) (flags : Z)
  | on_frame_recv (f : frame)
  | on_data_chunk_recv (id : Z) (data : str)
  | on_stream_close (id error_code : Z)
  | on_read_data (id : Z) (len : nat) (flags : Z).

(** One call of [nghttp2_session_mem_send]: the callbacks it invokes, then the
    bytes its pointer refers to, or a negative result. *)
Record mem_send := mk_send { send_events : list session_event; send_result : str + Z }.

(** What the transport is waiting for before it is connected. *)
Inductive phase := ph_none | ph_resolve | ph_connect | ph_handshake.

#[export] Instance phase_eq_dec : EqDecision phase.
Proof. solve_decision. Defined.

(** The members of [session_impl]: [wb] is [wb_] up to [wblen_]; [session_] says
    whether the pointer is not null; [data_pending] is [data_pendinglen_] when
    [data_pending_] is not null; [deadline] is [None] for positive infinity.

    Then the world around the session: the streams that a local variable owns
    ([limbo]: a request while [submit] writes, a stream while its close callback
    runs); the memory of the library to which the pointer returned by
    [nghttp2_session_mem_send] refers; the clock; the calls made on the library
    (latest first) and what its output functions will do ([sends] for
    [nghttp2_session_mem_send], [idles] for the negation of
    [nghttp2_session_want_read] or [nghttp2_session_want_write]); the callbacks of
    the application (latest first); the bytes handed to [write_socket] and the
    bytes the library has produced, in order; the bytes of a pending write, the
    number of pending reads, how often the socket was closed, and the pending
    operations of the resolver and the two timers. *)
Record session_impl := mk_session {
  streams : gmap Z stream;
  stopped : bool;
  writing : bool;
  inside_callback : bool;
  wb : str;
  data_pending : option nat;
  deadline : option Z;
  read_timeout : Z;
  session_ : bool;
  connect_cb : option nat;
  error_cb : option nat;
  limbo : gmap Z stream;
  sendbuf : str;
  clock : Z;
  calls : list lib_call;
  sends : list mem_send;
  idles : list bool;
  app_log : list app_event;
  wire : str;
  produced : str;
  in_flight : option str;
  reads : nat;
  closed : nat;
  connecting : phase;
  deadline_waits : nat;
  ping_waits : nat;
}.

Definition set_streams (x : gmap Z stream) (s : session_impl) : session_impl :=
  mk_session x (stopped s) (writing s) (inside_callback s) (wb s) (data_pending s) (deadline s)
    (read_timeout s) (session_ s) (connect_cb s) (error_cb s) (limbo s) (sendbuf s) (clock s) (calls s)
    (sends s) (idles s) (app_log s) (wire s) (produced s) (in_flight s) (reads s) (closed s) (connecting s)
    (deadline_waits s) (ping_waits s).
Definition set_inside (x : bool) (s : session_impl) : session_impl :=
  mk_session (streams s) (stopped s) (writing s) x (wb s) (data_pending s) (deadline s) (read_timeout s)
    (session_ s) (connect_cb s) (error_cb s) (limbo s) (sendbuf s) (clock s) (calls s) (sends s) (idles s)
    (app_log s) (wire s) (produced s) (in_flight s) (reads s) (closed s) (connecting s) (deadline_waits s)
    (ping_waits s).
Definition set_writing (x : bool) (s : session_impl) : session_impl :=
  mk_session (streams s) (stopped s) x (inside_callback s) (wb s) (data_pending s) (deadline s)
    (read_timeout s) (session_ s) (connect_cb s) (error_cb s) (limbo s) (sendbuf s) (clock s) (calls s)
    (sends s) (idles s) (app_log s) (wire s) (produced s) (in_flight s) (reads s) (closed s) (connecting s)
    (deadline_waits s) (ping_waits s).
Definition set_wb (x : str) (s : session_impl) : session_impl :=
  mk_session (streams s) (stopped s) (writing s) (inside_callback s) x (data_pending s) (deadline s)
    (read_timeout s) (session_ s) (connect_cb s) (error_cb s) (limbo s) (sendbuf s) (clock s) (calls s)
    (sends s) (idles s) (app_log s) (wire s) (produced s) (in_flight s) (reads s) (closed s) (connecting s)
    (deadline_waits s) (ping_waits s).
Definition set_data_pending (x : option nat) (s : session_impl) : session_impl :=
  mk_session (streams s) (stopped s) (writing s) (inside_callback s) (wb s) x (deadline s) (read_timeout s)
    (session_ s) (connect_cb s) (error_cb s) (limbo s) (sendbuf s) (clock s) (calls s) (sends s) (idles s)
    (app_log s) (wire s) (produced s) (in_flight s) (reads s) (closed s) (connecting s) (deadline_waits s)
    (ping_waits s).
Definition set_deadline (x : option Z) (s : session_impl) : session_impl :=
  mk_session (streams s) (stopped s) (writing s) (inside_callback s) (wb s) (data_pending s) x
    (read_timeout s) (session_ s) (connect_cb s) (error_cb s) (limbo s) (sendbuf s) (clock s) (calls s)
    (sends s) (idles s) (app_log s) (wire s) (produced s) (in_flight s) (reads s) (closed s) (connecting s)
    (deadline_waits s) (ping_waits s).
Definition set_read_timeout (x : Z) (s : session_impl) : session_impl :=
  mk_session (streams s) (stopped s) (writing s) (inside_callback s) (wb s) (data_pending s) (deadline s) x
    (session_ s) (connect_cb s) (error_cb s) (limbo s) (sendbuf s) (clock s) (calls s) (sends s) (idles s)
    (app_log s) (wire s) (produced s) (in_flight s) (reads s) (closed s) (connecting s) (deadline_waits s)
    (ping_waits s).
Definition set_session (x : bool) (s : session_impl) : session_impl :=
  mk_session (streams s) (stopped s) (writing s) (inside_callback s) (wb s) (data_pending s) (deadline s)
    (read_timeout s) x (connect_cb s) (error_cb s) (limbo s) (sendbuf s) (clock s) (calls s) (sends s)
    (idles s) (app_log s) (wire s) (produced s) (in_flight s) (reads s) (closed s) (connecting s)
    (deadline_waits s) (ping_waits s).
Definition set_connect_cb (x : option nat) (s : session_impl) : session_impl :=
  mk_session (streams s) (stopped s) (writing s) (inside_callback s) (wb s) (data_pending s) (deadline s)
    (read_timeout s) (session_ s) x (error_cb s) (limbo s) (sendbuf s) (clock s) (calls s) (sends s)
    (idles s) (app_log s) (wire s) (produced s) (in_flight s) (reads s) (closed s) (connecting s)
    (deadline_waits s) (ping_waits s).
Definition set_error_cb (x : option nat) (s : session_impl) : session_impl :=
  mk_session (streams s) (stopped s) (writing s) (inside_callback s) (wb s) (data_pending s) (deadline s)
    (read_timeout s) (session_ s) (connect_cb s) x (limbo s) (sendbuf s) (clock s) (calls s) (sends s)
    (idles s) (app_log s) (wire s) (produced s) (in_flight s) (reads s) (closed s) (connecting s)
    (deadline_waits s) (ping_waits s).
Definition set_limbo (x : gmap Z stream) (s : session_impl) : session_impl :=
  mk_session (streams s) (stopped s) (writing s) (inside_callback s) (wb s) (data_pending s) (deadline s)
    (read_timeout s) (session_ s) (connect_cb s) (error_cb s) x (sendbuf s) (clock s) (calls s) (sends s)
    (idles s) (app_log s) (wire s) (produced s) (in_flight s) (reads s) (closed s) (connecting s)
    (deadline_waits s) (ping_waits s).
Definition set_sends (x : list mem_send) (s : session_impl) : session_impl :=
  mk_session (streams s) (stopped s) (writing s) (inside_callback s) (wb s) (data_pending s) (deadline s)
    (read_timeout s) (session_ s) (connect_cb s) (error_cb s) (limbo s) (sendbuf s) (clock s) (calls s) x
    (idles s) (app_log s) (wire s) (produced s) (in_flight s) (reads s) (closed s) (connecting s)
    (deadline_waits s) (ping_waits s).
Definition set_idles (x : list bool) (s : session_impl) : session_impl :=
  mk_session (streams s) (stopped s) (writing s) (inside_callback s) (wb s) (data_pending s) (deadline s)
    (read_timeout s) (session_ s) (connect_cb s) (error_cb s) (limbo s) (sendbuf s) (clock s) (calls s)
    (sends s) x (app_log s) (wire s) (produced s) (in_flight s) (reads s) (closed s) (connecting s)
    (deadline_waits s) (ping_waits s).
Definition set_in_flight (x : option str) (s : session_impl) : session_impl :=
  mk_session (streams s) (stopped s) (writing s) (inside_callback s) (wb s) (data_pending s) (deadline s)
    (read_timeout s) (session_ s) (connect_cb s) (error_cb s) (limbo s) (sendbuf s) (clock s) (calls s)
    (sends s) (idles s) (app_log s) (wire s) (produced s) x (reads s) (closed s) (connecting s)
    (deadline_waits s) (ping_waits s).
Definition set_reads (x : nat) (s : session_impl) : session_impl :=
  mk_session (streams s) (stopped s) (writing s) (inside_callback s) (wb s) (data_pending s) (deadline s)
    (read_timeout s) (session_ s) (connect_cb s) (error_cb s) (limbo s) (sendbuf s) (clock s) (calls s)
    (sends s) (idles s) (app_log s) (wire s) (produced s) (in_flight s) x (closed s) (connecting s)
    (deadline_waits s) (ping_waits s).
Definition set_connecting (x : phase) (s : session_impl) : session_impl :=
  mk_session (streams s) (stopped s) (writing s) (inside_callback s) (wb s) (data_pending s) (deadline s)
    (read_timeout s) (session_ s) (connect_cb s) (error_cb s) (limbo s) (sendbuf s) (clock s) (calls s)
    (sends s) (idles s) (app_log s) (wire s) (produced s) (in_flight s) (reads s) (closed s) x
    (deadline_waits s) (ping_waits s).
Definition set_deadline_waits (x : nat) (s : session_impl) : session_impl :=
  mk_session (streams s) (stopped s) (writing s) (inside_callback s) (wb s) (data_pending s) (deadline s)
    (read_timeout s) (session_ s) (connect_cb s) (error_cb s) (limbo s) (sendbuf s) (clock s) (calls s)
    (sends s) (idles s) (app_log s) (wire s) (produced s) (in_flight s) (reads s) (closed s) (connecting s)
    x (ping_waits s).
Definition set_ping_waits (x : nat) (s : session_impl) : session_impl :=
  mk_session (streams s) (stopped s) (writing s) (inside_callback s) (wb s) (data_pending s) (deadline s)
    (read_timeout s) (session_ s) (connect_cb s) (error_cb s) (limbo s) (sendbuf s) (clock s) (calls s)
    (sends s) (idles s) (app_log s) (wire s) (produced s) (in_flight s) (reads s) (closed s) (connecting s)
    (deadline_waits s) x.
Definition add_call (c : lib_call) (s : session_impl) : session_impl :=
  mk_session (streams s) (stopped s) (writing s) (inside_callback s) (wb s) (data_pending s) (deadline s)
    (read_timeout s) (session_ s) (connect_cb s) (error_cb s) (limbo s) (sendbuf s) (clock s) (c :: calls s)
    (sends s) (idles s) (app_log s) (wire s) (produced s) (in_flight s) (reads s) (closed s) (connecting s)
    (deadline_waits s) (ping_waits s).
Definition add_event (e : app_event) (s : session_impl) : session_impl :=
  mk_session (streams s) (stopped s) (writing s) (inside_callback s) (wb s) (data_pending s) (deadline s)
    (read_timeout s) (session_ s) (connect_cb s) (error_cb s) (limbo s) (sendbuf s) (clock s) (calls s)
    (sends s) (idles s) (e :: app_log s) (wire s) (produced s) (in_flight s) (reads s) (closed s)
    (connecting s) (deadline_waits s) (ping_waits s).
(** The world at the start of a step: the time, and what the library will do. *)
Definition set_world (now : Z) (l : list mem_send) (i : list bool) (s : session_impl) : session_impl :=
  mk_session (streams s) (stopped s) (writing s) (inside_callback s) (wb s) (data_pending s) (deadline s)
    (read_timeout s) (session_ s) (connect_cb s) (error_cb s) (limbo s) (sendbuf s) now (calls s) l i
    (app_log s) (wire s) (produced s) (in_flight s) (reads s) (closed s) (connecting s) (deadline_waits s)
    (ping_waits s).
(** A result of [nghttp2_session_mem_send]. *)
Definition produce (data : str) (s : session_impl) : session_impl :=
  mk_session (streams s) (stopped s) (writing s) (inside_callback s) (wb s) (data_pending s) (deadline s)
    (read_timeout s) (session_ s) (connect_cb s) (error_cb s) (limbo s) data (clock s) (calls s) (sends s)
    (idles s) (app_log s) (wire s) (produced s ++ data) (in_flight s) (reads s) (closed s) (connecting s)
    (deadline_waits s) (ping_waits s).
(** [write_socket]: the first [wblen_] bytes of [wb_]. *)
Definition write_socket (s : session_impl) : session_impl :=
  mk_session (streams s) (stopped s) (writing s) (inside_callback s) (wb s) (data_pending s) (deadline s)
    (read_timeout s) (session_ s) (connect_cb s) (error_cb s) (limbo s) (sendbuf s) (clock s) (calls s)
    (sends s) (idles s) (app_log s) (wire s ++ wb s) (produced s) (Some (wb s)) (reads s) (closed s)
    (connecting s) (deadline_waits s) (ping_waits s).
(** [shutdown_socket], and [stopped_]; the waits that [cancel] ends stay to be completed. *)
Definition mark_stopped (s : session_impl) : session_impl :=
  mk_session (streams s) true (writing s) (inside_callback s) (wb s) (data_pending s) (deadline s)
    (read_timeout s) (session_ s) (connect_cb s) (error_cb s) (limbo s) (sendbuf s) (clock s) (calls s)
    (sends s) (idles s) (app_log s) (wire s) (produced s) (in_flight s) (reads s) (S (closed s))
    (connecting s) (deadline_waits s) (ping_waits s).

Definition WB_SIZE : nat := Z.to_nat (64 * 1024).
Definition WINDOW_SIZE : Z := 256 * 1024 * 1024.
Definition HEADER_LIMIT : Z := 64 * 1024.

(** [boost::asio::error::timed_out] (ETIMEDOUT) *)
Definition ec_timed_out : error_code := {| ec_value := 110; ec_cat := cat_system |}.
Definition NGHTTP2_ERR_PROTO : Z := -505.

Local Abbreviation M := (monad.M session_impl).

(** The user must not use a request after its close notification, nor the session
    before it is connected. *)
#[export] Instance client_misuse : Misuse := fun e => e = dangling_stream \/ e = null_session.

(** The application: the program it runs when one of its callbacks is invoked,
    and what its generators return, the flags to set in [*data_flags] included. *)
Class App := {
  app_react : session_impl -> app_event -> app_prog;
  app_gen : list app_event -> nat -> nat -> gen_ret * Z;
}.

(** [util::ipv6_numeric_addr], which asks [inet_pton]. *)
Class Inet := ipv6_numeric_addr : str -> bool.

(** Setters of the members that the operations change. *)
Definition set_on_response (c : nat) (r : request_impl) : request_impl :=
  mk_req (rq_header r) (Some c) (rq_on_push r) (rq_on_close r) (rq_generator r) (rq_uri r) (rq_method r)
    (rq_header_buffer_size r).
Definition set_on_push (c : nat) (r : request_impl) : request_impl :=
  mk_req (rq_header r) (rq_on_response r) (Some c) (rq_on_close r) (rq_generator r) (rq_uri r) (rq_method r)
    (rq_header_buffer_size r).
Definition set_on_close (c : nat) (r : request_impl) : request_impl :=
  mk_req (rq_header r) (rq_on_response r) (rq_on_push r) (Some c) (rq_generator r) (rq_uri r) (rq_method r)
    (rq_header_buffer_size r).
Definition set_generator (g : generator) (r : request_impl) : request_impl :=
  mk_req (rq_header r) (rq_on_response r) (rq_on_push r) (rq_on_close r) g (rq_uri r) (rq_method r)
    (rq_header_buffer_size r).
Definition set_uri (u : uri_ref) (r : request_impl) : request_impl :=
  mk_req (rq_header r) (rq_on_response r) (rq_on_push r) (rq_on_close r) (rq_generator r) u (rq_method r)
    (rq_header_buffer_size r).
Definition set_method (m : str) (r : request_impl) : request_impl :=
  mk_req (rq_header r) (rq_on_response r) (rq_on_push r) (rq_on_close r) (rq_generator r) (rq_uri r) m
    (rq_header_buffer_size r).
Definition set_header (h : header_map) (n : Z) (r : request_impl) : request_impl :=
  mk_req h (rq_on_response r) (rq_on_push r) (rq_on_close r) (rq_generator r) (rq_uri r) (rq_method r) n.

Definition set_on_data (c : nat) (r : response_impl) : response_impl :=
  mk_res (Some c) (rs_header r) (rs_content_length r) (rs_header_buffer_size r) (rs_status_code r).
Definition set_res_header (h : header_map) (n : Z) (r : response_impl) : response_impl :=
  mk_res (rs_on_data r) h (rs_content_length r) n (rs_status_code r).
Definition set_content_length (n : Z) (r : response_impl) : response_impl :=
  mk_res (rs_on_data r) (rs_header r) n (rs_header_buffer_size r) (rs_status_code r).
(** [response_impl::status_code(int)]; the argument is converted to [int]. *)
Definition set_status_code (n : Z) (r : response_impl) : response_impl :=
  mk_res (rs_on_data r) (rs_header r) (rs_content_length r) (rs_header_buffer_size r)
    ((n + 2147483648) mod 4294967296 - 2147483648).

(** [stream::expect_final_response] *)
Definition expect_final_response (s : stream) : bool := Z.quot (rs_status_code (st_response s)) 100 =? 1.

(** ** Streams *)

Definition find_stream (id : Z) : M (option stream) := s <- get;; ret (streams s !! id).

(** The stream that a reference designates, in the table or owned by a local
    variable: it must not have been destroyed. *)
Definition the_stream (id : Z) : M stream :=
  s <- get;;
  match streams s !! id with
  | Some st => ret st
  | None => match limbo s !! id with Some st => ret st | None => fail dangling_stream end
  end.

Definition put (id : Z) (st : stream) (s : session_impl) : session_impl :=
  match streams s !! id with
  | Some _ => set_streams (<[id := st]> (streams s)) s
  | None => set_limbo (<[id := st]> (limbo s)) s
  end.

Definition put_stream (id : Z) (st : stream) : M unit := modify (put id st).

Definition update_request (id : Z) (f : request_impl -> request_impl) : M unit :=
  st <- the_stream id;; put_stream id (mk_stream (f (st_request st)) (st_response st) (st_id st)).

Definition update_response (id : Z) (f : response_impl -> response_impl) : M unit :=
  st <- the_stream id;; put_stream id (mk_stream (st_request st) (f (st_response st)) (st_id st)).

(** [streams_.emplace] and the assertion that follows it. *)
Definition emplace_stream (id : Z) (st : stream) : M unit :=
  o <- find_stream id;;
  match o with
  | Some _ => fail assertion_failed
  | None => modify (fun s => set_streams (<[id := st]> (streams s)) s)
  end.

Definition create_push_stream (id : Z) : M unit :=
  emplace_stream id {| st_request := new_request; st_response := new_response; st_id := id |}.

Definition start_ping : M unit := modify (fun s => set_ping_waits (S (ping_waits s)) s).

(** [pop_stream]: the stream is owned by the caller. *)
Definition pop_stream (id : Z) : M (option stream) :=
  o <- find_stream id;;
  match o with
  | None => ret None
  | Some st =>
    modify (fun s => set_limbo (<[id := st]> (limbo s)) (set_streams (delete id (streams s)) s));;
    s <- get;;
    (if decide (streams s = ∅) then start_ping else ret tt);;
    ret (Some st)
  end.

(** The end of the life of a stream that a local variable owns. *)
Definition drop_stream (id : Z) : M unit := modify (fun s => set_limbo (delete id (limbo s)) s).

(** ** Callbacks and stopping *)

Definition enter_callback : M unit :=
  s <- get;; assert_ (negb (inside_callback s));; modify (set_inside true).

Definition leave_callback : M unit :=
  s <- get;; assert_ (inside_callback s);; modify (set_inside false).

Definition stop : M unit := s <- get;; if stopped s then ret tt else modify mark_stopped.

(** A function of the session, which is not a null pointer: called by
    [session_impl] itself, or on behalf of the application. *)
Definition lib `{Nghttp2} (c : lib_call) : M Z := fun s =>
  if session_ s then Done (lib_ret (calls s) c) (add_call c s) else Failed memory_error.

Definition app_lib `{Nghttp2} (c : lib_call) : M Z := fun s =>
  if session_ s then Done (lib_ret (calls s) c) (add_call c s) else Failed null_session.

(** [!nghttp2_session_want_read(session_) && !nghttp2_session_want_write(session_)] *)
Definition session_idle : M bool := fun s =>
  if session_ s then
    match idles s with
    | [] => Done false s
    | b :: l => Done b (set_idles l s)
    end
  else Failed memory_error.

Definition should_stop : M bool := s <- get;; if writing s then ret false else session_idle.

(** ** Submitting *)

Definition header_nva (h : header_map) : list nghttp2_nv :=
  map (fun hd => make_nv hd.1 (value hd.2) (sensitive hd.2)) h.

Definition has_generator (g : generator) : bool := match g with gen_empty => false | _ => true end.

(** The part of [submit] that reads the URI: the [uri_ref] of the request and the
    value of [:path]; [Some None] is an invalid URI, [None] a read outside the
    string. *)
Definition submit_uri `{Inet} (uri : str) : option (option (uri_ref * str)) :=
  match url_parser.http_parser_parse_url uri false url_parser.http_parser_url_init with
  | url_parser.PBad => None
  | url_parser.PErr => Some None
  | url_parser.POk u =>
    if negb (url_parser.has_field u url_parser.UF_SCHEMA) || negb (url_parser.has_field u url_parser.UF_HOST)
    then Some None
    else
      match url_parser.copy_url_component [] u url_parser.UF_SCHEMA uri,
            url_parser.copy_url_component [] u url_parser.UF_HOST uri,
            url_parser.copy_url_component [] u url_parser.UF_PATH uri,
            url_parser.copy_url_component [] u url_parser.UF_QUERY uri with
      | url_parser.POk sch, url_parser.POk hst, url_parser.POk rp, url_parser.POk rq =>
        let hst := if ipv6_numeric_addr hst then "["%char :: hst ++ ["]"%char] else hst in
        let hst := if url_parser.has_field u url_parser.UF_PORT
                   then hst ++ ":"%char :: util.utos (url_parser.port u) else hst in
        let rp := if (length rp =? 0)%nat then lit "/" else rp in
        let p := if url_parser.has_field u url_parser.UF_QUERY then rp ++ "?"%char :: rq else rp in
        Some (Some (mk_uri sch hst (util.percent_decode rp) rp rq [], p))
      | _, _, _, _ => None
      end
  end.

Definition request_nva (method p : str) (u : uri_ref) (h : header_map) : list nghttp2_nv :=
  make_nv_ls ":method" method :: make_nv_ls ":scheme" (scheme u) :: make_nv_ls ":path" p
    :: make_nv_ls ":authority" (host u) :: header_nva h.

Section session.
Context `{Nghttp2} `{App} `{Inet}.

(** What [do_write] does is given: it is defined below from the callbacks, and
    must not be called while one of them runs. *)
Section signal.
Context (do_write : M unit).

Definition signal_write : M unit :=
  s <- get;; if negb (inside_callback s) then do_write else ret tt.

Definition write_trailer (id : Z) (h : header_map) : M Z :=
  st <- the_stream id;;
  rv <- app_lib (submit_trailer (st_id st) (header_nva h));;
  if negb (rv =? 0) then ret (-1) else signal_write;; ret 0.

Definition cancel (id error_code : Z) : M unit :=
  st <- the_stream id;;
  s <- get;;
  if stopped s then ret tt
  else app_lib (submit_rst_stream (st_id st) error_code);; signal_write.

Definition resume (id : Z) : M unit :=
  st <- the_stream id;;
  s <- get;;
  if stopped s then ret tt
  else app_lib (session_resume_data (st_id st));; signal_write.

Definition shutdown : M unit :=
  s <- get;;
  if stopped s then ret tt
  else app_lib (session_terminate NGHTTP2_NO_ERROR);; signal_write.

(** [submit]: the error code and the request.  The stream is owned by the
    function until [signal_write] has returned. *)
Definition submit (method uri : str) (g : generator) (h : header_map) (prio : priority_spec)
    : M (error_code * option Z) :=
  s <- get;;
  if stopped s then ret (make_error_code_nghttp2 NGHTTP2_INTERNAL_ERROR, None)
  else
    match submit_uri uri with
    | None => fail memory_error
    | Some None => ret (ec_invalid_argument, None)
    | Some (Some (u, p)) =>
      let req := set_header h 0 (set_uri u new_request) in
      let req := if has_generator g then set_generator g req else req in
      stream_id <- app_lib (submit_request prio (request_nva method p u h) (has_generator g));;
      if stream_id <? 0 then ret (make_error_code_nghttp2 stream_id, None)
      else
        modify (fun s => set_limbo (<[stream_id := mk_stream req new_response 0]> (limbo s)) s);;
        signal_write;;
        st <- the_stream stream_id;;
        drop_stream stream_id;;
        emplace_stream stream_id (mk_stream (st_request st) (st_response st) stream_id);;
        ret (ec_ok, Some stream_id)
    end.

(** ** The application *)

Definition run_app_call (c : app_call) : M (error_code * option Z) :=
  match c with
  | call_submit method uri g h prio => submit method uri g h prio
  | call_write_trailer id h => write_trailer id h;; ret (ec_ok, None)
  | call_cancel id error_code => cancel id error_code;; ret (ec_ok, None)
  | call_resume id => resume id;; ret (ec_ok, None)
  | call_on_response id cb => update_request id (set_on_response cb);; ret (ec_ok, None)
  | call_on_push id cb => update_request id (set_on_push cb);; ret (ec_ok, None)
  | call_on_close id cb => update_request id (set_on_close cb);; ret (ec_ok, None)
  | call_on_data id cb => update_response id (set_on_data cb);; ret (ec_ok, None)
  | call_on_connect cb => modify (set_connect_cb (Some cb));; ret (ec_ok, None)
  | call_on_error cb => modify (set_error_cb (Some cb));; ret (ec_ok, None)
  | call_read_timeout t => modify (set_read_timeout t);; ret (ec_ok, None)
  | call_shutdown => shutdown;; ret (ec_ok, None)
  end.

Fixpoint run_prog (p : app_prog) : M unit :=
  match p with
  | app_done => ret tt
  | app_do c k => r <- run_app_call c;; run_prog (k r)
  end.

(** A callback of the application with the program it runs. *)
Definition react (e : app_event) : M unit :=
  modify (add_event e);; s <- get;; run_prog (app_react s e).

Definition call_error_cb (ec : error_code) : M unit :=
  s <- get;;
  if stopped s then ret tt
  else match error_cb s with Some cb => react (app_error cb ec) | None => ret tt end.

(** [request_impl::call_on_response], [call_on_push], [call_on_close] and
    [response_impl::call_on_data]; an empty [data] signals the end. *)
Definition call_on_response_cb (id : Z) : M unit :=
  st <- the_stream id;;
  match rq_on_response (st_request st) with Some cb => react (app_response cb id) | None => ret tt end.

Definition call_on_push_cb (id promised : Z) : M unit :=
  st <- the_stream id;;
  match rq_on_push (st_request st) with Some cb => react (app_push cb id promised) | None => ret tt end.

Definition call_on_close_cb (id error_code : Z) : M unit :=
  st <- the_stream id;;
  match rq_on_close (st_request st) with Some cb => react (app_close cb id error_code) | None => ret tt end.

Definition call_on_data_cb (id : Z) (data : str) : M unit :=
  st <- the_stream id;;
  match rs_on_data (st_response st) with Some cb => react (app_data cb id data) | None => ret tt end.

(** [request_impl::call_on_read]: what it returns and [*data_flags]. *)
Definition call_on_read (id : Z) (len : nat) (flags : Z) : M (gen_ret * Z) :=
  st <- the_stream id;;
  match rq_generator (st_request st) with
  | gen_empty => ret (GRead [], Z.lor flags NGHTTP2_DATA_FLAG_EOF)
  | gen_deferred => ret (deferred_generator_call len flags)
  | gen_string data remaining =>
    let '(r, flags, remaining) := string_generator_call data remaining len flags in
    update_request id (set_generator (gen_string data remaining));;
    ret (r, flags)
  | gen_user cb =>
    s <- get;;
    let '(r, fl) := app_gen (app_log s) cb len in
    react (app_generate cb id len);;
    ret (r, Z.lor flags fl)
  end.

(** ** Callbacks of the session *)

Definition on_begin_headers_callback (f : frame) : M unit :=
  if negb (bool_decide (hd_type f = NGHTTP2_PUSH_PROMISE)) then ret tt
  else create_push_stream (promised_stream_id f).

Definition no_index (flags : Z) : bool := has_flag flags NGHTTP2_NV_FLAG_NO_INDEX.

Definition name_value_size (name val : str) : Z := Z.of_nat (length name) + Z.of_nat (length val).

(** The case [NGHTTP2_HEADERS] of [on_header_callback], for the stream [st]. *)
Definition on_response_header (f : frame) (st : stream) (name val : str) (flags : Z) : M unit :=
  let id := hd_stream_id f in
  if bool_decide (cat f = NGHTTP2_HCAT_HEADERS) && negb (expect_final_response st) then ret tt
  else
    match lookup_token name with
    | Some HD__STATUS => update_response id (set_status_code (util.parse_uint val))
    | token =>
      if HEADER_LIMIT <? rs_header_buffer_size (st_response st) + name_value_size name val
      then lib (submit_rst_stream id NGHTTP2_INTERNAL_ERROR);; ret tt
      else
        update_response id (fun r =>
          let r := set_res_header (rs_header r) (rs_header_buffer_size r + name_value_size name val) r in
          let r := if bool_decide (token = Some HD_CONTENT_LENGTH)
                   then set_content_length (util.parse_uint val) r else r in
          set_res_header (emplace (rs_header r) name {| value := val; sensitive := no_index flags |})
            (rs_header_buffer_size r) r)
    end.

Definition update_uri (id : Z) (f : uri_ref -> uri_ref) : M unit :=
  update_request id (fun r => set_uri (f (rq_uri r)) r).

(** The [default] case for the fields of a PUSH_PROMISE, which [HD_HOST] falls
    through to: the stream that is reset is the one the frame was received on. *)
Definition add_push_header (f : frame) (name val : str) (flags : Z) : M unit :=
  let id := promised_stream_id f in
  st <- the_stream id;;
  if HEADER_LIMIT <? rq_header_buffer_size (st_request st) + name_value_size name val
  then lib (submit_rst_stream (hd_stream_id f) NGHTTP2_INTERNAL_ERROR);; ret tt
  else
    update_request id (fun r =>
      set_header (emplace (rq_header r) name {| value := val; sensitive := no_index flags |})
        (rq_header_buffer_size r + name_value_size name val) r).

(** The case [NGHTTP2_PUSH_PROMISE], for the promised stream [st]. *)
Definition on_push_header (f : frame) (st : stream) (name val : str) (flags : Z) : M unit :=
  let id := promised_stream_id f in
  match lookup_token name with
  | Some HD__METHOD => update_request id (set_method val)
  | Some HD__SCHEME => update_uri id (set_scheme val)
  | Some HD__PATH => update_uri id (fun u => split_path u val)
  | Some HD__AUTHORITY => update_uri id (set_host val)
  | Some HD_HOST =>
    (if (length (host (rq_uri (st_request st))) =? 0)%nat then update_uri id (set_host val) else ret tt);;
    add_push_header f name val flags
  | _ => add_push_header f name val flags
  end.

Definition on_header_callback (f : frame) (name val : str) (flags : Z) : M unit :=
  match hd_type f with
  | NGHTTP2_HEADERS =>
    o <- find_stream (hd_stream_id f);;
    match o with None => ret tt | Some st => on_response_header f st name val flags end
  | NGHTTP2_PUSH_PROMISE =>
    o <- find_stream (promised_stream_id f);;
    match o with None => ret tt | Some st => on_push_header f st name val flags end
  | _ => ret tt
  end.

Definition on_frame_recv_callback (f : frame) : M unit :=
  let id := hd_stream_id f in
  o <- find_stream id;;
  match o, hd_type f with
  | Some st, NGHTTP2_DATA =>
    if has_flag (hd_flags f) NGHTTP2_FLAG_END_STREAM then call_on_data_cb id [] else ret tt
  | Some st, NGHTTP2_HEADERS =>
    if bool_decide (cat f = NGHTTP2_HCAT_HEADERS) && negb (expect_final_response st) then ret tt
    else if expect_final_response st then ret tt
    else
      call_on_response_cb id;;
      if has_flag (hd_flags f) NGHTTP2_FLAG_END_STREAM then call_on_data_cb id [] else ret tt
  | Some st, NGHTTP2_PUSH_PROMISE =>
    p <- find_stream (promised_stream_id f);;
    match p with
    | None => ret tt
    | Some _ => call_on_push_cb id (promised_stream_id f)
    end
  | _, _ => ret tt
  end.

Definition on_data_chunk_recv_callback (id : Z) (data : str) : M unit :=
  o <- find_stream id;;
  match o with None => ret tt | Some _ => call_on_data_cb id data end.

Definition on_stream_close_callback (id error_code : Z) : M unit :=
  o <- pop_stream id;;
  match o with
  | None => ret tt
  | Some _ => call_on_close_cb id error_code;; drop_stream id
  end.

Definition run_callback (e : session_event) : M unit :=
  match e with
  | on_begin_headers f => on_begin_headers_callback f
  | on_header f name val flags => on_header_callback f name val flags
  | on_frame_recv f => on_frame_recv_callback f
  | on_data_chunk_recv id data => on_data_chunk_recv_callback id data
  | on_stream_close id error_code => on_stream_close_callback id error_code
  | on_read_data id len flags => call_on_read id len flags;; ret tt
  end.

End signal.

(** ** Writing *)

(** Callbacks run between [enter_callback] and [leave_callback], where
    [signal_write] does not write. *)
Definition nested : M unit := fail nested_write.

(** The bytes left over from the last write. *)
Definition copy_pending : M unit :=
  s <- get;;
  match data_pending s with
  | None => ret tt
  | Some n =>
    (if (length (wb s) + n <=? WB_SIZE)%nat then ret tt else fail buffer_overflow);;
    modify (set_wb (wb s ++ take n (sendbuf s)));;
    modify (set_data_pending None)
  end.

(** The loop of [do_write] over what the library does, which returns 0 when
    nothing is left; the result is [false] after an error. *)
Fixpoint write_loop (l : list mem_send) : M bool :=
  match l with
  | [] => ret true
  | x :: rest =>
    modify (set_sends rest);;
    forM (send_events x) (run_callback nested);;
    match send_result x with
    | inr n => call_error_cb nested (make_error_code_nghttp2 n);; stop;; ret false
    | inl data =>
      modify (produce data);;
      if (length data =? 0)%nat then ret true
      else
        s <- get;;
        if (WB_SIZE <? length (wb s) + length data)%nat
        then modify (set_data_pending (Some (length data)));; ret true
        else modify (set_wb (wb s ++ data));; write_loop rest
    end
  end.

(** The calls of [nghttp2_session_mem_send] on [session_]. *)
Definition mem_send_loop : M bool :=
  s <- get;; if session_ s then write_loop (sends s) else fail memory_error.

Definition do_write : M unit :=
  s <- get;;
  if stopped s then ret tt
  else if writing s then ret tt
  else
    copy_pending;;
    enter_callback;;
    ok <- mem_send_loop;;
    leave_callback;;
    if negb ok then ret tt
    else
      s <- get;;
      if (length (wb s) =? 0)%nat then b <- should_stop;; if b then stop else ret tt
      else
        modify (set_writing true);;
        modify (fun s => set_deadline (Some (clock s + read_timeout s)) s);;
        modify write_socket.

(** The completion of a write, with its error. *)
Definition write_handler (ec : option error_code) : M unit :=
  match ec with
  | Some ec => call_error_cb do_write ec;; stop
  | None => modify (set_wb []);; modify (set_writing false);; do_write
  end.

(** ** Reading *)

Definition do_read : M unit :=
  s <- get;;
  if stopped s then ret tt
  else
    modify (set_deadline (Some (clock s + read_timeout s)));;
    modify (fun s => set_reads (S (reads s)) s).

(** The completion of a read of [n] bytes: the callbacks that
    [nghttp2_session_mem_recv] invokes for them, and its return value. *)
Definition read_handler (ec : option error_code) (evs : list session_event) (rv n : Z) : M unit :=
  match ec with
  | Some ec => b <- should_stop;; (if b then ret tt else call_error_cb do_write ec);; stop
  | None =>
    enter_callback;;
    forM evs (run_callback nested);;
    if negb (rv =? n) then
      call_error_cb nested (make_error_code_nghttp2 (if rv <? 0 then rv else NGHTTP2_ERR_PROTO));;
      stop;;
      leave_callback
    else
      leave_callback;;
      do_write;;
      b <- should_stop;;
      if b then stop else do_read
  end.

(** ** Connecting *)

(** [setup_session]: [rv] is the result of [nghttp2_session_client_new]. *)
Definition setup_session (rv : Z) : M bool :=
  if negb (rv =? 0) then call_error_cb do_write (make_error_code_nghttp2 rv);; ret false
  else
    modify (set_session true);;
    lib (submit_settings [(NGHTTP2_SETTINGS_MAX_CONCURRENT_STREAMS, 100);
                          (NGHTTP2_SETTINGS_INITIAL_WINDOW_SIZE, WINDOW_SIZE)]);;
    lib (session_set_local_window_size 0 WINDOW_SIZE);;
    ret true.

(** [no_delay] is the error of [set_option], which it throws: the handler ends, and
    the exception reaches the application through [io_service::run]. *)
Definition connected (rv no_delay : Z) : M unit :=
  b <- setup_session rv;;
  if negb b then ret tt
  else if negb (no_delay =? 0) then modify (add_event (app_exception no_delay))
  else
    do_write;;
    do_read;;
    start_ping;;
    s <- get;;
    match connect_cb s with Some cb => react do_write (app_connect cb) | None => ret tt end.

Definition not_connected (ec : error_code) : M unit := call_error_cb do_write ec;; stop.

Definition handle_deadline : M unit :=
  s <- get;;
  if stopped s then ret tt
  else if match deadline s with Some d => d <=? clock s | None => false end then
    call_error_cb do_write ec_timed_out;;
    stop;;
    modify (set_deadline None)
  else modify (fun s => set_deadline_waits (S (deadline_waits s)) s).

Definition handle_ping (aborted : bool) : M unit :=
  s <- get;;
  if stopped s || aborted || negb (bool_decide (streams s = ∅)) then ret tt
  else lib submit_ping;; signal_write do_write;; start_ping.

(** [start_resolve], after the constructor. *)
Definition start_resolve (connect_timeout : Z) : M unit :=
  modify (fun s => set_deadline (Some (clock s + connect_timeout)) s);;
  modify (set_connecting ph_resolve);;
  modify (fun s => set_deadline_waits (S (deadline_waits s)) s).

Definition resolve_handler (ec : option error_code) : M unit :=
  match ec with
  | Some ec => not_connected ec
  | None => modify (set_connecting ph_connect)
  end.

(** The completion of [async_connect]: the TLS transport goes on with the
    handshake. *)
Definition connect_handler (tls : bool) (ec : option error_code) (rv no_delay : Z) : M unit :=
  s <- get;;
  if stopped s then ret tt
  else
    match ec with
    | Some ec => not_connected ec
    | None => if tls then modify (set_connecting ph_handshake) else connected rv no_delay
    end.

(** The completion of [async_handshake], with the protocols that NPN and ALPN
    report. *)
Definition handshake_handler (ec : option error_code) (npn alpn : option str) (rv no_delay : Z) : M unit :=
  s <- get;;
  if stopped s then ret tt
  else
    match ec with
    | Some ec => not_connected ec
    | None =>
      if negb (tls_h2_negotiated npn alpn)
      then not_connected (make_error_code_asio NGHTTP2_ASIO_ERR_TLS_NO_APP_PROTO_NEGOTIATED)
      else connected rv no_delay
    end.

(** ** Executions *)

(** A pending operation completes, or the application runs a program outside the
    callbacks.  A completion without a pending operation is no step. *)
Inductive cevent :=
  | ce_resolve (ec : option error_code)
  | ce_connect (ec : option error_code) (rv no_delay : Z)
  | ce_handshake (ec : option error_code) (npn alpn : option str) (rv no_delay : Z)
  | ce_read (ec : option error_code) (evs : list session_event) (rv n : Z)
  | ce_write (ec : option error_code)
  | ce_deadline
  | ce_ping (aborted : bool)
  | ce_app (p : app_prog).

Definition complete (p : phase) (m : M unit) : M unit :=
  s <- get;; if decide (connecting s = p) then modify (set_connecting ph_none);; m else ret tt.

Definition run_cevent (tls : bool) (e : cevent) : M unit :=
  match e with
  | ce_resolve ec => complete ph_resolve (resolve_handler ec)
  | ce_connect ec rv no_delay => complete ph_connect (connect_handler tls ec rv no_delay)
  | ce_handshake ec npn alpn rv no_delay => complete ph_handshake (handshake_handler ec npn alpn rv no_delay)
  | ce_read ec evs rv n =>
    s <- get;;
    match reads s with O => ret tt | S k => modify (set_reads k);; read_handler ec evs rv n end
  | ce_write ec =>
    s <- get;;
    match in_flight s with None => ret tt | Some _ => modify (set_in_flight None);; write_handler ec end
  | ce_deadline =>
    s <- get;;
    match deadline_waits s with O => ret tt | S k => modify (set_deadline_waits k);; handle_deadline end
  | ce_ping aborted =>
    s <- get;;
    match ping_waits s with O => ret tt | S k => modify (set_ping_waits k);; handle_ping aborted end
  | ce_app p => run_prog do_write p
  end.

(** A step: the time, what the library will do in it, and the event. *)
Record step := mk_step { sp_now : Z; sp_sends : list mem_send; sp_idles : list bool; sp_event : cevent }.

Definition run_step (tls : bool) (x : step) : M unit :=
  modify (set_world (sp_now x) (sp_sends x) (sp_idles x));; run_cevent tls (sp_event x).

Definition run (tls : bool) (connect_timeout : Z) (steps : list step) : M unit :=
  start_resolve connect_timeout;; forM steps (run_step tls).

End session.

(** The constructor, at time [now]. *)
Definition new_session (now : Z) : session_impl :=
  {| streams := ∅; stopped := false; writing := false; inside_callback := false; wb := [];
     data_pending := None; deadline := None; read_timeout := 60; session_ := false;
     connect_cb := None; error_cb := None;
     limbo := ∅; sendbuf := []; clock := now; calls := []; sends := []; idles := []; app_log := [];
     wire := []; produced := []; in_flight := None; reads := 0; closed := 0; connecting := ph_none;
     deadline_waits := 0; ping_waits := 0 |}.

(** The destructor notifies the requests that are left, in the order of the map;
    no call on them follows. *)
Definition destroy : M unit :=
  s <- get;;
  forM (merge_sort Z.le (map_to_list (streams s)).*1) (fun id =>
    st <- the_stream id;;
    match rq_on_close (st_request st) with
    | Some cb => modify (add_event (app_close cb id NGHTTP2_INTERNAL_ERROR))
    | None => ret tt
    end).

End client.
