(* ===== verification/ClientApi.v ===== *)
(** * The objects that the application of a client holds:
    lib/asio_client_request.cc, lib/asio_client_response.cc and the members of
    lib/asio_client_session.cc that forward

    A [client::request] and its [client::response] own an implementation that
    knows its stream, and are referred to by the id of that stream; using one
    after its stream was destroyed is the failure [dangling_stream].  The session
    is the state itself.  [do_write] is the writer of ClientSession. *)

From S2P Require Import Prelude Monad Common Nghttp2 ClientSession.

Module client_api.
Import monad common nghttp2 client.
Local Open Scope monad_scope.
Local Abbreviation M := (monad.M session_impl).

Section members.
Context `{Nghttp2} (do_write : M unit).

(** ** [request] *)

Definition request_write_trailer (id : Z) (h : header_map) : M unit := write_trailer do_write id h;; ret tt.
Definition request_cancel (id error_code : Z) : M unit := cancel do_write id error_code.
Definition request_on_response (id : Z) (cb : nat) : M unit := update_request id (set_on_response cb).
Definition request_on_push (id : Z) (cb : nat) : M unit := update_request id (set_on_push cb).
Definition request_on_close (id : Z) (cb : nat) : M unit := update_request id (set_on_close cb).
Definition request_uri (id : Z) : M uri_ref := st <- the_stream id;; ret (rq_uri (st_request st)).
Definition request_method (id : Z) : M str := st <- the_stream id;; ret (rq_method (st_request st)).
Definition request_header (id : Z) : M header_map := st <- the_stream id;; ret (rq_header (st_request st)).
Definition request_resume (id : Z) : M unit := resume do_write id.

(** ** [response] *)

Definition response_on_data (id : Z) (cb : nat) : M unit := update_response id (set_on_data cb).
Definition response_status_code (id : Z) : M Z := st <- the_stream id;; ret (rs_status_code (st_response st)).
Definition response_content_length (id : Z) : M Z := st <- the_stream id;; ret (rs_content_length (st_response st)).
Definition response_header (id : Z) : M header_map := st <- the_stream id;; ret (rs_header (st_response st)).

(** ** [session] *)

Definition session_on_connect (cb : nat) : M unit := modify (set_connect_cb (Some cb)).
Definition session_on_error (cb : nat) : M unit := modify (set_error_cb (Some cb)).
Definition session_shutdown : M unit := shutdown do_write.
Definition session_read_timeout (t : Z) : M unit := modify (set_read_timeout t).

End members.

(** The move constructor and the move assignment of [session], a shared pointer:
    the target and the source, nothing for itself. *)
Definition session_move {A} (other : option A) : option A * option A := (other, None).
Definition session_move_assign {A} (same : bool) (this other : option A) : option A * option A :=
  if same then (this, other) else (other, None).

(** ** Programs *)

(** What ClientSession runs for a call of the application. *)
Definition run_member `{Nghttp2} `{Inet} (do_write : M unit) (c : app_call) : M (error_code * option Z) :=
  match c with
  | call_submit method uri g h prio => submit do_write method uri g h prio
  | call_write_trailer id h => request_write_trailer do_write id h;; ret (ec_ok, None)
  | call_cancel id error_code => request_cancel do_write id error_code;; ret (ec_ok, None)
  | call_resume id => request_resume do_write id;; ret (ec_ok, None)
  | call_on_response id cb => request_on_response id cb;; ret (ec_ok, None)
  | call_on_push id cb => request_on_push id cb;; ret (ec_ok, None)
  | call_on_close id cb => request_on_close id cb;; ret (ec_ok, None)
  | call_on_data id cb => response_on_data id cb;; ret (ec_ok, None)
  | call_on_connect cb => session_on_connect cb;; ret (ec_ok, None)
  | call_on_error cb => session_on_error cb;; ret (ec_ok, None)
  | call_read_timeout t => session_read_timeout t;; ret (ec_ok, None)
  | call_shutdown => session_shutdown do_write;; ret (ec_ok, None)
  end.

(** A program over the members in which every step may depend on what it has seen:
    URI, method, header, status and content length, and the result of [submit]. *)
Inductive program :=
  | p_done
  | p_request_uri (id : Z) (k : uri_ref -> program)
  | p_request_method (id : Z) (k : str -> program)
  | p_request_header (id : Z) (k : header_map -> program)
  | p_status_code (id : Z) (k : Z -> program)
  | p_content_length (id : Z) (k : Z -> program)
  | p_response_header (id : Z) (k : header_map -> program)
  | p_call (c : app_call) (k : error_code * option Z -> program).

Section run.
Context `{Nghttp2} `{Inet} (do_write : M unit).

Fixpoint run_program (p : program) : M unit :=
  match p with
  | p_done => ret tt
  | p_request_uri id k => x <- request_uri id;; run_program (k x)
  | p_request_method id k => x <- request_method id;; run_program (k x)
  | p_request_header id k => x <- request_header id;; run_program (k x)
  | p_status_code id k => x <- response_status_code id;; run_program (k x)
  | p_content_length id k => x <- response_content_length id;; run_program (k x)
  | p_response_header id k => x <- response_header id;; run_program (k x)
  | p_call c k => x <- run_member do_write c;; run_program (k x)
  end.

(** The program of ClientSession that makes the same calls when it runs in [s]. *)
Fixpoint calls_of (p : program) (s : session_impl) : app_prog :=
  match p with
  | p_done => app_done
  | p_request_uri id k => match request_uri id s with Done x s => calls_of (k x) s | Failed _ => app_done end
  | p_request_method id k => match request_method id s with Done x s => calls_of (k x) s | Failed _ => app_done end
  | p_request_header id k => match request_header id s with Done x s => calls_of (k x) s | Failed _ => app_done end
  | p_status_code id k => match response_status_code id s with Done x s => calls_of (k x) s | Failed _ => app_done end
  | p_content_length id k => match response_content_length id s with Done x s => calls_of (k x) s | Failed _ => app_done end
  | p_response_header id k => match response_header id s with Done x s => calls_of (k x) s | Failed _ => app_done end
  | p_call c k => app_do c (fun _ => match run_member do_write c s with Done x s => calls_of (k x) s | Failed _ => app_done end)
  end.

(** A program does what its calls do, or fails on a stream that is gone. *)
Definition covered (p : program) : Prop := forall s,
  match run_program p s with
  | Done _ s' => run_prog do_write (calls_of p s) s = Done tt s'
  | Failed e => e = dangling_stream \/ run_prog do_write (calls_of p s) s = Failed e
  end.

(** Looking at an object changes nothing, and fails only when its stream is gone. *)
Lemma client_look_pure {A} (f : stream -> A) id s :
  (st <- the_stream id;; ret (f st)) s = Failed dangling_stream \/ exists x, (st <- the_stream id;; ret (f st)) s = Done x s.
Proof.
  unfold the_stream, bind, get, ret, fail. destruct (streams s !! id); [by eauto|]. destruct (limbo s !! id); by eauto.
Qed.

Lemma client_look_covered {A} (f : stream -> A) id (k : A -> program) s :
  (forall x, covered (k x)) ->
  let look := st <- the_stream id;; ret (f st) in
  match (x <- look;; run_program (k x)) s with
  | Done _ s' => run_prog do_write (match look s with Done x s => calls_of (k x) s | Failed _ => app_done end) s = Done tt s'
  | Failed e => e = dangling_stream
      \/ run_prog do_write (match look s with Done x s => calls_of (k x) s | Failed _ => app_done end) s = Failed e
  end.
Proof.
  intros IH look. unfold bind at 1. destruct (client_look_pure f id s) as [E|[x E]]; fold look in E; rewrite E; [by left|apply IH].
Qed.

End run.

(** As for the server: a program over the public
    members does in every state what the calls do that it makes there, and fails
    where they fail or because it looks at a stream that is gone. *)
Theorem client_programs_are_calls {Lib : Nghttp2} {In : Inet} (do_write : M unit) (p : program) : covered do_write p.
Proof.
  induction p as [|id k IH|id k IH|id k IH|id k IH|id k IH|id k IH|c k IH]; intros s; [done|..].
  1-6: exact (client_look_covered do_write _ id k s IH).
  cbn [run_program calls_of run_prog]. unfold bind.
  assert (run_member do_write c s = run_app_call do_write c s) as ->.
  { destruct c; try done. cbn [run_member run_app_call]. unfold request_write_trailer, bind, ret.
    by destruct (write_trailer do_write stream_id h s). }
  destruct (run_app_call do_write c s) as [x s'|e]; [apply IH|by right].
Qed.

End client_api.
