(* ===== verification/ClientProps.v ===== *)
(** * Properties of the client's session

    An invariant of [session_impl] over every sequence of completions of
    asynchronous operations and of calls of the application, for every library
    that satisfies the documented laws and every application; and its
    consequences: no assertion fails and no write starts inside a callback, the
    bytes on the wire are the library's, close notifications are given once. *)

From S2P Require Import Prelude Monad Util Http2 UrlParser Common Nghttp2 ClientSession.

Module client_props.
Import monad http2 common nghttp2 client.
Local Open Scope monad_scope.
Local Abbreviation M := (monad.M session_impl).

(** ** What holds of the streams *)

Definition is_close_of (id : Z) (e : app_event) : bool :=
  match e with app_close _ i _ => i =? id | _ => false end.

(** The number of close notifications given for a stream. *)
Definition closes (id : Z) (l : list app_event) : Z := count (is_close_of id) l.

(** The counters are the sizes of the fields stored, which are bounded; the
    fields of a request that the application submits are not counted. *)
Definition stream_wf (id : Z) (st : stream) : Prop :=
  let rs := st_response st in
  let rq := st_request st in
  rs_header_buffer_size rs = header_size (rs_header rs) /\ header_size (rs_header rs) <= HEADER_LIMIT
  /\ (Z.even id = true ->
        rq_header_buffer_size rq = header_size (rq_header rq) /\ header_size (rq_header rq) <= HEADER_LIMIT).

Section props.
Context {Lib : Nghttp2} {Laws : Nghttp2Laws} {Ap : App} {In : Inet}.

Lemma request_id_new h c :
  is_request c = true -> 0 <= lib_ret h c ->
  ~ (lib_ret h c ∈ ids_of is_request h) /\ Z.even (lib_ret h c) = false /\ 0 < lib_ret h c.
Proof.
  intros Hc Hr. destruct (request_id_odd h c Hc Hr) as [Hp Ho]. split; [|by rewrite <- Z.negb_odd, Ho].
  intros (h2 & c0 & h1 & -> & Hc0 & Hr0 & E)%ids_of_inv.
  pose proof (request_id_fresh h1 c0 h2 c Hc0 Hc Hr0 Hr). lia.
Qed.

(** Streams that exist or have existed: the requests submitted, with odd ids, and
    the promises received, with even ids. *)
Definition created (b : gset Z) (l : list lib_call) (id : Z) : Prop :=
  if Z.even id then id ∈ b else id ∈ ids_of is_request l.

(** One id, in the table, owned by a local variable, or neither; [own] is the
    [stream_id_] of a stream that is owned: 0 as long as [submit] has it. *)
Definition id_ok (b : gset Z) (l : list lib_call) (log : list app_event) (id : Z)
    (ot ol : option stream) (own : option Z) : Prop :=
  match ot, ol with
  | Some _, Some _ => False
  | Some st, None => created b l id /\ stream_wf id st /\ st_id st = id /\ closes id log = 0 /\ own = None
  | None, Some st => created b l id /\ stream_wf id st /\ own = Some (st_id st) /\ closes id log <= 1
                     /\ (st_id st <> id -> closes id log = 0)
  | None, None => own = None /\ closes id log <= 1 /\ (~ created b l id -> closes id log = 0)
  end.

Lemma id_ok_mono b b' l l' log id ot ol own :
  (created b l id -> created b' l' id) -> id_ok b l log id ot ol own -> id_ok b' l' log id ot ol own.
Proof.
  intros Hm. unfold id_ok. destruct ot, ol; [done| | |].
  - intros (H1 & H2). split; [by apply Hm|done].
  - intros (H1 & H2). split; [by apply Hm|done].
  - intros (H1 & H2 & H3). split; [done|]. split; [done|]. intros Hn. apply H3. intros Hc. by apply Hn, Hm.
Qed.

Definition Core (b : gset Z) (o : gmap Z Z) (s : session_impl) : Prop :=
  (forall id, id_ok b (calls s) (app_log s) id (streams s !! id) (limbo s !! id) (o !! id))
  /\ (session_ s = false -> ping_waits s = 0%nat /\ streams s = ∅).

(** The part of the state that only reading, writing and stopping change. *)
Definition io (s : session_impl) :=
  (inside_callback s, session_ s, stopped s, writing s, wb s, data_pending s, sendbuf s, sends s,
   (wire s, produced s, in_flight s, reads s, closed s, connecting s, deadline_waits s, deadline s)).

Lemma Core_frame b o s s' :
  streams s' = streams s -> limbo s' = limbo s -> calls s' = calls s -> app_log s' = app_log s ->
  (session_ s' = false -> session_ s = false /\ ping_waits s' = ping_waits s) -> Core b o s -> Core b o s'.
Proof.
  intros E1 E2 E3 E4 E5 [H1 H2]. split; [by rewrite E1, E2, E3, E4|].
  intros Hs. destruct (E5 Hs) as [Hs' E6]. rewrite E1, E6. by apply H2.
Qed.

(** *** Access to a stream *)

Definition located (s : session_impl) (id : Z) (st : stream) : Prop :=
  match streams s !! id with Some x => st = x | None => limbo s !! id = Some st end.

Lemma cwp_the_stream id (Q : stream -> session_impl -> Prop) s :
  (forall st, located s id st -> Q st s) -> wp (the_stream id) Q s.
Proof.
  intros HQ. unfold the_stream, located in *. apply wp_bind, wp_get.
  destruct (streams s !! id); [by apply wp_ret, HQ|].
  destruct (limbo s !! id); [by apply wp_ret, HQ|]. by left.
Qed.

Lemma Core_located b o s id st : Core b o s -> located s id st -> stream_wf id st.
Proof.
  intros [H _] Hl. specialize (H id). unfold located, id_ok in *.
  destruct (streams s !! id), (limbo s !! id); simplify_eq; try done; destruct H as (_ & ? & _); done.
Qed.

Lemma Core_put b o s id st st' :
  located s id st -> stream_wf id st' -> st_id st' = st_id st -> Core b o s -> Core b o (put id st' s).
Proof.
  intros Hl Hw Hid [H1 H2]. unfold put, located in *. pose proof (H1 id) as Hi. unfold id_ok in Hi.
  destruct (streams s !! id) as [x|] eqn:Es.
  - split.
    + intros id'. cbn. destruct (decide (id' = id)) as [->|Hn]; [|rewrite lookup_insert_ne by done; apply H1].
      rewrite lookup_insert_eq. unfold id_ok. destruct (limbo s !! id); [done|].
      destruct Hi as (? & ? & ? & ?). subst st. by rewrite Hid.
    + cbn. intros Hs. exfalso. destruct (H2 Hs) as [_ E]. by rewrite E, lookup_empty in Es.
  - split; [|exact H2]. intros id'. cbn. destruct (decide (id' = id)) as [->|Hn].
    + rewrite lookup_insert_eq, Es. unfold id_ok. rewrite Hl in Hi. rewrite Hid. by destruct Hi as (? & _ & ?).
    + rewrite lookup_insert_ne by done. apply H1.
Qed.

Lemma io_put id st s : io (put id st s) = io s.
Proof. unfold put. by destruct (streams s !! id). Qed.

Lemma Core_call b o s c : is_request c = false -> Core b o s -> Core b o (add_call c s).
Proof.
  intros Hc [H1 H2]. split; [|exact H2]. intros id. specialize (H1 id). cbn. unfold id_ok, created in *.
  cbn [ids_of]. by rewrite Hc.
Qed.

Lemma Core_event b o s e :
  (forall id, is_close_of id e = false) -> Core b o s -> Core b o (add_event e s).
Proof.
  intros He [H1 H2]. split; [|exact H2]. intros id. specialize (H1 id). cbn. unfold id_ok, closes in *.
  rewrite count_cons, He. exact H1.
Qed.

(** *** The lives of a stream *)

(** A request is submitted: [submit] owns its stream. *)
Lemma Core_submit b o s c st :
  is_request c = true -> 0 <= lib_ret (calls s) c -> session_ s = true -> Core b o s ->
  stream_wf (lib_ret (calls s) c) st -> st_id st = 0 ->
  let id := lib_ret (calls s) c in
  o !! id = None /\ Core b (<[id := 0]> o) (set_limbo (<[id := st]> (limbo s)) (add_call c s)).
Proof.
  intros Hc Hr Hses [H1 H2] Hw Hid. cbv zeta. set (id := lib_ret (calls s) c) in *.
  destruct (request_id_new (calls s) c Hc Hr) as (Hn & Hev & Hpos). fold id in Hn, Hev, Hpos.
  assert (~ created b (calls s) id) as Hnc by (unfold created; by rewrite Hev).
  pose proof (H1 id) as Hi. unfold id_ok in Hi.
  destruct (streams s !! id) as [x|] eqn:Es, (limbo s !! id) as [y|] eqn:El;
    [done|by destruct Hi as [? _]|by destruct Hi as [? _]|]. destruct Hi as (Ho & _ & Hz).
  assert (ids_of is_request (c :: calls s) = id :: ids_of is_request (calls s)) as Ei.
  { cbn [ids_of]. rewrite Hc. fold id. by rewrite (proj2 (Z.leb_le _ _)). }
  split; [done|]. split; [|by cbn; congruence]. intros id'. cbn.
  destruct (decide (id' = id)) as [->|Hne].
  - rewrite !lookup_insert_eq, Es. unfold id_ok, created. rewrite Hev, Ei, Hid, (Hz Hnc).
    split; [by left|]. done.
  - rewrite !lookup_insert_ne by done. specialize (H1 id').
    assert (created b (calls s) id' -> created b (c :: calls s) id') as Hm.
    { unfold created. rewrite Ei. case_if; [done|]. by right. }
    by eapply id_ok_mono.
Qed.

(** The stream moves to the table. *)
Lemma Core_adopt b o s id st :
  id <> 0 -> o !! id = None -> Core b (<[id := 0]> o) s -> located s id st -> session_ s = true ->
  streams s !! id = None
  /\ Core b o (set_streams (<[id := mk_stream (st_request st) (st_response st) id]> (streams s))
                 (set_limbo (delete id (limbo s)) s)).
Proof.
  intros Hid Ho [H1 H2] Hl Hses. pose proof (H1 id) as Hi. rewrite lookup_insert_eq in Hi. unfold id_ok, located in *.
  destruct (streams s !! id) as [x|] eqn:Es; [destruct (limbo s !! id); [done|by destruct Hi as (_ & _ & _ & _ & ?)]|].
  rewrite Hl in Hi. destruct Hi as (Hcr & Hw & [= E] & _ & Hz). split; [done|]. split; [|by cbn; congruence].
  intros id'. cbn. specialize (H1 id'). destruct (decide (id' = id)) as [->|Hn].
  - rewrite lookup_insert_eq, lookup_delete_eq. split; [done|]. split; [done|]. split; [done|].
    split; [apply Hz; congruence|done].
  - rewrite lookup_insert_ne, lookup_delete_ne by done. by rewrite lookup_insert_ne in H1 by done.
Qed.

(** A stream leaves the table for its close callback, and is destroyed. *)
Lemma Core_pop b o s id st :
  streams s !! id = Some st -> Core b o s ->
  o !! id = None /\ closes id (app_log s) = 0 /\ limbo s !! id = None /\ session_ s = true
  /\ Core b (<[id := id]> o) (set_limbo (<[id := st]> (limbo s)) (set_streams (delete id (streams s)) s)).
Proof.
  intros Es [H1 H2]. pose proof (H1 id) as Hi. unfold id_ok in Hi. rewrite Es in Hi.
  destruct (limbo s !! id) eqn:El; [done|]. destruct Hi as (Hcr & Hw & Hid & Hc & Ho).
  assert (session_ s = true) as Hses.
  { destruct (session_ s); [done|]. destruct (H2 eq_refl) as [_ E]. by rewrite E, lookup_empty in Es. }
  do 4 (split; [done|]). split; [|by cbn; congruence]. intros id'. cbn. specialize (H1 id').
  destruct (decide (id' = id)) as [->|Hn].
  - rewrite !lookup_insert_eq, lookup_delete_eq. unfold id_ok. rewrite Hid, Hc. done.
  - by rewrite !lookup_insert_ne, lookup_delete_ne by done.
Qed.

Lemma Core_drop b o s id :
  o !! id = None -> Core b (<[id := id]> o) s -> Core b o (set_limbo (delete id (limbo s)) s).
Proof.
  intros Ho [H1 H2]. split; [|exact H2]. intros id'. cbn. specialize (H1 id').
  destruct (decide (id' = id)) as [->|Hn].
  - rewrite lookup_insert_eq in H1. rewrite lookup_delete_eq, Ho. unfold id_ok in *.
    destruct (streams s !! id), (limbo s !! id); [done|by destruct H1 as (_ & _ & _ & _ & ?)| |by destruct H1].
    by destruct H1 as (? & ? & ? & ? & ?).
  - rewrite lookup_insert_ne in H1 by done. by rewrite lookup_delete_ne by done.
Qed.

Lemma Core_close b o s id cb code :
  closes id (app_log s) = 0 -> o !! id = Some id -> Core b o s -> Core b o (add_event (app_close cb id code) s).
Proof.
  intros Hc Ho [H1 H2]. split; [|exact H2]. intros id'. specialize (H1 id'). cbn. unfold id_ok, closes in *.
  rewrite count_cons. cbn [is_close_of]. destruct (Z.eqb_spec id id') as [<-|Hn]; [|exact H1].
  rewrite Ho in *. destruct (streams s !! id), (limbo s !! id); [done|by destruct H1 as (_ & _ & _ & _ & ?)| |by destruct H1].
  destruct H1 as (? & ? & E & ? & ?). split; [done|]. split; [done|]. split; [done|]. split; [lia|congruence].
Qed.

(** A promise is received. *)
Lemma Core_push b o s id :
  Z.even id = true -> ~ (id ∈ b) -> session_ s = true -> Core b o s ->
  streams s !! id = None
  /\ Core ({[id]} ∪ b) o
       (set_streams (<[id := mk_stream new_request new_response id]> (streams s)) s).
Proof.
  intros Hev Hb Hses [H1 H2]. assert (~ created b (calls s) id) as Hnc by (unfold created; by rewrite Hev).
  pose proof (H1 id) as Hi. unfold id_ok in Hi.
  destruct (streams s !! id) as [x|] eqn:Es, (limbo s !! id) as [y|] eqn:El;
    [done|by destruct Hi as [? _]|by destruct Hi as [? _]|]. destruct Hi as (Ho & _ & Hz).
  split; [done|]. split; [|by cbn; congruence]. intros id'. cbn. specialize (H1 id').
  destruct (decide (id' = id)) as [->|Hn].
  - rewrite lookup_insert_eq, El. unfold id_ok, created. rewrite Hev. split; [set_solver|].
    split; [by repeat split|]. split; [done|]. auto.
  - rewrite lookup_insert_ne by done.
    assert (created b (calls s) id' -> created ({[id]} ∪ b) (calls s) id') as Hm.
    { unfold created. case_if; [set_solver|done]. }
    by eapply id_ok_mono.
Qed.

Lemma Core_mono b b' o s : b ⊆ b' -> Core b o s -> Core b' o s.
Proof.
  intros Hb [H1 H2]. split; [|exact H2]. intros id. eapply id_ok_mono; [|apply H1].
  unfold created. case_if; [set_solver|done].
Qed.

(** ** Calls of the application *)

Section app.
Context (dw : M unit) (K : session_impl -> Prop).
Hypothesis K_io : forall s s', io s' = io s -> K s -> K s'.
Hypothesis dw_ok : forall b o s, Core b o s -> K s -> session_ s = true ->
  wp (signal_write dw) (fun _ s' => Core b o s' /\ K s' /\ session_ s' = true) s.

Local Abbreviation J b o := (fun s => Core b o s /\ K s).

Lemma cwp_update_request b o id f s :
  Core b o s -> K s ->
  (forall st, stream_wf id st -> located s id st -> stream_wf id (mk_stream (f (st_request st)) (st_response st) (st_id st))) ->
  wp (update_request id f) (fun _ s' => Core b o s' /\ K s') s.
Proof.
  intros HC HK Hf. unfold update_request. apply wp_bind, cwp_the_stream. intros st Hst. apply wp_modify.
  split; [|by eapply K_io; [apply io_put|]].
  eapply Core_put; [done|apply Hf; [by eapply Core_located|done]|done..].
Qed.

Lemma cwp_update_response b o id f s :
  Core b o s -> K s ->
  (forall st, stream_wf id st -> located s id st -> stream_wf id (mk_stream (st_request st) (f (st_response st)) (st_id st))) ->
  wp (update_response id f) (fun _ s' => Core b o s' /\ K s') s.
Proof.
  intros HC HK Hf. unfold update_response. apply wp_bind, cwp_the_stream. intros st Hst. apply wp_modify.
  split; [|by eapply K_io; [apply io_put|]].
  eapply Core_put; [done|apply Hf; [by eapply Core_located|done]|done..].
Qed.

(** A call of the library that submits no request, then a write. *)
Lemma wp_app_lib c (Q : Z -> session_impl -> Prop) s :
  (session_ s = true -> Q (lib_ret (calls s) c) (add_call c s)) -> wp (app_lib c) Q s.
Proof. intros HQ. unfold wp, app_lib. destruct (session_ s); [by apply HQ|]. by right. Qed.

Lemma wp_app_signal b o c s :
  is_request c = false -> Core b o s -> K s -> wp (app_lib c;; signal_write dw) (fun _ => J b o) s.
Proof.
  intros Hc HC HK. apply wp_bind, wp_app_lib. intros Hs.
  eapply wp_mono; [apply (dw_ok b o)|]; [by apply Core_call|by apply (K_io s)|done|]. intros _ s' (? & ? & _). done.
Qed.

Lemma wp_write_trailer b o id h s : Core b o s -> K s -> wp (write_trailer dw id h) (fun _ => J b o) s.
Proof.
  intros HC HK. unfold write_trailer. apply wp_bind, cwp_the_stream. intros st _.
  apply wp_bind, wp_app_lib. intros Hs.
  assert (Core b o (add_call (submit_trailer (st_id st) (header_nva h)) s)) as HC' by (by apply Core_call).
  case_if; [by apply wp_ret; split; [|by apply (K_io s)]|]. apply wp_bind.
  eapply wp_mono; [apply (dw_ok b o); [done|by apply (K_io s)|done]|]. intros _ s' (? & ? & _). by apply wp_ret.
Qed.

Lemma wp_guarded b o c s :
  is_request c = false -> Core b o s -> K s ->
  wp (s <- get;; if stopped s then ret tt else app_lib c;; signal_write dw) (fun _ => J b o) s.
Proof.
  intros Hc HC HK. apply wp_bind, wp_get. case_if; [by apply wp_ret|]. by apply wp_app_signal.
Qed.

Lemma set_limbo_drop id s : drop_stream id s = Done tt (set_limbo (delete id (limbo s)) s).
Proof. reflexivity. Qed.

Lemma wp_emplace id st (Q : unit -> session_impl -> Prop) s :
  streams s !! id = None -> Q tt (set_streams (<[id := st]> (streams s)) s) -> wp (emplace_stream id st) Q s.
Proof. intros Hn HQ. unfold emplace_stream. apply wp_bind. unfold wp, find_stream, bind, get, ret. by rewrite Hn. Qed.

Lemma submit_uri_total uri : submit_uri uri <> None.
Proof.
  unfold submit_uri. pose proof (url_parser.http_parser_parse_url_ok uri false url_parser.http_parser_url_init) as Hs.
  destruct (url_parser.http_parser_parse_url _ _ _) as [u| |]; [|done..].
  case_if; [done|].
  repeat match goal with
  | |- context [url_parser.copy_url_component ?d ?u ?f ?b] =>
    destruct (url_parser.copy_in_bounds b d u f (proj1 Hs)) as [? ->]
  end. done.
Qed.

Lemma wp_submit b o method uri g h prio s :
  Core b o s -> K s -> wp (submit dw method uri g h prio) (fun _ => J b o) s.
Proof.
  intros HC HK. unfold submit. apply wp_bind, wp_get. case_if; [by apply wp_ret|].
  pose proof (submit_uri_total uri) as Ht. destruct (submit_uri uri) as [[[u p]|]|]; [|by apply wp_ret|done].
  cbv zeta. set (req := if has_generator g then _ else _).
  apply wp_bind, wp_app_lib. intros Hs. set (c := submit_request _ _ _). set (id := lib_ret (calls s) c).
  destruct (id <? 0) eqn:Eid.
  - apply wp_ret. apply Z.ltb_lt in Eid. split; [|by apply (K_io s)]. destruct HC as [H1 H2]. split; [|exact H2].
    intros id'. specialize (H1 id'). unfold id_ok, created in *. cbn [streams limbo calls app_log add_call].
    assert (ids_of is_request (c :: calls s) = ids_of is_request (calls s)) as ->; [|exact H1].
    cbn [ids_of]. fold id. by rewrite (proj2 (Z.leb_gt _ _)), andb_false_r.
  - apply Z.ltb_ge in Eid. apply wp_bind, wp_modify.
    assert (Z.even id = false /\ 0 < id) as [Hev Hpos] by (by apply (request_id_new (calls s) c)).
    destruct (Core_submit b o s c (mk_stream req new_response 0)) as [Ho HC']; [done..| |done|].
    { split; [done|]. split; [done|]. fold id. by rewrite Hev. }
    fold id in Ho, HC'. apply wp_bind.
    eapply wp_mono; [apply (dw_ok b (<[id := 0]> o)); [exact HC'|by apply (K_io s)|done]|].
    intros _ s1 (HC1 & HK1 & Hs1). apply wp_bind, cwp_the_stream. intros st Hst.
    destruct (Core_adopt b o s1 id st) as [Hn HC2]; [lia|done..|].
    apply wp_bind. unfold wp at 1. rewrite set_limbo_drop. apply wp_bind, wp_emplace; [exact Hn|].
    apply wp_ret. split; [exact HC2|by apply (K_io s1)].
Qed.

(** A change of the request that leaves the header fields alone, and any change
    of the callback of the response. *)
Lemma wp_update_request_keep b o id f s :
  Core b o s -> K s ->
  (forall r, rq_header_buffer_size (f r) = rq_header_buffer_size r /\ rq_header (f r) = rq_header r) ->
  wp (update_request id f) (fun _ => J b o) s.
Proof.
  intros HC HK Hf. apply cwp_update_request; [done..|]. intros st (H1 & H2 & H3) _. destruct (Hf (st_request st)) as [E1 E2].
  split; [done|]. split; [done|]. cbn. by rewrite E1, E2.
Qed.

Lemma wp_update_response_keep b o id f s :
  Core b o s -> K s ->
  (forall r, rs_header_buffer_size (f r) = rs_header_buffer_size r /\ rs_header (f r) = rs_header r) ->
  wp (update_response id f) (fun _ => J b o) s.
Proof.
  intros HC HK Hf. apply cwp_update_response; [done..|]. intros st (H1 & H2 & H3) _. destruct (Hf (st_response st)) as [E1 E2].
  unfold stream_wf. cbn. by rewrite E1, E2.
Qed.

Lemma wp_then_ret {A B} (m : M A) (x : B) (Q : session_impl -> Prop) s :
  wp m (fun _ => Q) s -> wp (m;; ret x) (fun _ => Q) s.
Proof. intros Hm. apply wp_bind. eapply wp_mono; [exact Hm|]. intros a s' HQ. by apply wp_ret. Qed.

Lemma Core_K_frame b o s s' :
  streams s' = streams s -> limbo s' = limbo s -> calls s' = calls s -> app_log s' = app_log s ->
  ping_waits s' = ping_waits s -> io s' = io s -> J b o s -> J b o s'.
Proof.
  intros E1 E2 E3 E4 E5 E6 [HC HK]. split; [|by apply (K_io s)]. eapply Core_frame; [..|exact HC]; try done.
  injection E6. intros. split; [congruence|done].
Qed.

Lemma cwp_run_app_call b o c s : Core b o s -> K s -> wp (run_app_call dw c) (fun _ => J b o) s.
Proof.
  intros HC HK.
  destruct c; cbn [run_app_call]; try apply wp_then_ret.
  - by apply wp_submit.
  - by apply wp_write_trailer.
  - apply wp_bind, cwp_the_stream. intros st _. by apply wp_guarded.
  - apply wp_bind, cwp_the_stream. intros st _. by apply wp_guarded.
  - by apply wp_update_request_keep.
  - by apply wp_update_request_keep.
  - by apply wp_update_request_keep.
  - by apply wp_update_response_keep.
  - apply wp_modify. by apply (Core_K_frame b o s).
  - apply wp_modify. by apply (Core_K_frame b o s).
  - apply wp_modify. by apply (Core_K_frame b o s).
  - by apply wp_guarded.
Qed.

Lemma wp_run_prog b o p s : Core b o s -> K s -> wp (run_prog dw p) (fun _ => J b o) s.
Proof.
  revert s. induction p as [|c k IH]; intros s HC HK; cbn [run_prog]; [by apply wp_ret|].
  apply wp_bind. eapply wp_mono; [by apply (cwp_run_app_call b o)|]. intros r s' [HC' HK']. by apply IH.
Qed.

Lemma wp_react b o e s : Core b o (add_event e s) -> K s -> wp (react dw e) (fun _ => J b o) s.
Proof.
  intros HC HK. unfold react. apply wp_bind, wp_modify, wp_bind, wp_get. apply wp_run_prog; [done|].
  by apply (K_io s).
Qed.

Lemma wp_call_error_cb b o ec s : Core b o s -> K s -> wp (call_error_cb dw ec) (fun _ => J b o) s.
Proof.
  intros HC HK. unfold call_error_cb. apply wp_bind, wp_get. case_if; [by apply wp_ret|].
  destruct (error_cb s); [|by apply wp_ret]. apply wp_react; [|done]. by apply Core_event.
Qed.

(** ** Callbacks of the session *)

Lemma cwp_find_stream id (Q : option stream -> session_impl -> Prop) s :
  Q (streams s !! id) s -> wp (find_stream id) Q s.
Proof. done. Qed.

Lemma wp_call_cb b o (sel : stream -> option nat) (ev : nat -> app_event) id s :
  (forall cb i, is_close_of i (ev cb) = false) -> Core b o s -> K s ->
  wp (st <- the_stream id;; match sel st with Some cb => react dw (ev cb) | None => ret tt end) (fun _ => J b o) s.
Proof.
  intros He HC HK. apply wp_bind, cwp_the_stream. intros st _. destruct (sel st) as [cb|]; [|by apply wp_ret].
  apply wp_react; [|done]. apply Core_event; [|done]. intros i. apply He.
Qed.

Lemma wp_call_on_data b o id data s : Core b o s -> K s -> wp (call_on_data_cb dw id data) (fun _ => J b o) s.
Proof. intros HC HK. by apply (wp_call_cb b o (fun st => rs_on_data (st_response st)) (fun cb => app_data cb id data)). Qed.

Lemma wp_call_on_read b o id len flags s : Core b o s -> K s -> wp (call_on_read dw id len flags) (fun _ => J b o) s.
Proof.
  intros HC HK. unfold call_on_read. apply wp_bind, cwp_the_stream. intros st _.
  destruct (rq_generator (st_request st)); [by apply wp_ret..| |].
  - destruct (string_generator_call _ _ _ _) as [[r fl] rem]. apply wp_then_ret. by apply wp_update_request_keep.
  - apply wp_bind, wp_get. destruct (app_gen _ _ _) as [r fl]. apply wp_then_ret. apply wp_react; [|done]. by apply Core_event.
Qed.

Lemma cwp_lib c (Q : Z -> session_impl -> Prop) s :
  session_ s = true -> Q (lib_ret (calls s) c) (add_call c s) -> wp (lib c) Q s.
Proof. intros Hs HQ. unfold wp, lib. by rewrite Hs. Qed.

Lemma wp_reset b o id code s :
  Core b o s -> K s -> session_ s = true -> wp (lib (submit_rst_stream id code);; ret tt) (fun _ => J b o) s.
Proof.
  intros HC HK Hs. apply wp_then_ret, cwp_lib; [done|]. split; [by apply Core_call|by apply (K_io s)].
Qed.

Lemma wp_on_response_header b o f st name val flags s :
  Core b o s -> K s -> session_ s = true -> streams s !! hd_stream_id f = Some st ->
  wp (on_response_header f st name val flags) (fun _ => J b o) s.
Proof.
  intros HC HK Hs Hst. unfold on_response_header. cbv zeta. case_if; [by apply wp_ret|].
  assert (forall token, wp (if HEADER_LIMIT <? rs_header_buffer_size (st_response st) + name_value_size name val
      then lib (submit_rst_stream (hd_stream_id f) NGHTTP2_INTERNAL_ERROR);; ret tt
      else update_response (hd_stream_id f) (fun r =>
          let r := set_res_header (rs_header r) (rs_header_buffer_size r + name_value_size name val) r in
          let r := if bool_decide (token = Some HD_CONTENT_LENGTH)
                   then set_content_length (util.parse_uint val) r else r in
          set_res_header (emplace (rs_header r) name {| value := val; sensitive := no_index flags |})
            (rs_header_buffer_size r) r)) (fun _ => J b o) s) as Hadd.
  { intros token. case_if; [by apply wp_reset|]. apply cwp_update_response; [done..|].
    intros st' (H1 & H2 & H3) Hl. unfold located in Hl. rewrite Hst in Hl. subst st'.
    unfold stream_wf. cbv zeta. unfold name_value_size, HEADER_LIMIT in *.
    destruct (bool_decide (token = _)); cbn; rewrite header_size_emplace; cbn; (split; [lia|]); (split; [lia|done]). }
  specialize (Hadd (lookup_token name)).
  destruct (lookup_token name) as [[]|]; first [exact Hadd | by apply wp_update_response_keep].
Qed.

Lemma wp_add_push_header b o f name val flags s :
  Core b o s -> K s -> session_ s = true -> wp (add_push_header f name val flags) (fun _ => J b o) s.
Proof.
  intros HC HK Hs. unfold add_push_header. cbv zeta. apply wp_bind, cwp_the_stream. intros st Hst.
  case_if; [by apply wp_reset|]. apply cwp_update_request; [done..|].
  intros st' (H1 & H2 & H3) Hl. assert (st' = st) as ->.
  { unfold located in *. destruct (streams s !! promised_stream_id f); congruence. }
  unfold name_value_size, HEADER_LIMIT in *. split; [done|]. split; [done|]. intros Hev. destruct (H3 Hev) as [E1 E2].
  cbn [st_request set_header rq_header rq_header_buffer_size]. rewrite header_size_emplace. cbn [value].
  unfold HEADER_LIMIT. split; lia.
Qed.

Lemma wp_on_push_header b o f st name val flags s :
  Core b o s -> K s -> session_ s = true -> wp (on_push_header f st name val flags) (fun _ => J b o) s.
Proof.
  intros HC HK Hs. unfold on_push_header. cbv zeta.
  destruct (lookup_token name) as [[]|]; try (by apply wp_add_push_header); unfold update_uri;
    try (by apply wp_update_request_keep).
  apply wp_bind. case_if.
  - unfold update_request. apply wp_bind, cwp_the_stream. intros st' Hst'. apply wp_modify.
    apply wp_add_push_header; [|by eapply K_io; [apply io_put|]|].
    + eapply Core_put; [done| |done|done]. destruct (Core_located _ _ _ _ _ HC Hst') as (? & ? & ?). done.
    + pose proof (io_put (promised_stream_id f)
        (mk_stream (set_uri (set_host val (rq_uri (st_request st'))) (st_request st')) (st_response st') (st_id st')) s) as Eio.
      injection Eio. intros. congruence.
  - by apply wp_ret, wp_add_push_header.
Qed.

(** The promises that a callback starts to receive. *)
Definition begin_ids (e : session_event) : list Z :=
  match e with
  | on_begin_headers f => if decide (hd_type f = NGHTTP2_PUSH_PROMISE) then [promised_stream_id f] else []
  | _ => []
  end.

Lemma cwp_on_stream_close b o id code s :
  Core b o s -> K s -> wp (on_stream_close_callback dw id code) (fun _ => J b o) s.
Proof.
  intros HC HK. unfold on_stream_close_callback, pop_stream. apply wp_bind, wp_bind, cwp_find_stream.
  destruct (streams s !! id) as [st|] eqn:Es; [|by apply wp_ret, wp_ret].
  destruct (Core_pop b o s id st Es HC) as (Ho & Hc & Hl & Hs & HC1).
  apply wp_bind, wp_modify, wp_bind, wp_get. set (s1 := set_limbo _ _) in *.
  assert (forall s2, (s2 = s1 \/ s2 = set_ping_waits (S (ping_waits s1)) s1) ->
    wp (call_on_close_cb dw id code;; drop_stream id) (fun _ => J b o) s2) as Hk.
  { intros s2 Hs2. assert (Core b (<[id := id]> o) s2) as HC2.
    { destruct Hs2 as [-> | ->]; [exact HC1|]. eapply Core_frame; [..|exact HC1]; try done. cbn. congruence. }
    assert (K s2) as HK2 by (destruct Hs2 as [-> | ->]; by apply (K_io s)).
    assert (closes id (app_log s2) = 0) as Hc2 by (destruct Hs2 as [-> | ->]; exact Hc).
    apply wp_bind. unfold call_on_close_cb. apply wp_bind, cwp_the_stream. intros st' _.
    assert (forall s3, Core b (<[id := id]> o) s3 -> K s3 -> wp (drop_stream id) (fun _ => J b o) s3) as Hd.
    { intros s3 HC3 HK3. unfold drop_stream. apply wp_modify. split; [by apply Core_drop|by apply (K_io s3)]. }
    destruct (rq_on_close (st_request st')) as [cb|]; [|by apply wp_ret, Hd].
    eapply wp_mono; [apply (wp_react b (<[id := id]> o)); [|done]|intros _ s3 []; by apply Hd].
    apply Core_close; [done|by rewrite lookup_insert_eq|done]. }
  apply wp_bind. case_decide; [apply wp_modify|apply wp_ret]; apply wp_ret, Hk; [by right|by left].
Qed.

Lemma cwp_run_callback b o e s :
  Core b o s -> K s -> session_ s = true ->
  Forall (fun id => Z.even id = true /\ ~ (id ∈ b)) (begin_ids e) ->
  wp (run_callback dw e) (fun _ => J (list_to_set (begin_ids e) ∪ b) o) s.
Proof.
  intros HC HK Hs He.
  assert (forall m : M unit, begin_ids e = [] -> wp m (fun _ => J b o) s ->
    wp m (fun _ => J (list_to_set (begin_ids e) ∪ b) o) s) as Hk.
  { intros m -> Hm. eapply wp_mono; [exact Hm|]. intros _ s' [HC' HK']. split; [|done].
    eapply Core_mono; [|exact HC']. set_solver. }
  destruct e as [f|f name val flags|f|id data|id code|id len flags]; cbn [run_callback].
  - unfold on_begin_headers_callback. cbn [begin_ids] in *. case_bool_decide as Hf; cbn [negb].
    + rewrite decide_True in He |- * by done. inversion_clear He as [|?? [Hev Hb] _].
      destruct (Core_push b o s (promised_stream_id f)) as [Hn HC']; [done..|].
      apply wp_emplace; [done|]. split; [|by apply (K_io s)]. cbn [list_to_set]. by rewrite union_empty_r_L.
    + rewrite decide_False by done. apply wp_ret. split; [|done]. eapply Core_mono; [|exact HC]. set_solver.
  - apply Hk; [done|]. unfold on_header_callback. destruct (hd_type f); try by apply wp_ret.
    + apply wp_bind, cwp_find_stream. destruct (streams s !! hd_stream_id f) eqn:E; [|by apply wp_ret].
      by apply wp_on_response_header.
    + apply wp_bind, cwp_find_stream. destruct (streams s !! promised_stream_id f) eqn:E; [|by apply wp_ret].
      by apply wp_on_push_header.
  - apply Hk; [done|]. unfold on_frame_recv_callback. cbv zeta. apply wp_bind, cwp_find_stream.
    destruct (streams s !! hd_stream_id f) as [st|]; [|by apply wp_ret]. destruct (hd_type f); try by apply wp_ret.
    + case_if; [by apply wp_call_on_data|by apply wp_ret].
    + case_if; [by apply wp_ret|]. case_if; [by apply wp_ret|]. apply wp_bind.
      eapply wp_mono; [by apply (wp_call_cb b o (fun st => rq_on_response (st_request st)) (fun cb => app_response cb (hd_stream_id f)))|].
      intros _ s' [HC' HK']. case_if; [by apply wp_call_on_data|by apply wp_ret].
    + apply wp_bind, cwp_find_stream. destruct (streams s !! promised_stream_id f); [|by apply wp_ret].
      by apply (wp_call_cb b o (fun st => rq_on_push (st_request st)) (fun cb => app_push cb (hd_stream_id f) (promised_stream_id f))).
  - apply Hk; [done|]. unfold on_data_chunk_recv_callback. apply wp_bind, cwp_find_stream.
    destruct (streams s !! id); [by apply wp_call_on_data|by apply wp_ret].
  - apply Hk; [done|]. by apply cwp_on_stream_close.
  - apply Hk; [done|]. apply wp_then_ret. by apply wp_call_on_read.
Qed.

End app.

(** ** Inside a callback *)

(** Inside a callback nothing of the input and output changes. *)
Definition inside_of (s0 s : session_impl) : Prop :=
  io s = io s0 /\ inside_callback s = true /\ session_ s = true.

Lemma inside_of_io s0 s s' : io s' = io s -> inside_of s0 s -> inside_of s0 s'.
Proof. intros E (H1 & H2 & H3). split; [congruence|]. injection E. intros. split; congruence. Qed.

Lemma nested_ok s0 b o s :
  Core b o s -> inside_of s0 s -> session_ s = true ->
  wp (signal_write nested) (fun _ s' => Core b o s' /\ inside_of s0 s' /\ session_ s' = true) s.
Proof. intros HC HK Hs. unfold signal_write. apply wp_bind, wp_get. rewrite (proj1 (proj2 HK)). by apply wp_ret. Qed.

Definition fresh_promises (b : gset Z) (l : list Z) : Prop :=
  NoDup l /\ Forall (fun id => Z.even id = true /\ ~ (id ∈ b)) l.

Lemma fresh_promises_app b l k :
  fresh_promises b (l ++ k) -> fresh_promises b l /\ fresh_promises (list_to_set l ∪ b) k.
Proof.
  intros [Hn Hf]. apply NoDup_app in Hn as (Hl & Hd & Hk). apply Forall_app in Hf as [Hfl Hfk].
  split; [by split|]. split; [done|]. rewrite Forall_forall in *. intros id Hid. destruct (Hfk _ Hid) as [He Hb].
  split; [done|]. rewrite elem_of_union, elem_of_list_to_set. intros [Hi|Hi]; [by eapply Hd|by apply Hb].
Qed.

Lemma cwp_callbacks b o evs s :
  Core b o s -> inside_callback s = true -> session_ s = true -> fresh_promises b (concat (map begin_ids evs)) ->
  wp (forM evs (run_callback nested))
    (fun _ s' => Core (list_to_set (concat (map begin_ids evs)) ∪ b) o s' /\ io s' = io s) s.
Proof.
  revert b s. induction evs as [|e evs IH]; intros b s HC Hi Hs Hf; cbn [forM map concat] in *.
  - apply wp_ret. split; [|done]. eapply Core_mono; [|exact HC]. set_solver.
  - apply fresh_promises_app in Hf as [[_ Hf1] Hf2]. apply wp_bind.
    eapply wp_mono; [apply (cwp_run_callback nested (inside_of s) (inside_of_io s) (nested_ok s) b o); [done|exact (conj eq_refl (conj Hi Hs))|done|done]|].
    intros _ s1 [HC1 (E1 & Hi1 & Hs1)]. eapply wp_mono; [by apply (IH (list_to_set (begin_ids e) ∪ b))|].
    intros _ s2 [HC2 E2]. split; [|congruence]. rewrite list_to_set_app_L.
    eapply Core_mono; [|exact HC2]. set_solver.
Qed.

(** ** Outside the callbacks *)

(** What the library does in one call of [nghttp2_session_mem_send]: it receives
    no frame, and its output fits the buffer. *)
Definition send_ok (x : mem_send) : Prop :=
  Forall (fun e => begin_ids e = []) (send_events x)
  /\ match send_result x with inl data => (length data <= WB_SIZE)%nat | inr _ => True end.

(** The bytes kept for the next write. *)
Definition pending_bytes (s : session_impl) : str :=
  match data_pending s with Some n => take n (sendbuf s) | None => [] end.

(** The input and output between two callbacks, with [w] pending waits of the
    deadline timer and [r] pending reads. *)
Record io_ok (w r : nat) (s : session_impl) : Prop := {
  io_inside : inside_callback s = false;
  io_sends : Forall send_ok (sends s);
  io_bytes : stopped s = false -> wire s ++ pending_bytes s = produced s;
  io_wb : stopped s = false -> writing s = false -> wb s = [];
  io_pending : forall n, data_pending s = Some n -> (n <= WB_SIZE)%nat;
  io_flight : forall x, in_flight s = Some x ->
    writing s = true /\ wb s = x /\ x <> [] /\ (length x <= WB_SIZE)%nat;
  io_closed : closed s = (if stopped s then 1 else 0)%nat;
  io_reads : reads s = r;
  io_waits : stopped s = false -> deadline_waits s = w;
  io_session : session_ s = false -> reads s = 0%nat /\ in_flight s = None;
  io_connecting : connecting s <> ph_none -> session_ s = false;
  io_deadline : stopped s = false -> is_Some (deadline s);
}.

Lemma io_ok_io w r s s' : io s' = io s -> io_ok w r s -> io_ok w r s'.
Proof.
  destruct s, s'. unfold io. cbn. intros E H. injection E as -> -> -> -> -> -> -> -> -> -> -> -> -> -> -> ->.
  destruct H. by split.
Qed.

(** The state of the loop of [do_write]. *)
Record loop_ok (w r : nat) (s : session_impl) : Prop := {
  lo_inside : inside_callback s = true;
  lo_session : session_ s = true;
  lo_stopped : stopped s = false;
  lo_writing : writing s = false;
  lo_sends : Forall send_ok (sends s);
  lo_bytes : wire s ++ wb s ++ pending_bytes s = produced s;
  lo_wb : (length (wb s) <= WB_SIZE)%nat;
  lo_pending : forall n, data_pending s = Some n -> (n <= WB_SIZE)%nat;
  lo_flight : in_flight s = None;
  lo_closed : closed s = 0%nat;
  lo_reads : reads s = r;
  lo_waits : deadline_waits s = w;
  lo_connecting : connecting s = ph_none;
  lo_deadline : is_Some (deadline s);
}.

Lemma loop_ok_io w r s s' : io s' = io s -> loop_ok w r s -> loop_ok w r s'.
Proof.
  destruct s, s'. unfold io. cbn. intros E H. injection E as -> -> -> -> -> -> -> -> -> -> -> -> -> -> -> ->.
  destruct H. by split.
Qed.

Lemma no_begin_ids l : Forall (fun e => begin_ids e = []) l -> concat (map begin_ids l) = [].
Proof. induction 1 as [|e l He Hl IH]; cbn; [done|]. by rewrite He. Qed.

Lemma wp_send_events b o evs s :
  Core b o s -> inside_callback s = true -> session_ s = true -> Forall (fun e => begin_ids e = []) evs ->
  wp (forM evs (run_callback nested)) (fun _ s' => Core b o s' /\ io s' = io s) s.
Proof.
  intros HC Hi Hs He. pose proof (no_begin_ids evs He) as E.
  eapply wp_mono; [apply (cwp_callbacks b o); [done..|]; rewrite E; by split; constructor|].
  intros _ s' [HC' Eio]. rewrite E in HC'. split; [|done]. eapply Core_mono; [|exact HC']. set_solver.
Qed.

Lemma wp_nested_error b o ec s :
  Core b o s -> inside_callback s = true -> session_ s = true ->
  wp (call_error_cb nested ec) (fun _ s' => Core b o s' /\ io s' = io s) s.
Proof.
  intros HC Hi Hs.
  eapply wp_mono; [apply (wp_call_error_cb nested (inside_of s) (inside_of_io s) (nested_ok s) b o);
    [done|exact (conj eq_refl (conj Hi Hs))]|].
  intros _ s' [HC' (E & _ & _)]. done.
Qed.

Lemma Core_io_frame b o s s' :
  streams s' = streams s -> limbo s' = limbo s -> calls s' = calls s -> app_log s' = app_log s ->
  ping_waits s' = ping_waits s -> session_ s' = session_ s -> Core b o s -> Core b o s'.
Proof. intros E1 E2 E3 E4 E5 E6. apply Core_frame; [done..|]. rewrite E5, E6. done. Qed.

(** The end of a loop that was stopped by an error. *)
Lemma loop_stopped w r s : loop_ok w r s -> io_ok w r (set_inside false (mark_stopped s)).
Proof. intros []. split; cbn; try done; try congruence. Qed.

Lemma wp_stop b o (Q : unit -> session_impl -> Prop) s :
  Core b o s -> (stopped s = true -> Q tt s) -> (stopped s = false -> Core b o (mark_stopped s) -> Q tt (mark_stopped s)) ->
  wp stop Q s.
Proof.
  intros HC H1 H2. unfold stop. apply wp_bind, wp_get. case_if; [by apply wp_ret, H1|].
  apply wp_modify, H2; [done|]. by apply (Core_io_frame b o s).
Qed.

(** What the loop leaves behind. *)
Definition loop_post (b : gset Z) (o : gmap Z Z) (w r : nat) (ok : bool) (s : session_impl) : Prop :=
  Core b o s /\ inside_callback s = true /\ session_ s = true
  /\ if ok then loop_ok w r s else io_ok w r (set_inside false s).

Lemma wp_loop_error b o w r n s :
  Core b o s -> loop_ok w r s ->
  wp (call_error_cb nested (make_error_code_nghttp2 n);; stop;; ret false) (loop_post b o w r) s.
Proof.
  intros HC HL. apply wp_bind. eapply wp_mono; [apply (wp_nested_error b o); [done|apply HL..]|].
  intros _ s1 [HC1 E1]. pose proof (loop_ok_io w r s s1 E1 HL) as HL1. apply wp_bind.
  apply (wp_stop b o); [done|intros Hs; by rewrite (lo_stopped _ _ _ HL1) in Hs|]. intros _ HC2. apply wp_ret.
  split; [done|]. split; [apply HL1|]. split; [apply HL1|]. by apply loop_stopped.
Qed.

Lemma cwp_write_loop b o w r l s :
  Core b o s -> loop_ok w r s -> Forall send_ok l -> data_pending s = None ->
  wp (write_loop l) (loop_post b o w r) s.
Proof.
  revert s. induction l as [|x l IH]; intros s HC HL Hl Hd; cbn [write_loop].
  { apply wp_ret. split; [done|]. split; [apply HL|]. split; [apply HL|done]. }
  inversion_clear Hl as [|?? [Hx1 Hx2] Hl']. apply wp_bind, wp_modify. set (s1 := set_sends l s).
  assert (loop_ok w r s1) as HL1 by (destruct HL; by split).
  assert (Core b o s1) as HC1 by (by apply (Core_io_frame b o s)).
  apply wp_bind. eapply wp_mono; [apply (wp_send_events b o); [done|apply HL1|apply HL1|done]|].
  intros _ s2 [HC2 E2]. pose proof (loop_ok_io w r s1 s2 E2 HL1) as HL2.
  assert (data_pending s2 = None) as Hd2 by (injection E2; intros; cbn in *; congruence).
  destruct (send_result x) as [data|n]; [|by apply wp_loop_error].
  apply wp_bind, wp_modify.
  assert (forall s3, streams s3 = streams s2 -> limbo s3 = limbo s2 -> calls s3 = calls s2 -> app_log s3 = app_log s2 ->
            ping_waits s3 = ping_waits s2 -> session_ s3 = session_ s2 -> Core b o s3) as HC3.
  { intros. by apply (Core_io_frame b o s2). }
  destruct HL2 as [L1 L2 L3 L4 L5 L6 L7 L8 L9 L10 L11 L12 L13]. unfold pending_bytes in L6. rewrite Hd2, app_nil_r in L6.
  case_if.
  - apply Nat.eqb_eq, nil_length_inv in E as ->. apply wp_ret. split; [by apply HC3|]. split; [done|]. split; [done|].
    split; cbn; try done. unfold pending_bytes. cbn. by rewrite Hd2, !app_nil_r.
  - apply wp_bind, wp_get. case_if.
    + apply wp_bind, wp_modify, wp_ret. split; [by apply HC3|]. split; [done|]. split; [done|].
      split; cbn; try done; [|by intros ? [= <-]].
      unfold pending_bytes. cbn. rewrite take_ge by done. by rewrite app_assoc, L6.
    + apply wp_bind, wp_modify, IH; [by apply HC3| |done|done]. cbn in E0. split; cbn; try done.
      * unfold pending_bytes. cbn. rewrite Hd2, app_nil_r. by rewrite app_assoc, L6.
      * rewrite length_app. by apply Nat.ltb_ge in E0.
Qed.

Lemma io_flight_none w r s : io_ok w r s -> writing s = false -> in_flight s = None.
Proof.
  intros HK Hw. destruct (in_flight s) as [x|] eqn:E; [|done]. destruct (io_flight _ _ _ HK x E). congruence.
Qed.

Lemma wp_copy_pending b o w r (Q : unit -> session_impl -> Prop) s :
  Core b o s -> io_ok w r s -> stopped s = false -> writing s = false -> session_ s = true ->
  (forall s', Core b o s' -> inside_callback s' = false -> data_pending s' = None -> loop_ok w r (set_inside true s') -> Q tt s') ->
  wp copy_pending Q s.
Proof.
  intros HC HK Hst Hw Hs HQ. pose proof (io_flight_none _ _ _ HK Hw) as Hf.
  destruct HK as [K1 K2 K3 K4 K5 K6 K7 K8 K9 K10 K11 K12]. specialize (K4 Hst Hw). specialize (K3 Hst).
  rewrite Hst in K7. unfold pending_bytes in K3.
  assert (connecting s = ph_none) as Hc by (destruct (decide (connecting s = ph_none)) as [|Hn]; [done|]; by rewrite K11 in Hs).
  unfold copy_pending. apply wp_bind, wp_get. destruct (data_pending s) as [n|] eqn:Ed.
  - specialize (K5 n eq_refl). rewrite K4 in *. cbn [length plus app]. rewrite (proj2 (Nat.leb_le _ _)) by done.
    apply wp_bind, wp_ret, wp_bind, wp_modify, wp_modify, HQ; [by apply (Core_io_frame b o s)|done|done|].
    split; cbn; try done; [|rewrite length_take; lia|by auto..]. unfold pending_bytes. cbn. by rewrite app_nil_r.
  - apply wp_ret, HQ; [done|done|done|]. split; cbn; try done; [|rewrite K4; cbn; lia|congruence|by auto..].
    unfold pending_bytes. cbn. by rewrite Ed, K4.
Qed.

Lemma loop_idle w r s : loop_ok w r s -> wb s = [] -> io_ok w r (set_inside false s).
Proof.
  intros [] Hb. split; cbn; try done; try congruence; rewrite ?lo_stopped0; try done.
  rewrite Hb in *. done.
Qed.

Lemma loop_write w r s d :
  loop_ok w r s -> wb s <> [] -> is_Some d ->
  io_ok w r (write_socket (set_deadline d (set_writing true (set_inside false s)))).
Proof.
  intros [] Hb Hd. split; cbn; try done; try congruence; rewrite ?lo_stopped0; try done.
  - intros _. rewrite <- app_assoc. done.
  - by intros x [= <-].
Qed.

Lemma wp_should_stop (Q : bool -> session_impl -> Prop) s :
  session_ s = true -> (forall v s', s' = s \/ (exists l, s' = set_idles l s) -> Q v s') -> wp should_stop Q s.
Proof.
  intros Hs HQ. unfold should_stop, session_idle. apply wp_bind, wp_get. case_if; [by apply wp_ret, HQ; left|].
  unfold wp. rewrite Hs. destruct (idles s) as [|v l]; apply HQ; [by left|by right; exists l].
Qed.

Lemma io_ok_stop w r s : io_ok w r s -> stopped s = false -> io_ok w r (mark_stopped s).
Proof. intros [] Hs. split; cbn; try done; try congruence. rewrite io_closed0, Hs. done. Qed.

Lemma wp_stop_outer b o w r s :
  Core b o s -> io_ok w r s -> wp stop (fun _ s' => Core b o s' /\ io_ok w r s' /\ session_ s' = session_ s /\ stopped s' = true) s.
Proof.
  intros HC HK. apply (wp_stop b o); [done|done|]. intros Hs HC'. split; [done|]. split; [by apply io_ok_stop|done].
Qed.

Lemma wp_do_write b o w r s :
  Core b o s -> io_ok w r s -> session_ s = true ->
  wp do_write (fun _ s' => Core b o s' /\ io_ok w r s' /\ session_ s' = true) s.
Proof.
  intros HC HK Hs. unfold do_write. apply wp_bind, wp_get. case_if; [by apply wp_ret|]. case_if; [by apply wp_ret|].
  apply wp_bind, (wp_copy_pending b o w r); [done..|]. intros s1 HC1 Hi1 Hd1 HL1.
  apply wp_bind. unfold enter_callback. apply wp_bind, wp_get. rewrite Hi1.
  apply wp_bind, wp_ret, wp_modify, wp_bind. unfold mem_send_loop. apply wp_bind, wp_get.
  rewrite (lo_session _ _ _ HL1).
  eapply wp_mono; [apply (cwp_write_loop b o w r);
    [by apply (Core_io_frame b o s1)|done|apply HL1|done]|].
  intros ok s2 (HC2 & Hi2 & Hs2 & HP2). apply wp_bind. unfold leave_callback. apply wp_bind, wp_get. rewrite Hi2.
  apply wp_bind, wp_ret, wp_modify.
  assert (Core b o (set_inside false s2)) as HC3 by (by apply (Core_io_frame b o s2)).
  destruct ok; cbn [negb]; [|by apply wp_ret]. apply wp_bind, wp_get. case_if.
  - apply Nat.eqb_eq, nil_length_inv in E1. cbn in E1. pose proof (loop_idle w r s2 HP2 E1) as HK3.
    apply wp_bind, wp_should_stop; [done|]. intros v s4 Hs4.
    assert (Core b o s4 /\ io_ok w r s4 /\ session_ s4 = true) as (HC4 & HK4 & Hs4').
    { destruct Hs4 as [-> | [l ->]]; [done|]. split; [by apply (Core_io_frame b o (set_inside false s2))|].
      split; [by apply (io_ok_io w r (set_inside false s2))|done]. }
    destruct v; [|by apply wp_ret]. eapply wp_mono; [by apply (wp_stop_outer b o w r)|].
    intros _ s5 (? & ? & ? & _). split; [done|]. split; [done|]. congruence.
  - apply Nat.eqb_neq in E1. cbn in E1. apply wp_bind, wp_modify, wp_bind, wp_modify, wp_modify.
    split; [by apply (Core_io_frame b o s2)|]. split; [|done]. apply loop_write; [done| |done]. intros Eb. by rewrite Eb in E1.
Qed.

Lemma outer_ok w r b o s :
  Core b o s -> io_ok w r s -> session_ s = true ->
  wp (signal_write do_write) (fun _ s' => Core b o s' /\ io_ok w r s' /\ session_ s' = true) s.
Proof.
  intros HC HK Hs. unfold signal_write. apply wp_bind, wp_get. case_if; [by apply wp_do_write|by apply wp_ret].
Qed.

(** ** Completions *)

(** The state outside the callbacks. *)
Definition T (b : gset Z) (w r : nat) (s : session_impl) : Prop := Core b ∅ s /\ io_ok w r s.

Lemma T_frame b w r s s' :
  streams s' = streams s -> limbo s' = limbo s -> calls s' = calls s -> app_log s' = app_log s ->
  ping_waits s' = ping_waits s -> io s' = io s -> T b w r s -> T b w r s'.
Proof.
  intros E1 E2 E3 E4 E5 E6 [HC HK]. split; [|by apply (io_ok_io w r s)].
  apply (Core_io_frame b ∅ s); try done. injection E6. intros. congruence.
Qed.

Lemma T_stopped b w w' r s : T b w r s -> stopped s = true -> T b w' r s.
Proof. intros [HC []] Hs. split; [done|]. split; try done. congruence. Qed.

Lemma wp_outer_error b w r ec s : T b w r s -> wp (call_error_cb do_write ec) (fun _ => T b w r) s.
Proof. intros [HC HK]. by apply (wp_call_error_cb do_write (io_ok w r) (io_ok_io w r) (outer_ok w r)). Qed.

Lemma wp_outer_prog b w r p s : T b w r s -> wp (run_prog do_write p) (fun _ => T b w r) s.
Proof. intros [HC HK]. by apply (wp_run_prog do_write (io_ok w r) (io_ok_io w r) (outer_ok w r)). Qed.

Lemma wp_outer_stop b w r s : T b w r s -> wp stop (fun _ s' => T b w r s' /\ stopped s' = true) s.
Proof.
  intros [HC HK]. eapply wp_mono; [by apply (wp_stop_outer b ∅ w r)|]. intros _ s' (? & ? & _ & ?). done.
Qed.

Lemma wp_not_connected b w r ec s : T b w r s -> wp (not_connected ec) (fun _ => T b w r) s.
Proof.
  intros HT. unfold not_connected. apply wp_bind. eapply wp_mono; [by apply (wp_outer_error b w r)|].
  intros a s' HT'. eapply wp_mono; [by apply (wp_outer_stop b w r)|]. by intros _ s'' [? _].
Qed.

Lemma wp_do_read b w s :
  T b w 0 s -> session_ s = true ->
  wp do_read (fun _ s' => session_ s' = true /\ exists r, (r <= 1)%nat /\ T b w r s') s.
Proof.
  intros [HC HK] Hs. unfold do_read. apply wp_bind, wp_get. case_if.
  - apply wp_ret. split; [done|]. exists 0%nat. split; [lia|done].
  - apply wp_bind, wp_modify, wp_modify. split; [done|]. exists 1%nat. split; [lia|].
    split; [by apply (Core_io_frame b ∅ s)|]. destruct HK. split; cbn; try done; [congruence|]. intros; congruence.
Qed.

(** The state once the read handler has left its callback. *)
Lemma io_leave s s2 : io s2 = io (set_inside true s) -> inside_callback s = false -> io (set_inside false s2) = io s.
Proof. destruct s, s2. unfold io. cbn. intros E ->. congruence. Qed.

Lemma wp_read_handler b w ec evs rv n s :
  T b w 0 s -> session_ s = true -> fresh_promises b (concat (map begin_ids evs)) ->
  wp (read_handler ec evs rv n)
    (fun _ s' => exists r, (r <= 1)%nat /\ T (list_to_set (concat (map begin_ids evs)) ∪ b) w r s') s.
Proof.
  set (b' := list_to_set _ ∪ b). intros [HC HK] Hs Hf. unfold read_handler. destruct ec as [ec|].
  - apply wp_bind, wp_should_stop; [done|]. intros v s1 Hs1.
    assert (T b w 0 s1) as HT1 by (destruct Hs1 as [-> | [l ->]]; [done|]; by apply (T_frame b w 0 s)).
    apply wp_bind, (wp_mono _ (fun _ => T b w 0)); [destruct v; [by apply wp_ret|by apply wp_outer_error]|].
    intros a s2 HT2. eapply wp_mono; [by apply (wp_outer_stop b w 0)|]. intros _ s3 [[HC3 HK3] _].
    exists 0%nat. split; [lia|]. split; [|done]. eapply Core_mono; [|exact HC3]. set_solver.
  - apply wp_bind. unfold enter_callback. apply wp_bind, wp_get. rewrite (io_inside _ _ _ HK).
    apply wp_bind, wp_ret, wp_modify, wp_bind.
    eapply wp_mono; [apply (cwp_callbacks b ∅); [by apply (Core_io_frame b ∅ s)|done|done|done]|].
    intros _ s1 [HC1 E1]. fold b' in HC1.
    assert (forall s2, io s2 = io s1 -> inside_callback s2 = true /\ session_ s2 = true) as Hin.
    { intros s2 E2. rewrite E1 in E2. injection E2. intros. split; [done|]. congruence. }
    assert (forall s2, io s2 = io s1 -> Core b' ∅ s2 -> T b' w 0 (set_inside false s2)) as Hl.
    { intros s2 E2 HC2. split; [by apply (Core_io_frame b' ∅ s2)|]. apply (io_ok_io w 0 s); [|done].
      apply io_leave; [congruence|apply HK]. }
    case_if.
    + apply wp_bind. destruct (Hin s1 eq_refl). eapply wp_mono; [by apply (wp_nested_error b' ∅)|].
      intros _ s2 [HC2 E2]. destruct (Hin s2 E2) as [Hi2 Hs2]. pose proof (Hl s2 E2 HC2) as [HC3 HK3].
      apply wp_bind, (wp_stop b' ∅); [done|..].
      * intros _. unfold leave_callback. apply wp_bind, wp_get. rewrite Hi2. apply wp_bind, wp_ret, wp_modify.
        exists 0%nat. split; [lia|by split].
      * intros Hst HC4. unfold leave_callback. apply wp_bind, wp_get. cbn [inside_callback mark_stopped]. rewrite Hi2.
        apply wp_bind, wp_ret, wp_modify. exists 0%nat. split; [lia|].
        split; [by apply (Core_io_frame b' ∅ (mark_stopped s2))|]. exact (io_ok_stop w 0 _ HK3 Hst).
    + apply wp_bind. destruct (Hin s1 eq_refl) as [Hi1 Hs1]. unfold leave_callback. apply wp_bind, wp_get. rewrite Hi1.
      apply wp_bind, wp_ret, wp_modify. pose proof (Hl s1 eq_refl HC1) as [HC2 HK2].
      apply wp_bind. eapply wp_mono; [by apply (wp_do_write b' ∅ w 0)|]. intros _ s3 (HC3 & HK3 & Hs3).
      apply wp_bind, wp_should_stop; [done|]. intros v s4 Hs4.
      assert (T b' w 0 s4 /\ session_ s4 = true) as [HT4 Hs4'].
      { destruct Hs4 as [-> | [l ->]]; [done|]. split; [by apply (T_frame b' w 0 s3)|done]. }
      destruct v.
      * eapply wp_mono; [by apply (wp_outer_stop b' w 0)|]. intros _ s5 [HT5 _]. exists 0%nat. split; [lia|done].
      * eapply wp_mono; [by apply (wp_do_read b' w)|]. by intros _ s5 [_ ?].
Qed.

Lemma wp_write_handler b w r ec s :
  T b w r s -> session_ s = true -> in_flight s = None -> wp (write_handler ec) (fun _ => T b w r) s.
Proof.
  intros HT Hs Hf. unfold write_handler. destruct ec as [ec|].
  - apply wp_bind. eapply wp_mono; [by apply (wp_outer_error b w r)|]. intros a s' HT'.
    eapply wp_mono; [by apply (wp_outer_stop b w r)|]. by intros _ s'' [? _].
  - destruct HT as [HC HK]. apply wp_bind, wp_modify, wp_bind, wp_modify.
    eapply wp_mono; [apply (wp_do_write b ∅ w r); [by apply (Core_io_frame b ∅ s)| |done]|].
    + destruct HK. split; cbn; try done. intros x Hx. congruence.
    + intros _ s' (? & ? & _). by split.
Qed.

(** The steps keep one wait of the deadline timer and at most one read pending. *)
Definition S1 (b : gset Z) (s : session_impl) : Prop := exists r, (r <= 1)%nat /\ T b 1 r s.

Lemma T_S1 b r s : (r <= 1)%nat -> T b 1 r s -> S1 b s.
Proof. intros. by exists r. Qed.

Lemma wp_connected b rv no_delay s :
  T b 1 0 s -> session_ s = false -> connecting s = ph_none -> wp (connected rv no_delay) (fun _ => S1 b) s.
Proof.
  intros [HC HK] Hs Hc. unfold connected, setup_session. apply wp_bind. case_if.
  - apply wp_bind. eapply wp_mono; [apply (wp_outer_error b 1 0); by split|]. intros a s' HT.
    apply wp_ret, wp_ret. by exists 0%nat; split; [lia|].
  - apply wp_bind, wp_modify. apply wp_bind, cwp_lib; [done|]. apply wp_bind, cwp_lib; [done|]. apply wp_ret. cbn [negb].
    set (s1 := add_call _ _).
    assert (Core b ∅ s1) as HC1.
    { apply Core_call; [done|]. apply Core_call; [done|]. eapply Core_frame; [..|exact HC]; done. }
    assert (io_ok 1 0 s1) as HK1.
    { destruct HK. split; cbn; done || congruence. }
    case_if.
    { apply wp_modify. exists 0%nat. split; [lia|]. split; [by apply Core_event|by apply (io_ok_io 1 0 s1)]. }
    apply wp_bind. eapply wp_mono; [by apply (wp_do_write b ∅ 1 0)|]. intros _ s2 (HC2 & HK2 & Hs2).
    apply wp_bind. eapply wp_mono; [by apply (wp_do_read b 1)|]. intros _ s3 (Hs3 & r & Hr & [HC3 HK3]).
    apply wp_bind. unfold start_ping. apply wp_modify. apply wp_bind, wp_get.
    set (s4 := set_ping_waits _ s3).
    assert (Core b ∅ s4) as HC4.
    { eapply Core_frame; [..|exact HC3]; try done. cbn. congruence. }
    assert (io_ok 1 r s4) as HK4 by (by apply (io_ok_io 1 r s3)).
    destruct (connect_cb s4) as [cb|]; [|apply wp_ret; by exists r].
    eapply wp_mono; [apply (wp_react do_write (io_ok 1 r) (io_ok_io 1 r) (outer_ok 1 r) b ∅);
      [by apply Core_event|done]|]. intros _ s5 [HC5 HK5]. by exists r.
Qed.

Lemma wp_handle_deadline b r s :
  T b 0 r s -> (r <= 1)%nat -> wp handle_deadline (fun _ => S1 b) s.
Proof.
  intros HT Hr. unfold handle_deadline. apply wp_bind, wp_get. case_if.
  { apply wp_ret. exists r. split; [done|]. by eapply T_stopped. }
  case_if.
  - apply wp_bind. eapply wp_mono; [by apply (wp_outer_error b 0 r)|]. intros a s1 HT1. apply wp_bind.
    eapply wp_mono; [by apply (wp_outer_stop b 0 r)|]. intros _ s2 [HT2 Hs2]. apply wp_modify. exists r. split; [done|].
    destruct HT2 as [HC2 []].
    split; [by apply (Core_io_frame b ∅ s2)|]. split; cbn; try done; congruence.
  - apply wp_modify. exists r. split; [done|]. destruct HT as [HC HK].
    split; [by apply (Core_io_frame b ∅ s)|]. destruct HK. split; cbn; try done. intros Hs. by rewrite io_waits0.
Qed.

Lemma wp_handle_ping b r aborted s :
  T b 1 r s -> (r <= 1)%nat -> session_ s = true -> wp (handle_ping aborted) (fun _ => S1 b) s.
Proof.
  intros [HC HK] Hr Hs. unfold handle_ping. apply wp_bind, wp_get. case_if; [apply wp_ret; by exists r|].
  apply wp_bind, cwp_lib; [done|]. apply wp_bind.
  eapply wp_mono; [apply (outer_ok 1 r b ∅); [by apply Core_call|by apply (io_ok_io 1 r s)|done]|].
  intros _ s1 (HC1 & HK1 & Hs1). unfold start_ping. apply wp_modify. exists r. split; [done|].
  split; [|by apply (io_ok_io 1 r s1)]. eapply Core_frame; [..|exact HC1]; try done. cbn. congruence.
Qed.

(** The promises that a step starts to receive, and what is asked of it: the ids
    are even, the callbacks inside [nghttp2_session_mem_send] receive nothing. *)
Definition step_ids (x : step) : list Z :=
  match sp_event x with ce_read None evs _ _ => concat (map begin_ids evs) | _ => [] end.

Definition step_ok (x : step) : Prop := Forall send_ok (sp_sends x) /\ Forall (fun id => Z.even id = true) (step_ids x).

(** A pending operation of the transport, before the session exists. *)
Lemma wp_complete b p (m : M unit) s :
  S1 b s -> p <> ph_none ->
  (forall s', T b 1 0 s' -> session_ s' = false -> connecting s' = ph_none -> wp m (fun _ => S1 b) s') ->
  wp (complete p m) (fun _ => S1 b) s.
Proof.
  intros (r & Hr & [HC HK]) Hp Hm. unfold complete. apply wp_bind, wp_get. case_decide as Hc; [|apply wp_ret; by exists r].
  assert (session_ s = false) as Hs by (apply HK; congruence).
  assert (r = 0%nat) as ->. { destruct HK. destruct (io_session0 Hs). congruence. }
  apply wp_bind, wp_modify, Hm; [|done|done].
  split; [by apply (Core_io_frame b ∅ s)|]. destruct HK. by split.
Qed.

Lemma wp_transport b (m : M unit) ec s :
  T b 1 0 s -> session_ s = false -> connecting s = ph_none ->
  wp m (fun _ => S1 b) s ->
  wp (s <- get;; if stopped s then ret tt else match ec with Some ec => not_connected ec | None => m end) (fun _ => S1 b) s.
Proof.
  intros HT Hs Hc Hm. apply wp_bind, wp_get. case_if; [apply wp_ret; by exists 0%nat; split; [lia|]|].
  destruct ec as [ec|]; [|done]. eapply wp_mono; [by apply (wp_not_connected b 1 0)|].
  intros a s' HT'. exists 0%nat. split; [lia|done].
Qed.

Lemma T_connecting b p s : T b 1 0 s -> session_ s = false -> S1 b (set_connecting p s).
Proof.
  intros [HC HK] Hs. exists 0%nat. split; [lia|]. split; [by apply (Core_io_frame b ∅ s)|]. destruct HK. by split.
Qed.

Lemma S1_mono b b' s : b ⊆ b' -> S1 b s -> S1 b' s.
Proof. intros Hb (r & Hr & [HC HK]). exists r. split; [done|]. split; [by eapply Core_mono|done]. Qed.

(** The completions, by the operation that was pending. *)
Lemma wp_step_transport b tls e s :
  S1 b s -> match e with ce_resolve _ | ce_connect _ _ _ | ce_handshake _ _ _ _ _ => True | _ => False end ->
  wp (run_cevent tls e) (fun _ => S1 b) s.
Proof.
  intros HS He. destruct e as [ec|ec rv nd|ec npn alpn rv nd|ec evs rv n|ec| |aborted|p]; try done; cbn [run_cevent];
    (apply wp_complete; [done..|]); intros s' HT Hs Hc.
  - unfold resolve_handler. destruct ec as [ec|]; [|by apply wp_modify, T_connecting].
    eapply wp_mono; [by apply (wp_not_connected b 1 0)|]. intros a s'' HT'. by exists 0%nat; split; [lia|].
  - apply wp_transport; [done..|]. destruct tls; [by apply wp_modify, T_connecting|by apply wp_connected].
  - apply wp_transport; [done..|]. case_if; [|by apply wp_connected].
    eapply wp_mono; [by apply (wp_not_connected b 1 0)|]. intros a s'' HT'. by exists 0%nat; split; [lia|].
Qed.

Lemma wp_step_read b tls ec evs rv n s :
  S1 b s -> fresh_promises b (match ec with None => concat (map begin_ids evs) | Some _ => [] end) ->
  wp (run_cevent tls (ce_read ec evs rv n))
    (fun _ => S1 (list_to_set (match ec with None => concat (map begin_ids evs) | Some _ => [] end) ∪ b)) s.
Proof.
  intros (r & Hr & [HC HK]) Hf. cbn [run_cevent]. apply wp_bind, wp_get. pose proof (io_reads _ _ _ HK) as Er.
  destruct (reads s) as [|k] eqn:Ek.
  { apply wp_ret. apply (S1_mono b); [set_solver|]. by exists r. }
  assert (k = 0%nat) as -> by lia.
  assert (session_ s = true) as Hs.
  { destruct (session_ s) eqn:Es; [done|]. destruct (io_session _ _ _ HK Es). congruence. }
  assert (T b 1 0 (set_reads 0 s)) as HT.
  { split; [by apply (Core_io_frame b ∅ s)|]. destruct HK. split; cbn; try done. intros Hn. split; [done|by apply io_session0]. }
  apply wp_bind, wp_modify. destruct ec as [ec|]; [|by apply wp_read_handler].
  eapply wp_mono; [apply (wp_read_handler b 1 (Some ec) [] rv n); [done|done|by split; constructor]|].
  intros _ s2 (r2 & Hr2 & HT2). exists r2. split; [done|exact HT2].
Qed.

Lemma wp_step_write b tls ec s : S1 b s -> wp (run_cevent tls (ce_write ec)) (fun _ => S1 b) s.
Proof.
  intros (r & Hr & [HC HK]). cbn [run_cevent]. apply wp_bind, wp_get.
  destruct (in_flight s) as [d|] eqn:Ef; [|apply wp_ret; by exists r].
  assert (session_ s = true) as Hs.
  { destruct (session_ s) eqn:Es; [done|]. destruct (io_session _ _ _ HK Es). congruence. }
  apply wp_bind, wp_modify. eapply wp_mono; [apply (wp_write_handler b 1 r); [|done|done]|intros a s2 HT2; by exists r].
  split; [by apply (Core_io_frame b ∅ s)|]. destruct HK. split; cbn; try done. intros Hn. split; [|done]. by apply io_session0.
Qed.

Lemma wp_step_timer b tls e s :
  S1 b s -> match e with ce_deadline | ce_ping _ => True | _ => False end -> wp (run_cevent tls e) (fun _ => S1 b) s.
Proof.
  intros (r & Hr & [HC HK]) He. destruct e; try done; cbn [run_cevent]; apply wp_bind, wp_get.
  - destruct (deadline_waits s) as [|k] eqn:Ek; [apply wp_ret; by exists r|].
    apply wp_bind, wp_modify, (wp_handle_deadline b r); [|done]. split; [by apply (Core_io_frame b ∅ s)|].
    destruct HK. split; cbn; try done. intros Hst. specialize (io_waits0 Hst). congruence.
  - destruct (ping_waits s) as [|k] eqn:Ek; [apply wp_ret; by exists r|].
    assert (session_ s = true) as Hs.
    { destruct (session_ s) eqn:Es; [done|]. destruct HC as [_ HC]. destruct (HC Es). congruence. }
    apply wp_bind, wp_modify, (wp_handle_ping b r); [|done|done].
    split; [|by apply (io_ok_io 1 r s)]. eapply Core_frame; [..|exact HC]; try done. cbn. congruence.
Qed.

Lemma wp_run_step b tls x s :
  S1 b s -> step_ok x -> fresh_promises b (step_ids x) ->
  wp (run_step tls x) (fun _ => S1 (list_to_set (step_ids x) ∪ b)) s.
Proof.
  intros HS [Hsend _] Hf. unfold run_step. apply wp_bind, wp_modify. set (s1 := set_world _ _ _ s).
  assert (S1 b s1) as HS1.
  { destruct HS as (r & Hr & [HC HK]). exists r. split; [done|]. split; [by apply (Core_io_frame b ∅ s)|]. destruct HK. by split. }
  assert (forall (m : M unit), wp m (fun _ => S1 b) s1 -> wp m (fun _ => S1 (list_to_set (step_ids x) ∪ b)) s1) as Hk.
  { intros m Hm. eapply wp_mono; [exact Hm|]. intros a s'. apply S1_mono. set_solver. }
  clearbody s1. unfold step_ids in *. destruct (sp_event x) as [| | |ec evs rv n| | | |p].
  1, 2, 3: by apply Hk, wp_step_transport.
  - destruct ec; by apply wp_step_read.
  - by apply Hk, wp_step_write.
  - by apply Hk, wp_step_timer.
  - by apply Hk, wp_step_timer.
  - apply Hk. destruct HS1 as (r & Hr & HT). eapply wp_mono; [by apply (wp_outer_prog b 1 r)|].
    intros a s2 HT2. by exists r.
Qed.

(** ** Executions *)

(** The wait of the deadline timer completes after the deadline. *)
Lemma wp_deadline_passed b tls x d s :
  S1 b s -> Forall send_ok (sp_sends x) -> stopped s = false -> deadline s = Some d -> d <= sp_now x -> sp_event x = ce_deadline ->
  wp (run_step tls x) (fun _ s' => stopped s' = true /\ closed s' = 1%nat) s.
Proof.
  intros (r & Hr & [HC HK]) Hx Hs Hd Hn He. unfold run_step. apply wp_bind, wp_modify. rewrite He. cbn [run_cevent].
  set (s1 := set_world _ _ _ s). apply wp_bind, wp_get. assert (deadline_waits s1 = 1%nat) as -> by (by apply (io_waits _ _ _ HK)).
  apply wp_bind, wp_modify. set (s2 := set_deadline_waits 0 s1).
  assert (T b 0 r s2) as HT2.
  { split; [by apply (Core_io_frame b ∅ s)|]. destruct HK. by split. }
  unfold handle_deadline. apply wp_bind, wp_get. change (stopped s2) with (stopped s). rewrite Hs.
  change (deadline s2) with (deadline s). rewrite Hd. change (clock s2) with (sp_now x). rewrite (proj2 (Z.leb_le _ _) Hn).
  apply wp_bind. eapply wp_mono; [by apply (wp_outer_error b 0 r)|]. intros a s3 HT3. apply wp_bind.
  eapply wp_mono; [by apply (wp_outer_stop b 0 r)|]. intros _ s4 [[_ HK4] Hs4]. apply wp_modify. cbn. split; [done|].
  rewrite (io_closed _ _ _ HK4). by rewrite Hs4.
Qed.

(** The library behaves as documented: no stream is promised twice. *)
Definition trace_ok (steps : list step) : Prop := Forall step_ok steps /\ NoDup (concat (map step_ids steps)).

Lemma wp_run_steps tls ids steps s :
  S1 (list_to_set ids) s -> Forall step_ok steps -> NoDup (ids ++ concat (map step_ids steps)) ->
  wp (forM steps (run_step tls)) (fun _ => S1 (list_to_set (ids ++ concat (map step_ids steps)))) s.
Proof.
  intros HS Hok. revert ids s HS. induction Hok as [|x steps Hx Hok IH]; intros ids s HS Hn; cbn [forM map concat] in *.
  - apply wp_ret. by rewrite app_nil_r.
  - apply wp_bind. pose proof Hn as Hn'. apply NoDup_app in Hn' as (_ & Hd & Hn2).
    apply NoDup_app in Hn2 as (Hn2 & _ & _). rewrite app_assoc in Hn |- *.
    eapply wp_mono; [apply (wp_run_step (list_to_set ids)); [done|done|]|].
    + split; [done|]. destruct Hx as [_ Hev]. rewrite Forall_forall in *. intros id Hid. split; [by apply Hev|].
      rewrite elem_of_list_to_set. intros Hin. apply (Hd _ Hin), elem_of_app. by left.
    + intros a s' HS'. apply IH; [|done]. rewrite list_to_set_app_L.
      replace (list_to_set ids ∪ list_to_set (step_ids x) : gset Z)
        with (list_to_set (step_ids x) ∪ list_to_set ids : gset Z); [exact HS'|]. set_solver.
Qed.

Lemma wp_run tls timeout steps now :
  trace_ok steps -> wp (run tls timeout steps) (fun _ => S1 (list_to_set (concat (map step_ids steps)))) (new_session now).
Proof.
  intros [H1 H2]. unfold run, start_resolve. apply wp_bind, wp_bind, wp_modify, wp_bind, wp_modify, wp_modify. apply (wp_run_steps tls [] steps); [|done|done].
  exists 0%nat. split; [lia|]. split.
  - split; [|done]. intros id. cbn. rewrite !lookup_empty. unfold id_ok, closes, count. cbn. done.
  - by split.
Qed.

Lemma S1_limbo b s : S1 b s -> limbo s = ∅.
Proof.
  intros (r & _ & [HC _] & _). apply map_eq. intros id. specialize (HC id). rewrite !lookup_empty in *. unfold id_ok in HC.
  destruct (streams s !! id), (limbo s !! id); try done. by destruct HC as (_ & _ & ? & _).
Qed.

(** *** The destructor *)

Definition wants_close (o : option stream) : Z :=
  match o with
  | Some st => match rq_on_close (st_request st) with Some _ => 1 | None => 0 end
  | None => 0
  end.

Definition destroy_one (id : Z) : M unit :=
  st <- the_stream id;;
  match rq_on_close (st_request st) with
  | Some cb => modify (add_event (app_close cb id NGHTTP2_INTERNAL_ERROR))
  | None => ret tt
  end.

Lemma client_destroy_list l s :
  NoDup l -> Forall (fun id => streams s !! id <> None) l ->
  exists s', forM l destroy_one s = Done tt s' /\ streams s' = streams s
    /\ forall id, closes id (app_log s') = closes id (app_log s) + (if decide (id ∈ l) then wants_close (streams s !! id) else 0).
Proof.
  intros Hn. revert s. induction Hn as [|i l Hi Hn IH]; intros s Hl.
  { exists s. split; [done|]. split; [done|]. intros id. rewrite decide_False by (by intros ?%elem_of_nil). lia. }
  inversion_clear Hl as [|?? Hs Hl']. destruct (streams s !! i) as [st|] eqn:Es; [|done].
  assert (exists s1, destroy_one i s = Done tt s1 /\ streams s1 = streams s
    /\ forall id, closes id (app_log s1) = closes id (app_log s) + (if decide (id = i) then wants_close (Some st) else 0))
    as (s1 & E1 & Es1 & Hc1).
  { unfold destroy_one, the_stream, bind, get, ret, modify. rewrite Es. cbn [wants_close].
    destruct (rq_on_close (st_request st)) as [cb|]; eexists; (split; [reflexivity|]); (split; [done|]); intros id;
      unfold closes; [|case_decide; lia]. cbn [app_log add_event]. rewrite count_cons. cbn [is_close_of].
    destruct (Z.eqb_spec i id), (decide (id = i)); simplify_eq; lia. }
  destruct (IH s1) as (s' & E & Es' & Hc); [by rewrite Es1|].
  exists s'. cbn [forM]. unfold bind at 1. rewrite E1, E. split; [done|]. split; [congruence|].
  intros id. rewrite Hc, Hc1, Es1. destruct (decide (id = i)) as [->|Hne].
  - rewrite (decide_False (P := i ∈ l)) by done. rewrite decide_True by (by left). rewrite Es. lia.
  - destruct (decide (id ∈ l)) as [Hd|Hd], (decide (id ∈ i :: l)) as [Hd'|Hd']; try lia; exfalso; set_solver.
Qed.

Lemma client_destroy_spec s :
  exists s', destroy s = Done tt s'
    /\ forall id, closes id (app_log s') = closes id (app_log s) + wants_close (streams s !! id).
Proof.
  unfold destroy. change (forM ?l _) with (forM l destroy_one). unfold bind at 1, get.
  set (l := merge_sort Z.le (map_to_list (streams s)).*1).
  assert (l ≡ₚ (map_to_list (streams s)).*1) as Hp by apply merge_sort_Permutation.
  assert (forall id, id ∈ l <-> streams s !! id <> None) as Hl.
  { intros id. rewrite Hp, list_elem_of_fmap. split.
    - intros ([i st] & -> & Hi). apply elem_of_map_to_list in Hi. cbn. by rewrite Hi.
    - intros Hs. destruct (streams s !! id) as [st|] eqn:E; [|done]. exists (id, st).
      split; [done|]. by apply elem_of_map_to_list. }
  destruct (client_destroy_list l s) as (s' & E & _ & Hc).
  { rewrite Hp. apply NoDup_fst_map_to_list. }
  { apply Forall_forall. intros id. by rewrite Hl. }
  exists s'. split; [done|]. intros id. rewrite Hc. case_decide as Hd; [done|].
  rewrite Hl in Hd. destruct (streams s !! id) eqn:Es; [|done]. by exfalso; apply Hd.
Qed.

End props.

(** ** The properties *)

(** A small world for the examples: every library call succeeds, no host is a
    numeric address, and the application submits a request as soon as it is
    connected and asks to be told of the response, its body and the close. *)
Definition demo_app : App := {|
  app_react := fun s e =>
    match e with
    | app_connect _ =>
      app_do (call_submit (lit "GET") (lit "https://example.org/index?q") gen_empty [] None) (fun r =>
        match r.2 with
        | Some id => app_do (call_on_response id 5) (fun _ => app_do (call_on_close id 6) (fun _ => app_done))
        | None => app_done
        end)
    | app_response _ id => app_do (call_on_data id 8) (fun _ => app_done)
    | _ => app_done
    end;
  app_gen := fun _ _ _ => (GRead [], 0);
|}.

Definition demo_inet : Inet := fun _ => false.

Definition response_frame (id flags : Z) : frame := mk_frame NGHTTP2_HEADERS id flags NGHTTP2_HCAT_RESPONSE 0.

Definition demo_trace : list step :=
  [mk_step 0 [] [] (ce_app (app_do (call_on_connect 1) (fun _ => app_do (call_on_error 2) (fun _ => app_done))));
   mk_step 1 [] [] (ce_resolve None);
   mk_step 2 [mk_send [] (inl (lit "PRI * HTTP/2.0")); mk_send [] (inl (lit "SETTINGS"))] [] (ce_connect None 0 0);
   mk_step 3 [mk_send [] (inl (lit "HEADERS"))] [] (ce_write None);
   mk_step 4 [] [] (ce_read None [on_begin_headers (response_frame 1 0);
                                  on_header (response_frame 1 0) (lit ":status") (lit "200") 0;
                                  on_header (response_frame 1 0) (lit "content-length") (lit "5") 0;
                                  on_frame_recv (response_frame 1 0)] 30 30);
   mk_step 5 [] [] (ce_write None);
   mk_step 6 [] [] (ce_read None [on_data_chunk_recv 1 (lit "hello"); on_stream_close 1 0] 14 14)].

Definition small_send (x : mem_send) : bool :=
  match send_events x, send_result x with [], inl d => Z.of_nat (length d) <=? 65536 | _, _ => false end.

Lemma step_ok_small x : forallb small_send (sp_sends x) = true -> step_ids x = [] -> step_ok x.
Proof.
  intros Hx E. split; [|rewrite E; constructor]. apply Forall_forall. intros y Hy.
  rewrite forallb_forall in Hx. specialize (Hx y (proj1 (list_elem_of_In _ _) Hy)). unfold small_send in Hx.
  unfold send_ok, WB_SIZE. destruct (send_events y), (send_result y); try done. split; [constructor|lia].
Qed.

Lemma client_demo_trace_ok : trace_ok demo_trace.
Proof.
  split; [|vm_compute; constructor].
  repeat (apply Forall_cons; split; [by apply step_ok_small|]). by apply Forall_nil.
Qed.

Local Abbreviation demo_run := (@run counting_lib demo_app demo_inet false 60 demo_trace (new_session 0)).

(** C3. Safety of the client's session: whatever the peer sends, whatever the
    library returns within its documented behaviour, whatever the application
    calls in and outside its callbacks, and in whatever order the asynchronous
    operations complete, no [assert] fails (streams are created once, callbacks
    are not nested), no write is started inside a callback, [wb_] does not
    overflow and the session uses no null [session_]; an execution can only stop
    because a request was used after its close notification or the application
    called the session before it was connected.  Between events no callback is
    active and every stream is in the table. *)
Theorem client_session_safe {Lib : Nghttp2} {Laws : Nghttp2Laws} {Ap : App} {In : Inet}
    (tls : bool) (connect_timeout now : Z) (steps : list step) (Hok : trace_ok steps) :
  match run tls connect_timeout steps (new_session now) with
  | Done _ s => inside_callback s = false /\ limbo s = ∅
  | Failed e => e = dangling_stream \/ e = null_session
  end.
Proof.
  pose proof (wp_run tls connect_timeout steps now Hok) as H. unfold wp in H.
  destruct (run tls connect_timeout steps (new_session now)) as [[] s|]; [|done].
  split; [|by eapply S1_limbo]. destruct H as (r & _ & [_ HK]). apply HK.
Qed.

Lemma client_session_safe_witness : exists s, demo_run = Done tt s /\ inside_callback s = false.
Proof.
  pose proof (@client_session_safe counting_lib _ demo_app demo_inet false 60 0 demo_trace client_demo_trace_ok) as H.
  destruct demo_run as [[] s|e] eqn:E.
  - exists s. split; [reflexivity|apply H].
  - exfalso. revert E. vm_compute. discriminate.
Defined.

(** C5. The client's bytes and asynchronous operations: as long as the session has
    not been stopped, the bytes handed to [write_socket], in order, followed by
    the bytes kept for the next write, are exactly the bytes that
    [nghttp2_session_mem_send] produced, and one wait of the deadline timer is
    pending.  At all times [wb_] holds the bytes of the write in progress, a
    non-empty run of at most 64 KiB; at most one read is pending; the socket is
    closed at most once, exactly when [stopped_]. *)
Theorem client_io_disciplined {Lib : Nghttp2} {Laws : Nghttp2Laws} {Ap : App} {In : Inet}
    (tls : bool) (connect_timeout now : Z) (steps : list step) (s : session_impl) (Hok : trace_ok steps)
    (Hrun : run tls connect_timeout steps (new_session now) = Done tt s) :
  (stopped s = false -> wire s ++ pending_bytes s = produced s /\ deadline_waits s = 1%nat)
  /\ (forall x, in_flight s = Some x -> writing s = true /\ wb s = x /\ x <> [] /\ Z.of_nat (length x) <= 65536)
  /\ (reads s <= 1)%nat
  /\ closed s = (if stopped s then 1 else 0)%nat.
Proof.
  pose proof (wp_run tls connect_timeout steps now Hok) as H. unfold wp in H. rewrite Hrun in H.
  destruct H as (r & Hr & [_ HK]). split; [intros Hs; split; by apply HK|]. split.
  - intros x Hx. destruct (io_flight _ _ _ HK x Hx) as (H1 & H2 & H3 & H4). split; [done|]. split; [done|]. split; [done|].
    unfold WB_SIZE in H4. lia.
  - split; [|apply HK]. rewrite (io_reads _ _ _ HK). done.
Qed.

Lemma client_io_disciplined_witness :
  exists s, demo_run = Done tt s /\ stopped s = false
            /\ wire s = lit "PRI * HTTP/2.0SETTINGSHEADERS" /\ wire s ++ pending_bytes s = produced s.
Proof.
  destruct demo_run as [[] s|e] eqn:E.
  2:{ exfalso. revert E. vm_compute. discriminate. }
  assert (stopped s = false /\ wire s = lit "PRI * HTTP/2.0SETTINGSHEADERS") as [Hs Hw].
  { pose proof E as E'. vm_compute in E'. injection E' as <-. split; reflexivity. }
  exists s. split; [reflexivity|]. split; [exact Hs|]. split; [exact Hw|].
  apply (client_io_disciplined false 60 0 demo_trace s client_demo_trace_ok E). exact Hs.
Defined.



(** C21. A session that is not stopped cannot hang: it has a deadline and exactly one
    pending wait on its timer, while it resolves, connects or shakes hands as well as
    afterwards.  When the wait completes at the deadline or later, the session is
    stopped and its socket closed, whatever the application does in its error
    callback short of misuse. *)
Theorem idle_session_times_out {Lib : Nghttp2} {Laws : Nghttp2Laws} {Ap : App} {In : Inet}
    (tls : bool) (connect_timeout now : Z) (steps : list step) (s : session_impl) (Hok : trace_ok steps)
    (Hrun : run tls connect_timeout steps (new_session now) = Done tt s) (Hopen : stopped s = false) :
  deadline_waits s = 1%nat
  /\ exists d, deadline s = Some d
     /\ forall later sends idles, Forall send_ok sends -> d <= later ->
        match run_step tls (mk_step later sends idles ce_deadline) s with
        | Done _ s' => stopped s' = true /\ closed s' = 1%nat
        | Failed e => misuse e
        end.
Proof.
  pose proof (wp_run tls connect_timeout steps now Hok) as H. unfold wp in H. rewrite Hrun in H.
  pose proof H as (r & Hr & [_ HK]). split; [by apply (io_waits _ _ _ HK)|].
  destruct (io_deadline _ _ _ HK Hopen) as [d Hd]. exists d. split; [done|]. intros later sends idles Hs Hl.
  by apply (wp_deadline_passed (list_to_set (concat (map step_ids steps))) tls (mk_step later sends idles ce_deadline) d).
Qed.

Lemma idle_session_times_out_witness :
  exists s, demo_run = Done tt s /\ deadline_waits s = 1%nat
    /\ exists d, deadline s = Some d
       /\ match @run_step counting_lib demo_app demo_inet false (mk_step d [] [] ce_deadline) s with
          | Done _ s' => stopped s' = true /\ closed s' = 1%nat
          | Failed e => misuse e
          end.
Proof.
  destruct demo_run as [[] s|e] eqn:E.
  2:{ exfalso. revert E. vm_compute. discriminate. }
  assert (stopped s = false) as Hs by (revert E; vm_compute; intros [= <-]; reflexivity).
  destruct (idle_session_times_out false 60 0 demo_trace s client_demo_trace_ok E Hs) as (Hw & d & Hd & H).
  exists s. split; [reflexivity|]. split; [exact Hw|]. exists d. split; [exact Hd|]. apply H; [constructor|reflexivity].
Defined.

(** When [nghttp2_session_client_new] fails, the application is told, but the session
    is not stopped and its socket stays open until the deadline. *)
Example setup_failure_not_stopped :
  match @run counting_lib demo_app demo_inet false 60 (take 2 demo_trace ++ [mk_step 2 [] [] (ce_connect None (-901) 0)]) (new_session 0) with
  | Done _ s => app_log s = [app_error 2 (make_error_code_nghttp2 (-901))] /\ stopped s = false /\ session_ s = false /\ closed s = 0%nat
  | Failed _ => False
  end.
Proof. vm_compute. repeat split. Qed.

(** When the option of the connected socket cannot be set, the exception leaves a
    session that neither reads nor writes, until its deadline. *)
Example option_failure_not_stopped :
  match @run counting_lib demo_app demo_inet false 60 (take 2 demo_trace ++ [mk_step 2 [] [] (ce_connect None 0 22)]) (new_session 0) with
  | Done _ s => app_log s = [app_exception 22] /\ stopped s = false /\ session_ s = true
                /\ reads s = 0%nat /\ in_flight s = None /\ closed s = 0%nat
  | Failed _ => False
  end.
Proof. vm_compute. repeat split. Qed.

End client_props.
