(* ===== verification/ClientRequest.v ===== *)
(** * What the client makes of a request, and of a response

    Functional behaviour of [submit] and of the callbacks of ClientSession: the
    request that is handed to the library for a URI, the response that a block of
    header fields builds and when the application is told of it, and what becomes
    of informational responses, trailers, oversized promises and streams that are
    closed while they are submitted. *)

From S2P Require Import Prelude Monad Util Http2 UrlParser Common Nghttp2 ClientSession ClientProps.

Module client_request.
Import monad http2 common nghttp2 client client_props.
Local Open Scope monad_scope.
Local Abbreviation M := (monad.M session_impl).

(** ** Requests *)

Section submit.
Context {Lib : Nghttp2} {Ap : App} {In : Inet}.

(** The [:authority], the path and the [:path] for the components of a URI. *)
Definition authority_of (x : url_parser.url_parts) : str :=
  (if ipv6_numeric_addr (url_parser.u_host x) then "["%char :: url_parser.u_host x ++ ["]"%char] else url_parser.u_host x)
  ++ match url_parser.u_port x with Some ds => ":"%char :: util.utos (util.decimal_value ds) | None => [] end.

Definition raw_path_of (x : url_parser.url_parts) : str :=
  match url_parser.u_path x with [] => lit "/" | p => p end.

Definition target_of (x : url_parser.url_parts) : str :=
  raw_path_of x ++ url_parser.prefixed "?" (url_parser.u_query x).

Definition uri_of (x : url_parser.url_parts) : uri_ref :=
  mk_uri (url_parser.u_scheme x) (authority_of x) (util.percent_decode (raw_path_of x)) (raw_path_of x)
    (default [] (url_parser.u_query x)) [].

Lemma has_field_nonempty u f url t :
  url_parser.nonempty t = true -> url_parser.copy_url_component [] u f url = url_parser.POk t ->
  url_parser.has_field u f = true.
Proof.
  intros Hn H1. unfold url_parser.copy_url_component in H1.
  destruct (url_parser.has_field u f); [done|]. by injection H1 as <-.
Qed.

Lemma submit_uri_of x :
  url_parser.parts_ok x = true -> Z.of_nat (length (url_parser.url_of x)) < 65536 ->
  submit_uri (url_parser.url_of x) = Some (Some (uri_of x, target_of x)).
Proof.
  intros Hok Hl. destruct (url_parser.parse_url_of x url_parser.http_parser_url_init Hok Hl)
    as (u & E & C1 & C2 & C3 & C4 & C5 & HP & HQ & _ & _ & Ep).
  unfold url_parser.parts_ok in Hok. rewrite !andb_true_iff in Hok.
  destruct Hok as ((((((Hs & _) & Hh) & _) & _) & _) & _).
  unfold submit_uri. rewrite E, (has_field_nonempty u _ _ _ Hs C1), (has_field_nonempty u _ _ _ Hh C2).
  cbn [negb orb]. rewrite C1, C2, C4, C5, HP, HQ, Ep. cbv zeta. unfold uri_of, target_of, authority_of, raw_path_of.
  assert ((if (length (url_parser.u_path x) =? 0)%nat then lit "/" else url_parser.u_path x)
          = match url_parser.u_path x with [] => lit "/" | p => p end) as -> by (by destruct (url_parser.u_path x)).
  destruct (url_parser.u_port x), (url_parser.u_query x); cbn; rewrite ?app_nil_r; done.
Qed.

(** The request as [submit] leaves it. *)
Definition submitted (u : uri_ref) (g : generator) (h : header_map) : request_impl :=
  {| rq_header := h; rq_on_response := None; rq_on_push := None; rq_on_close := None; rq_generator := g;
     rq_uri := u; rq_method := []; rq_header_buffer_size := 0 |}.

(** [submit] while a callback runs. *)
Lemma submit_inside (dw : M unit) s method uri u p g h prio :
  stopped s = false -> session_ s = true -> inside_callback s = true -> submit_uri uri = Some (Some (u, p)) ->
  let c := submit_request prio (request_nva method p u h) (has_generator g) in
  let id := lib_ret (calls s) c in
  0 <= id -> streams s !! id = None -> limbo s !! id = None ->
  submit dw method uri g h prio s
  = Done (ec_ok, Some id)
      (set_streams (<[id := mk_stream (submitted u g h) new_response id]> (streams s)) (add_call c s)).
Proof.
  intros Hst Hses Hin Hu c id Hid Hs1 Hs2. unfold submit, bind at 1, get. rewrite Hst, Hu. cbv zeta.
  unfold bind at 1, app_lib. rewrite Hses. fold c. fold id.
  rewrite (proj2 (Z.ltb_ge _ _)) by done. unfold bind at 1, modify. unfold bind at 1, signal_write, bind at 1, get.
  cbn [inside_callback set_limbo add_call]. rewrite Hin. cbn [negb]. unfold ret at 1.
  unfold bind at 1, the_stream, bind at 1, get. cbn [streams limbo set_limbo add_call]. rewrite Hs1, lookup_insert_eq.
  unfold ret at 1. unfold bind at 1, drop_stream, modify. cbn [limbo set_limbo]. unfold bind at 1, emplace_stream, find_stream, bind at 1, bind at 1, get, ret at 1.
  cbn [streams set_limbo add_call st_request st_response]. rewrite Hs1. unfold modify, ret.
  rewrite delete_insert_eq, delete_id by done.
  f_equal. unfold submitted. destruct s, g; reflexivity.
Qed.

End submit.

(** Submitting a request, while a callback runs: for a URI made of a scheme,
    a host, an optional port, path and query, shorter than 64 KiB, the library is
    given [:method], [:scheme], [:path] (the path, ["/"] when there is none, with
    the query) and [:authority] (the host, in brackets for a numeric IPv6 address,
    with the port in canonical decimal), then the given fields in order, with a
    data provider exactly when a generator is given; the new stream is entered
    under the id the library returns, its URI has the same components, and
    nothing else changes.  The request's own [method_] stays empty. *)
Theorem submit_spec {Lib : Nghttp2} {Ap : App} {In : Inet} (dw : M unit) (s : session_impl)
    (method : str) (x : url_parser.url_parts) (g : generator) (h : header_map) (prio : priority_spec)
    (Hst : stopped s = false) (Hses : session_ s = true) (Hin : inside_callback s = true)
    (Hx : url_parser.parts_ok x = true) (Hl : Z.of_nat (length (url_parser.url_of x)) < 65536) :
  let nva := [make_nv_ls ":method" method; make_nv_ls ":scheme" (url_parser.u_scheme x);
              make_nv_ls ":path" (target_of x); make_nv_ls ":authority" (authority_of x)] ++ header_nva h in
  let c := submit_request prio nva (has_generator g) in
  let id := lib_ret (calls s) c in
  0 <= id -> streams s !! id = None -> limbo s !! id = None ->
  submit dw method (url_parser.url_of x) g h prio s
  = Done (ec_ok, Some id)
      (set_streams (<[id := mk_stream (submitted (uri_of x) g h) new_response id]> (streams s)) (add_call c s)).
Proof.
  intros nva c id Hid Hs1 Hs2.
  by apply (submit_inside dw s method _ (uri_of x) (target_of x) g h prio Hst Hses Hin (submit_uri_of x Hx Hl)).
Qed.

(** A session in the middle of a callback, without streams. *)
Definition demo_session : session_impl := set_inside true (set_session true (new_session 0)).

Definition demo_url : url_parser.url_parts :=
  url_parser.mk_parts (lit "https") (lit "example.org") (Some (lit "0443")) [] (Some (lit "q=1")).

Lemma submit_spec_witness :
  exists s', @submit counting_lib demo_inet nested (lit "GET") (lit "https://example.org:0443?q=1") gen_empty [] None demo_session
             = Done (ec_ok, Some 1) s'
    /\ exists st, streams s' !! 1 = Some st /\ host (rq_uri (st_request st)) = lit "example.org:443"
                  /\ raw_path (rq_uri (st_request st)) = lit "/".
Proof.
  eexists. split.
  - apply (@submit_spec counting_lib demo_app demo_inet nested demo_session (lit "GET") demo_url gen_empty [] None);
      try reflexivity; vm_compute; discriminate.
  - eexists. split; [reflexivity|]. split; reflexivity.
Defined.

(** What [submit] rejects, in every state and at every point of the program:
    on a stopped session nothing is submitted and the error is an internal error;
    a URI that the parser rejects, or without a scheme or a host, is an invalid
    argument; when the library refuses the request its error code is passed on.
    No stream is created and the library is not called, except for the refused
    request. *)
Theorem submit_rejects {Lib : Nghttp2} {Ap : App} {In : Inet} (dw : M unit) (s : session_impl)
    (method uri : str) (g : generator) (h : header_map) (prio : priority_spec) :
  (stopped s = true ->
     submit dw method uri g h prio s = Done (make_error_code_nghttp2 NGHTTP2_INTERNAL_ERROR, None) s)
  /\ (stopped s = false ->
      match url_parser.http_parser_parse_url uri false url_parser.http_parser_url_init with
      | url_parser.POk u => url_parser.has_field u url_parser.UF_SCHEMA && url_parser.has_field u url_parser.UF_HOST = false
      | _ => True
      end -> submit dw method uri g h prio s = Done (ec_invalid_argument, None) s)
  /\ (forall u p, stopped s = false -> session_ s = true -> submit_uri uri = Some (Some (u, p)) ->
      let c := submit_request prio (request_nva method p u h) (has_generator g) in
      lib_ret (calls s) c < 0 ->
      submit dw method uri g h prio s = Done (make_error_code_nghttp2 (lib_ret (calls s) c), None) (add_call c s)).
Proof.
  split; [intros Hst; unfold submit, bind at 1, get; by rewrite Hst|]. split.
  - intros Hst Hu. unfold submit, bind at 1, get. rewrite Hst. pose proof (submit_uri_total uri) as Ht. unfold submit_uri in *.
    destruct (url_parser.http_parser_parse_url _ _ _) as [u| |]; [|done|done].
    destruct (url_parser.has_field u url_parser.UF_SCHEMA), (url_parser.has_field u url_parser.UF_HOST); done.
  - intros u p Hst Hs Hu c Hc. unfold submit, bind at 1, get. rewrite Hst, Hu. unfold bind, app_lib. rewrite Hs. fold c. by rewrite (proj2 (Z.ltb_lt _ _)).
Qed.

Lemma submit_rejects_witness :
  @submit counting_lib demo_inet nested (lit "GET") (lit "/index.html") gen_empty [] None demo_session
  = Done (ec_invalid_argument, None) demo_session.
Proof.
  apply (@submit_rejects counting_lib demo_app demo_inet nested demo_session (lit "GET") (lit "/index.html") gen_empty [] None);
    vm_compute; reflexivity.
Defined.

(** ** Responses *)

Section response.
Context {Lib : Nghttp2} {Ap : App}.

(** Running the header callback over a list of fields. *)
Definition run_headers (f : frame) (fs : list field) : M unit :=
  forM fs (fun x => on_header_callback f x.1.1 x.1.2 x.2).

(** The session with the response of one stream replaced. *)
Definition with_response (s : session_impl) (id : Z) (r : response_impl) (st : stream) : session_impl :=
  set_streams (<[id := mk_stream (st_request st) r (st_id st)]> (streams s)) s.

(** Fields that are not [:status]. *)
Definition not_status (x : field) : Prop := lookup_token x.1.1 <> Some HD__STATUS.

(** The content length that the fields leave. *)
Definition content_length_after (n : Z) (fs : list field) : Z :=
  fold_left (fun n x => if bool_decide (lookup_token x.1.1 = Some HD_CONTENT_LENGTH) then util.parse_uint x.1.2 else n) fs n.

Definition field_response (x : field) (r : response_impl) : response_impl :=
  {| rs_on_data := rs_on_data r;
     rs_header := emplace (rs_header r) x.1.1 (field_value x);
     rs_content_length := content_length_after (rs_content_length r) [x];
     rs_header_buffer_size := rs_header_buffer_size r + field_size x;
     rs_status_code := rs_status_code r |}.

Lemma update_response_with id f s r st :
  update_response id f (with_response s id r st) = Done tt (with_response s id (f r) st).
Proof.
  unfold update_response, the_stream, bind, get, ret, put_stream, modify, put, with_response. cbn.
  rewrite lookup_insert_eq. cbn. by rewrite lookup_insert_eq, insert_insert_eq.
Qed.

(** The case of a header that is looked at. *)
Definition accepts (f : frame) (r : response_impl) : bool :=
  negb (bool_decide (cat f = NGHTTP2_HCAT_HEADERS)) || (Z.quot (rs_status_code r) 100 =? 1).

Lemma on_header_with f s r st name val flags :
  hd_type f = NGHTTP2_HEADERS ->
  on_header_callback f name val flags (with_response s (hd_stream_id f) r st)
  = on_response_header f (mk_stream (st_request st) r (st_id st)) name val flags (with_response s (hd_stream_id f) r st).
Proof.
  intros Hf. unfold on_header_callback. rewrite Hf. unfold bind at 1, find_stream, bind at 1, get, ret.
  cbn [with_response streams set_streams]. by rewrite lookup_insert_eq.
Qed.

Lemma on_header_status f s r st val flags :
  hd_type f = NGHTTP2_HEADERS -> accepts f r = true ->
  on_header_callback f (lit ":status") val flags (with_response s (hd_stream_id f) r st)
  = Done tt (with_response s (hd_stream_id f) (set_status_code (util.parse_uint val) r) st).
Proof.
  intros Hf Ha. rewrite on_header_with by done. unfold on_response_header, accepts, expect_final_response in *. cbv zeta. cbn [st_response].
  replace (_ && _) with false; [|by destruct (bool_decide _), (_ =? _)].
  change (lookup_token (lit ":status")) with (Some HD__STATUS). cbv iota beta. by rewrite update_response_with.
Qed.

Lemma on_header_field f s r st x :
  hd_type f = NGHTTP2_HEADERS -> accepts f r = true -> not_status x ->
  rs_header_buffer_size r + field_size x <= HEADER_LIMIT ->
  on_header_callback f x.1.1 x.1.2 x.2 (with_response s (hd_stream_id f) r st)
  = Done tt (with_response s (hd_stream_id f) (field_response x r) st).
Proof.
  intros Hf Ha Hx Hl. rewrite on_header_with by done. destruct x as [[name val] flags]. cbn [fst snd] in *.
  unfold on_response_header, accepts, expect_final_response, not_status, field_size in *. cbv zeta. cbn [st_response fst snd] in *.
  replace (_ && _) with false; [|by destruct (bool_decide _), (_ =? _)].
  unfold name_value_size. rewrite (proj2 (Z.ltb_ge _ _)) by done.
  destruct (lookup_token name) as [[]|] eqn:Et; try done; rewrite update_response_with; unfold field_response; cbn;
    rewrite Et; reflexivity.
Qed.

Lemma run_headers_fields f s r st fs :
  hd_type f = NGHTTP2_HEADERS -> accepts f r = true -> Forall not_status fs ->
  rs_header_buffer_size r + fields_size fs <= HEADER_LIMIT ->
  run_headers f fs (with_response s (hd_stream_id f) r st)
  = Done tt (with_response s (hd_stream_id f)
      {| rs_on_data := rs_on_data r; rs_header := store_fields (rs_header r) fs;
         rs_content_length := content_length_after (rs_content_length r) fs;
         rs_header_buffer_size := rs_header_buffer_size r + fields_size fs; rs_status_code := rs_status_code r |} st).
Proof.
  intros Hf Ha Hfs. revert r Ha. induction Hfs as [|x fs Hx Hfs IH]; intros r Ha Hl.
  - unfold run_headers. cbn. unfold ret. destruct r; cbn. by rewrite Z.add_0_r.
  - unfold run_headers in *. cbn [forM fields_size fold_right] in *. fold (fields_size fs) in *.
    pose proof (fields_size_nonneg fs) as Hpos. unfold bind at 1. rewrite on_header_field by (done || lia).
    rewrite IH; [|exact Ha|cbn; lia]. unfold field_response. cbn [rs_on_data rs_header rs_content_length rs_header_buffer_size rs_status_code].
    by rewrite <- Z.add_assoc.
Qed.

End response.

(** The response that a header block with a final status builds. *)
Definition built_response (r : response_impl) (code : Z) (fs : list field) : response_impl :=
  {| rs_on_data := rs_on_data r; rs_header := store_fields [] fs;
     rs_content_length := content_length_after (-1) fs;
     rs_header_buffer_size := fields_size fs; rs_status_code := code |}.

(** The application is told of the response, and of its end. *)
Definition deliver `{Nghttp2} `{App} `{Inet} (dw : M unit) (st : stream) (id : Z) (last : bool) : M unit :=
  match rq_on_response (st_request st) with Some cb => react dw (app_response cb id) | None => ret tt end;;
  if last then call_on_data_cb dw id [] else ret tt.

Lemma status_code_small r n : 0 <= n < 2147483648 -> rs_status_code (set_status_code n r) = n.
Proof. intros Hn. cbn. rewrite Z.mod_small by lia. lia. Qed.

Lemma not_informational n : 200 <= n -> (Z.quot n 100 =? 1) = false.
Proof. intros Hn. apply Z.eqb_neq. rewrite Z.quot_div_nonneg by lia. pose proof (Z.div_le_mono 200 n 100 ltac:(lia) Hn) as Hd.
  change (200 / 100) with 2 in Hd. lia. Qed.

(** A header block that starts a response. *)
Definition response_block (f : frame) : Prop :=
  hd_type f = NGHTTP2_HEADERS /\ (cat f = NGHTTP2_HCAT_RESPONSE \/ cat f = NGHTTP2_HCAT_PUSH_RESPONSE).

(** A response of which nothing has been received. *)
Definition unanswered (st : stream) : Prop :=
  st_response st = new_response \/ exists cb, st_response st = set_on_data cb new_response.

Lemma run_response_headers `{Nghttp2} (f : frame) (s : session_impl) (st : stream) v flags code fs :
  response_block f -> streams s !! hd_stream_id f = Some st -> unanswered st ->
  util.parse_uint v = code -> 200 <= code <= 999 -> Forall not_status fs -> fields_size fs <= 65536 ->
  run_headers f ((lit ":status", v, flags) :: fs) s
  = Done tt (with_response s (hd_stream_id f) (built_response (st_response st) code fs) st).
Proof.
  intros [Hf Hc] Hs Hr Hv Hcode Hfs Hl. set (id := hd_stream_id f) in *. set (r0 := st_response st) in *.
  assert (s = with_response s id r0 st) as E0.
  { unfold with_response, r0. destruct st as [rq rs i]. cbn. rewrite insert_id by done. by destruct s. }
  assert (forall r, accepts f r = true) as Ha.
  { intros r. unfold accepts. by destruct Hc as [-> | ->]. }
  assert (rs_header r0 = [] /\ rs_content_length r0 = -1 /\ rs_header_buffer_size r0 = 0) as (R1 & R2 & R3).
  { unfold r0. destruct Hr as [-> | [cb ->]]; done. }
  rewrite E0 at 1. unfold run_headers. cbn [forM fst snd]. unfold bind at 1.
  rewrite on_header_status by done. fold (run_headers f fs). rewrite Hv.
  rewrite run_headers_fields; [|done|done|done|cbn; rewrite R3; exact Hl]. fold id.
  rewrite status_code_small by lia. cbn [rs_on_data rs_header rs_content_length rs_header_buffer_size set_status_code].
  by rewrite R1, R2, R3, Z.add_0_l.
Qed.

Lemma on_frame_recv_final `{Nghttp2} `{App} `{Inet} (dw : M unit) f s r st :
  response_block f -> 200 <= rs_status_code r ->
  on_frame_recv_callback dw f (with_response s (hd_stream_id f) r st)
  = deliver dw st (hd_stream_id f) (has_flag (hd_flags f) NGHTTP2_FLAG_END_STREAM)
      (with_response s (hd_stream_id f) r st).
Proof.
  intros [Hf Hc] Hcode. set (id := hd_stream_id f). set (s1 := with_response s id r st).
  assert (streams s1 !! id = Some (mk_stream (st_request st) r (st_id st))) as Hs1 by apply lookup_insert_eq.
  unfold on_frame_recv_callback. cbv zeta. fold id. unfold bind at 1, find_stream, bind at 1, get, ret at 1.
  rewrite Hs1, Hf. unfold expect_final_response. cbn [st_response].
  rewrite not_informational by lia. replace (bool_decide (cat f = NGHTTP2_HCAT_HEADERS)) with false; [|by destruct Hc as [-> | ->]].
  cbn [andb negb]. unfold deliver, call_on_response_cb, the_stream, bind, get, ret. by rewrite Hs1.
Qed.

(** A response is delivered: the first header block of a stream, with a
    status of 200 or more and further fields of at most 64 KiB in all, gives a
    response with that status, the fields in the order of their arrival with
    their never-index flags, and the last content length (-1 without one, or when
    it is not a number); then the response callback runs, once, on that response,
    and after it, if the frame ends the stream, the end of the body is reported. *)
Theorem response_delivered {Lib : Nghttp2} {Ap : App} {In : Inet} (dw : M unit) (f : frame) (s : session_impl)
    (st : stream) (v : str) (code : Z) (fs : list field)
    (Hf : hd_type f = NGHTTP2_HEADERS) (Hc : cat f = NGHTTP2_HCAT_RESPONSE \/ cat f = NGHTTP2_HCAT_PUSH_RESPONSE)
    (Hs : streams s !! hd_stream_id f = Some st)
    (Hr : st_response st = new_response \/ exists cb, st_response st = set_on_data cb new_response)
    (Hv : util.parse_uint v = code) (Hcode : 200 <= code <= 999)
    (Hfs : Forall not_status fs) (Hl : fields_size fs <= 65536) :
  (run_headers f ((lit ":status", v, 0) :: fs);; on_frame_recv_callback dw f) s
  = deliver dw st (hd_stream_id f) (has_flag (hd_flags f) NGHTTP2_FLAG_END_STREAM)
      (with_response s (hd_stream_id f) (built_response (st_response st) code fs) st).
Proof.
  unfold bind at 1. rewrite (run_response_headers f s st v 0 code fs) by done. rewrite on_frame_recv_final; [done|done|cbn; lia].
Qed.

Lemma response_delivered_witness :
  let st := mk_stream (set_on_response 5 new_request) new_response 1 in
  let s := set_streams {[ 1 := st ]} demo_session in
  let f := response_frame 1 1 in
  exists s', (@run_headers counting_lib f [(lit ":status", lit "200", 0); (lit "content-length", lit "5", 0)];;
              @on_frame_recv_callback counting_lib demo_app demo_inet nested f) s = Done tt s'
    /\ In (app_response 5 1) (app_log s').
Proof.
  intros st s f. eexists. split.
  - etransitivity; [apply (@response_delivered counting_lib demo_app demo_inet nested f s st (lit "200") 200 [(lit "content-length", lit "5", 0)]);
      [reflexivity|left; reflexivity|reflexivity|left; reflexivity|reflexivity|lia| |vm_compute; discriminate]|reflexivity].
    apply Forall_singleton. intros [=].
  - right. left. reflexivity.
Defined.

(** C35. A final response after an informational one is lost: once a stream has a
    1xx status, the header block of the final response, which the library reports
    with the category [NGHTTP2_HCAT_HEADERS], changes the status and nothing
    else: the other fields are taken for trailers, the response callback does not
    run and the end of the stream is not reported. *)
Theorem final_response_after_1xx_lost {Lib : Nghttp2} {Ap : App} {In : Inet} (dw : M unit) (f : frame)
    (s : session_impl) (st : stream) (v : str) (code : Z) (fs : list field)
    (Hf : hd_type f = NGHTTP2_HEADERS) (Hc : cat f = NGHTTP2_HCAT_HEADERS)
    (Hs : streams s !! hd_stream_id f = Some st) (He : expect_final_response st = true)
    (Hv : util.parse_uint v = code) (Hcode : 200 <= code <= 999) :
  (run_headers f ((lit ":status", v, 0) :: fs);; on_frame_recv_callback dw f) s
  = Done tt (with_response s (hd_stream_id f) (set_status_code code (st_response st)) st).
Proof.
  set (id := hd_stream_id f) in *.
  assert (s = with_response s id (st_response st) st) as E0.
  { unfold with_response. destruct st as [rq rs i]. cbn. rewrite insert_id by done. by destruct s. }
  unfold bind at 1. rewrite E0 at 1. unfold run_headers. cbn [forM fst snd]. unfold bind at 1.
  rewrite on_header_status; [|done|unfold accepts; unfold expect_final_response in He; by rewrite He, orb_true_r].
  rewrite Hv. fold id. set (r1 := set_status_code code (st_response st)).
  assert ((Z.quot (rs_status_code r1) 100 =? 1) = false) as Hn.
  { unfold r1. rewrite status_code_small by lia. apply not_informational. lia. }
  assert (forall l, forM l (fun x => on_header_callback f x.1.1 x.1.2 x.2) (with_response s id r1 st)
            = Done tt (with_response s id r1 st)) as ->.
  { induction l as [|x l IH]; [done|]. cbn [forM]. unfold bind at 1. unfold id at 1. rewrite on_header_with by done.
    unfold on_response_header, expect_final_response. cbn [st_response]. rewrite Hn, bool_decide_eq_true_2 by done.
    cbn [negb andb]. unfold ret. fold id. apply IH. }
  unfold on_frame_recv_callback. cbv zeta. fold id. unfold bind at 1, find_stream, bind at 1, get, ret at 1.
  cbn [with_response streams set_streams]. rewrite lookup_insert_eq, Hf. unfold expect_final_response. cbn [st_response].
  by rewrite Hn, bool_decide_eq_true_2.
Qed.

Lemma final_response_after_1xx_lost_witness :
  let st := mk_stream (set_on_response 5 new_request) (set_status_code 103 new_response) 1 in
  let s := set_streams {[ 1 := st ]} demo_session in
  let f := mk_frame NGHTTP2_HEADERS 1 1 NGHTTP2_HCAT_HEADERS 0 in
  exists s', (@run_headers counting_lib f [(lit ":status", lit "200", 0); (lit "content-length", lit "5", 0)];;
              @on_frame_recv_callback counting_lib demo_app demo_inet nested f) s = Done tt s'
    /\ app_log s' = [].
Proof.
  intros st s f. eexists. split.
  - apply (@final_response_after_1xx_lost counting_lib demo_app demo_inet nested f s st (lit "200") 200 [(lit "content-length", lit "5", 0)]);
      try reflexivity. lia.
  - reflexivity.
Defined.

(** A field that takes the header of a promised request over 64 KiB resets
    the stream on which the promise was received, not the promised one: the
    request the application made is cancelled. *)
Theorem oversized_promise_resets_parent {Lib : Nghttp2} (f : frame) (s : session_impl) (st : stream)
    (name val : str) (flags : Z)
    (Hf : hd_type f = NGHTTP2_PUSH_PROMISE) (Hs : streams s !! promised_stream_id f = Some st)
    (Hses : session_ s = true) (Hn : lookup_token name = None)
    (Hl : 65536 < rq_header_buffer_size (st_request st) + Z.of_nat (length name) + Z.of_nat (length val)) :
  on_header_callback f name val flags s = Done tt (add_call (submit_rst_stream (hd_stream_id f) NGHTTP2_INTERNAL_ERROR) s).
Proof.
  unfold on_header_callback. rewrite Hf. unfold bind at 1, find_stream, bind at 1, get, ret at 1. rewrite Hs.
  unfold on_push_header. rewrite Hn. unfold add_push_header. cbv zeta.
  unfold bind at 1, the_stream, bind at 1, get. rewrite Hs. unfold ret at 1.
  rewrite (proj2 (Z.ltb_lt _ _)) by (unfold HEADER_LIMIT, name_value_size; lia).
  unfold bind, lib. by rewrite Hses.
Qed.

Lemma oversized_promise_resets_parent_witness :
  let st := mk_stream (set_header [] 65530 new_request) new_response 2 in
  let s := set_streams {[ 2 := st ]} demo_session in
  @on_header_callback counting_lib (mk_frame NGHTTP2_PUSH_PROMISE 1 0 NGHTTP2_HCAT_HEADERS 2) (lit "x-name") (lit "value") 0 s
  = Done tt (add_call (submit_rst_stream 1 2) s).
Proof.
  intros st s. apply (oversized_promise_resets_parent (mk_frame NGHTTP2_PUSH_PROMISE 1 0 NGHTTP2_HCAT_HEADERS 2) s st);
    try reflexivity.
Defined.

Lemma close_unknown `{Nghttp2} `{App} `{Inet} (dw : M unit) id code s :
  streams s !! id = None -> on_stream_close_callback dw id code s = Done tt s.
Proof.
  intros Hs. unfold on_stream_close_callback, pop_stream, find_stream, bind, get, ret. by rewrite Hs.
Qed.



End client_request.
