(* ===== verification/Exchange.v ===== *)
(** * A client and a server of this library over one connection

    What one end hands to its HTTP/2 session and what the callbacks of the other
    end make of it: a request and its body, a response and its body, a pushed request.  Between the two
    ends stands libnghttp2, of which the theorems assume what its documentation
    says: header fields arrive in order, with their names in lower case and with
    the never-index flag kept, and the bytes of a body arrive in order, in pieces
    of any size. *)

From S2P Require Import Prelude Monad Util Http2 UrlParser Common ServeMux Nghttp2 ServerHandler ServerApi ServerProps ServerRequest ClientSession ClientApi ClientProps ClientRequest.

Module exchange.
Import monad http2 common nghttp2.
Local Open Scope monad_scope.

(** ** Header fields on the wire *)

Definition lower (c : ascii) : ascii :=
  if (65 <=? code c) && (code c <=? 90) then chr (code c + 32) else c.

Definition lower_name (k : str) : str := map lower k.

(** A name/value pair given to the library and the field that its peer reports:
    names are converted to lower case unless the caller promises that they are.
    The library may set the never-index flag on its own. *)
Definition carried (nv : nghttp2_nv) (f : field) : Prop :=
  f.1.1 = (if nv_no_copy_name nv then nv_name nv else lower_name (nv_name nv))
  /\ f.1.2 = nv_value nv
  /\ (nv_no_index nv = true -> has_flag f.2 NGHTTP2_NV_FLAG_NO_INDEX = true).

Definition transmitted : list nghttp2_nv -> list field -> Prop := Forall2 carried.

(** Executable: the field without an additional flag. *)
Definition carry (nv : nghttp2_nv) : field :=
  (if nv_no_copy_name nv then nv_name nv else lower_name (nv_name nv), nv_value nv,
   if nv_no_index nv then NGHTTP2_NV_FLAG_NO_INDEX else 0).

Lemma carry_transmitted nva : transmitted nva (map carry nva).
Proof.
  unfold transmitted. induction nva as [|nv nva IH]; constructor; [|done].
  unfold carried, carry. cbn. by destruct (nv_no_index nv).
Qed.

(** The receiver's map: the same names and values, and nothing loses its
    never-index flag. *)
Definition same_field (p q : str * header_value) : Prop :=
  p.1 = q.1 /\ value p.2 = value q.2 /\ (sensitive p.2 = true -> sensitive q.2 = true).

Definition same_header : header_map -> header_map -> Prop := Forall2 same_field.

(** A header map with its names in lower case. *)
Definition lowered_onto (acc h : header_map) : header_map :=
  fold_left (fun m p => emplace m (lower_name p.1) p.2) h acc.
Definition lowered (h : header_map) : header_map := lowered_onto [] h.

Lemma emplace_same h h' k v v' :
  same_header h h' -> same_field (k, v) (k, v') -> same_header (emplace h k v) (emplace h' k v').
Proof.
  intros Hh Hv. unfold same_header in *. induction Hh as [|[a x] [b y] h h' (E & Ev) Hh IH]; cbn; [by constructor|].
  cbn in E. subst b. case_if; do 2 (constructor; try done); done.
Qed.

(** What [server::http2_handler] and [client::session_impl] pass for a map. *)
Definition map_nva (h : header_map) : list nghttp2_nv :=
  map (fun hd => make_nv hd.1 (value hd.2) (sensitive hd.2)) h.

Lemma store_transmitted_onto h fs acc acc' :
  transmitted (map_nva h) fs -> same_header acc acc' -> same_header (lowered_onto acc h) (store_fields acc' fs).
Proof.
  unfold transmitted, map_nva. revert fs acc acc'. induction h as [|p h IH]; intros fs acc acc' Hf Ha.
  - by inversion_clear Hf.
  - inversion_clear Hf as [|? f ? fs' (E1 & E2 & E3) Hf']. cbn [lowered_onto fold_left store_fields].
    apply IH; [done|]. cbn in E1, E2, E3. rewrite E1. apply emplace_same; [done|].
    split; [done|]. split; [done|]. exact E3.
Qed.

Lemma store_transmitted h fs : transmitted (map_nva h) fs -> same_header (lowered h) (store_fields [] fs).
Proof. intros Hf. apply store_transmitted_onto; [done|constructor]. Qed.

Lemma transmitted_size h fs : transmitted (map_nva h) fs -> fields_size fs = header_size h.
Proof.
  unfold transmitted, map_nva. revert fs. induction h as [|p h IH]; intros fs Hf; inversion_clear Hf as [|? f ? fs' (E1 & E2 & _) Hf']; [done|].
  cbn [fields_size header_size fold_right]. fold (fields_size fs'). fold (header_size h). rewrite (IH fs' Hf').
  unfold field_size. cbn in E1, E2. rewrite E1, E2. unfold lower_name. rewrite length_map. lia.
Qed.

Lemma transmitted_names (P : str -> Prop) h fs :
  transmitted (map_nva h) fs -> Forall (fun p => P (lower_name p.1)) h -> Forall (fun f : field => P f.1.1) fs.
Proof.
  unfold transmitted, map_nva. intros Hf Hh. revert fs Hf. induction Hh as [|p h Hp Hh IH]; intros fs Hf;
    inversion_clear Hf as [|? f ? fs' (E1 & _) Hf']; constructor; [|by apply IH]. cbn in E1. by rewrite E1.
Qed.

(** A field given by a literal name. *)
Lemma transmitted_cons_inv name val nva fs :
  transmitted (make_nv_ls name val :: nva) fs ->
  exists fl fs', fs = (lit name, val, fl) :: fs' /\ transmitted nva fs'.
Proof.
  intros Hf. inversion Hf as [|? [[n v] fl] ? fs' (E1 & E2 & _) Hf' E]. cbn in E1, E2. subst. by exists fl, fs'.
Qed.

(** A map whose names are already in lower case arrives as it is. *)
Lemma emplace_last h k v : Forall (fun p => str_ltb k p.1 = false) h -> emplace h k v = h ++ [(k, v)].
Proof. induction 1 as [|[k' v'] h Hk Hh IH]; [done|]. cbn in *. by rewrite Hk, IH. Qed.

Lemma lowered_onto_id acc h :
  StronglySorted name_le (acc ++ h) -> Forall (fun p => lower_name p.1 = p.1) h -> lowered_onto acc h = acc ++ h.
Proof.
  intros Hs Hl. revert acc Hs. induction Hl as [|p h Hp Hl IH]; intros acc Hs; [by rewrite app_nil_r|].
  cbn [lowered_onto fold_left]. rewrite Hp, emplace_last.
  - change (fold_left _ h ?m) with (lowered_onto m h). destruct p as [k v]. rewrite IH; rewrite <- app_assoc; done.
  - clear IH. induction acc as [|q acc IHa]; [constructor|]. inversion_clear Hs as [|?? Hs' Hf].
    constructor; [|by apply IHa]. rewrite Forall_app, Forall_cons in Hf. apply Hf.
Qed.

Lemma lowered_id h :
  StronglySorted name_le h -> Forall (fun p => lower_name p.1 = p.1) h -> lowered h = h.
Proof. apply (lowered_onto_id []). Qed.

(** ** Requests *)

(** Names that are not pseudo header fields of a request once in lower case. *)
Definition plain_header (h : header_map) : Prop :=
  Forall (fun p => server_request.regular (lower_name p.1, [], 0)) h.

Section server_side.
Context {Lib : Nghttp2}.

(** The four pseudo header fields in the order of the client, then the map. *)
Lemma server_builds f h method p u hd fs :
  server.is_request_headers f = true -> server.streams h !! hd_stream_id f = None -> host u <> [] ->
  plain_header hd -> header_size hd <= 65536 ->
  transmitted (client.request_nva method p u hd) fs ->
  exists hs, same_header (lowered hd) hs
    /\ (server.on_begin_headers_callback f;; server_request.run_headers f fs) h
       = Done tt (server_request.with_request h (hd_stream_id f)
           {| server.rq_method := method; server.rq_uri := split_path (mk_uri (scheme u) (host u) [] [] [] []) p;
              server.rq_header := hs; server.rq_header_buffer_size := header_size hd; server.rq_on_data := None; server.rq_remote_ep := server.no_endpoint |}
           server.new_stream).
Proof.
  intros Hf Hn Hu Hp Hl Ht. unfold client.request_nva in Ht.
  apply transmitted_cons_inv in Ht as (f1 & ? & -> & Ht). apply transmitted_cons_inv in Ht as (f2 & ? & -> & Ht).
  apply transmitted_cons_inv in Ht as (f3 & ? & -> & Ht). apply transmitted_cons_inv in Ht as (f4 & fs' & -> & Ht).
  exists (store_fields [] fs'). split; [by apply store_transmitted|].
  unfold server.on_begin_headers_callback. rewrite Hf. cbn [negb]. unfold bind at 1.
  rewrite server_request.create_stream_run by done. unfold server_request.run_headers. cbn [forM fst snd].
  do 4 (unfold bind at 1; erewrite server_request.on_header_pseudo; [|exact Hf|reflexivity]).
  fold (server_request.run_headers f fs'). rewrite server_request.run_headers_regular; [|done| | |].
  - cbn [server.set_header server.set_uri server.rq_method server.rq_uri server.rq_header server.rq_header_buffer_size server.rq_on_data].
    rewrite Z.add_0_l, (transmitted_size hd) by done. unfold split_path. by destruct (find_char "?" p).
  - by apply (transmitted_names (fun k => server_request.regular (k, [], 0)) hd fs').
  - cbn. unfold split_path. by destruct (find_char "?" p).
  - cbn. rewrite (transmitted_size hd fs') by done. unfold server.HEADER_LIMIT. lia.
Qed.

End server_side.

(** The target of a URI, cut by the receiver. *)
Lemma raw_path_no_query x : url_parser.parts_ok x = true -> "?"%char ∉ client_request.raw_path_of x.
Proof.
  unfold url_parser.parts_ok, client_request.raw_path_of. rewrite !andb_true_iff. intros [[_ Hp] _] Hin.
  destruct (url_parser.u_path x) as [|c rest]; [by apply list_elem_of_In in Hin as [|[]]|].
  apply andb_true_iff in Hp as [Hc Hr]. apply bool_decide_eq_true_1 in Hc. subst c.
  rewrite elem_of_cons in Hin. destruct Hin as [|Hin]; [done|]. apply list_elem_of_In in Hin.
  rewrite forallb_forall in Hr. by apply Hr in Hin.
Qed.

Lemma split_target `{client.Inet} x :
  url_parser.parts_ok x = true ->
  split_path (mk_uri (url_parser.u_scheme x) (client_request.authority_of x) [] [] [] []) (client_request.target_of x)
  = client_request.uri_of x.
Proof.
  intros Hx. unfold split_path, client_request.target_of.
  rewrite find_char_app; [|by apply raw_path_no_query|by destruct (url_parser.u_query x); [right; eexists|left]].
  unfold client_request.uri_of. cbn. by destruct (url_parser.u_query x).
Qed.

Lemma authority_nonempty `{client.Inet} x : url_parser.parts_ok x = true -> client_request.authority_of x <> [].
Proof.
  unfold url_parser.parts_ok, client_request.authority_of. rewrite !andb_true_iff. intros ((((((_ & _) & Hh) & _) & _) & _) & _).
  destruct (url_parser.u_host x); [done|]. by case_if.
Qed.


Definition demo_header : header_map := [(lit "cookie", mk_hv (lit "secret") true); (lit "x-id", mk_hv (lit "7") false)].

Lemma demo_header_plain : plain_header demo_header.
Proof. unfold plain_header, demo_header. rewrite !Forall_cons, Forall_nil. split; [exact I|]. split; exact I. Qed.

Lemma demo_header_sorted : StronglySorted name_le demo_header.
Proof. repeat constructor. Qed.

Lemma demo_header_lower : Forall (fun p => lower_name p.1 = p.1) demo_header.
Proof. unfold demo_header. rewrite !Forall_cons, Forall_nil. done. Qed.


(** ** Responses *)

(** The successive calls of the read callback that the library makes for the body
    of a response, with buffers of the given sizes and [*data_flags] clear: what
    each returns and whether it sets EOF. *)
Fixpoint read_body `{Nghttp2} `{server.App} (id : Z) (lens : list nat)
    : monad.M server.http2_handler (list (gen_ret * bool)) :=
  match lens with
  | [] => ret []
  | len :: lens =>
    x <- server.call_read id len NGHTTP2_DATA_FLAG_NONE;;
    rest <- read_body id lens;;
    ret ((x.1, Z.testbit x.2 0) :: rest)
  end.

(** The bytes of a body reach the end. *)
Definition whole_body (data : str) (outs : list (gen_ret * bool)) : Prop :=
  concat (map (fun o => gen_bytes o.1) outs) = data /\ exists r, last outs = Some (r, true).

Lemma string_generator_whole data lens :
  lens <> [] -> (length data <= nat_sum lens)%nat -> whole_body data (string_generator_run data (length data) lens).
Proof.
  intros Hne Hl. destruct (string_generator_run_spec data (length data) lens (le_n _)) as (H1 & H2 & H3).
  rewrite Nat.sub_diag, drop_0, take_ge in H1 by done. split; [done|].
  set (outs := string_generator_run _ _ _) in *. destruct (last outs) as [[r e]|] eqn:E.
  - rewrite last_lookup in E. destruct (H3 _ _ _ E) as [He _]. exists r. do 2 f_equal. apply He.
    rewrite H2. destruct lens; [done|]. cbn [length Nat.pred]. by rewrite take_ge by (cbn; lia).
  - apply last_None in E. rewrite E in H2. by destruct lens.
Qed.

Lemma read_body_run `{Nghttp2} `{server.App} id lens h s data rem :
  server.streams h !! id = Some s -> server.rs_generator (server.st_response s) = gen_string data rem ->
  exists h', read_body id lens h = Done (string_generator_run data rem lens) h'.
Proof.
  revert h s rem. induction lens as [|len lens IH]; intros h s rem Hs Hg; [by exists h|].
  cbn [read_body]. unfold bind at 1, server.call_read, bind at 1. rewrite (server_request.the_stream_run _ _ _ Hs), Hg.
  cbn [string_generator_run]. destruct (string_generator_call data rem len NGHTTP2_DATA_FLAG_NONE) as [[r fl] rem'].
  unfold bind at 1. rewrite (server_request.update_response_run _ _ _ _ Hs). unfold ret at 1. cbn [fst snd].
  set (h1 := server.set_streams _ h).
  destruct (IH h1 _ rem' (lookup_insert_eq _ _ _) eq_refl) as (h' & E). exists h'. unfold bind. by rewrite E.
Qed.

Lemma reads_whole `{Nghttp2} `{server.App} id lens h s data :
  server.streams h !! id = Some s -> server.rs_generator (server.st_response s) = string_generator data ->
  lens <> [] -> (length data <= nat_sum lens)%nat ->
  exists outs h', read_body id lens h = Done outs h' /\ whole_body data outs.
Proof.
  intros Hs Hg Hne Hl. destruct (read_body_run id lens h s data (length data) Hs Hg) as (h' & E).
  exists (string_generator_run data (length data) lens), h'. split; [exact E|]. by apply string_generator_whole.
Qed.

Lemma server_answers `{Nghttp2} h id st d status hd data :
  server.streams h !! id = Some st -> server_request.fresh_response st -> server_request.date_of h = Some d ->
  let body := expect_response_body_for (server.rq_method (server.st_request st)) status in
  let c := submit_response id (server_request.response_nva status d hd) body in
  lib_ret (server.calls h) c = 0 ->
  exists h', (server.write_head id status hd;; server.end_data id data) h = Done tt h' /\ c ∈ server.calls h'
    /\ exists r, server.streams h' !! id = Some (server.mk_stream (server.st_request st) r)
         /\ (body = true -> server.rs_generator r = string_generator data).
Proof.
  intros Hs Hfr Hd body c Hret.
  destruct (server_request.write_head_run h id st d status hd Hs Hfr Hd Hret) as (h1 & E1 & C1 & S1 & _ & _).
  unfold bind at 1. rewrite E1. fold body in C1, S1. fold c in C1. destruct body.
  - destruct (server_request.end_after_head h1 id _ data S1 eq_refl) as (h2 & E2 & C2 & S2 & _ & _).
    exists h2. split; [done|]. split; [rewrite C2, C1; by right; left|]. eexists. by split; [exact S2|].
  - exists h1. split; [by eapply server_request.completed_unchanged|]. split; [rewrite C1; by left|]. eexists. by split; [exact S1|].
Qed.

(** Names that do not replace the status, once in lower case. *)
Definition answer_header (h : header_map) : Prop :=
  Forall (fun p => lookup_token (lower_name p.1) <> Some HD__STATUS) h.

(** The content length that a header map announces. *)
Definition content_length_from (n : Z) (h : header_map) : Z :=
  fold_left (fun n p => if bool_decide (lower_name p.1 = lit "content-length") then util.parse_uint (value p.2) else n) h n.

Lemma content_length_token name :
  bool_decide (lookup_token name = Some HD_CONTENT_LENGTH) = bool_decide (name = lit "content-length").
Proof.
  apply bool_decide_ext. split; [by intros ->%lookup_token_sound|]. intros ->.
  by apply (lookup_token_complete HD_CONTENT_LENGTH).
Qed.

Lemma transmitted_content_length h fs n :
  transmitted (map_nva h) fs -> client_request.content_length_after n fs = content_length_from n h.
Proof.
  unfold transmitted, map_nva. revert fs n. induction h as [|p h IH]; intros fs n Hf;
    inversion_clear Hf as [|? f ? fs' (E1 & E2 & _) Hf']; [done|]. cbn in E1, E2.
  unfold client_request.content_length_after, content_length_from. cbn [fold_left].
  rewrite content_length_token, E1, E2. by apply IH.
Qed.

(** What the application sees of a response of its client. *)
Definition response_seen (id : Z) (d : str) (status : Z) (hd : header_map) (s : client.session_impl) : Prop :=
  client_api.response_status_code id s = Done status s
  /\ client_api.response_content_length id s = Done (content_length_from (-1) hd) s
  /\ exists hs, client_api.response_header id s = Done hs s /\ same_header (lowered ((lit "date", mk_hv d false) :: hd)) hs.

(** The response object that the client makes of a response. *)
Definition response_as (d : str) (status : Z) (hd : header_map) (r : client.response_impl) : Prop :=
  client.rs_status_code r = status
  /\ same_header (lowered ((lit "date", mk_hv d false) :: hd)) (client.rs_header r)
  /\ client.rs_content_length r = content_length_from (-1) hd.

Lemma client_builds `{Nghttp2} f s st d status hd fs :
  client_request.response_block f -> client.streams s !! hd_stream_id f = Some st -> client_request.unanswered st ->
  200 <= status <= 999 -> answer_header hd -> 4 + Z.of_nat (length d) + header_size hd <= 65536 ->
  transmitted (server_request.response_nva status d hd) fs ->
  exists r, client_request.run_headers f fs s = Done tt (client_request.with_response s (hd_stream_id f) r st)
    /\ response_as d status hd r.
Proof.
  intros Hf Hs Hr Hcode Hh Hl Ht. unfold server_request.response_nva in Ht.
  apply transmitted_cons_inv in Ht as (f1 & ? & -> & Ht). apply transmitted_cons_inv in Ht as (f2 & fs' & -> & Ht).
  pose proof (transmitted_size _ _ Ht) as Hsz. eexists. split.
  - apply (client_request.run_response_headers f s st _ f1 status ((lit "date", d, f2) :: fs') Hf Hs Hr); [|done| |].
    + apply util.parse_uint_utos. unfold INT64_MAX. lia.
    + constructor; [by intros [=]|]. by apply (transmitted_names (fun k => lookup_token k <> Some HD__STATUS) hd fs').
    + cbn [fields_size fold_right]. fold (fields_size fs'). rewrite Hsz. unfold field_size. cbn [fst snd].
      change (length (lit "date")) with 4%nat. lia.
  - split; [done|]. split; [|exact (transmitted_content_length hd fs' (-1) Ht)].
    apply (store_transmitted_onto hd fs' [(lit "date", mk_hv d false)] [(lit "date", field_value (lit "date", d, f2))]); [exact Ht|].
    by repeat constructor.
Qed.

(** The frame that ends a body. *)
Definition last_data (id : Z) : frame := mk_frame NGHTTP2_DATA id NGHTTP2_FLAG_END_STREAM NGHTTP2_HCAT_HEADERS 0.

(** What the client's session invokes for a response: its header block and, unless
    that ends the stream, the pieces of the body and the frame that ends it. *)
Definition client_receives `{Nghttp2} `{client.App} `{client.Inet} (dw : monad.M client.session_impl unit)
    (f : frame) (fs : list field) (chunks : list str) : monad.M client.session_impl unit :=
  client_request.run_headers f fs;;
  client.on_frame_recv_callback dw f;;
  if has_flag (hd_flags f) NGHTTP2_FLAG_END_STREAM then ret tt
  else
    forM chunks (client.on_data_chunk_recv_callback dw (hd_stream_id f));;
    client.on_frame_recv_callback dw (last_data (hd_stream_id f)).

Section client_side.
Context {Lib : Nghttp2} {Ap : client.App} {In : client.Inet} (dw : monad.M client.session_impl unit).
(** An application that asks for the body when the response comes, and keeps
    what it is given. *)
Context (id : Z) (cb cb_data : nat).
Hypothesis Hresp : forall s, client.app_react s (client.app_response cb id)
  = client.app_do (client.call_on_data id cb_data) (fun _ => client.app_done).
Hypothesis Hdata : forall s d, client.app_react s (client.app_data cb_data id d) = client.app_done.

Local Abbreviation with_response := client_request.with_response.

Lemma lookup_with_response s r st :
  client.streams (with_response s id r st) !! id = Some (client.mk_stream (client.st_request st) r (client.st_id st)).
Proof. apply lookup_insert_eq. Qed.

Lemma seen_with_response d status hd s r st :
  response_as d status hd r -> response_seen id d status hd (with_response s id (client.set_on_data cb_data r) st).
Proof.
  intros (H1 & H2 & H3). unfold response_seen, client_api.response_status_code, client_api.response_content_length,
    client_api.response_header, client.the_stream, bind, get, ret. rewrite lookup_with_response. cbn.
  rewrite H1, H3. split; [done|]. split; [done|]. by eexists.
Qed.

(** The session after callbacks of the application. *)
Definition heard (chunks : list str) (s : client.session_impl) : client.session_impl :=
  fold_left (fun s d => client.add_event (client.app_data cb_data id d) s) chunks s.

Lemma heard_log chunks s :
  client.app_log (heard chunks s) = rev (map (client.app_data cb_data id) chunks) ++ client.app_log s.
Proof.
  revert s. induction chunks as [|d l IH]; intros s; [done|]. cbn [heard fold_left map rev].
  fold (heard l (client.add_event (client.app_data cb_data id d) s)). rewrite IH, <- app_assoc. done.
Qed.

Lemma react_response s r st :
  client.react dw (client.app_response cb id) (with_response s id r st)
  = Done tt (with_response (client.add_event (client.app_response cb id) s) id (client.set_on_data cb_data r) st).
Proof.
  unfold client.react, bind at 1, modify. unfold bind at 1, get. rewrite Hresp. cbn [client.run_prog client.run_app_call].
  set (s1 := client.add_event _ s).
  change (client.add_event _ (with_response s id r st)) with (with_response s1 id r st).
  unfold bind. by rewrite client_request.update_response_with.
Qed.

Lemma on_data_cb s r st d :
  client.rs_on_data r = Some cb_data ->
  client.call_on_data_cb dw id d (with_response s id r st)
  = Done tt (with_response (client.add_event (client.app_data cb_data id d) s) id r st).
Proof.
  intros Hr. unfold client.call_on_data_cb, client.the_stream, bind, get, ret. rewrite lookup_with_response. cbn [client.st_response]. rewrite Hr. unfold client.react, bind, modify, get. rewrite Hdata. done.
Qed.

Lemma receive_chunks s r st chunks :
  client.rs_on_data r = Some cb_data ->
  forM chunks (client.on_data_chunk_recv_callback dw id) (with_response s id r st)
  = Done tt (with_response (heard chunks s) id r st).
Proof.
  intros Hr. revert s. induction chunks as [|d l IH]; intros s; [done|]. cbn [forM heard fold_left].
  unfold bind at 1, client.on_data_chunk_recv_callback, client.find_stream, bind at 1, bind at 1, get, ret at 1.
  rewrite lookup_with_response, on_data_cb by done. apply IH.
Qed.

(** A block that starts a response, then the whole body. *)
Lemma client_delivers f s st fs chunks r :
  client_request.response_block f -> hd_stream_id f = id -> 200 <= client.rs_status_code r ->
  client.rq_on_response (client.st_request st) = Some cb ->
  client_request.run_headers f fs s = Done tt (with_response s id r st) ->
  (has_flag (hd_flags f) NGHTTP2_FLAG_END_STREAM = true -> chunks = []) ->
  client_receives dw f fs chunks s
  = Done tt (with_response (heard (chunks ++ [[]]) (client.add_event (client.app_response cb id) s)) id
               (client.set_on_data cb_data r) st).
Proof.
  intros Hf Hid Hcode Hcb E Hend. unfold client_receives, bind at 1. rewrite E. unfold bind at 1. rewrite <- Hid at 1.
  rewrite client_request.on_frame_recv_final by done. rewrite Hid. unfold client_request.deliver. rewrite Hcb.
  unfold bind at 1. rewrite react_response. set (s1 := client.add_event _ s). set (r1 := client.set_on_data cb_data r).
  unfold heard. rewrite fold_left_app. fold (heard chunks s1).
  destruct (has_flag (hd_flags f) NGHTTP2_FLAG_END_STREAM).
  - rewrite on_data_cb by done. by rewrite Hend.
  - unfold ret at 1. unfold bind. rewrite receive_chunks by done.
    unfold client.on_frame_recv_callback, client.find_stream, bind, get, ret. cbn [hd_stream_id last_data hd_type hd_flags].
    rewrite lookup_with_response. change (has_flag NGHTTP2_FLAG_END_STREAM NGHTTP2_FLAG_END_STREAM) with true. cbv iota.
    by rewrite on_data_cb.
Qed.

(** The whole of a response, as the application hears of it. *)
Lemma client_hears f s st d status hd fs chunks :
  client_request.response_block f -> hd_stream_id f = id -> client.streams s !! id = Some st ->
  client_request.unanswered st -> client.rq_on_response (client.st_request st) = Some cb ->
  200 <= status <= 999 -> answer_header hd -> 4 + Z.of_nat (length d) + header_size hd <= 65536 ->
  transmitted (server_request.response_nva status d hd) fs ->
  (has_flag (hd_flags f) NGHTTP2_FLAG_END_STREAM = true -> chunks = []) ->
  exists s', client_receives dw f fs chunks s = Done tt s' /\ response_seen id d status hd s'
    /\ client.app_log s' = rev (client.app_response cb id :: map (client.app_data cb_data id) (chunks ++ [[]]))
                             ++ client.app_log s.
Proof.
  intros Hf Hid Hs Hr Hcb Hcode Hh Hl Ht Hend. rewrite <- Hid in Hs.
  destruct (client_builds f s st d status hd fs Hf Hs Hr Hcode Hh Hl Ht) as (r & E & Hres). rewrite Hid in E.
  rewrite (client_delivers f s st fs chunks r); [|done|done|by destruct Hres as [-> _]; lia|done|done|done].
  eexists. split; [reflexivity|]. split; [by apply seen_with_response|].
  unfold client_request.with_response. cbn [client.app_log client.set_streams]. rewrite heard_log. cbn [rev].
  by rewrite <- app_assoc.
Qed.

End client_side.

Lemma no_chunks (chunks : list str) : concat chunks = [] -> Forall (fun c => c <> []) chunks -> chunks = [].
Proof. intros Hc Hne. destruct Hne as [|c l Hc0 _]; [done|]. by destruct c. Qed.

(** C10. A response arrives as it was given: when the server's application answers a
    request with [write_head] and [end] with a string, and the fields are
    transmitted, the library reads exactly the string from the data provider, with
    EOF at its end, provided that the response has a body; and the client's
    callbacks give its application one response, with that status, the date, the
    fields in lower case and the content length they announce, and then, in
    order, the pieces of the body, whose concatenation is the string, and the
    empty piece that marks its end, and nothing else. *)
Theorem response_transported {Lib : Nghttp2} {SAp : server.App} {Ap : client.App} {In : client.Inet}
    (h : server.http2_handler) (id : Z) (sst : server.stream) (d : str) (status : Z) (hd : header_map) (data : str)
    (dw : monad.M client.session_impl unit) (s : client.session_impl) (cst : client.stream) (cb cb_data : nat)
    (Hs : server.streams h !! id = Some sst) (Hfr : server_request.fresh_response sst)
    (Hd : server_request.date_of h = Some d)
    (Hret : forall body, lib_ret (server.calls h) (submit_response id (server_request.response_nva status d hd) body) = 0)
    (Hcode : 200 <= status <= 999) (Hh : answer_header hd) (Hl : 4 + Z.of_nat (length d) + header_size hd <= 65536)
    (Hc : client.streams s !! id = Some cst) (Hr : client_request.unanswered cst)
    (Hcb : client.rq_on_response (client.st_request cst) = Some cb)
    (Hresp : forall s, client.app_react s (client.app_response cb id)
       = client.app_do (client.call_on_data id cb_data) (fun _ => client.app_done))
    (Hdata : forall s b, client.app_react s (client.app_data cb_data id b) = client.app_done) :
  let body := expect_response_body_for (server.rq_method (server.st_request sst)) status in
  let nva := server_request.response_nva status d hd in
  exists h', (server.write_head id status hd;; server.end_data id data) h = Done tt h'
    /\ submit_response id nva body ∈ server.calls h'
    /\ (body = true -> forall lens, lens <> [] -> (length data <= nat_sum lens)%nat ->
        exists outs h'', read_body id lens h' = Done outs h'' /\ whole_body data outs)
    /\ forall f fs chunks, client_request.response_block f -> hd_stream_id f = id -> transmitted nva fs ->
       has_flag (hd_flags f) NGHTTP2_FLAG_END_STREAM = negb body ->
       concat chunks = (if body then data else []) -> Forall (fun c => c <> []) chunks ->
       exists s', client_receives dw f fs chunks s = Done tt s' /\ response_seen id d status hd s'
         /\ client.app_log s' = rev (client.app_response cb id :: map (client.app_data cb_data id) (chunks ++ [[]]))
                                  ++ client.app_log s.
Proof.
  cbv zeta. set (body := expect_response_body_for _ status).
  destruct (server_answers h id sst d status hd data Hs Hfr Hd (Hret _)) as (h2 & E2 & C2 & r & Hst & Hgen).
  exists h2. split; [exact E2|]. split; [exact C2|]. split.
  - intros Hb lens. exact (reads_whole id lens h2 _ data Hst (Hgen Hb)).
  - intros f fs chunks Hf Hid Ht Hend Hcat Hne.
    apply (client_hears dw id cb cb_data Hresp Hdata f s cst); try done. rewrite Hend.
    destruct body; [done|]. intros _. by apply no_chunks.
Qed.

(** A stream of each side on which a request has been made. *)
Definition demo_handler : server.http2_handler :=
  server.set_streams {[ 1 := server.mk_stream (server.set_method (lit "GET") server.new_request) server.new_response ]}
    (server.new_handler server.no_endpoint 0 (lit "now")).

Definition demo_client : client.session_impl :=
  client.set_streams {[ 1 := client.mk_stream (client.set_on_response 5 client.new_request) client.new_response 1 ]}
    client_request.demo_session.

Lemma demo_answer_header : answer_header demo_header.
Proof. unfold answer_header, demo_header. rewrite !Forall_cons, Forall_nil. split; [|split; [|done]]; vm_compute; discriminate. Qed.

Lemma response_transported_witness :
  let nva := server_request.response_nva 200 (lit "now") demo_header in
  exists h', (@server.write_head counting_lib 1 200 demo_header;; @server.end_data counting_lib 1 (lit "hello")) demo_handler = Done tt h'
    /\ submit_response 1 nva true ∈ server.calls h'
    /\ exists s', @client_receives counting_lib client_props.demo_app client_props.demo_inet client.nested (client_props.response_frame 1 4)
                    (map carry nva) [lit "he"; lit "llo"] demo_client = Done tt s'
       /\ client.app_log s' = [client.app_data 8 1 []; client.app_data 8 1 (lit "llo"); client.app_data 8 1 (lit "he"); client.app_response 5 1].
Proof.
  intros nva.
  destruct (@response_transported counting_lib server_props.demo_app client_props.demo_app client_props.demo_inet demo_handler 1
    (server.mk_stream (server.set_method (lit "GET") server.new_request) server.new_response) (lit "now") 200 demo_header (lit "hello")
    client.nested demo_client (client.mk_stream (client.set_on_response 5 client.new_request) client.new_response 1) 5 8)
    as (h' & E & Hin & _ & K);
    [reflexivity|split; reflexivity|reflexivity|reflexivity|lia|exact demo_answer_header|vm_compute; discriminate|reflexivity
    |left; reflexivity|reflexivity|reflexivity|reflexivity|].
  exists h'. split; [exact E|]. split; [exact Hin|].
  destruct (K (client_props.response_frame 1 4) (map carry nva) [lit "he"; lit "llo"]) as (s' & E' & _ & Hlog);
    [split; [reflexivity|left; reflexivity]|reflexivity|apply carry_transmitted|reflexivity|reflexivity
    |rewrite !Forall_cons; done|].
  exists s'. split; [exact E'|exact Hlog].
Defined.

(** ** Bodies of requests *)

(** As [read_body], for the body of a request. *)
Fixpoint read_request `{Nghttp2} `{client.App} `{client.Inet} (dw : monad.M client.session_impl unit) (id : Z) (lens : list nat)
    : monad.M client.session_impl (list (gen_ret * bool)) :=
  match lens with
  | [] => ret []
  | len :: lens =>
    x <- client.call_on_read dw id len NGHTTP2_DATA_FLAG_NONE;;
    rest <- read_request dw id lens;;
    ret ((x.1, Z.testbit x.2 0) :: rest)
  end.

Lemma read_request_run `{Nghttp2} `{client.App} `{client.Inet} dw id lens s st data rem :
  client.streams s !! id = Some st -> client.rq_generator (client.st_request st) = gen_string data rem ->
  exists s', read_request dw id lens s = Done (string_generator_run data rem lens) s'.
Proof.
  revert s st rem. induction lens as [|len lens IH]; intros s st rem Hs Hg; [by exists s|].
  cbn [read_request]. unfold bind at 1, client.call_on_read, bind at 1, client.the_stream, bind at 1, get. rewrite Hs.
  unfold ret at 1. rewrite Hg. cbn [string_generator_run].
  destruct (string_generator_call data rem len NGHTTP2_DATA_FLAG_NONE) as [[r fl] rem'].
  unfold bind at 1, client.update_request, bind at 1, client.the_stream, bind at 1, get. rewrite Hs. unfold ret at 1.
  unfold client.put_stream, modify, client.put. rewrite Hs. unfold ret at 1. cbn [fst snd].
  set (s1 := client.set_streams _ s).
  destruct (IH s1 _ rem' (lookup_insert_eq _ _ _) eq_refl) as (s' & E). exists s'. unfold bind. by rewrite E.
Qed.

(** What the server's session invokes for the body of a request. *)
Definition server_receives `{Nghttp2} (mux : serve_mux.mux) `{server.App} (id : Z) (chunks : list str)
    : monad.M server.http2_handler unit :=
  forM chunks (server.on_data_chunk_recv_callback id);;
  server.on_frame_recv_callback mux (last_data id).

Section server_body.
Context {Lib : Nghttp2} {Ap : server.App} (mux : serve_mux.mux) (id : Z) (cb : nat).
Hypothesis Hdata : forall h d, server.app_react h (server.app_data cb id d) = [].

Lemma server_on_data h st d :
  server.streams h !! id = Some st -> server.rq_on_data (server.st_request st) = Some cb ->
  server.request_call_on_data id d h = Done tt (server.add_event (server.app_data cb id d) h).
Proof.
  intros Hs Hcb. unfold server.request_call_on_data, bind at 1. rewrite (server_request.the_stream_run _ _ _ Hs), Hcb.
  unfold server.react, bind, modify, get. by rewrite Hdata.
Qed.

Definition server_heard (chunks : list str) (h : server.http2_handler) : server.http2_handler :=
  fold_left (fun h d => server.add_event (server.app_data cb id d) h) chunks h.

Lemma server_heard_log chunks h :
  server.app_log (server_heard chunks h) = rev (map (server.app_data cb id) chunks) ++ server.app_log h
  /\ server.streams (server_heard chunks h) = server.streams h.
Proof.
  revert h. induction chunks as [|d l IH]; intros h; [done|]. cbn [server_heard fold_left map rev].
  fold (server_heard l (server.add_event (server.app_data cb id d) h)). destruct (IH (server.add_event (server.app_data cb id d) h)) as [-> ->].
  by rewrite <- app_assoc.
Qed.

Lemma server_chunks h st chunks :
  server.streams h !! id = Some st -> server.rq_on_data (server.st_request st) = Some cb ->
  forM chunks (server.on_data_chunk_recv_callback id) h = Done tt (server_heard chunks h).
Proof.
  revert h. induction chunks as [|d l IH]; intros h Hs Hcb; [done|]. cbn [forM server_heard fold_left].
  unfold bind at 1, server.on_data_chunk_recv_callback, server.find_stream, bind at 1, bind at 1, get, ret at 1.
  rewrite Hs, (server_on_data h st d Hs Hcb). by apply IH.
Qed.

Lemma server_receives_run h st chunks :
  server.streams h !! id = Some st -> server.rq_on_data (server.st_request st) = Some cb ->
  server_receives mux id chunks h = Done tt (server_heard (chunks ++ [[]]) h).
Proof.
  intros Hs Hcb. unfold server_receives, bind. rewrite (server_chunks h st chunks Hs Hcb).
  unfold server_heard. rewrite fold_left_app. fold (server_heard chunks h).
  destruct (server_heard_log chunks h) as [_ Es]. rewrite <- Es in Hs.
  unfold server.on_frame_recv_callback, server.find_stream, bind, get, ret. cbn [hd_stream_id last_data hd_type hd_flags].
  rewrite Hs. change (has_flag NGHTTP2_FLAG_END_STREAM NGHTTP2_FLAG_END_STREAM) with true. cbv iota.
  by rewrite (server_on_data _ st).
Qed.

End server_body.

(** C22. The body of a request arrives: for a request submitted with a string as
    its body, the library reads exactly the string from the client, with EOF at
    its end; and when the pieces it delivers to the server make up the string, the
    data callback that the server's application has set on the request is run for
    each piece, in order, and once more with an empty one at the end. *)
Theorem request_body_transported {Lib : Nghttp2} {CAp : client.App} {In : client.Inet} {Ap : server.App}
    (dw : monad.M client.session_impl unit) (mux : serve_mux.mux) (s : client.session_impl) (cst : client.stream)
    (h : server.http2_handler) (sst : server.stream) (id : Z) (data : str) (lens : list nat) (chunks : list str) (cb : nat)
    (Hc : client.streams s !! id = Some cst)
    (Hg : client.rq_generator (client.st_request cst) = string_generator data)
    (Hne : lens <> []) (Hlen : (length data <= nat_sum lens)%nat)
    (Hs : server.streams h !! id = Some sst) (Hcb : server.rq_on_data (server.st_request sst) = Some cb)
    (Hdata : forall h d, server.app_react h (server.app_data cb id d) = []) :
  exists outs s' h', read_request dw id lens s = Done outs s' /\ whole_body data outs
    /\ server_receives mux id chunks h = Done tt h' /\ server.streams h' = server.streams h
    /\ server.app_log h' = rev (map (server.app_data cb id) (chunks ++ [[]])) ++ server.app_log h
    /\ (concat chunks = concat (map (fun o => gen_bytes o.1) outs) -> concat (chunks ++ [[]]) = data).
Proof.
  destruct (read_request_run dw id lens s cst data (length data) Hc Hg) as (s' & E).
  pose proof (string_generator_whole data lens Hne Hlen) as Hw.
  exists (string_generator_run data (length data) lens), s', (server_heard id cb (chunks ++ [[]]) h).
  split; [done|]. split; [done|]. split; [by eapply server_receives_run|].
  destruct (server_heard_log id cb (chunks ++ [[]]) h) as [El Es]. do 2 (split; [done|]).
  rewrite concat_app. cbn. rewrite app_nil_r. intros ->. apply Hw.
Qed.

Lemma request_body_transported_witness :
  let s := client.set_streams {[ 1 := client.mk_stream (client.set_generator (string_generator (lit "abc")) client.new_request) client.new_response 1 ]}
             client_request.demo_session in
  let h := server.set_streams {[ 1 := server.mk_stream (server.set_on_data 9 server.new_request) server.new_response ]} (server.new_handler server.no_endpoint 0 []) in
  let app := {| server.app_react := fun _ _ => []; server.app_gen := fun _ _ _ => (GRead [], 0) |} in
  exists outs s' h', @read_request counting_lib client_props.demo_app client_props.demo_inet client.nested 1 [2; 2]%nat s = Done outs s'
    /\ @server_receives counting_lib server_props.demo_mux app 1 [lit "a"; lit "bc"] h = Done tt h'
    /\ server.app_log h' = [server.app_data 9 1 []; server.app_data 9 1 (lit "bc"); server.app_data 9 1 (lit "a")].
Proof.
  intros s h app.
  destruct (@request_body_transported counting_lib client_props.demo_app client_props.demo_inet app client.nested server_props.demo_mux s
    (client.mk_stream (client.set_generator (string_generator (lit "abc")) client.new_request) client.new_response 1) h
    (server.mk_stream (server.set_on_data 9 server.new_request) server.new_response) 1 (lit "abc") [2; 2]%nat [lit "a"; lit "bc"] 9)
    as (outs & s' & h' & E1 & _ & E2 & _ & El & _);
    [reflexivity|reflexivity|discriminate|cbn; lia|reflexivity|reflexivity|reflexivity|].
  exists outs, s', h'. split; [exact E1|]. split; [exact E2|exact El].
Defined.

(** ** Pushed requests *)

Section push.
Context {Lib : Nghttp2}.

(** The session with a promised stream. *)
Definition with_push (s : client.session_impl) (id : Z) (r : client.request_impl) : client.session_impl :=
  client.set_streams (<[id := client.mk_stream r client.new_response id]> (client.streams s)) s.

Lemma update_request_push id f s r :
  client.update_request id f (with_push s id r) = Done tt (with_push s id (f r)).
Proof.
  unfold client.update_request, client.the_stream, bind, get, ret, client.put_stream, modify, client.put, with_push. cbn.
  rewrite lookup_insert_eq. cbn. by rewrite lookup_insert_eq, insert_insert_eq.
Qed.

Lemma on_header_push f s r name val flags :
  hd_type f = NGHTTP2_PUSH_PROMISE ->
  client.on_header_callback f name val flags (with_push s (promised_stream_id f) r)
  = client.on_push_header f (client.mk_stream r client.new_response (promised_stream_id f)) name val flags
      (with_push s (promised_stream_id f) r).
Proof.
  intros Hf. unfold client.on_header_callback. rewrite Hf. unfold bind at 1, client.find_stream, bind at 1, get, ret.
  cbn [with_push client.streams client.set_streams]. by rewrite lookup_insert_eq.
Qed.

Lemma on_push_pseudo f s r name val flags g :
  hd_type f = NGHTTP2_PUSH_PROMISE ->
  match lookup_token name with
  | Some HD__METHOD => g = client.set_method val
  | Some HD__SCHEME => g = fun r => client.set_uri (set_scheme val (client.rq_uri r)) r
  | Some HD__AUTHORITY => g = fun r => client.set_uri (set_host val (client.rq_uri r)) r
  | Some HD__PATH => g = fun r => client.set_uri (split_path (client.rq_uri r) val) r
  | _ => False
  end ->
  client.on_header_callback f name val flags (with_push s (promised_stream_id f) r)
  = Done tt (with_push s (promised_stream_id f) (g r)).
Proof.
  intros Hf Hg. rewrite on_header_push by done. unfold client.on_push_header.
  destruct (lookup_token name) as [[]|]; try done; subst g; unfold client.update_uri; by rewrite update_request_push.
Qed.

Lemma on_push_regular f s r x :
  hd_type f = NGHTTP2_PUSH_PROMISE -> server_request.regular x -> host (client.rq_uri r) <> [] ->
  client.rq_header_buffer_size r + field_size x <= client.HEADER_LIMIT ->
  client.on_header_callback f x.1.1 x.1.2 x.2 (with_push s (promised_stream_id f) r)
  = Done tt (with_push s (promised_stream_id f)
      (client.set_header (emplace (client.rq_header r) x.1.1 (field_value x)) (client.rq_header_buffer_size r + field_size x) r)).
Proof.
  intros Hf Hx Hh Hl. rewrite on_header_push by done. destruct x as [[name val] flags]. cbn [fst snd] in *.
  assert (client.add_push_header f name val flags (with_push s (promised_stream_id f) r)
    = Done tt (with_push s (promised_stream_id f) (client.set_header
        (emplace (client.rq_header r) name (field_value (name, val, flags))) (client.rq_header_buffer_size r + field_size (name, val, flags)) r))) as Ha.
  { unfold client.add_push_header. cbv zeta. unfold bind at 1, client.the_stream, bind at 1, get.
    cbn [with_push client.streams client.set_streams]. rewrite lookup_insert_eq. unfold ret at 1. cbn [client.st_request].
    unfold client.name_value_size. unfold field_size in Hl. cbn [fst snd] in Hl. rewrite (proj2 (Z.ltb_ge _ _)) by done.
    by rewrite update_request_push. }
  unfold client.on_push_header. unfold server_request.regular in Hx. cbn [fst] in Hx.
  destruct (lookup_token name) as [[]|]; try done.
  unfold bind. cbn [client.st_request]. rewrite (proj2 (Nat.eqb_neq _ _)); [exact Ha|]. by destruct (host (client.rq_uri r)).
Qed.

Lemma run_push_regular f s r fs :
  hd_type f = NGHTTP2_PUSH_PROMISE -> Forall server_request.regular fs -> host (client.rq_uri r) <> [] ->
  client.rq_header_buffer_size r + fields_size fs <= client.HEADER_LIMIT ->
  client_request.run_headers f fs (with_push s (promised_stream_id f) r)
  = Done tt (with_push s (promised_stream_id f)
      (client.set_header (store_fields (client.rq_header r) fs) (client.rq_header_buffer_size r + fields_size fs) r)).
Proof.
  intros Hf Hfs. revert r. induction Hfs as [|x fs Hx Hfs IH]; intros r Hh Hl.
  - unfold client_request.run_headers. cbn. unfold ret. by destruct r; cbn; rewrite Z.add_0_r.
  - unfold client_request.run_headers in *. cbn [forM fields_size fold_right store_fields fold_left] in *.
    fold (fields_size fs) in *. pose proof (fields_size_nonneg fs) as Hpos.
    unfold bind at 1. rewrite on_push_regular by (done || lia). rewrite IH; [|done|cbn; lia].
    unfold store_fields. cbn. by rewrite <- Z.add_assoc.
Qed.

Definition promise_nva (method raw : str) (u : uri_ref) (hd : header_map) : list nghttp2_nv :=
  make_nv_ls ":method" method :: make_nv_ls ":scheme" (scheme u) :: make_nv_ls ":authority" (host u)
    :: make_nv_ls ":path" raw :: map_nva hd.

Lemma client_promised f s method u raw hd fs :
  hd_type f = NGHTTP2_PUSH_PROMISE -> client.streams s !! promised_stream_id f = None -> host u <> [] ->
  plain_header hd -> header_size hd <= 65536 -> transmitted (promise_nva method raw u hd) fs ->
  exists hs, same_header (lowered hd) hs
    /\ (client.on_begin_headers_callback f;; client_request.run_headers f fs) s
       = Done tt (with_push s (promised_stream_id f)
           (client.mk_req hs None None None gen_empty (split_path (mk_uri (scheme u) (host u) [] [] [] []) raw)
              method (header_size hd))).
Proof.
  intros Hf Hn Hu Hp Hl Ht. unfold promise_nva in Ht.
  apply transmitted_cons_inv in Ht as (f1 & ? & -> & Ht). apply transmitted_cons_inv in Ht as (f2 & ? & -> & Ht).
  apply transmitted_cons_inv in Ht as (f3 & ? & -> & Ht). apply transmitted_cons_inv in Ht as (f4 & fs' & -> & Ht).
  exists (store_fields [] fs'). split; [by apply store_transmitted|].
  unfold client.on_begin_headers_callback. rewrite bool_decide_eq_true_2 by done. cbn [negb].
  unfold bind at 1, client.create_push_stream, client.emplace_stream, client.find_stream, bind at 1, bind at 1, get, ret at 1.
  rewrite Hn. unfold modify. fold (with_push s (promised_stream_id f) client.new_request).
  unfold client_request.run_headers. cbn [forM fst snd].
  do 4 (unfold bind at 1; erewrite on_push_pseudo; [|exact Hf|reflexivity]).
  fold (client_request.run_headers f fs'). rewrite run_push_regular; [|done| | |].
  - cbn [client.set_header client.set_uri client.rq_method client.rq_uri client.rq_header client.rq_header_buffer_size].
    rewrite Z.add_0_l, (transmitted_size hd) by done. unfold split_path. by destruct (find_char "?" raw).
  - by apply (transmitted_names (fun k => server_request.regular (k, [], 0)) hd fs').
  - cbn. unfold split_path. by destruct (find_char "?" raw).
  - cbn. rewrite (transmitted_size hd fs') by done. unfold client.HEADER_LIMIT. lia.
Qed.

Lemma push_promise_run h id st method raw hd :
  server.streams h !! id = Some st ->
  let u := server.rq_uri (server.st_request st) in
  let c := submit_push_promise id (promise_nva method raw u hd) in
  let pid := lib_ret (server.calls h) c in
  0 <= pid -> server.streams h !! pid = None ->
  exists h', server.push_promise id method raw hd h = Done (ec_ok, Some pid) h'
    /\ server.calls h' = c :: server.calls h
    /\ server.streams h' !! pid = Some (server_props.promised u method raw hd).
Proof.
  intros Hs u c pid Hp Hn. unfold server.push_promise, bind at 1. rewrite (server_request.the_stream_run _ _ _ Hs). cbv zeta.
  fold u. change (submit_push_promise id _) with c. unfold bind at 1, server.lib. fold pid.
  rewrite (proj2 (Z.ltb_ge _ _)) by done. unfold bind at 1. rewrite server_request.create_stream_run by done.
  do 3 (unfold bind at 1; rewrite server_request.update_request_with).
  unfold bind at 1. erewrite server_request.update_response_run by (cbn; apply lookup_insert_eq).
  set (h1 := server.set_streams _ _). destruct (server_request.signal_write_run h1) as (h2 & E2 & S2 & C2 & _).
  unfold bind. rewrite E2. exists h2. split; [done|]. split; [by rewrite C2|]. rewrite S2. apply lookup_insert_eq.
Qed.

End push.

(** C23. A pushed request arrives as it was promised: the client's callbacks enter
    the promised stream with a request that has the same method, URI and header
    fields (in lower case) as the request of the stream that the server has
    entered for it, and run the push callback of the request it belongs to, on
    that stream; the stream is entered under the id that the server's library
    returned. *)
Theorem push_transported {Lib : Nghttp2} {Ap : client.App} {In : client.Inet}
    (h : server.http2_handler) (id : Z) (sst : server.stream) (method raw : str) (hd : header_map)
    (dw : monad.M client.session_impl unit) (s : client.session_impl) (cst : client.stream) (cb : nat) (f : frame) (fs : list field)
    (Hs : server.streams h !! id = Some sst) (Hu : host (server.rq_uri (server.st_request sst)) <> [])
    (Hp : plain_header hd) (Hsz : header_size hd <= 65536)
    (Hc : client.streams s !! id = Some cst) (Hcb : client.rq_on_push (client.st_request cst) = Some cb) :
  let c := submit_push_promise id (promise_nva method raw (server.rq_uri (server.st_request sst)) hd) in
  let pid := lib_ret (server.calls h) c in
  0 <= pid -> server.streams h !! pid = None -> client.streams s !! pid = None ->
  hd_type f = NGHTTP2_PUSH_PROMISE -> hd_stream_id f = id -> promised_stream_id f = pid ->
  transmitted (promise_nva method raw (server.rq_uri (server.st_request sst)) hd) fs ->
  exists h' r pst, server.push_promise id method raw hd h = Done (ec_ok, Some pid) h'
    /\ server.calls h' = c :: server.calls h /\ server.streams h' !! pid = Some pst
    /\ (client.on_begin_headers_callback f;; client_request.run_headers f fs;; client.on_frame_recv_callback dw f) s
       = client.react dw (client.app_push cb id pid) (with_push s pid r)
    /\ client.rq_method r = server.rq_method (server.st_request pst)
    /\ client.rq_uri r = server.rq_uri (server.st_request pst)
    /\ same_header (lowered (server.rq_header (server.st_request pst))) (client.rq_header r).
Proof.
  intros c pid Hpid Hn Hnc Hf Hid Hfp Ht.
  destruct (push_promise_run h id sst method raw hd Hs Hpid Hn) as (h' & E & C & P).
  destruct (client_promised f s method (server.rq_uri (server.st_request sst)) raw hd fs) as (hs & Hh & Ec); try done; [by rewrite Hfp|].
  rewrite Hfp in Ec. set (r := client.mk_req _ _ _ _ _ _ _ _) in Ec.
  exists h', r, (server_props.promised (server.rq_uri (server.st_request sst)) method raw hd).
  split; [exact E|]. split; [exact C|]. split; [exact P|].
  split; [|split; [reflexivity|split; [reflexivity|exact Hh]]].
  unfold bind at 1 in Ec. unfold bind at 1. destruct (client.on_begin_headers_callback f s) as [[] s1|]; [|done].
  unfold bind at 1. rewrite Ec.
  assert (client.streams (with_push s pid r) !! id = Some cst) as Hc'.
  { cbn. rewrite lookup_insert_ne by congruence. done. }
  unfold client.on_frame_recv_callback. rewrite Hid, Hf, Hfp. unfold bind at 1, client.find_stream, bind at 1, get, ret at 1.
  rewrite Hc'. unfold bind at 1, bind at 1, get, ret at 1. cbn [with_push client.streams client.set_streams].
  rewrite lookup_insert_eq. fold (with_push s pid r).
  unfold client.call_on_push_cb, client.the_stream, bind, get, ret. by rewrite Hc', Hcb.
Qed.

Lemma push_transported_witness :
  let u := mk_uri (lit "https") (lit "a.org") (lit "/") (lit "/") [] [] in
  let sst := server.mk_stream (server.set_uri u server.new_request) server.new_response in
  let h := server.set_streams {[ 1 := sst ]} (server.new_handler server.no_endpoint 0 []) in
  let cst := client.mk_stream (client.set_on_push 7 client.new_request) client.new_response 1 in
  let s := client.set_streams {[ 1 := cst ]} client_request.demo_session in
  let f := mk_frame NGHTTP2_PUSH_PROMISE 1 0 NGHTTP2_HCAT_HEADERS 2 in
  exists h' r, @server.push_promise counting_lib 1 (lit "GET") (lit "/a%20b?x") demo_header h = Done (ec_ok, Some 2) h'
    /\ (client.on_begin_headers_callback f;; @client_request.run_headers counting_lib f (map carry (promise_nva (lit "GET") (lit "/a%20b?x") u demo_header));;
        @client.on_frame_recv_callback counting_lib client_props.demo_app client_props.demo_inet client.nested f) s
       = @client.react counting_lib client_props.demo_app client_props.demo_inet client.nested (client.app_push 7 1 2) (with_push s 2 r)
    /\ path (client.rq_uri r) = lit "/a b".
Proof.
  intros u sst h cst s f.
  destruct (@push_transported counting_lib client_props.demo_app client_props.demo_inet h 1 sst (lit "GET") (lit "/a%20b?x") demo_header
    client.nested s cst 7 f (map carry (promise_nva (lit "GET") (lit "/a%20b?x") u demo_header)))
    as (h' & r & pst & E & _ & Hp & Ec & _ & Hu & _);
    [reflexivity|discriminate|exact demo_header_plain|vm_compute; discriminate|reflexivity|reflexivity|vm_compute; discriminate
    |reflexivity|reflexivity|reflexivity|reflexivity|reflexivity|apply carry_transmitted|].
  exists h', r. split; [exact E|]. split; [exact Ec|]. rewrite Hu.
  vm_compute in E. injection E as <-. vm_compute in Hp. injection Hp as <-. reflexivity.
Defined.

(** ** A whole exchange *)

(** A client that asks for a URI and waits for the response. *)
Definition ask (method uri : str) (hd : header_map) (prio : client.priority_spec) (cb : nat) : client.app_prog :=
  client.app_do (client.call_submit method uri gen_empty hd prio) (fun r =>
    match r.2 with
    | Some id => client.app_do (client.call_on_response id cb) (fun _ => client.app_done)
    | None => client.app_done
    end).

(** What the server's session invokes for a request without a body. *)
Definition server_asked `{Nghttp2} (mux : serve_mux.mux) `{server.App} (f : frame) (fs : list field)
    : monad.M server.http2_handler unit :=
  server.on_begin_headers_callback f;; server_request.run_headers f fs;; server.on_frame_recv_callback mux f.

Lemma ask_run {Lib : Nghttp2} {Ap : client.App} {In : client.Inet} dw s method uri u p hd prio cb :
  client.stopped s = false -> client.session_ s = true -> client.inside_callback s = true ->
  client.submit_uri uri = Some (Some (u, p)) ->
  let c := submit_request prio (client.request_nva method p u hd) false in
  let id := lib_ret (client.calls s) c in
  0 <= id -> client.streams s !! id = None -> client.limbo s !! id = None ->
  exists s', client.run_prog dw (ask method uri hd prio cb) s = Done tt s'
    /\ client.calls s' = c :: client.calls s /\ client.app_log s' = client.app_log s
    /\ client.streams s' !! id
       = Some (client.mk_stream (client.set_on_response cb (client_request.submitted u gen_empty hd)) client.new_response id).
Proof.
  intros Hst Hses Hin Hu c id Hid Hs1 Hs2. unfold ask. cbn [client.run_prog client.run_app_call]. unfold bind at 1.
  rewrite (client_request.submit_inside (Lib:=Lib) dw s method uri u p gen_empty hd prio Hst Hses Hin Hu Hid Hs1 Hs2).
  cbn [snd client.run_prog client.run_app_call]. fold c. fold id.
  unfold client.update_request, client.put_stream, client.put, modify, client.the_stream, bind, get, ret.
  cbn [client.streams client.set_streams]. change (client.has_generator gen_empty) with false. fold c. fold id. rewrite lookup_insert_eq.
  eexists. split; [reflexivity|]. cbn [client.streams client.set_streams]. rewrite lookup_insert_eq.
  split; [done|]. split; [done|]. apply lookup_insert_eq.
Qed.

Lemma asked_run {Lib : Nghttp2} {Ap : server.App} mux f h method p u hd fs scb status ahd data d :
  server.is_request_headers f = true -> server.streams h !! hd_stream_id f = None -> host u <> [] ->
  plain_header hd -> header_size hd <= 65536 -> transmitted (client.request_nva method p u hd) fs ->
  serve_mux.handler mux (serve_mux.mk_request method (split_path (mk_uri (scheme u) (host u) [] [] [] []) p))
  = Some (serve_mux.cb_user scb) ->
  (forall h, server.app_react h (server.app_request scb (hd_stream_id f))
     = [server.call_write_head (hd_stream_id f) status ahd; server.call_end (hd_stream_id f) (string_generator data)]) ->
  server_request.date_of h = Some d ->
  let body := expect_response_body_for method status in
  let c := submit_response (hd_stream_id f) (server_request.response_nva status d ahd) body in
  lib_ret (server.calls h) c = 0 ->
  exists h', server_asked mux f fs h = Done tt h' /\ c ∈ server.calls h'
    /\ (body = true -> exists st, server.streams h' !! hd_stream_id f = Some st
         /\ server.rs_generator (server.st_response st) = string_generator data).
Proof.
  intros Hf Hn Hu Hp Hl Ht Hm Happ Hd body c Hret. set (id := hd_stream_id f) in *.
  destruct (server_builds f h method p u hd fs Hf Hn Hu Hp Hl Ht) as (hs & _ & E). fold id in E. set (r := server.mk_req _ _ _ _ _ _) in E.
  set (r1 := server.set_remote_endpoint (server.remote_ep_ h) r).
  set (h1 := server.add_event (server.app_request scb id) (server_request.with_request h id r1 server.new_stream)).
  assert (server.streams h1 !! id = Some (server.mk_stream r1 server.new_response)) as S1 by (apply lookup_insert_eq).
  destruct (server_answers h1 id _ d status ahd data S1 (conj eq_refl eq_refl) Hd Hret) as (h' & E' & C' & r' & S' & G').
  exists h'. split; [|split; [exact C'|intros Hb; eexists; split; [exact S'|exact (G' Hb)]]].
  unfold server_asked, bind at 1. unfold bind at 1 in E.
  destruct (server.on_begin_headers_callback f h) as [[] h0|]; [|done]. unfold bind at 1. rewrite E.
  unfold server.is_request_headers in Hf. apply andb_true_iff in Hf as [Hty Hcat]. apply bool_decide_eq_true_1 in Hty.
  unfold server.on_frame_recv_callback. cbv zeta. fold id. rewrite Hty, Hcat. cbn [negb].
  unfold bind at 1, server.find_stream, bind at 1, get, ret at 1. cbn [server_request.with_request server.streams server.set_streams].
  rewrite lookup_insert_eq. fold (server_request.with_request h id r server.new_stream).
  unfold bind at 1. unfold bind at 1. rewrite server_request.update_request_with.
  change (server.set_remote_endpoint _ r) with r1.
  unfold bind at 1, server.call_on_request, bind at 1. rewrite server_request.the_stream_with. cbv zeta.
  cbn [server.st_request server.rq_method server.rq_uri r1 r server.set_remote_endpoint]. rewrite Hm.
  unfold server.react, bind at 1, modify. fold h1. unfold bind at 1, get. rewrite Happ. cbn [forM server.run_app_call].
  unfold bind at 1 in E'. unfold bind at 1. destruct (server.write_head id status ahd h1) as [[] h2|]; [|done].
  fold (server.end_data id data). unfold bind at 1. rewrite E'. unfold ret at 1.
  destruct (has_flag _ _); [|done]. unfold server.request_call_on_data, bind. by rewrite (server_request.the_stream_run _ _ _ S').
Qed.


(** A server that answers every request, and the two ends before the exchange. *)
Definition answering_app : server.App := {|
  server.app_react := fun _ e =>
    match e with
    | server.app_request _ id => [server.call_write_head id 200 demo_header; server.call_end id (string_generator (lit "hello"))]
    | _ => []
    end;
  server.app_gen := fun _ _ _ => (GRead [], 0) |}.

Definition demo_server : server.http2_handler := server.new_handler server.no_endpoint 0 (lit "now").


End exchange.
