(* ===== verification/PoolRace.v ===== *)
(** * [get_io_service] from several threads: lib/asio_io_service_pool.cc under lib/asio_server.cc

    The accept handlers of different acceptors run on the threads of different services,
    and each calls [get_io_service] on the one pool of the server, which takes no lock.
    Here a thread is inside [get_io_service] between two accesses to
    [next_io_service_], and a schedule says whose turn it is.  Calls that do not overlap
    refine the function of IoServicePool; calls that do can leave the cursor outside
    the vector for good. *)

From S2P Require Import Prelude Monad IoServicePool Server.

Module pool_race.
Import io_service_pool.

(** Between two accesses of a thread: it has found service [r]; it has read [v] for
    [++next_io_service_]; it is about to compare; it is about to reset. *)
Inductive pc :=
  | pc_out
  | pc_load (r : nat)
  | pc_store (r v : nat)
  | pc_test (r : nat)
  | pc_reset (r : nat).

#[export] Instance pc_eq_dec : EqDecision pc.
Proof. solve_decision. Defined.

Definition set_next (v : nat) (p : pool) : pool := mk_pool (io_services_ p) (work_ p) v (futures_ p).

(** The next access of a thread, and what it returns when it is the last one; [None] is
    an access outside the vector. *)
Definition access (c : pc) (p : pool) : option (pc * option nat * pool) :=
  match c with
  | pc_out => _ ← io_services_ p !! next_io_service_ p; Some (pc_load (next_io_service_ p), None, p)
  | pc_load r => Some (pc_store r (next_io_service_ p), None, p)
  | pc_store r v => Some (pc_test r, None, set_next (S v) p)
  | pc_test r =>
    if (next_io_service_ p =? length (io_services_ p))%nat then Some (pc_reset r, None, p) else Some (pc_out, Some r, p)
  | pc_reset r => Some (pc_out, Some r, set_next 0 p)
  end.

(** The pool, the threads, and which call has returned which service to which
    thread, in order. *)
Record state := mk_state { the_pool : pool; threads : list pc; returned : list (nat * nat) }.

Definition turn (i : nat) (s : state) : option state :=
  c ← threads s !! i;
  '(c, r, p) ← access c (the_pool s);
  Some (mk_state p (<[i := c]> (threads s)) (returned s ++ match r with Some r => [(i, r)] | None => [] end)).

Fixpoint run_schedule (l : list nat) (s : state) : option state :=
  match l with
  | [] => Some s
  | i :: l => s ← turn i s; run_schedule l s
  end.

Definition start (p : pool) (n : nat) : state := mk_state p (replicate n pc_out) [].

Lemma run_schedule_app l1 l2 s : run_schedule (l1 ++ l2) s = (s ← run_schedule l1 s; run_schedule l2 s).
Proof. revert s. induction l1 as [|i l1 IH]; intros s; [done|]. cbn. destruct (turn i s); [apply IH|done]. Qed.

(** ** Calls that do not overlap *)

Definition inside (s : state) (i : nat) : Prop := exists c, threads s !! i = Some c /\ c <> pc_out.

(** Nobody takes a turn while another thread is inside, as if a lock was held. *)
Fixpoint serialized (l : list nat) (s : state) : Prop :=
  match l with
  | [] => True
  | i :: l => (i < length (threads s))%nat /\ (forall j, inside s j -> j = i)
              /\ match turn i s with Some s => serialized l s | None => True end
  end.

(** What a thread that is alone has done so far of a call that started with [p]. *)
Definition halfway (p : pool) (c : pc) (q : pool) : Prop :=
  let r := next_io_service_ p in
  match c with
  | pc_out => q = p
  | pc_load r' => r' = r /\ q = p
  | pc_store r' v => r' = r /\ v = r /\ q = p
  | pc_test r' => r' = r /\ q = set_next (S r) p
  | pc_reset r' => r' = r /\ q = set_next (S r) p /\ S r = length (io_services_ p)
  end.

(** [p] is the pool after the calls that have returned. *)
Record Inv (p0 : pool) (s : state) (p : pool) : Prop := {
  inv_done : take_services (length (returned s)) p0 = Some (map snd (returned s), p);
  inv_ok : pool_ok p;
  inv_half : forall i c, threads s !! i = Some c -> (forall j, inside s j -> j = i) -> halfway p c (the_pool s);
}.

Lemma take_services_cons n p :
  take_services (S n) p = ('(i, p1) ← get_io_service p; '(l, p2) ← take_services n p1; Some (i :: l, p2)).
Proof. done. Qed.

Lemma take_services_snoc n p l q : take_services n p = Some (l, q) ->
  take_services (S n) p = ('(i, q) ← get_io_service q; Some (l ++ [i], q)).
Proof.
  revert p l. induction n as [|n IH]; intros p l; [rewrite (take_services_cons 0 p)|rewrite (take_services_cons (S n) p)].
  - intros [= <- <-]. by destruct (get_io_service p) as [[i q]|].
  - rewrite (take_services_cons n p). destruct (get_io_service p) as [[i p1]|]; [|done]. cbn [mbind option_bind].
    destruct (take_services n p1) as [[l1 q1]|] eqn:E; [|done]. cbn [mbind option_bind]. intros [= <- <-].
    rewrite (IH p1 l1 E). by destruct (get_io_service q1) as [[j q2]|].
Qed.

(** One access of a thread that nobody overtakes. *)
Lemma access_alone p c q : pool_ok p -> halfway p c q ->
  exists c' r q', access c q = Some (c', r, q')
    /\ match r with
       | None => c' <> pc_out /\ halfway p c' q'
       | Some r => c' = pc_out /\ get_io_service p = Some (r, q')
       end.
Proof.
  unfold pool_ok. intros Hp Hh. destruct c as [|r|r v|r|r]; cbn in Hh; destruct_and?; subst; cbn [access].
  - destruct (lookup_lt_is_Some_2 _ _ Hp) as [b ->]. cbn. by eexists _, None, _.
  - by eexists _, None, _.
  - by eexists _, None, _.
  - destruct (lookup_lt_is_Some_2 _ _ Hp) as [b Eb]. change (next_io_service_ (set_next _ p)) with (S (next_io_service_ p)).
    change (io_services_ (set_next _ p)) with (io_services_ p). unfold get_io_service. rewrite Eb. cbn [mbind option_bind].
    destruct (Nat.eqb_spec (S (next_io_service_ p)) (length (io_services_ p))) as [E|E]; [by eexists _, None, _|by eexists _, (Some _), _].
  - destruct (lookup_lt_is_Some_2 _ _ Hp) as [b Eb]. eexists _, (Some _), _. split; [done|]. split; [done|].
    unfold get_io_service. rewrite Eb. cbn [mbind option_bind].
    match goal with H : S _ = _ |- _ => by rewrite (proj2 (Nat.eqb_eq _ _) H) end.
Qed.

Lemma start_inside p n i : ~ inside (start p n) i.
Proof. intros (c & Hc & Hn). by apply lookup_replicate in Hc as [-> _]. Qed.

Lemma start_Inv p n : pool_ok p -> Inv p (start p n) p.
Proof. intros Hp. split; [done|done|]. intros i c Hc _. by apply lookup_replicate in Hc as [-> _]. Qed.

Lemma turn_Inv p0 s p i : Inv p0 s p -> (i < length (threads s))%nat -> (forall j, inside s j -> j = i) ->
  exists s' p', turn i s = Some s' /\ Inv p0 s' p' /\ length (threads s') = length (threads s).
Proof.
  intros [Hd Hok Hh] Hi Ha. destruct (lookup_lt_is_Some_2 _ _ Hi) as [c Ec].
  destruct (access_alone p c (the_pool s) Hok (Hh i c Ec Ha)) as (c' & r & q' & Eacc & Hr).
  assert (forall j cj, <[i:=c']> (threads s) !! j = Some cj -> cj <> pc_out -> j = i) as Hone.
  { intros j cj [[<- _]|[Hne Ej]]%list_lookup_insert_Some Hcj; [done|]. apply Ha. by exists cj. }
  eexists. unfold turn. rewrite Ec. cbn [mbind option_bind]. rewrite Eacc. destruct r as [r|].
  - destruct Hr as [-> Hg]. exists q'. split; [done|]. split; [|cbn; by rewrite length_insert]. split; cbn [returned the_pool threads].
    + rewrite length_app, Nat.add_1_r, (take_services_snoc _ _ _ _ Hd), Hg. cbn. by rewrite map_app.
    + destruct (get_io_service_spec p Hok) as (q & Eq & Es & _ & _ & En). rewrite Hg in Eq. injection Eq as _ <-.
      unfold pool_ok in *. rewrite Es, En. apply Nat.mod_upper_bound. lia.
    + intros j cj Ej _. destruct (decide (cj = pc_out)) as [->|Hcj]; [done|]. pose proof (Hone j cj Ej Hcj) as ->.
      rewrite list_lookup_insert_eq in Ej by done. congruence.
  - destruct Hr as [Hc' Hh']. exists p. split; [done|]. split; [|cbn; by rewrite length_insert]. split; cbn [returned the_pool threads].
    + by rewrite app_nil_r.
    + done.
    + intros j cj Ej Hall. assert (i = j) as <-.
      { apply Hall. exists c'. split; [|done]. cbn. by apply list_lookup_insert_eq. }
      rewrite list_lookup_insert_eq in Ej by done. by injection Ej as <-.
Qed.

Lemma serialized_Inv l p0 s p : Inv p0 s p -> serialized l s ->
  exists s' p', run_schedule l s = Some s' /\ Inv p0 s' p' /\ length (threads s') = length (threads s).
Proof.
  revert s p. induction l as [|i l IH]; intros s p HI; cbn [serialized run_schedule]; [intros _; by exists s, p|].
  intros (Hi & Ha & Hs). destruct (turn_Inv p0 s p i HI Hi Ha) as (s1 & p1 & E & HI1 & El). rewrite E in Hs |- *. cbn [mbind option_bind].
  destruct (IH s1 p1 HI1 Hs) as (s2 & p2 & E2 & HI2 & El2). exists s2, p2. split; [done|]. split; [done|congruence].
Qed.

(** C37. Calls of [get_io_service] that do not overlap: for every number of threads and every
    schedule of their accesses in which no thread takes a turn while another one is inside,
    no access leaves the vector, the calls return the services that IoServicePool hands out to
    the same number of calls, in the order of their returns, and when nobody is inside the
    pool is the one that those calls leave. *)
Theorem serialized_refines (p : pool) (n : nat) (l : list nat) (Hp : pool_ok p) (Hl : serialized l (start p n)) :
  exists s p', run_schedule l (start p n) = Some s
    /\ take_services (length (returned s)) p = Some (map snd (returned s), p')
    /\ ((0 < n)%nat -> (forall i, ~ inside s i) -> the_pool s = p').
Proof.
  destruct (serialized_Inv l p _ p (start_Inv p n Hp) Hl) as (s & p' & E & [Hd _ Hh] & El). exists s, p'.
  split; [done|]. split; [done|]. intros Hn Hout. cbn in El. rewrite length_replicate in El.
  destruct (lookup_lt_is_Some_2 (threads s) 0) as [c Ec]; [lia|].
  destruct (decide (c = pc_out)) as [->|Hc]; [|by destruct (Hout 0%nat); exists c].
  apply (Hh 0%nat pc_out Ec). intros j Hj. by destruct (Hout j).
Qed.

(** ** Calls that do *)

(** Two threads that are outside. *)
Definition two (p : pool) (l : list (nat * nat)) : state := mk_state p [pc_out; pc_out] l.

Lemma call_alone p l : pool_ok p ->
  exists sched p', run_schedule sched (two p l) = Some (two p' (l ++ [(0%nat, next_io_service_ p)]))
    /\ io_services_ p' = io_services_ p
    /\ next_io_service_ p' = ((next_io_service_ p + 1) mod length (io_services_ p))%nat.
Proof.
  intros Hp. unfold pool_ok in Hp. destruct (lookup_lt_is_Some_2 _ _ Hp) as [b Eb].
  destruct (Nat.eqb_spec (S (next_io_service_ p)) (length (io_services_ p))) as [E|E].
  - exists [0;0;0;0;0]%nat, (set_next 0 p). split; [|split; [done|by rewrite Nat.add_1_r, E, Nat.Div0.mod_same]].
    unfold run_schedule, turn, two. cbn -[Nat.eqb]. rewrite Eb. cbn -[Nat.eqb]. rewrite (proj2 (Nat.eqb_eq _ _) E). cbn.
    by rewrite !app_nil_r.
  - exists [0;0;0;0]%nat, (set_next (S (next_io_service_ p)) p). split; [|split; [done|by rewrite Nat.add_1_r, Nat.mod_small by lia]].
    unfold run_schedule, turn, two. cbn -[Nat.eqb]. rewrite Eb. cbn -[Nat.eqb]. rewrite (proj2 (Nat.eqb_neq _ _) E). cbn.
    by rewrite !app_nil_r.
Qed.

(** The first thread can bring the cursor to the last service. *)
Lemma reach_last m p l : pool_ok p -> (next_io_service_ p + m + 1 = length (io_services_ p))%nat ->
  exists sched p' l', run_schedule sched (two p l) = Some (two p' l')
    /\ io_services_ p' = io_services_ p /\ S (next_io_service_ p') = length (io_services_ p).
Proof.
  revert p l. induction m as [|m IH]; intros p l Hp Hm; [exists [], p, l; split; [done|]; split; [done|lia]|].
  destruct (call_alone p l Hp) as (s1 & p1 & E1 & Es1 & En1). rewrite Nat.mod_small in En1 by lia.
  destruct (IH p1 (l ++ [(0%nat, next_io_service_ p)])) as (s2 & p2 & l2 & E2 & Es2 & En2); [unfold pool_ok; rewrite En1, Es1; lia|rewrite En1, Es1; lia|].
  exists (s1 ++ s2), p2, l2. rewrite run_schedule_app, E1. cbn [mbind option_bind]. rewrite Es2, Es1. rewrite Es1 in En2. done.
Qed.

(** Both find the last service and increment before either compares. *)
Lemma race_at_last p l : S (next_io_service_ p) = length (io_services_ p) ->
  let n := length (io_services_ p) in
  run_schedule [0;1;0;0;1;1;0;1]%nat (two p l)
  = Some (two (set_next (S n) p) (l ++ [(0%nat, n - 1); (1%nat, n - 1)]%nat)).
Proof.
  intros E n. assert (next_io_service_ p < length (io_services_ p))%nat as Hp by lia.
  destruct (lookup_lt_is_Some_2 _ _ Hp) as [b Eb]. assert (next_io_service_ p = n - 1)%nat as En by (unfold n; lia).
  assert ((S (S (next_io_service_ p)) =? length (io_services_ p))%nat = false) as Et by (apply Nat.eqb_neq; lia).
  unfold run_schedule, turn, two. cbn -[Nat.eqb Nat.sub]. rewrite Eb. cbn -[Nat.eqb Nat.sub]. rewrite Eb. cbn -[Nat.eqb Nat.sub].
  rewrite Et. cbn -[Nat.eqb Nat.sub]. rewrite Et. cbn -[Nat.sub]. rewrite !app_nil_r, <- app_assoc. unfold set_next. cbn -[Nat.sub].
  by rewrite E, En.
Qed.

Lemma beyond_stuck p l i : next_io_service_ p = S (length (io_services_ p)) -> turn i (two p l) = None.
Proof.
  intros En. unfold turn, two. cbn [threads the_pool].
  assert (io_services_ p !! next_io_service_ p = None) as E by (apply lookup_ge_None_2; lia).
  destruct i as [|[|i]]; cbn; by rewrite ?E.
Qed.

Lemma race_from p l : pool_ok p ->
  exists sched p' l', run_schedule sched (two p l) = Some (two p' l')
    /\ io_services_ p' = io_services_ p /\ next_io_service_ p' = S (length (io_services_ p)).
Proof.
  intros Hp. destruct (reach_last (length (io_services_ p) - 1 - next_io_service_ p) p l Hp) as (s1 & p1 & l1 & E1 & Es1 & En1).
  { unfold pool_ok in Hp. lia. }
  rewrite <- Es1 in En1. exists (s1 ++ [0;1;0;0;1;1;0;1]%nat). do 2 eexists. rewrite run_schedule_app, E1. cbn [mbind option_bind].
  rewrite (race_at_last p1 l1 En1). split; [done|]. by rewrite Es1.
Qed.

(** ** The server *)

Import asio_server.

(** An endpoint on which an acceptor can listen. *)
Definition works (ep : endpoint) : Prop := ep_open ep = 0 /\ ep_option ep = 0 /\ ep_bind ep = 0 /\ ep_listen ep = 0.

Lemma get_next s : pool_ok (io_service_pool_ s) ->
  exists p, asio_server.get_io_service s = SOk (next_io_service_ (io_service_pool_ s), set_pool p s)
    /\ pool_ok p /\ io_services_ p = io_services_ (io_service_pool_ s)
    /\ next_io_service_ p = ((next_io_service_ (io_service_pool_ s) + 1) mod length (io_services_ (io_service_pool_ s)))%nat.
Proof.
  intros Hp. unfold asio_server.get_io_service. destruct (get_io_service_spec _ Hp) as (p & -> & Es & _ & _ & En).
  exists p. split; [done|]. unfold pool_ok in *. rewrite En, Es. split; [apply Nat.mod_upper_bound; lia|done].
Qed.

Lemma try_works max_connections backlog ep s : pool_ok (io_service_pool_ s) -> works ep ->
  exists p b, try_endpoint max_connections backlog ep s
    = SOk (0, set_acceptors (acceptors_ s ++ [mk_acceptor (next_io_service_ (io_service_pool_ s)) true (ep_port ep) b []]) (set_pool p s))
    /\ pool_ok p /\ io_services_ p = io_services_ (io_service_pool_ s)
    /\ next_io_service_ p = ((next_io_service_ (io_service_pool_ s) + 1) mod length (io_services_ (io_service_pool_ s)))%nat.
Proof.
  intros Hp (E1 & E2 & E3 & E4). unfold try_endpoint. destruct (get_next s Hp) as (p & -> & H). cbn [mbind sres_bind].
  rewrite E1, E2, E3, E4. cbn [Z.eqb negb]. by eexists _, _.
Qed.

(** The pool after [start_accepts], and the services of the acceptors. *)
Lemma start_accept_pool i s s' : pool_ok (io_service_pool_ s) -> start_accept i s = SOk s' ->
  pool_ok (io_service_pool_ s') /\ map ac_service (acceptors_ s') = map ac_service (acceptors_ s).
Proof.
  intros Hp. unfold start_accept. destruct (acceptors_ s !! i) as [a|] eqn:Ea; [|done]. case_match; [by intros [= <-]|].
  destruct (get_next s Hp) as (p & -> & Hp' & _). cbn [mbind sres_bind]. intros [= <-]. cbn. split; [done|].
  apply list_eq. intros j. rewrite !list_lookup_fmap. destruct (decide (j = i)) as [->|Hne].
  - rewrite list_lookup_insert_eq by (by eapply lookup_lt_Some). by rewrite Ea.
  - by rewrite list_lookup_insert_ne.
Qed.

Lemma start_accepts_pool n i s s' : pool_ok (io_service_pool_ s) -> start_accepts n i s = SOk s' ->
  pool_ok (io_service_pool_ s') /\ map ac_service (acceptors_ s') = map ac_service (acceptors_ s).
Proof.
  revert i s. induction n as [|n IH]; intros i s Hp; cbn [start_accepts]; [by intros [= <-]|].
  destruct (start_accept i s) as [s1|] eqn:E1; [|done]. cbn [mbind sres_bind]. intros E.
  destruct (start_accept_pool i s s1 Hp E1) as [Hp1 Ea1]. destruct (IH _ _ Hp1 E) as [Hp2 Ea2]. by rewrite Ea2, Ea1.
Qed.

(** C38. The pool of a server is shared without a lock.  A server with at least two
    threads that listens on two endpoints has its acceptors on different services, so
    that their handlers, which both call [get_io_service], run on different threads.
    From the pool that listening leaves there is a schedule of two such threads, even when each
    access is atomic, after which all calls have returned and the cursor lies beyond the
    vector: whatever thread calls [get_io_service] next, and it is called for every
    connection, reads outside the vector. *)
Theorem accept_threads_race (n : nat) (max_connections backlog ht rt : Z) (e1 e2 : endpoint) (s0 s : server)
    (Hn : (2 <= n)%nat) (H1 : works e1) (H2 : works e2) (Hnew : new_server n ht rt = Some s0)
    (Hlisten : listen_and_serve max_connections backlog (0, [e1; e2]) s0 = SOk (0, s)) :
  (exists a1 a2, acceptors_ s = [a1; a2] /\ ac_service a1 <> ac_service a2)
  /\ exists sched p l, run_schedule sched (start (io_service_pool_ s) 2) = Some (mk_state p [pc_out; pc_out] l)
     /\ forall i, (i < 2)%nat -> turn i (mk_state p [pc_out; pc_out] l) = None.
Proof.
  assert (acceptors_ s0 = [] /\ next_io_service_ (io_service_pool_ s0) = 0%nat /\ length (io_services_ (io_service_pool_ s0)) = n)
    as (Ea0 & En0 & El0).
  { unfold new_server, new_pool in Hnew. destruct (n =? 0)%nat; [done|]. injection Hnew as <-. cbn. by rewrite length_replicate. }
  assert (pool_ok (io_service_pool_ s0)) as Hp0 by (unfold pool_ok; lia).
  unfold listen_and_serve, bind_and_listen in Hlisten. destruct (get_next s0 Hp0) as (p1 & Eg & Hp1 & Es1 & En1).
  rewrite Eg in Hlisten. cbn [mbind sres_bind fst snd Z.eqb negb try_endpoints] in Hlisten.
  rewrite En0, El0, Nat.add_0_l, Nat.mod_small in En1 by lia.
  destruct (try_works max_connections backlog e1 (set_pool p1 s0) Hp1 H1) as (p2 & b1 & Et1 & Hp2 & Es2 & En2).
  rewrite Et1 in Hlisten. cbn [mbind sres_bind] in Hlisten. cbn [io_service_pool_ set_pool] in Es2, En2.
  match type of Et1 with _ = SOk (_, ?x) => set (s2 := x) in * end.
  destruct (try_works max_connections backlog e2 s2 Hp2 H2) as (p3 & b2 & Et2 & Hp3 & _).
  rewrite Et2 in Hlisten. cbn [mbind sres_bind] in Hlisten.
  match type of Et2 with _ = SOk (_, ?x) => set (s3 := x) in * end.
  assert (map ac_service (acceptors_ s3) = [1; 2 mod n]%nat) as Ea3.
  { cbn. rewrite Ea0. cbn. rewrite En1, En2, En1, Es1, El0. done. }
  assert (length (acceptors_ s3) = 2%nat) as Elen by (by rewrite <- (length_map ac_service), Ea3).
  rewrite !Elen in Hlisten. cbn [Nat.eqb mbind sres_bind Z.eqb negb] in Hlisten. rewrite ?Elen in Hlisten.
  destruct (start_accepts 2 0 s3) as [s4|] eqn:E4; [|done]. cbn [mbind sres_bind] in Hlisten. injection Hlisten as <-.
  destruct (start_accepts_pool 2 0 s3 s4 Hp3 E4) as [Hp4 Ea4]. rewrite Ea3 in Ea4. split.
  - cbn. destruct (acceptors_ s4) as [|a1 [|a2 [|]]]; try done. injection Ea4 as Ex1 Ex2. exists a1, a2. split; [done|].
    rewrite Ex1, Ex2. destruct (decide (n = 2%nat)) as [->|Hne]; [done|]. by rewrite Nat.mod_small by lia.
  - destruct (race_from (io_service_pool.run (io_service_pool_ s4)) []) as (sched & p & l & E & Es & En); [done|].
    exists sched, p, l. split; [exact E|]. intros i _. apply beyond_stuck. by rewrite Es.
Qed.

Lemma accept_threads_race_witness :
  exists s, listen_and_serve 4096 (-1) (0, [mk_endpoint 0 0 0 0 80; mk_endpoint 0 0 0 0 81]) demo_new = SOk (0, s)
    /\ exists sched p l, run_schedule sched (start (io_service_pool_ s) 2) = Some (mk_state p [pc_out; pc_out] l)
       /\ turn 1 (mk_state p [pc_out; pc_out] l) = None.
Proof.
  destruct (listen_and_serve 4096 (-1) (0, [mk_endpoint 0 0 0 0 80; mk_endpoint 0 0 0 0 81]) demo_new) as [[ec s]|e] eqn:E.
  2:{ exfalso. revert E. vm_compute. discriminate. }
  assert (ec = 0) as -> by (revert E; vm_compute; intros [= <- _]; reflexivity).
  destruct (accept_threads_race 2 4096 (-1) 10 60 (mk_endpoint 0 0 0 0 80) (mk_endpoint 0 0 0 0 81) demo_new s (le_n 2)
    (conj eq_refl (conj eq_refl (conj eq_refl eq_refl))) (conj eq_refl (conj eq_refl (conj eq_refl eq_refl))) eq_refl E)
    as (_ & sched & p & l & Er & Ht).
  exists s. split; [reflexivity|]. exists sched, p, l. split; [exact Er|]. apply Ht. lia.
Defined.

Lemma serialized_refines_witness :
  let p := mk_pool [false; false] [0; 1]%nat 0 [] in
  exists s p', run_schedule [0;0;0;0;1;1;1;1;1]%nat (start p 2) = Some s
    /\ take_services (length (returned s)) p = Some (map snd (returned s), p') /\ length (returned s) = 2%nat.
Proof.
  intros p. destruct (serialized_refines p 2 [0;0;0;0;1;1;1;1;1]%nat) as (s & p' & E & Ht & _).
  - unfold pool_ok. cbn. lia.
  - cbn. repeat (split; [lia|split; [intros [|[|j]] (c & Hc & Hn); cbn in Hc; simplify_eq; done|]]). done.
  - exists s, p'. split; [exact E|]. split; [exact Ht|]. vm_compute in E. injection E as <-. reflexivity.
Defined.

End pool_race.
