(* ===== verification/Facade.v ===== *)
(** * What the application holds: asio_server_http2.cc, asio_server_http2_impl.cc and asio_client_session.cc

    The configuration of a server and how it is started, stopped and moved; how a
    session is made, with or without a local endpoint, and a request submitted; the
    functions and error categories of asio_common.cc; what the destructors wait for.  Each operation forwards to the
    definitions of the other files. *)

From S2P Require Import Prelude Monad Util TimeGm Http2 Common ServeMux Nghttp2 IoServicePool ServerHandler ServerProps ServerConnection Server ClientSession.

Module facade.
Import monad nghttp2.

(** ** Server *)

Record http2_impl := mk_http2_impl {
  server_ : option asio_server.server;
  num_threads_ : nat;
  mux_ : serve_mux.mux;
  backlog_ : Z;
  tls_handshake_timeout_ : Z;
  read_timeout_ : Z;
}.

Definition new_http2_impl (empty : serve_mux.mux) : http2_impl := mk_http2_impl None 1 empty (-1) 60 60.

Definition num_threads (n : nat) (h : http2_impl) : http2_impl :=
  mk_http2_impl (server_ h) n (mux_ h) (backlog_ h) (tls_handshake_timeout_ h) (read_timeout_ h).
Definition backlog (b : Z) (h : http2_impl) : http2_impl :=
  mk_http2_impl (server_ h) (num_threads_ h) (mux_ h) b (tls_handshake_timeout_ h) (read_timeout_ h).
Definition tls_handshake_timeout (t : Z) (h : http2_impl) : http2_impl :=
  mk_http2_impl (server_ h) (num_threads_ h) (mux_ h) (backlog_ h) t (read_timeout_ h).
Definition read_timeout (t : Z) (h : http2_impl) : http2_impl :=
  mk_http2_impl (server_ h) (num_threads_ h) (mux_ h) (backlog_ h) (tls_handshake_timeout_ h) t.
Definition set_server (s : asio_server.server) (h : http2_impl) : http2_impl :=
  mk_http2_impl (Some s) (num_threads_ h) (mux_ h) (backlog_ h) (tls_handshake_timeout_ h) (read_timeout_ h).

Definition handle (pattern : str) (cb : option serve_mux.request_cb) (h : http2_impl) : bool * http2_impl :=
  let '(b, m) := serve_mux.handle (mux_ h) pattern cb in
  (b, mk_http2_impl (server_ h) (num_threads_ h) m (backlog_ h) (tls_handshake_timeout_ h) (read_timeout_ h)).

(** How a call ends: with a result; with the exception of the constructor of the
    pool; with the use of a null pointer; with a failure of the server; or it waits for
    the threads of a server that it destroys. *)
Inductive fres (A : Type) := FOk (a : A) | FThrow | FNull | FFail (e : failure) | FBlocked.
Arguments FOk {A} a.
Arguments FThrow {A}.
Arguments FNull {A}.
Arguments FFail {A} e.
Arguments FBlocked {A}.

#[export] Instance fres_bind : MBind fres := fun A B k r =>
  match r with FOk a => k a | FThrow => FThrow | FNull => FNull | FFail e => FFail e | FBlocked => FBlocked end.

(** The destructor of [server_]. *)
Definition destroy_server (o : option asio_server.server) : fres unit :=
  match o with
  | None => FOk tt
  | Some s =>
    match asio_server.destroy s with
    | asio_server.destroyed => FOk tt
    | asio_server.destroy_blocked => FBlocked
    | asio_server.destroy_dangling => FFail memory_error
    end
  end.

(** [http2_impl::listen_and_serve]: a new server is made, then the old one is destroyed. *)
Definition listen_and_serve (max_connections : Z) (resolved : Z * list asio_server.endpoint) (h : http2_impl)
    : fres (Z * http2_impl) :=
  match asio_server.new_server (num_threads_ h) (tls_handshake_timeout_ h) (read_timeout_ h) with
  | None => FThrow
  | Some s =>
    _ ← destroy_server (server_ h);
    match asio_server.listen_and_serve max_connections (backlog_ h) resolved s with
    | asio_server.SOk (ec, s) => FOk (ec, set_server s h)
    | asio_server.SFail e => FFail e
    end
  end.

(** [http2_impl::stop], with the exception that the closes [errs] throw. *)
Definition stop (errs : list Z) (h : http2_impl) : fres (option Z * http2_impl) :=
  match server_ h with
  | None => FNull
  | Some s => let '(e, s) := asio_server.stop errs s in FOk (e, set_server s h)
  end.

Definition join (h : http2_impl) : fres io_service_pool.join_result :=
  match server_ h with None => FNull | Some s => FOk (asio_server.join s) end.

Definition ports (h : http2_impl) : fres (option (list Z)) :=
  match server_ h with None => FNull | Some s => FOk (asio_server.ports s) end.

(** [http2]: a pointer to an implementation, null after a move. *)
Definition http2 := option http2_impl.

Definition http2_move (other : http2) : http2 * http2 := (other, None).
(** [~http2]: the implementation goes, and with it its server. *)
Definition http2_destroy (h : http2) : fres unit := match h with None => FOk tt | Some i => destroy_server (server_ i) end.
(** [operator=(http2 &&)]: the target and the source; nothing happens to itself.  What the
    target held is destroyed. *)
Definition http2_move_assign (same : bool) (this other : http2) : fres (http2 * http2) :=
  if same then FOk (this, other) else _ ← http2_destroy this; FOk (other, None).

(** Its other members run on the implementation, which they do not test. *)
Definition on_impl {A} (f : http2_impl -> fres A) (h : http2) : fres A := match h with None => FNull | Some i => f i end.

Definition http2_new : http2 := Some (new_http2_impl []).
Definition http2_listen_and_serve (max_connections : Z) (resolved : Z * list asio_server.endpoint) : http2 -> fres (Z * http2) :=
  on_impl (fun i => '(ec, i) ← listen_and_serve max_connections resolved i; FOk (ec, Some i)).
Definition http2_num_threads (n : nat) : http2 -> fres http2 := on_impl (fun i => FOk (Some (num_threads n i))).
Definition http2_backlog (b : Z) : http2 -> fres http2 := on_impl (fun i => FOk (Some (backlog b i))).
Definition http2_tls_handshake_timeout (t : Z) : http2 -> fres http2 := on_impl (fun i => FOk (Some (tls_handshake_timeout t i))).
Definition http2_read_timeout (t : Z) : http2 -> fres http2 := on_impl (fun i => FOk (Some (read_timeout t i))).
Definition http2_handle (pattern : str) (cb : option serve_mux.request_cb) : http2 -> fres (bool * http2) :=
  on_impl (fun i => let '(b, i) := handle pattern cb i in FOk (b, Some i)).
Definition http2_stop (errs : list Z) : http2 -> fres (option Z * http2) :=
  on_impl (fun i => '(e, i) ← stop errs i; FOk (e, Some i)).
Definition http2_join : http2 -> fres io_service_pool.join_result := on_impl join.
Definition http2_ports : http2 -> fres (option (list Z)) := on_impl ports.

(** The configuration calls of an application, in any order; its callbacks are known
    by a number. *)
Inductive config := cfg_threads (n : nat) | cfg_backlog (b : Z) | cfg_handshake (t : Z) | cfg_read (t : Z)
  | cfg_handle (pattern : str) (cb : option nat).

Definition configure (h : http2_impl) (c : config) : http2_impl :=
  match c with
  | cfg_threads n => num_threads n h
  | cfg_backlog b => backlog b h
  | cfg_handshake t => tls_handshake_timeout t h
  | cfg_read t => read_timeout t h
  | cfg_handle p cb => (handle p (serve_mux.cb_user <$> cb) h).2
  end.

(** What an application does: it makes the calls on its [http2] object, then it
    listens. *)
Definition http2_config (c : config) (h : http2) : fres http2 :=
  match c with
  | cfg_threads n => http2_num_threads n h
  | cfg_backlog b => http2_backlog b h
  | cfg_handshake t => http2_tls_handshake_timeout t h
  | cfg_read t => http2_read_timeout t h
  | cfg_handle p cb => '(_, h) ← http2_handle p (serve_mux.cb_user <$> cb) h; FOk h
  end.

Fixpoint http2_serve (cfgs : list config) (max_connections : Z) (resolved : Z * list asio_server.endpoint) (h : http2)
    : fres (Z * http2) :=
  match cfgs with
  | [] => http2_listen_and_serve max_connections resolved h
  | c :: cfgs => h ← http2_config c h; http2_serve cfgs max_connections resolved h
  end.

(** ** Client *)

(** [priority_spec]: the default constructor makes an invalid one. *)
Definition priority_spec_init (stream_id weight : Z) (exclusive : bool) : client.priority_spec := Some (stream_id, weight, exclusive).
Definition no_priority : client.priority_spec := None.
Definition priority_valid (p : client.priority_spec) : bool := match p with Some _ => true | None => false end.

(** The constructors without and with a connect timeout, over either transport: the
    session and its first operation. *)
Definition session (now : Z) (connect_timeout : option Z) : outcome client.session_impl unit :=
  client.start_resolve (default 60 connect_timeout) (client.new_session now).

(** The constructor of [session_tcp_impl] with a local endpoint: opening the socket,
    setting its option and binding it, each with the error (0 for none) that it throws.
    [inl] is the exception, with which nothing else happens. *)
Definition bind_local (opened option_set bound : Z) : option Z :=
  if negb (opened =? 0) then Some opened
  else if negb (option_set =? 0) then Some option_set
  else if negb (bound =? 0) then Some bound
  else None.

Definition session_local (opened option_set bound now : Z) (connect_timeout : option Z)
    : Z + outcome client.session_impl unit :=
  match bind_local opened option_set bound with
  | Some e => inl e
  | None => inr (session now connect_timeout)
  end.

(** The constructor of [session_tls_impl]: the server name that the handshake
    indicates, none for an address. *)
Definition tls_server_name (inet_pton : Z -> str -> Z) (host : str) : option str :=
  if negb (util.numeric_host inet_pton host) then Some host else None.

(** The three overloads of [submit]. *)
Definition submit_no_body (method uri : str) (h : common.header_map) (prio : client.priority_spec) : client.app_call :=
  client.call_submit method uri common.gen_empty h prio.
Definition submit_data (method uri data : str) (h : common.header_map) (prio : client.priority_spec) : client.app_call :=
  client.call_submit method uri (common.string_generator data) h prio.
Definition submit_generator (method uri : str) (cb : common.generator) (h : common.header_map) (prio : client.priority_spec) : client.app_call :=
  client.call_submit method uri cb h prio.

(** ** Functions of asio_http2.h *)

Definition check_path (path : str) : bool := util.check_path path.
Definition percent_decode (s : str) : str := util.percent_decode s.
Definition http_date (t : Z) : option str := timegm.http_date t.

(** [name] and [message] of the two categories; [strerror] is [nghttp2_strerror]. *)
Definition category_name (asio : bool) : str := if asio then lit "nghttp2_asio" else lit "nghttp2".
Definition category_message (strerror : Z -> str) (asio : bool) (ev : Z) : str :=
  if asio then common.asio_message ev else strerror ev.

(** ** The served application *)

Lemma http2_serve_configure cfgs max_connections resolved i :
  http2_serve cfgs max_connections resolved (Some i)
  = http2_listen_and_serve max_connections resolved (Some (fold_left configure cfgs i)).
Proof.
  revert i. induction cfgs as [|c cfgs IH]; intros i; [done|]. cbn [http2_serve fold_left].
  replace (http2_config c (Some i)) with (FOk (Some (configure i c))); [apply IH|].
  destruct c as [n|b|t|t|p cb]; try done. cbn. unfold handle. by destruct (serve_mux.handle _ _ _).
Qed.

Lemma configure_app_mux cfgs h : serve_mux.app_mux (mux_ h) -> serve_mux.app_mux (mux_ (fold_left configure cfgs h)).
Proof.
  revert h. induction cfgs as [|c cfgs IH]; intros h Hm; cbn [fold_left]; [done|]. apply IH.
  destruct c as [n|b|t|t|p [n|]]; try done. destruct Hm as (regs & Em & Hr). exists (regs ++ [(p, Some (serve_mux.cb_user n))]).
  split; [|apply Forall_app; split; [done|apply Forall_cons_2; [by exists n|apply Forall_nil_2]]].
  unfold configure, handle, serve_mux.registered. rewrite fold_left_app. fold (serve_mux.registered regs). rewrite <- Em.
  cbn [fmap option_fmap option_map fold_left fst snd]. by destruct (serve_mux.handle (mux_ h) p (Some (serve_mux.cb_user n))).
Qed.

Lemma configure_server cfgs h : server_ (fold_left configure cfgs h) = server_ h.
Proof.
  revert h. induction cfgs as [|c cfgs IH]; intros h; cbn [fold_left]; [done|]. rewrite IH.
  destruct c as [n|b|t|t|p cb]; try done. cbn. unfold handle. by destruct (serve_mux.handle _ _ _).
Qed.

(** From a successful [listen_and_serve] of a new object on, its server. *)
Lemma http2_serve_listens cfgs max_connections resolved h :
  http2_serve cfgs max_connections resolved http2_new = FOk (0, h) ->
  exists i s0 s, h = Some i /\ server_ i = Some s /\ mux_ i = mux_ (fold_left configure cfgs (new_http2_impl []))
    /\ asio_server.new_server (num_threads_ i) (tls_handshake_timeout_ i) (read_timeout_ i) = Some s0
    /\ asio_server.listen_and_serve max_connections (backlog_ i) resolved s0 = asio_server.SOk (0, s).
Proof.
  unfold http2_new. rewrite http2_serve_configure. pose proof (configure_server cfgs (new_http2_impl [])) as Hs.
  set (h0 := fold_left configure cfgs (new_http2_impl [])) in *. cbn [http2_listen_and_serve on_impl].
  unfold listen_and_serve. rewrite Hs. destruct (asio_server.new_server _ _ _) as [s0|] eqn:E0; [|done]. cbn [server_ new_http2_impl destroy_server mbind fres_bind].
  destruct (asio_server.listen_and_serve _ _ _ s0) as [[ec s]|] eqn:E1; [|done]. cbn [mbind fres_bind]. intros [= -> <-].
  by exists (set_server s h0), s0, s.
Qed.

(** A server that was started and not stopped: its object can neither be destroyed nor
    started again, whatever has happened, as long as the thread of one of its services
    runs. *)
Lemma serving_not_destroyed {Lib : Nghttp2} {Laws : Nghttp2Laws} {Ap : server.App} cfgs max_connections resolved i s1 s is_tls evs k :
  http2_serve cfgs max_connections resolved http2_new = FOk (0, Some i) ->
  server_ i = Some s1 -> asio_server.run_server (mux_ i) is_tls evs s1 = asio_server.SOk s ->
  asio_server.strace_ok evs -> Forall asio_server.not_stop evs -> (k < num_threads_ i)%nat -> k ∉ asio_server.dead s ->
  let h := Some (set_server s i) in
  http2_destroy h <> FOk tt /\ (forall max_connections' resolved' r, http2_listen_and_serve max_connections' resolved' h <> FOk r).
Proof.
  intros (i' & s0 & s1' & [= <-] & Es & Em & E0 & E1)%http2_serve_listens Es1 Hrun Hevs Hns Hk Hd h.
  assert (s1' = s1) as -> by congruence.
  assert (serve_mux.app_mux (mux_ i)) as Hmux by (rewrite Em; apply configure_app_mux; by exists []).
  pose proof (asio_server.running_not_destroyed (mux_ i) Hmux _ _ _ _ _ _ is_tls evs s0 s1 s k E0 E1 Hevs Hns Hrun Hk Hd) as Hnd.
  assert (forall A (g : unit -> fres A) r, destroy_server (Some s) ≫= g <> FOk r) as Hds by (intros A g r; cbn; by destruct (asio_server.destroy s)).
  split; [cbn; by destruct (asio_server.destroy s)|]. intros m' res' r. cbn [http2_listen_and_serve on_impl h]. unfold listen_and_serve.
  cbn [server_ set_server num_threads_ tls_handshake_timeout_ read_timeout_]. rewrite E0.
  specialize (Hds _ (fun _ => match asio_server.listen_and_serve m' (backlog_ (set_server s i)) res' s0 with
    | asio_server.SOk (ec, s') => FOk (ec, set_server s' (set_server s i)) | asio_server.SFail e => FFail e end)).
  destruct (destroy_server (Some s) ≫= _) as [x| | | |]; try done. by destruct (Hds x).
Qed.


Definition demo_config : list config := [cfg_handle (lit "/") (Some 7%nat); cfg_threads 2; cfg_read 30].


End facade.
