(* ===== verification/Tls.v ===== *)
(** * Negotiating HTTP/2: lib/asio_server_tls_context.cc, asio_client_tls_context.cc
    and tls.h

    The two functions that configure an OpenSSL context: the options, modes and
    ciphers they set, the callbacks they install and the protocol lists they
    give, up to the decision of a connection and of a session.  The constants of
    OpenSSL are arguments. *)

From S2P Require Import Prelude Monad Util Common Nghttp2 ServerHandler ServerConnection.

Module tls.
Import nghttp2.

(** Constants of OpenSSL. *)
Definition SSL_TLSEXT_ERR_OK : Z := 0.
Definition SSL_TLSEXT_ERR_NOACK : Z := 3.

(** The callback of the server for ALPN: its result and the selection, as an offset
    and a length in the list of the client. *)
Definition alpn_select_proto_cb (inb : str) : Z * option (nat * nat) :=
  match util.select_h2 inb with
  | None => (SSL_TLSEXT_ERR_NOACK, None)
  | Some r => (SSL_TLSEXT_ERR_OK, Some r)
  end.

(** The callback of the client for NPN, on the list of the server. *)
Definition client_select_next_proto_cb (inb : str) : Z * option (nat * nat) :=
  match util.select_h2 inb with
  | None => (SSL_TLSEXT_ERR_NOACK, None)
  | Some r => (SSL_TLSEXT_ERR_OK, Some r)
  end.

(** The list that the server advertises for NPN, and the list that the client sends
    for ALPN. *)
Definition get_alpn_token : str := util.get_default_alpn.
Definition client_alpn_protos : str := util.get_default_alpn.

(** ** The context *)

(** Constants of OpenSSL that the code combines or passes on, and the result of
    making a key for a curve. *)
Class OpenSSL := {
  SSL_OP_ALL : Z;
  SSL_OP_DONT_INSERT_EMPTY_FRAGMENTS : Z;
  SSL_OP_NO_SSLv2 : Z;
  SSL_OP_NO_SSLv3 : Z;
  SSL_OP_NO_COMPRESSION : Z;
  SSL_OP_NO_SESSION_RESUMPTION_ON_RENEGOTIATION : Z;
  SSL_OP_SINGLE_ECDH_USE : Z;
  SSL_OP_NO_TICKET : Z;
  SSL_OP_CIPHER_SERVER_PREFERENCE : Z;
  SSL_MODE_AUTO_RETRY : Z;
  SSL_MODE_RELEASE_BUFFERS : Z;
  NID_X9_62_prime256v1 : Z;
  EC_KEY_new_by_curve_name : Z -> bool;
}.

(** The parts of an [SSL_CTX] that the code sets, a curve for a key made for it;
    [keys] counts the keys that were made and not freed. *)
Record ssl_ctx := mk_ctx {
  options : Z;
  mode : Z;
  cipher_list : str;
  tmp_ecdh : option Z;
  keys : nat;
  next_protos_advertised_cb : option (Z * str);
  alpn_select_cb : option (str -> Z * option (nat * nat));
  next_proto_select_cb : option (str -> Z * option (nat * nat));
  alpn_protos : str;
}.

(** [SSL_CTX_set_options] and [SSL_CTX_set_mode] add bits. *)
Definition set_options (x : Z) (c : ssl_ctx) : ssl_ctx :=
  mk_ctx (Z.lor (options c) x) (mode c) (cipher_list c) (tmp_ecdh c) (keys c) (next_protos_advertised_cb c)
    (alpn_select_cb c) (next_proto_select_cb c) (alpn_protos c).
Definition set_mode (x : Z) (c : ssl_ctx) : ssl_ctx :=
  mk_ctx (options c) (Z.lor (mode c) x) (cipher_list c) (tmp_ecdh c) (keys c) (next_protos_advertised_cb c)
    (alpn_select_cb c) (next_proto_select_cb c) (alpn_protos c).
Definition set_cipher_list (x : str) (c : ssl_ctx) : ssl_ctx :=
  mk_ctx (options c) (mode c) x (tmp_ecdh c) (keys c) (next_protos_advertised_cb c)
    (alpn_select_cb c) (next_proto_select_cb c) (alpn_protos c).
Definition set_tmp_ecdh (x : Z) (c : ssl_ctx) : ssl_ctx :=
  mk_ctx (options c) (mode c) (cipher_list c) (Some x) (keys c) (next_protos_advertised_cb c)
    (alpn_select_cb c) (next_proto_select_cb c) (alpn_protos c).
Definition set_keys (n : nat) (c : ssl_ctx) : ssl_ctx :=
  mk_ctx (options c) (mode c) (cipher_list c) (tmp_ecdh c) n (next_protos_advertised_cb c)
    (alpn_select_cb c) (next_proto_select_cb c) (alpn_protos c).
Definition set_next_protos_advertised_cb (x : Z * str) (c : ssl_ctx) : ssl_ctx :=
  mk_ctx (options c) (mode c) (cipher_list c) (tmp_ecdh c) (keys c) (Some x)
    (alpn_select_cb c) (next_proto_select_cb c) (alpn_protos c).
Definition set_alpn_select_cb (x : str -> Z * option (nat * nat)) (c : ssl_ctx) : ssl_ctx :=
  mk_ctx (options c) (mode c) (cipher_list c) (tmp_ecdh c) (keys c) (next_protos_advertised_cb c)
    (Some x) (next_proto_select_cb c) (alpn_protos c).
Definition set_next_proto_select_cb (x : str -> Z * option (nat * nat)) (c : ssl_ctx) : ssl_ctx :=
  mk_ctx (options c) (mode c) (cipher_list c) (tmp_ecdh c) (keys c) (next_protos_advertised_cb c)
    (alpn_select_cb c) (Some x) (alpn_protos c).
Definition set_alpn_protos (x : str) (c : ssl_ctx) : ssl_ctx :=
  mk_ctx (options c) (mode c) (cipher_list c) (tmp_ecdh c) (keys c) (next_protos_advertised_cb c)
    (alpn_select_cb c) (next_proto_select_cb c) x.

(** tls.h *)
Definition DEFAULT_CIPHER_LIST : str :=
  lit "ECDHE-ECDSA-AES128-GCM-SHA256:ECDHE-RSA-AES128-GCM-SHA256:ECDHE-ECDSA-"
  ++ lit "AES256-GCM-SHA384:ECDHE-RSA-AES256-GCM-SHA384:ECDHE-ECDSA-CHACHA20-"
  ++ lit "POLY1305:ECDHE-RSA-CHACHA20-POLY1305:DHE-RSA-AES128-GCM-SHA256:DHE-RSA-"
  ++ lit "AES256-GCM-SHA384".

Section configure.
Context `{OpenSSL}.

Definition ssl_opts : Z :=
  Z.lor (Z.lor (Z.lor (Z.lor (Z.lor (Z.lor (Z.lor
    (Z.land SSL_OP_ALL (Z.lnot SSL_OP_DONT_INSERT_EMPTY_FRAGMENTS))
    SSL_OP_NO_SSLv2) SSL_OP_NO_SSLv3) SSL_OP_NO_COMPRESSION)
    SSL_OP_NO_SESSION_RESUMPTION_ON_RENEGOTIATION)
    SSL_OP_SINGLE_ECDH_USE) SSL_OP_NO_TICKET)
    SSL_OP_CIPHER_SERVER_PREFERENCE.

(** With NPN, ALPN and elliptic curves. *)
Definition configure_tls_context_easy (ctx : ssl_ctx) : common.error_code * ssl_ctx :=
  let ec := common.ec_ok in
  let ctx := set_options ssl_opts ctx in
  let ctx := set_mode SSL_MODE_AUTO_RETRY ctx in
  let ctx := set_mode SSL_MODE_RELEASE_BUFFERS ctx in
  let ctx := set_cipher_list DEFAULT_CIPHER_LIST ctx in
  let ctx :=
    if EC_KEY_new_by_curve_name NID_X9_62_prime256v1 then
      let ctx := set_keys (S (keys ctx)) ctx in
      let ctx := set_tmp_ecdh NID_X9_62_prime256v1 ctx in
      set_keys (keys ctx - 1) ctx
    else ctx in
  let ctx := set_next_protos_advertised_cb (SSL_TLSEXT_ERR_OK, get_alpn_token) ctx in
  let ctx := set_alpn_select_cb alpn_select_proto_cb ctx in
  (ec, ctx).

Definition configure_tls_context (ctx : ssl_ctx) : common.error_code * ssl_ctx :=
  let ec := common.ec_ok in
  let ctx := set_next_proto_select_cb client_select_next_proto_cb ctx in
  let ctx := set_alpn_protos client_alpn_protos ctx in
  (ec, ctx).

End configure.

(** ** Properties *)

(** What [SSL_get0_alpn_selected] reports on both sides: the bytes that the callback
    selected, and nothing when it did not acknowledge the extension. *)
Definition selected (inb : str) (r : Z * option (nat * nat)) : option str :=
  if r.1 =? SSL_TLSEXT_ERR_OK then util.slice inb <$> r.2 else None.

(** The decision of the server and of the client. *)
Definition offers_h2 (protos : list str) : bool := existsb (fun k => bool_decide (k ∈ protos)) util.h2_protos.

Lemma selected_spec protos : Forall util.alpn_name protos ->
  selected (util.alpn_wire protos) (alpn_select_proto_cb (util.alpn_wire protos)) = head (filter (fun k => k ∈ protos) util.h2_protos).
Proof.
  intros Hp. rewrite <- (util.select_h2_spec _ Hp). unfold selected, alpn_select_proto_cb. by destruct (util.select_h2 _).
Qed.

Lemma negotiated_spec protos : Forall util.alpn_name protos ->
  common.tls_h2_negotiated None (selected (util.alpn_wire protos) (alpn_select_proto_cb (util.alpn_wire protos))) = offers_h2 protos.
Proof.
  intros Hp. rewrite selected_spec by done. unfold offers_h2, util.h2_protos. rewrite !filter_cons, filter_nil. cbn [existsb].
  destruct (decide (util.NGHTTP2_H2 ∈ protos)); [rewrite bool_decide_true by done; by vm_compute|rewrite bool_decide_false by done].
  destruct (decide (util.NGHTTP2_H2_16 ∈ protos)); [rewrite bool_decide_true by done; by vm_compute|rewrite bool_decide_false by done].
  destruct (decide (util.NGHTTP2_H2_14 ∈ protos)); [rewrite bool_decide_true by done; by vm_compute|by rewrite bool_decide_false by done].
Qed.

(** Whatever bytes a peer sends as its protocol list, well-formed or not, the
    callbacks of the server and of the client select a range inside the list, and
    acknowledge exactly the selections that the check after the handshake accepts. *)
Lemma alpn_selection_safe (inb : str) :
  alpn_select_proto_cb inb = client_select_next_proto_cb inb
  /\ (forall r, (alpn_select_proto_cb inb).2 = Some r -> (r.1 + r.2 <= length inb)%nat)
  /\ common.tls_h2_negotiated None (selected inb (alpn_select_proto_cb inb))
     = ((alpn_select_proto_cb inb).1 =? SSL_TLSEXT_ERR_OK).
Proof.
  split; [done|]. unfold alpn_select_proto_cb, selected. destruct (util.select_h2 inb) as [r|] eqn:E; [|by split].
  destruct (util.select_h2_in_bounds inb r E) as [Hb Hs]. split; [by intros r' [= <-]|]. cbn. exact Hs.
Qed.

(** C31. A TLS connection of the server starts exactly when the client offers HTTP/2.
    For every list that a client can send, [alpn_select_proto_cb] selects the most
    preferred of [h2], [h2-16] and [h2-14] that is in it, in whatever order they
    come; when the handshake is complete, the connection calls [start] if there was
    one and stops otherwise.  The list of this library's own client is accepted with
    [h2], and so is the server's list by the client's callback for NPN.  And whatever
    bytes a peer sends as its list, well-formed or not, the callbacks select a range
    inside it, and acknowledge exactly the selections that the check after the
    handshake accepts. *)
Theorem alpn_decides `{Nghttp2} (protos : list str) (rt rv1 rv2 now : Z) (ep : server.tcp_endpoint) (t : Z) (date : str) (c : connection.connection)
    (Hp : Forall util.alpn_name protos) :
  let inb := util.alpn_wire protos in
  let alpn := selected inb (alpn_select_proto_cb inb) in
  alpn = head (filter (fun k => k ∈ protos) util.h2_protos)
  /\ connection.handshake_handler rt false None alpn rv1 rv2 now ep t date c
     = (if offers_h2 protos then connection.start_connection rt rv1 rv2 now ep t date c else connection.COk (connection.stop c))
  /\ selected client_alpn_protos (alpn_select_proto_cb client_alpn_protos) = Some (lit "h2")
  /\ selected get_alpn_token (client_select_next_proto_cb get_alpn_token) = Some (lit "h2")
  /\ forall inb,
       alpn_select_proto_cb inb = client_select_next_proto_cb inb
       /\ (forall r, (alpn_select_proto_cb inb).2 = Some r -> (r.1 + r.2 <= length inb)%nat)
       /\ common.tls_h2_negotiated None (selected inb (alpn_select_proto_cb inb))
          = ((alpn_select_proto_cb inb).1 =? SSL_TLSEXT_ERR_OK).
Proof.
  intros inb alpn. split; [by apply selected_spec|]. split; [|split; [by vm_compute|split; [by vm_compute|apply alpn_selection_safe]]].
  unfold connection.handshake_handler, alpn, inb. rewrite negotiated_spec by done. by destruct (offers_h2 protos).
Qed.

Lemma alpn_decides_witness :
  Forall util.alpn_name [lit "http/1.1"; lit "h2-14"]
  /\ @connection.handshake_handler counting_lib 60 false None (Some (lit "h2-14")) 0 0 1 server.no_endpoint 0 [] connection.new_connection
     = @connection.start_connection counting_lib 60 0 0 1 server.no_endpoint 0 [] connection.new_connection.
Proof.
  assert (Forall util.alpn_name [lit "http/1.1"; lit "h2-14"]) as H by (repeat constructor; unfold util.alpn_name; vm_compute; lia).
  split; [exact H|]. destruct (@alpn_decides counting_lib _ 60 0 0 1 server.no_endpoint 0 [] connection.new_connection H) as (E1 & E2 & _).
  rewrite E1 in E2. exact E2.
Defined.

(** What two contexts agree on: by ALPN, and by NPN, where the client chooses from
    the list of the server. *)
Definition alpn_agreed (client server : ssl_ctx) : option str :=
  cb ← alpn_select_cb server; selected (alpn_protos client) (cb (alpn_protos client)).
Definition npn_agreed (client server : ssl_ctx) : option str :=
  cb ← next_proto_select_cb client;
  '(rv, token) ← next_protos_advertised_cb server;
  if rv =? SSL_TLSEXT_ERR_OK then selected token (cb token) else None.

(** The names of a cipher list. *)
Fixpoint cipher_names (s : str) : list str :=
  match s with
  | [] => [[]]
  | c :: s =>
    if c =c ":"%char then [] :: cipher_names s
    else match cipher_names s with [] => [[c]] | w :: ws => (c :: w) :: ws end
  end.

(** Forward secrecy and authenticated encryption, which HTTP/2 asks for. *)
Definition suite_ok (name : str) : bool :=
  (util.starts_with name (lit "ECDHE-") || util.starts_with name (lit "DHE-"))
  && (util.has_substr (lit "-GCM-") name || util.has_substr (lit "-CHACHA20-POLY1305") name).

Lemma all_ciphers_ok : forallb suite_ok (cipher_names DEFAULT_CIPHER_LIST) = true /\ length (cipher_names DEFAULT_CIPHER_LIST) = 8%nat.
Proof. vm_compute. done. Qed.

(** A bit that is or-ed in is there. *)
Lemma lor_has x y : (forall n, Z.testbit y n = true -> Z.testbit x n = true) -> Z.land x y = y.
Proof.
  intros Hb. apply Z.bits_inj'. intros n _. rewrite Z.land_spec. specialize (Hb n).
  destruct (Z.testbit y n); [by rewrite Hb|apply andb_false_r].
Qed.

Ltac bits := intros; rewrite ?Z.lor_spec, ?Z.land_spec in *; rewrite ?orb_true_iff, ?andb_true_iff in *; tauto.


End tls.
